(** * 1730sh: a shallow embedding of the shell and its job parser

    The development follows the two translation units of the repository:
    [Input.cpp] (the [Input] class and its string helpers) and [1730sh.cpp]
    (the read-eval loop, the redirection resolver and the built-ins).

    - [std::string] is a list of characters ([str]); [size_t] values are
      integers with the wrap-around at [2^64] written out ([npos], [size_t_add]).
    - [std::vector<T>] is a list; [v.back()] and [v[i]] are list alterations.
    - Functions of [1730sh.cpp] that touch the operating system or the globals
      run in the state monad [M] over a [World]; every system call and every
      write through [cout] is appended to the world's [trace]. *)

From Stdlib Require Import ZArith Lia Ascii String DecimalString.
From stdpp Require Import base tactics option list gmap strings.

Local Open Scope Z_scope.

(** ** Characters and strings *)

Abbreviation str := (list ascii).

(** A string literal of the source. *)
Definition lit (s : string) : str := list_ascii_of_string s.

Definition dquote : ascii := "034"%char.
Definition backslash : ascii := "\"%char.
Definition space : ascii := " "%char.
Definition tab : ascii := "009"%char.
Definition newline : ascii := "010"%char.
Definition vtab : ascii := "011"%char.
Definition formfeed : ascii := "012"%char.
Definition cr : ascii := "013"%char.

(** [operator==] on strings and on characters. *)
Definition str_eqb (a b : str) : bool := bool_decide (a = b).
Definition chr_eqb (a b : ascii) : bool := bool_decide (a = b).

Infix "==s" := str_eqb (at level 70, no associativity).
Infix "==c" := chr_eqb (at level 70, no associativity).

(** [std::string::npos], the largest [size_t]. *)
Definition npos : Z := 2 ^ 64 - 1.

(** Addition of two [size_t] values. *)
Definition size_t_add (a b : Z) : Z := (a + b) mod 2 ^ 64.

(** [s.size()], [s.length()]. *)
Definition slen (s : str) : Z := Z.of_nat (length s).

(** Index of the first character of [s] that is not in [chars]. *)
Fixpoint first_not_of (chars s : str) : option nat :=
  match s with
  | [] => None
  | c :: s' =>
      if bool_decide (c ∈ chars) then S <$> first_not_of chars s' else Some 0%nat
  end.

(** Index of the last character of [s] that is not in [chars]. *)
Fixpoint last_not_of (chars s : str) : option nat :=
  match s with
  | [] => None
  | c :: s' =>
      match last_not_of chars s' with
      | Some i => Some (S i)
      | None => if bool_decide (c ∈ chars) then None else Some 0%nat
      end
  end.

Definition pos_or_npos (o : option nat) : Z :=
  match o with Some i => Z.of_nat i | None => npos end.

(** [s.find_first_not_of(chars)] and [s.find_last_not_of(chars)]. *)
Definition find_first_not_of (s chars : str) : Z := pos_or_npos (first_not_of chars s).
Definition find_last_not_of (s chars : str) : Z := pos_or_npos (last_not_of chars s).

(** [s.erase(pos, n)]: removes [min(n, size - pos)] characters from [pos].
    The library call raises [std::out_of_range] when [pos > size]; lemma
    [trim_erase_in_range] shows that [trim] never calls it that way. *)
Definition erase (s : str) (pos n : Z) : str :=
  let cnt := Z.min n (slen s - pos) in
  take (Z.to_nat pos) s ++ drop (Z.to_nat (pos + cnt)) s.

(** [s.substr(pos)]. *)
Definition substr (s : str) (pos : Z) : str := drop (Z.to_nat pos) s.

(** [isspace] in the C locale: what [operator>>] skips. *)
Definition isspace (c : ascii) : bool :=
  bool_decide (c ∈ [space; tab; newline; vtab; formfeed; cr]).

(** The words a [stringstream] yields under repeated [ss >> arg]; [cur] is the
    word being read. *)
Fixpoint extract_words (cur s : str) : list str :=
  match s with
  | [] => match cur with [] => [] | _ => [cur] end
  | c :: s' =>
      if isspace c
      then match cur with [] => extract_words [] s' | _ => cur :: extract_words [] s' end
      else extract_words (cur ++ [c]) s'
  end.

Definition stream_words (s : str) : list str := extract_words [] s.

(** ** Input.cpp *)

Module InputCpp.

(** The characters [trim] removes: [const char * ws = " \t"]. *)
Definition ws : str := [space; tab].

(** [string trim(string input)]. *)
Definition trim (input : str) : str :=
  let s := input in
  let s := erase s (size_t_add (find_last_not_of s ws) 1) npos in (* trims end *)
  let s := erase s 0 (find_first_not_of s ws) in                  (* trims beginning *)
  s.

(** [string sanitize(string input, string charsToRemove)]. *)
Definition sanitize (input charsToRemove : str) : str :=
  filter (λ c, c ∉ charsToRemove) input.

(** The test both quote scanners apply at index [i]: [prev] is [input[i-1]],
    absent when [i == 0]. *)
Definition unescaped_quote_at (prev : option ascii) (c : ascii) : bool :=
  match prev with
  | None => c ==c dquote
  | Some p => (c ==c dquote) && negb (p ==c backslash)
  end.

Fixpoint hasQuotes_from (prev : option ascii) (input : str) : bool :=
  match input with
  | [] => false
  | c :: rest =>
      if unescaped_quote_at prev c then true else hasQuotes_from (Some c) rest
  end.

(** [bool hasQuotes(string input)]. *)
Definition hasQuotes (input : str) : bool := hasQuotes_from None input.

Fixpoint pos_of_first_quote_from (prev : option ascii) (i : Z) (input : str) : Z :=
  match input with
  | [] => 0
  | c :: rest =>
      if unescaped_quote_at prev c then i
      else pos_of_first_quote_from (Some c) (i + 1) rest
  end.

(** [unsigned int pos_of_first_quote(string input)]. *)
Definition pos_of_first_quote (input : str) : Z := pos_of_first_quote_from None 0 input.

(** The inner loop of [processArgv] that drops the quotes of [arg], keeping
    those that follow a backslash. *)
Fixpoint remove_quotes (prev : option ascii) (arg : str) : str :=
  match arg with
  | [] => []
  | c :: rest =>
      (if c ==c dquote
       then match prev with
            | Some p => if p ==c backslash then [c] else []
            | None => []
            end
       else [c]) ++ remove_quotes (Some c) rest
  end.

(** The locals of [processArgv] that live across iterations. *)
Record ArgvState := {
  quote_count : Z;
  arg : str;
  processed_argv : list str;
}.

(** The tail of the loop body of [processArgv], reached when an argument is
    complete: trim, drop quotes, drop backslashes, push. *)
Definition finish_arg (qc : Z) (a : str) (done : list str) : ArgvState :=
  let a := trim a in
  let proc_arg := remove_quotes None a in
  let proc_arg := sanitize proc_arg [backslash] in
  {| quote_count := qc; arg := a; processed_argv := done ++ [proc_arg] |}.

(** One iteration of the loop of [processArgv] over [argv[i]]. *)
Definition processArgv_step (st : ArgvState) (argv_i : str) : ArgvState :=
  if hasQuotes argv_i then
    let a := if quote_count st =? 0 then [] else arg st in
    let qc := quote_count st + 1 in
    let a := a ++ [space] ++ argv_i in
    let q_pos := pos_of_first_quote argv_i in
    let qc :=
      if (slen argv_i >? 1) && negb (q_pos =? slen argv_i - 1)
         && hasQuotes (substr argv_i (q_pos + 1))
      then qc + 1 else qc in
    if qc =? 2 then finish_arg 0 a (processed_argv st)
    else {| quote_count := qc; arg := a; processed_argv := processed_argv st |}
  else
    if Z.rem (quote_count st) 2 =? 0 then finish_arg (quote_count st) argv_i (processed_argv st)
    else {| quote_count := quote_count st;
            arg := arg st ++ [space] ++ argv_i;
            processed_argv := processed_argv st |}.

(** [vector<string> processArgv(vector<string> argv)]. *)
Definition processArgv (argv : list str) : list str :=
  processed_argv
    (fold_left processArgv_step argv
       {| quote_count := 0; arg := []; processed_argv := [] |}).

(** [struct Process] with its default member initialisers. *)
Record Process := {
  PID : Z;
  PGID : Z;
  stopped : bool;
  completed : bool;
  hasPipe : bool;
  args : list str;
}.

Definition new_Process : Process :=
  {| PID := -1; PGID := -1; stopped := false; completed := false;
     hasPipe := false; args := [] |}.

Definition push_arg (a : str) (p : Process) : Process :=
  {| PID := PID p; PGID := PGID p; stopped := stopped p; completed := completed p;
     hasPipe := hasPipe p; args := args p ++ [a] |}.

Definition set_hasPipe (p : Process) : Process :=
  {| PID := PID p; PGID := PGID p; stopped := stopped p; completed := completed p;
     hasPipe := true; args := args p |}.

Definition set_PID (pid : Z) (p : Process) : Process :=
  {| PID := pid; PGID := PGID p; stopped := stopped p; completed := completed p;
     hasPipe := hasPipe p; args := args p |}.

Definition set_PGID (pgid : Z) (p : Process) : Process :=
  {| PID := PID p; PGID := pgid; stopped := stopped p; completed := completed p;
     hasPipe := hasPipe p; args := args p |}.

(** [v.back()] updated in place. *)
Definition alter_back {A} (f : A → A) (v : list A) : list A :=
  alter f (length v - 1)%nat v.

(** [class Input]. *)
Record Input := {
  JID : Z;
  foreground : bool;
  status : str;
  shellInput : str;
  processes : list Process;
  fd_STDIN : str;
  fd_STDOUT : str;
  type_STDOUT : str;
  fd_STDERR : str;
  type_STDERR : str;
}.

(** [Input::setShellInput]: the same two [erase] calls as [trim]. *)
Definition setShellInput (input : str) : str :=
  let input := erase input (size_t_add (find_last_not_of input ws) 1) npos in
  let input := erase input 0 (find_first_not_of input ws) in
  input.

(** [Input::set_foreground]: reads [shellInput[shellInput.size()-1]]; on an
    empty string the index is [npos], outside the string ([None]). *)
Definition set_foreground (shellInput : str) : option bool :=
  match last shellInput with
  | Some c => Some (if c ==c "&"%char then false else true)
  | None => None
  end.

(** The scan shared by [setSTDIN], [setSTDOUT] and [setSTDERR]: the first
    index [i > 0] with [processed_argv[i-1]] one of [ops]; yields
    [(processed_argv[i], processed_argv[i-1])]. *)
Fixpoint first_operand (ops : list str) (prev : option str) (rest : list str)
  : option (str * str) :=
  match rest with
  | [] => None
  | cur :: rest' =>
      match prev with
      | Some p => if bool_decide (p ∈ ops) then Some (cur, p)
                  else first_operand ops (Some cur) rest'
      | None => first_operand ops (Some cur) rest'
      end
  end.

Definition redirect_tokens (shellInput : str) : list str :=
  processArgv (stream_words shellInput).

(** [Input::setSTDIN]. *)
Definition setSTDIN (shellInput : str) : str :=
  match first_operand [lit "<"] None (redirect_tokens shellInput) with
  | Some (fd, _) => fd
  | None => lit "STDIN_FILENO"
  end.

(** [Input::setSTDOUT]: the target and its type. *)
Definition setSTDOUT (shellInput : str) : str * str :=
  match first_operand [lit ">>"; lit ">"] None (redirect_tokens shellInput) with
  | Some (fd, type) => (fd, type)
  | None => (lit "STDOUT_FILENO", [])
  end.

(** [Input::setSTDERR]: the target and its type. *)
Definition setSTDERR (shellInput : str) : str * str :=
  match first_operand [lit "e>"; lit "e>>"] None (redirect_tokens shellInput) with
  | Some (fd, type) => (fd, type)
  | None => (lit "STDERR_FILENO", [])
  end.

(** The five redirection operators. *)
Definition redirect_ops : list str :=
  [lit "<"; lit ">"; lit ">>"; lit "e>"; lit "e>>"].

(** The guard of the last branch of [inputToProcesses]: neither
    [processed_argv[i]] nor [processed_argv[i-1]] is a redirection operator. *)
Definition no_redirect_here (prev cur : str) : bool :=
  negb (cur ==s lit "<") && negb (prev ==s lit "<") &&
  negb (cur ==s lit ">") && negb (prev ==s lit ">") &&
  negb (cur ==s lit ">>") && negb (prev ==s lit ">>") &&
  negb (cur ==s lit "e>") && negb (prev ==s lit "e>") &&
  negb (cur ==s lit "e>>") && negb (prev ==s lit "e>>").

(** One iteration of the loop of [inputToProcesses]: [prev] is
    [processed_argv[i-1]] (absent when [i == 0]), [cur] is [processed_argv[i]]. *)
Definition inputToProcesses_step (p_vector : list Process) (prev : option str) (cur : str)
  : list Process :=
  match prev with
  | None =>
      alter (push_arg cur) 0%nat (p_vector ++ [new_Process])
  | Some prev =>
      if prev ==s lit "|" then
        alter_back (push_arg cur) (p_vector ++ [new_Process])
      else if no_redirect_here prev cur then
        if cur ==s lit "|" then alter_back set_hasPipe p_vector
        else if negb (cur ==s lit "&") then alter_back (push_arg cur) p_vector
        else p_vector
      else p_vector
  end.

Fixpoint inputToProcesses_loop (p_vector : list Process) (prev : option str)
    (rest : list str) : list Process :=
  match rest with
  | [] => p_vector
  | cur :: rest' =>
      inputToProcesses_loop (inputToProcesses_step p_vector prev cur) (Some cur) rest'
  end.

(** [Input::inputToProcesses]. *)
Definition inputToProcesses (shellInput : str) : list Process :=
  if slen shellInput =? 0 then []
  else inputToProcesses_loop [] None (processArgv (stream_words shellInput)).

(** [Input::Input(string input)]; [None] when [set_foreground] reads outside
    the string. *)
Definition Input_new (input : str) : option Input :=
  let shellInput := setShellInput input in
  fg ← set_foreground shellInput;
  Some {| JID := -1;
          foreground := fg;
          status := lit "Running";
          shellInput := shellInput;
          processes := inputToProcesses shellInput;
          fd_STDIN := setSTDIN shellInput;
          fd_STDOUT := fst (setSTDOUT shellInput);
          type_STDOUT := snd (setSTDOUT shellInput);
          fd_STDERR := fst (setSTDERR shellInput);
          type_STDERR := snd (setSTDERR shellInput) |}.

Definition with_processes (ps : list Process) (job : Input) : Input :=
  {| JID := JID job; foreground := foreground job; status := status job;
     shellInput := shellInput job; processes := ps;
     fd_STDIN := fd_STDIN job; fd_STDOUT := fd_STDOUT job;
     type_STDOUT := type_STDOUT job; fd_STDERR := fd_STDERR job;
     type_STDERR := type_STDERR job |}.

(** [Input::setJID]. *)
Definition setJID (pgid : Z) (job : Input) : Input :=
  {| JID := pgid; foreground := foreground job; status := status job;
     shellInput := shellInput job; processes := set_PGID pgid <$> processes job;
     fd_STDIN := fd_STDIN job; fd_STDOUT := fd_STDOUT job;
     type_STDOUT := type_STDOUT job; fd_STDERR := fd_STDERR job;
     type_STDERR := type_STDERR job |}.

(** [Input::getNumPipes]. *)
Definition getNumPipes (job : Input) : Z :=
  fold_left (λ pipes p, if hasPipe p then pipes + 1 else pipes) (processes job) 0.

(** [Input::getNumProcesses]. *)
Definition getNumProcesses (job : Input) : Z := Z.of_nat (length (processes job)).

Fixpoint isStopped_loop (ps : list Process) : bool :=
  match ps with
  | [] => true
  | p :: rest =>
      if negb (stopped p) && negb (completed p) then false else isStopped_loop rest
  end.

(** [Input::isStopped]. *)
Definition isStopped (job : Input) : bool := isStopped_loop (processes job).

Fixpoint isCompleted_loop (ps : list Process) : bool :=
  match ps with
  | [] => true
  | p :: rest => if negb (completed p) then false else isCompleted_loop rest
  end.

(** [Input::isCompleted]. *)
Definition isCompleted (job : Input) : bool := isCompleted_loop (processes job).

End InputCpp.

(** ** 1730sh.cpp: the world the shell runs in *)

Module ShellCpp.
Import InputCpp.

(** Constants of [<unistd.h>], [<cstdlib>], [<climits>] and (with their Linux
    values) [<fcntl.h>]. *)
Definition STDIN_FILENO : Z := 0.
Definition STDOUT_FILENO : Z := 1.
Definition STDERR_FILENO : Z := 2.
Definition EXIT_SUCCESS : Z := 0.
Definition EXIT_FAILURE : Z := 1.
Definition INT_MAX : Z := 2 ^ 31 - 1.
Definition O_RDONLY : Z := 0.
Definition O_WRONLY : Z := 1.
Definition O_CREAT : Z := 64.
Definition O_TRUNC : Z := 512.
Definition O_APPEND : Z := 1024.
(** The octal literals [0644] and [0666]. *)
Definition mode_0644 : Z := 6 * 64 + 4 * 8 + 4.
Definition mode_0666 : Z := 6 * 64 + 6 * 8 + 6.

(** What a file descriptor refers to. *)
Inductive OFD :=
  | Terminal
  | OpenFile (path : str) (flags : Z)
  | PipeRead (id : nat)
  | PipeWrite (id : nat).

(** What a forked child goes on to do: the descriptors it passes to
    [do_redirects] and the argument vector it passes to [nice_exec]. *)
Record Child := {
  child_stage : nat;
  child_stdin : Z;
  child_stdout : Z;
  child_stderr : Z;
  child_argv : list str;
}.

(** System calls and writes, in the order the shell process issues them. *)
Inductive Event :=
  | EOpen (path : str) (flags : Z) (mode : option Z) (ret : Z)
  | EDup2 (oldfd newfd ret : Z)
  | EClose (fd ret : Z)
  | EPipe (rd wr : Z)
  | EFork (ret : Z) (child : Child)
  | ESetpgid (pid pgid : Z)
  | EWrite (target : option OFD) (text : str)
  | EPerror (name : str).

(** The operating system as the shell process sees it. [files] are the paths
    that exist; [denied] tells which [open] calls fail for a reason other
    than a missing file; [fork_results] are the pids the coming [fork] calls
    return in the parent (none left, or a value [<= 0]: the call fails). *)
Record OS := {
  fdt : gmap Z OFD;
  files : gset str;
  denied : str → Z → bool;
  fork_results : list Z;
  pipes_made : nat;
  cwd_shown : str;
  trace : list Event;
}.

(** The globals of [1730sh.cpp] and the [Input] objects on the heap. *)
Record Globals := {
  last_exit_status : Z;
  current_jobs : list (option nat);
  heap : gmap nat Input;
  next_ptr : nat;
}.

(** The locals of [main] that live across iterations of the loop. *)
Record Locals := {
  input : str;
  hangingPipe : bool;
  hangingQuote : bool;
}.

Record World := { os : OS; glob : Globals; loc : Locals }.

Definition with_os (f : OS → OS) (w : World) : World :=
  {| os := f (os w); glob := glob w; loc := loc w |}.
Definition with_glob (f : Globals → Globals) (w : World) : World :=
  {| os := os w; glob := f (glob w); loc := loc w |}.
Definition with_loc (f : Locals → Locals) (w : World) : World :=
  {| os := os w; glob := glob w; loc := f (loc w) |}.

Definition os_set_fdt (t : gmap Z OFD) (o : OS) : OS :=
  {| fdt := t; files := files o; denied := denied o; fork_results := fork_results o;
     pipes_made := pipes_made o; cwd_shown := cwd_shown o; trace := trace o |}.
Definition os_set_files (fs : gset str) (o : OS) : OS :=
  {| fdt := fdt o; files := fs; denied := denied o; fork_results := fork_results o;
     pipes_made := pipes_made o; cwd_shown := cwd_shown o; trace := trace o |}.
Definition os_set_fork_results (l : list Z) (o : OS) : OS :=
  {| fdt := fdt o; files := files o; denied := denied o; fork_results := l;
     pipes_made := pipes_made o; cwd_shown := cwd_shown o; trace := trace o |}.
Definition os_set_pipes_made (n : nat) (o : OS) : OS :=
  {| fdt := fdt o; files := files o; denied := denied o; fork_results := fork_results o;
     pipes_made := n; cwd_shown := cwd_shown o; trace := trace o |}.
Definition os_log (e : Event) (o : OS) : OS :=
  {| fdt := fdt o; files := files o; denied := denied o; fork_results := fork_results o;
     pipes_made := pipes_made o; cwd_shown := cwd_shown o; trace := trace o ++ [e] |}.

Definition glob_set_status (s : Z) (g : Globals) : Globals :=
  {| last_exit_status := s; current_jobs := current_jobs g; heap := heap g;
     next_ptr := next_ptr g |}.
Definition glob_set_jobs (l : list (option nat)) (g : Globals) : Globals :=
  {| last_exit_status := last_exit_status g; current_jobs := l; heap := heap g;
     next_ptr := next_ptr g |}.
Definition glob_set_heap (h : gmap nat Input) (g : Globals) : Globals :=
  {| last_exit_status := last_exit_status g; current_jobs := current_jobs g; heap := h;
     next_ptr := next_ptr g |}.
Definition glob_set_next_ptr (n : nat) (g : Globals) : Globals :=
  {| last_exit_status := last_exit_status g; current_jobs := current_jobs g;
     heap := heap g; next_ptr := n |}.

Definition loc_set_input (s : str) (l : Locals) : Locals :=
  {| input := s; hangingPipe := hangingPipe l; hangingQuote := hangingQuote l |}.
Definition loc_set_hangingPipe (b : bool) (l : Locals) : Locals :=
  {| input := input l; hangingPipe := b; hangingQuote := hangingQuote l |}.
Definition loc_set_hangingQuote (b : bool) (l : Locals) : Locals :=
  {| input := input l; hangingPipe := hangingPipe l; hangingQuote := b |}.

(** How a computation of the shell ends: it returns, the process exits
    ([exit(status)]), or C++ leaves the behaviour undefined. [Exited]
    carries the argument of [exit] as the shell passes it; the status a
    parent collects is its low eight bits. *)
Inductive Outcome (A : Type) :=
  | Ret (a : A)
  | Exited (status : Z)
  | Undefined (why : string).
Arguments Ret {A} a.
Arguments Exited {A} status.
Arguments Undefined {A} why.

Definition M (A : Type) : Type := World → Outcome A * World.

#[global] Instance M_ret : MRet M := λ A a w, (Ret a, w).
#[global] Instance M_bind : MBind M := λ A B f m w,
  match m w with
  | (Ret a, w') => f a w'
  | (Exited s, w') => (Exited s, w')
  | (Undefined y, w') => (Undefined y, w')
  end.

Definition gets {A} (f : World → A) : M A := λ w, (Ret (f w), w).
Definition modify (f : World → World) : M unit := λ w, (Ret (), f w).
Definition undefined {A} (why : string) : M A := λ w, (Undefined why, w).
(** [exit(status)]. *)
Definition exit {A} (status : Z) : M A := λ w, (Exited status, w).
Definition log (e : Event) : M unit := modify (with_os (os_log e)).

(** [cout << text]: the text goes to whatever descriptor 1 refers to now. *)
Definition cout (text : str) : M unit :=
  t ← gets (λ w, fdt (os w) !! STDOUT_FILENO);
  log (EWrite t text).

Definition endl : str := [newline].

(** [cout << n] for an [int]. *)
Definition dec (n : Z) : str := lit (NilZero.string_of_int (Z.to_int n)).

(** [cout << std::left << setw(n) << s]. *)
Definition setw_left (n : nat) (s : str) : str := s ++ replicate (n - length s) space.

(** [nope_out(sc_name)]: [perror] and [exit(EXIT_FAILURE)]. *)
Definition nope_out {A} (sc_name : str) : M A :=
  log (EPerror sc_name);; exit EXIT_FAILURE.

(** *** System calls *)

Fixpoint lowest_free_from (fuel : nat) (fd : Z) (t : gmap Z OFD) : Z :=
  match fuel with
  | O => fd
  | S fuel' =>
      match t !! fd with
      | Some _ => lowest_free_from fuel' (fd + 1) t
      | None => fd
      end
  end.

(** The lowest descriptor not in use. *)
Definition lowest_free (t : gmap Z OFD) : Z := lowest_free_from (size t) 0 t.

Definition has_flag (flags flag : Z) : bool := negb (Z.land flags flag =? 0).

(** [open(path, flags[, mode])]: fails when the system denies it or when the
    file is missing and [O_CREAT] is not given; otherwise the file exists
    afterwards and the lowest free descriptor refers to it. *)
Definition sys_open (path : str) (flags : Z) (mode : option Z) : M Z := λ w,
  let o := os w in
  if negb (denied o path flags) && (has_flag flags O_CREAT || bool_decide (path ∈ files o))
  then
    let fd := lowest_free (fdt o) in
    (Ret fd,
     with_os (λ o, os_log (EOpen path flags mode fd)
                     (os_set_files ({[path]} ∪ files o)
                        (os_set_fdt (<[fd := OpenFile path flags]> (fdt o)) o))) w)
  else (Ret (-1), with_os (os_log (EOpen path flags mode (-1))) w).

(** [dup2(oldfd, newfd)]. *)
Definition sys_dup2 (oldfd newfd : Z) : M Z := λ w,
  match fdt (os w) !! oldfd with
  | Some d =>
      (Ret newfd,
       with_os (λ o, os_log (EDup2 oldfd newfd newfd)
                       (os_set_fdt (<[newfd := d]> (fdt o)) o)) w)
  | None => (Ret (-1), with_os (os_log (EDup2 oldfd newfd (-1))) w)
  end.

(** [close(fd)]. *)
Definition sys_close (fd : Z) : M Z := λ w,
  match fdt (os w) !! fd with
  | Some _ =>
      (Ret 0, with_os (λ o, os_log (EClose fd 0) (os_set_fdt (delete fd (fdt o)) o)) w)
  | None => (Ret (-1), with_os (os_log (EClose fd (-1))) w)
  end.

(** [pipe(pipefd)]: the read end, then the write end, on the two lowest free
    descriptors. Descriptor exhaustion is not modelled: the call succeeds. *)
Definition sys_pipe : M (Z * Z) := λ w,
  let o := os w in
  let rd := lowest_free (fdt o) in
  let t := <[rd := PipeRead (pipes_made o)]> (fdt o) in
  let wr := lowest_free t in
  let t := <[wr := PipeWrite (pipes_made o)]> t in
  (Ret (rd, wr),
   with_os (λ o, os_log (EPipe rd wr) (os_set_pipes_made (S (pipes_made o)) (os_set_fdt t o))) w).

(** [fork()] as the parent sees it; [child] is what the new process does. *)
Definition sys_fork (child : Child) : M Z := λ w,
  match fork_results (os w) with
  | pid :: rest =>
      let ret := if 0 <? pid then pid else -1 in
      (Ret ret, with_os (λ o, os_log (EFork ret child) (os_set_fork_results rest o)) w)
  | [] => (Ret (-1), with_os (os_log (EFork (-1) child)) w)
  end.

(** [setpgid(pid, pgid)] called by the parent on a child it has just forked;
    modelled as succeeding. *)
Definition sys_setpgid (pid pgid : Z) : M Z :=
  log (ESetpgid pid pgid);; mret 0.

(** *** The heap *)

(** [new Input(...)]. *)
Definition new_Input (job : Input) : M nat := λ w,
  let p := next_ptr (glob w) in
  (Ret p, with_glob (λ g, glob_set_next_ptr (S p) (glob_set_heap (<[p := job]> (heap g)) g)) w).

(** [delete job]: deleting an object that is not live is undefined. *)
Definition delete_Input (p : nat) : M unit := λ w,
  match heap (glob w) !! p with
  | Some _ => (Ret (), with_glob (λ g, glob_set_heap (delete p (heap g)) g) w)
  | None => (Undefined "delete of an Input that is not live", w)
  end.

(** [*job]. *)
Definition deref (p : nat) : M Input := λ w,
  match heap (glob w) !! p with
  | Some job => (Ret job, w)
  | None => (Undefined "use of an Input that is not live", w)
  end.

Definition update_Input (p : nat) (f : Input → Input) : M unit :=
  job ← deref p;
  modify (with_glob (λ g, glob_set_heap (<[p := f job]> (heap g)) g)).

(** *** Validation and quote counting *)

Fixpoint isValidInput_loop (redirect_in_flag redirect_out_flag redirect_err_flag : bool)
    (argv : list str) : bool :=
  match argv with
  | [] => true
  | a :: rest =>
      if a ==s lit "<" then
        if negb redirect_in_flag
        then isValidInput_loop true redirect_out_flag redirect_err_flag rest
        else false
      else if (a ==s lit ">") || (a ==s lit ">>") then
        if negb redirect_out_flag
        then isValidInput_loop redirect_in_flag true redirect_err_flag rest
        else false
      else if (a ==s lit "e>") || (a ==s lit "e>>") then
        if negb redirect_err_flag
        then isValidInput_loop redirect_in_flag redirect_out_flag true rest
        else false
      else isValidInput_loop redirect_in_flag redirect_out_flag redirect_err_flag rest
  end.

(** [bool isValidInput(string input)]. [None]: the function reads [argv[0]]
    of an empty vector (a non-empty line without a word), which is undefined. *)
Definition isValidInput (input : str) : option bool :=
  if slen input =? 0 then Some true
  else
    let argv := stream_words input in
    match argv with
    | [] => None
    | argv_0 :: _ =>
        if argv_0 ==s lit "|" then Some false
        else Some (isValidInput_loop false false false argv)
    end.

Fixpoint count_quotes (prev : option ascii) (count : Z) (input : str) : Z :=
  match input with
  | [] => count
  | c :: rest =>
      count_quotes (Some c) (if unescaped_quote_at prev c then count + 1 else count) rest
  end.

(** [bool hasEvenQuotes(string input)]. *)
Definition hasEvenQuotes (input : str) : bool :=
  if Z.rem (count_quotes None 0 input) 2 =? 0 then true else false.

(** *** Redirections *)

(** [int set_redirects(Input* job, int& fdSTDIN, int& fdSTDOUT, int& fdSTDERR)]
    yields its return value and the three references. The function is three
    [if] statements in a row, each of which returns early when [open] fails;
    they are given here last to first. *)

(** The third [if]: the target of the standard error. *)
Definition set_redirects_err (job : Input) (fdSTDIN fdSTDOUT : Z) : M (Z * Z * Z * Z) :=
  let fdSTDERR := STDERR_FILENO in
  if negb (fd_STDERR job ==s lit "STDERR_FILENO") then
    if type_STDERR job ==s lit "e>" then
      fdSTDERR ← sys_open (fd_STDERR job) (Z.lor (Z.lor O_CREAT O_WRONLY) O_TRUNC)
                   (Some mode_0644);
      if fdSTDERR =? -1 then
        cout (lit "1730sh: `" ++ fd_STDERR job ++ lit "' cannot be opened" ++ endl);;
        mret (-1, fdSTDIN, fdSTDOUT, fdSTDERR)
      else mret (0, fdSTDIN, fdSTDOUT, fdSTDERR)
    else
      fdSTDERR ← sys_open (fd_STDERR job) (Z.lor (Z.lor O_CREAT O_WRONLY) O_APPEND)
                   (Some mode_0666);
      if fdSTDERR =? -1 then
        cout (lit "1730sh: `" ++ fd_STDERR job ++ lit "' cannot be opened" ++ endl);;
        mret (-1, fdSTDIN, fdSTDOUT, fdSTDERR)
      else mret (0, fdSTDIN, fdSTDOUT, fdSTDERR)
  else mret (0, fdSTDIN, fdSTDOUT, fdSTDERR).

(** The second [if]: the target of the standard output. *)
Definition set_redirects_out (job : Input) (fdSTDIN : Z) : M (Z * Z * Z * Z) :=
  let fdSTDOUT := STDOUT_FILENO in
  let fdSTDERR := STDERR_FILENO in
  if negb (fd_STDOUT job ==s lit "STDOUT_FILENO") then
    if type_STDOUT job ==s lit ">" then
      fdSTDOUT ← sys_open (fd_STDOUT job) (Z.lor (Z.lor O_CREAT O_WRONLY) O_TRUNC)
                   (Some mode_0644);
      if fdSTDOUT =? -1 then
        cout (lit "1730sh: `" ++ fd_STDOUT job ++ lit "' cannot be opened" ++ endl);;
        mret (-1, fdSTDIN, fdSTDOUT, fdSTDERR)
      else set_redirects_err job fdSTDIN fdSTDOUT
    else
      fdSTDOUT ← sys_open (fd_STDOUT job) (Z.lor (Z.lor O_CREAT O_WRONLY) O_APPEND)
                   (Some mode_0666);
      if fdSTDOUT =? -1 then
        cout (lit "1730sh: `" ++ fd_STDOUT job ++ lit "' cannot be opened" ++ endl);;
        mret (-1, fdSTDIN, fdSTDOUT, fdSTDERR)
      else set_redirects_err job fdSTDIN fdSTDOUT
  else set_redirects_err job fdSTDIN fdSTDOUT.

(** The first [if], the target of the standard input, and so the function. *)
Definition set_redirects (job : Input) : M (Z * Z * Z * Z) :=
  let fdSTDIN := STDIN_FILENO in
  let fdSTDOUT := STDOUT_FILENO in
  let fdSTDERR := STDERR_FILENO in
  if negb (fd_STDIN job ==s lit "STDIN_FILENO") then
    fdSTDIN ← sys_open (fd_STDIN job) O_RDONLY None;
    if fdSTDIN =? -1 then
      cout (lit "1730sh: " ++ fd_STDIN job ++ lit ": No such file or directory" ++ endl);;
      mret (-1, fdSTDIN, fdSTDOUT, fdSTDERR)
    else set_redirects_out job fdSTDIN
  else set_redirects_out job fdSTDIN.

(** [void do_redirects(int STDIN, int STDOUT, int STDERR)]. *)
Definition do_redirects (STDIN STDOUT STDERR : Z) : M unit :=
  (if 0 <=? STDIN then
     r ← sys_dup2 STDIN STDIN_FILENO;
     if r =? -1 then nope_out (lit "dup2") else mret ()
   else mret ());;
  (if 0 <=? STDOUT then
     r ← sys_dup2 STDOUT STDOUT_FILENO;
     if r =? -1 then nope_out (lit "dup2") else mret ()
   else mret ());;
  (if 0 <=? STDERR then
     r ← sys_dup2 STDERR STDERR_FILENO;
     if r =? -1 then nope_out (lit "dup2") else mret ()
   else mret ()).

(** [void close_redirects(int STDIN, int STDOUT, int STDERR)]. *)
Definition close_redirects (STDIN STDOUT STDERR : Z) : M unit :=
  (if negb (STDIN =? STDIN_FILENO) then
     r ← sys_close STDIN;
     if r =? -1 then nope_out (lit "close") else mret ()
   else mret ());;
  (if negb (STDOUT =? STDOUT_FILENO) then
     r ← sys_close STDOUT;
     if r =? -1 then nope_out (lit "close") else mret ()
   else mret ());;
  (if negb (STDERR =? STDERR_FILENO) then
     r ← sys_close STDERR;
     if r =? -1 then nope_out (lit "close") else mret ()
   else mret ()).

(** [void close_pipe(int pipefd[2], bool exit_on_failure)]. *)
Definition close_pipe (pipefd : Z * Z) (exit_on_failure : bool) : M unit :=
  (r ← sys_close (fst pipefd);
   if (r =? -1) && exit_on_failure then nope_out (lit "close") else mret ());;
  (r ← sys_close (snd pipefd);
   if (r =? -1) && exit_on_failure then nope_out (lit "close") else mret ()).

(** *** Built-ins *)

(** [bool isBuiltIn(string & command)]. *)
Definition isBuiltIn (command : str) : bool :=
  if command ==s lit "cd" then true
  else if command ==s lit "exit" then true
  else if command ==s lit "help" then true
  else if command ==s lit "bg" then true
  else if command ==s lit "fg" then true
  else if command ==s lit "export" then true
  else if command ==s lit "jobs" then true
  else if command ==s lit "kill" then true
  else false.

(** [isdigit]. *)
Definition isdigit (c : ascii) : bool :=
  let n := Z.of_nat (nat_of_ascii c) in (48 <=? n) && (n <=? 57).

(** The [isNumber] loop of [exit_builtin]. *)
Fixpoint isNumber_loop (number : str) : bool :=
  match number with
  | [] => true
  | c :: rest => if negb (isdigit c) then false else isNumber_loop rest
  end.

Inductive stoi_result :=
  | stoi_value (v : Z)
  | stoi_invalid_argument
  | stoi_out_of_range.

Definition digits_value (number : str) : Z :=
  fold_left (λ acc c, acc * 10 + (Z.of_nat (nat_of_ascii c) - 48)) number 0.

(** [stoi(number, 0, 10)] on a string of decimal digits, the only strings
    [exit_builtin] passes: no digit at all raises [invalid_argument], a value
    that does not fit an [int] raises [out_of_range]. *)
Definition stoi (number : str) : stoi_result :=
  match number with
  | [] => stoi_invalid_argument
  | _ => if digits_value number <=? INT_MAX then stoi_value (digits_value number)
         else stoi_out_of_range
  end.

(** [int exit_builtin(const vector<string> & args)]. *)
Definition exit_builtin (args : list str) : M Z :=
  match args with
  | [_] => (* 'exit' *)
      status ← gets (λ w, last_exit_status (glob w));
      cout (lit "1730sh: Exited with status: " ++ dec status ++ endl);;
      mret status
  | [_; args_1] => (* 'exit [int]' *)
      if isNumber_loop args_1 then
        match stoi args_1 with
        | stoi_value status =>
            cout (lit "1730sh: Exited with status: " ++ dec status ++ endl);;
            mret status
        | stoi_invalid_argument | stoi_out_of_range =>
            cout (lit "1730sh: exit: Invalid exit value" ++ endl);;
            mret (-1)
        end
      else
        cout (lit "1730sh: exit: Invalid exit value" ++ endl);;
        mret (-1)
  | _ => (* invalid syntax *)
      cout (lit "Usage: exit [N]" ++ endl);;
      mret (-1)
  end.

Fixpoint jobs_builtin_loop (jobs : list (option nat)) : M unit :=
  match jobs with
  | [] => mret ()
  | None :: rest => jobs_builtin_loop rest
  | Some p :: rest =>
      job ← deref p;
      cout (setw_left 8 (dec (JID job)) ++ setw_left 13 (status job)
              ++ shellInput job ++ endl);;
      jobs_builtin_loop rest
  end.

(** [int jobs_builtin(const vector<string> & args)]. *)
Definition jobs_builtin (args : list str) : M Z :=
  match args with
  | [_] =>
      cout (setw_left 8 (lit "JID") ++ setw_left 13 (lit "STATUS") ++ lit "COMMAND" ++ endl);;
      jobs ← gets (λ w, current_jobs (glob w));
      jobs_builtin_loop jobs;;
      mret 0
  | _ =>
      cout (lit "1730sh: Usage: jobs" ++ endl);;
      mret (-1)
  end.

(** A built-in kept outside the model works on the globals and the heap,
    prints through [cout], and may end the process; it issues none of the
    system calls of [Event]. *)
Definition External : Type := list str → Globals → Outcome Z * Globals * list str.

Record Externals := {
  cd_builtin : External;
  help_builtin : External;
  export_builtin : External;
  fg_builtin : External;
  bg_builtin : External;
  kill_builtin : External;
}.

Definition run_external (f : External) (args : list str) : M Z := λ w,
  let '(r, g, printed) := f args (glob w) in
  let t := fdt (os w) !! STDOUT_FILENO in
  (r, with_glob (λ _, g) (with_os (λ o, fold_left (λ o text, os_log (EWrite t text) o) printed o) w)).

Definition set_last_exit_status (s : Z) : M unit := modify (with_glob (glob_set_status s)).

(** The loop of [callBuiltIn] that empties the job table before [exit]. *)
Fixpoint free_current_jobs (i n : nat) : M unit :=
  match n with
  | O => mret ()
  | S n' =>
      jobs ← gets (λ w, current_jobs (glob w));
      match jobs !! i with
      | Some (Some p) => delete_Input p
      | _ => mret ()
      end;;
      modify (with_glob (λ g, glob_set_jobs (<[i := None]> (current_jobs g)) g));;
      free_current_jobs (S i) n'
  end.

Section BuiltIns.
Context (ext : Externals).

Definition status_of (r : Z) : Z := if r =? -1 then EXIT_FAILURE else EXIT_SUCCESS.

(** [void callBuiltIn(string & command, const vector<string> & args, Input * job)]. *)
Definition callBuiltIn (command : str) (args : list str) (job : nat) : M unit :=
  (if command ==s lit "cd" then
     r ← run_external (cd_builtin ext) args; set_last_exit_status (status_of r)
   else if command ==s lit "exit" then
     status ← exit_builtin args;
     set_last_exit_status (if negb (status =? -1) then status else EXIT_FAILURE);;
     delete_Input job;;
     if negb (status =? -1) then
       s ← gets (λ w, length (current_jobs (glob w)));
       free_current_jobs 0 s;;
       exit status
     else mret ()
   else if command ==s lit "help" then
     r ← run_external (help_builtin ext) args; set_last_exit_status (status_of r)
   else if command ==s lit "bg" then
     r ← run_external (bg_builtin ext) args; set_last_exit_status (status_of r)
   else if command ==s lit "fg" then
     r ← run_external (fg_builtin ext) args; set_last_exit_status (status_of r)
   else if command ==s lit "export" then
     r ← run_external (export_builtin ext) args; set_last_exit_status (status_of r)
   else if command ==s lit "jobs" then
     r ← jobs_builtin args; set_last_exit_status (status_of r)
   else if command ==s lit "kill" then
     r ← run_external (kill_builtin ext) args; set_last_exit_status (status_of r)
   else mret ());;
  delete_Input job.

End BuiltIns.

(** *** The read-eval loop of [main]

    One iteration of [while(1)] is [show_prompt], [accumulate] on the line
    that [getline] delivers, then [evaluate]. The poll [check_current_jobs] at
    the top of the loop and the calls [put_job_in_foreground] and
    [put_job_in_background] that end an iteration which launched a job are
    outside the model: [evaluate] returns [PutJob] where the latter follow. *)

Inductive Next :=
  | NextPrompt                          (* [continue], or the end of the body *)
  | PutJob (job : nat) (fg : bool).     (* lines 463-468 follow *)

(** [void prompt()]: the working directory, with the home directory shown as
    [~], is [cwd_shown]. *)
Definition prompt : M unit :=
  cwd ← gets (λ w, cwd_shown (os w));
  cout (lit "1730sh:" ++ cwd ++ lit "$ ").

(** Lines 340-344. *)
Definition show_prompt : M unit :=
  l ← gets loc;
  if negb (hangingPipe l) && negb (hangingQuote l) then prompt else cout (lit "> ").

(** Lines 347-360; [line] is what [getline] read. *)
Definition accumulate (line : str) : M unit :=
  modify (with_loc (λ l,
    if negb (hangingPipe l) && negb (hangingQuote l) then
      loc_set_input (trim line) l
    else
      let tmp := trim line in
      if hangingQuote l then loc_set_input (input l ++ tmp) l
      else if hangingPipe l then loc_set_input (input l ++ [space] ++ tmp) l
      else l)).

(** [int** makePipes(int numPipes)]: [numPipes] pairs, not yet filled; the
    null pointer (no pair at all) when [numPipes] is 0. *)
Definition makePipes (numPipes : Z) : list (option (Z * Z)) :=
  replicate (Z.to_nat numPipes) None.

(** [pipes[i]], read. *)
Definition pipe_at (pipes : list (option (Z * Z))) (i : nat) : M (Z * Z) :=
  match pipes !! i with
  | Some (Some p) => mret p
  | Some None => undefined "pipes[i] read before pipe() filled it"
  | None => undefined "pipes[i] outside the array of makePipes"
  end.

(** [pipe(pipes[i])]. *)
Definition pipe_into (pipes : list (option (Z * Z))) (i : nat) : M (list (option (Z * Z))) :=
  match pipes !! i with
  | Some _ => p ← sys_pipe; mret (<[i := Some p]> pipes)
  | None => undefined "pipes[i] outside the array of makePipes"
  end.

Definition set_PID_at (i : nat) (pid : Z) (job : Input) : Input :=
  with_processes (alter (set_PID pid) i (processes job)) job.

Definition args_at (job : Input) (i : nat) : list str :=
  match processes job !! i with Some p => args p | None => [] end.

(** Lines 398-415, parent side: a single command that is not a built-in. *)
Definition launch_single (job : nat) (fd_STDIN fd_STDOUT fd_STDERR : Z) : M unit :=
  j ← deref job;
  pid ← sys_fork {| child_stage := 0; child_stdin := fd_STDIN; child_stdout := fd_STDOUT;
                    child_stderr := fd_STDERR; child_argv := args_at j 0 |};
  if pid =? -1 then nope_out (lit "fork")
  else
    update_Input job (set_PID_at 0 pid);;
    update_Input job (setJID pid);;
    j ← deref job;
    r ← sys_setpgid pid (JID j);
    if r =? -1 then nope_out (lit "setpgid") else mret ().

(** The descriptors stage [i] of a pipeline passes to [do_redirects]. *)
Definition stage_redirects (pipes : list (option (Z * Z))) (i size : nat)
    (fd_STDIN fd_STDOUT fd_STDERR : Z) : M (Z * Z * Z) :=
  if bool_decide (i = 0%nat) then
    p ← pipe_at pipes i; mret (fd_STDIN, snd p, -1)
  else if negb (bool_decide (i = (size - 1)%nat)) then
    p ← pipe_at pipes (i - 1); q ← pipe_at pipes i; mret (fst p, snd q, -1)
  else
    p ← pipe_at pipes (i - 1); mret (fst p, fd_STDOUT, fd_STDERR).

(** Lines 420-455, parent side: the loop over the stages of a pipeline;
    [n] iterations remain. *)
Fixpoint launch_pipeline (job : nat) (fd_STDIN fd_STDOUT fd_STDERR : Z) (size : nat)
    (pipes : list (option (Z * Z))) (i n : nat) : M unit :=
  match n with
  | O => mret ()
  | S n' =>
      pipes ← (if negb (bool_decide (i = (size - 1)%nat)) then pipe_into pipes i
               else mret pipes);
      j ← deref job;
      fds ← stage_redirects pipes i size fd_STDIN fd_STDOUT fd_STDERR;
      pid ← sys_fork {| child_stage := i; child_stdin := fds.1.1; child_stdout := fds.1.2;
                        child_stderr := fds.2; child_argv := args_at j i |};
      if pid =? -1 then nope_out (lit "fork")
      else
        update_Input job (set_PID_at i pid);;
        (if bool_decide (i = 0%nat) then update_Input job (setJID pid) else mret ());;
        j ← deref job;
        r ← sys_setpgid pid (JID j);
        if r =? -1 then nope_out (lit "setpgid")
        else
          (if negb (bool_decide (i = 0%nat)) then
             p ← pipe_at pipes (i - 1); close_pipe p true
           else mret ());;
          launch_pipeline job fd_STDIN fd_STDOUT fd_STDERR size pipes (S i) n'
  end.

Section Main.
Context (ext : Externals).

(** Lines 379-461: a valid, complete line becomes a job. *)
Definition launch (input : str) : M Next :=
  match Input_new input with
  | None => undefined "Input::set_foreground reads outside the string"
  | Some j =>
      job ← new_Input j;
      let pipes := makePipes (getNumPipes j) in
      r ← set_redirects j;
      let '(ret, fd_STDIN, fd_STDOUT, fd_STDERR) := r in
      if ret =? -1 then delete_Input job;; mret NextPrompt
      else
        (if bool_decide (length (processes j) = 1%nat) then
           match args_at j 0 with
           | [] => undefined "args[0] of an empty vector"
           | command :: _ =>
               if isBuiltIn command then
                 do_redirects fd_STDIN fd_STDOUT fd_STDERR;;
                 close_redirects fd_STDIN fd_STDOUT fd_STDERR;;
                 callBuiltIn ext command (args_at j 0) job;;
                 mret false   (* [continue] *)
               else
                 launch_single job fd_STDIN fd_STDOUT fd_STDERR;;
                 modify (with_glob (λ g, glob_set_jobs (current_jobs g ++ [Some job]) g));;
                 mret true
           end
         else
           launch_pipeline job fd_STDIN fd_STDOUT fd_STDERR
             (length (processes j)) pipes 0 (length (processes j));;
           modify (with_glob (λ g, glob_set_jobs (current_jobs g ++ [Some job]) g));;
           mret true)
        ≫= λ launched : bool,
          if launched then
            close_redirects fd_STDIN fd_STDOUT fd_STDERR;;
            mret (PutJob job (foreground j))
          else mret NextPrompt
  end.

(** Lines 362-471. *)
Definition evaluate : M Next :=
  input ← gets (λ w, input (loc w));
  if input ==s [] then mret NextPrompt
  else
    match isValidInput input with
    | None => undefined "isValidInput reads argv[0] of an empty vector"
    | Some true =>
        if hasQuotes input && negb (hasEvenQuotes input) then
          modify (with_loc (loc_set_hangingQuote true));; mret NextPrompt
        else
          modify (with_loc (loc_set_hangingQuote false));;
          if bool_decide (last input = Some "|"%char) then
            modify (with_loc (loc_set_hangingPipe true));; mret NextPrompt
          else
            modify (with_loc (loc_set_hangingPipe false));;
            launch input
    | Some false =>
        cout (lit "./1730sh: Invalid command syntax" ++ endl);; mret NextPrompt
    end.

(** The body of the loop on one line of input. *)
Definition iteration (line : str) : M Next :=
  show_prompt;; accumulate line;; evaluate.

End Main.

End ShellCpp.

Import InputCpp ShellCpp.

(** ** Input.cpp and 1730sh.cpp, continued *)

(** [Input::setStatus]: a null pointer leaves the status alone. *)
Definition setStatus (status' : option str) (job : Input) : Input :=
  match status' with
  | Some s =>
      {| JID := JID job; foreground := foreground job; status := s;
         shellInput := shellInput job; processes := processes job;
         fd_STDIN := fd_STDIN job; fd_STDOUT := fd_STDOUT job;
         type_STDOUT := type_STDOUT job; fd_STDERR := fd_STDERR job;
         type_STDERR := type_STDERR job |}
  | None => job
  end.

(** The members a constructor body or [operator=] sets after parsing. *)
Definition with_JID_status (jid : Z) (s : str) (job : Input) : Input :=
  {| JID := jid; foreground := foreground job; status := s;
     shellInput := shellInput job; processes := processes job;
     fd_STDIN := fd_STDIN job; fd_STDOUT := fd_STDOUT job;
     type_STDOUT := type_STDOUT job; fd_STDERR := fd_STDERR job;
     type_STDERR := type_STDERR job |}.

(** [Input::Input(const Input & job)]: delegates to the constructor on
    [job.getShellInput()], then copies [JID] and [status]. *)
Definition Input_copy (job : Input) : option Input :=
  j ← Input_new (shellInput job);
  Some (with_JID_status (JID job) (status job) j).

(** ** 1730sh.cpp: job control

    The functions that wait for jobs, signal them and hand the terminal
    over run in [MJ], the state monad over a [World] and the part of the
    kernel they talk to. [check_current_jobs] is the first statement of
    the loop of [main], and [put_job] is what follows [launch] there. The
    built-ins [fg_builtin], [bg_builtin], [export_builtin] and
    [kill_builtin] are modelled here on their own; [callBuiltIn] takes
    them as parameters. *)

Module JobControl.

(** The signals of [kill_builtin]'s table, with their Linux numbers. *)
Definition SIGHUP : Z := 1.
Definition SIGINT : Z := 2.
Definition SIGQUIT : Z := 3.
Definition SIGKILL : Z := 9.
Definition SIGALRM : Z := 14.
Definition SIGTERM : Z := 15.
Definition SIGCONT : Z := 18.
Definition SIGSTOP : Z := 19.
Definition SIGTSTP : Z := 20.
Definition INT_MIN : Z := - 2 ^ 31.

(** What [waitpid] reports about a child: the four cases that the macros
    [WIFEXITED], [WIFSIGNALED], [WIFSTOPPED], [WIFCONTINUED] tell apart. *)
Inductive WaitStatus :=
  | WExited (code : Z)
  | WSignaled (sig : Z)
  | WStopped
  | WContinued.

(** The calls of job control, in the order the shell issues them, with what
    they returned ([waitpid]: the status, or nothing when it returned a
    value [<= 0]). *)
Inductive Call :=
  | CTcsetpgrp (fd pgrp ret : Z)
  | CKill (pid sig ret : Z)
  | CWaitpid (pid : Z) (ret : option WaitStatus)
  | CSetenv (name value : str) (ret : Z).

(** The kernel as job control sees it: the foreground process group of the
    terminal, what the coming [waitpid] calls report, which calls fail, the
    environment, the texts of [strsignal] and of [strerror(errno)] after a
    failed [setenv], and the calls so far. *)
Record Kernel := {
  tty_pgrp : Z;
  wait_results : list (option WaitStatus);
  kill_fails : Z → Z → bool;
  tcsetpgrp_fails : Z → bool;
  setenv_fails : str → bool;
  env : gmap str str;
  strsignal : Z → str;
  setenv_error : str;
  calls : list Call;
}.

Definition k_set_tty (g : Z) (k : Kernel) : Kernel :=
  {| tty_pgrp := g; wait_results := wait_results k; kill_fails := kill_fails k;
     tcsetpgrp_fails := tcsetpgrp_fails k; setenv_fails := setenv_fails k; env := env k;
     strsignal := strsignal k; setenv_error := setenv_error k; calls := calls k |}.
Definition k_set_wait_results (l : list (option WaitStatus)) (k : Kernel) : Kernel :=
  {| tty_pgrp := tty_pgrp k; wait_results := l; kill_fails := kill_fails k;
     tcsetpgrp_fails := tcsetpgrp_fails k; setenv_fails := setenv_fails k; env := env k;
     strsignal := strsignal k; setenv_error := setenv_error k; calls := calls k |}.
Definition k_set_env (e : gmap str str) (k : Kernel) : Kernel :=
  {| tty_pgrp := tty_pgrp k; wait_results := wait_results k; kill_fails := kill_fails k;
     tcsetpgrp_fails := tcsetpgrp_fails k; setenv_fails := setenv_fails k; env := e;
     strsignal := strsignal k; setenv_error := setenv_error k; calls := calls k |}.
Definition k_log (c : Call) (k : Kernel) : Kernel :=
  {| tty_pgrp := tty_pgrp k; wait_results := wait_results k; kill_fails := kill_fails k;
     tcsetpgrp_fails := tcsetpgrp_fails k; setenv_fails := setenv_fails k; env := env k;
     strsignal := strsignal k; setenv_error := setenv_error k; calls := calls k ++ [c] |}.

(** The shell with its kernel; [shell_pgid] is the global of that name. *)
Record JWorld := { base : World; kernel : Kernel; shell_pgid : Z }.

Definition with_base (f : World → World) (jw : JWorld) : JWorld :=
  {| base := f (base jw); kernel := kernel jw; shell_pgid := shell_pgid jw |}.
Definition with_kernel (f : Kernel → Kernel) (jw : JWorld) : JWorld :=
  {| base := base jw; kernel := f (kernel jw); shell_pgid := shell_pgid jw |}.

Definition MJ (A : Type) : Type := JWorld → Outcome A * JWorld.

#[global] Instance MJ_ret : MRet MJ := λ A a jw, (Ret a, jw).
#[global] Instance MJ_bind : MBind MJ := λ A B f m jw,
  match m jw with
  | (Ret a, jw') => f a jw'
  | (Exited s, jw') => (Exited s, jw')
  | (Undefined y, jw') => (Undefined y, jw')
  end.

(** A computation of the shell that does not talk to the kernel. *)
Definition lift {A} (m : M A) : MJ A := λ jw,
  let '(r, w') := m (base jw) in (r, with_base (λ _, w') jw).

(** [int shell_terminal = STDIN_FILENO]. *)
Definition shell_terminal : Z := STDIN_FILENO.

(** [tcsetpgrp(fd, pgrp)]. *)
Definition sys_tcsetpgrp (fd pgrp : Z) : MJ Z := λ jw,
  if tcsetpgrp_fails (kernel jw) pgrp
  then (Ret (-1), with_kernel (k_log (CTcsetpgrp fd pgrp (-1))) jw)
  else (Ret 0, with_kernel (λ k, k_log (CTcsetpgrp fd pgrp 0) (k_set_tty pgrp k)) jw).

(** [kill(pid, sig)]. *)
Definition sys_kill (pid sig : Z) : MJ Z := λ jw,
  let ret := if kill_fails (kernel jw) pid sig then -1 else 0 in
  (Ret ret, with_kernel (k_log (CKill pid sig ret)) jw).

(** [waitpid(pid, &pstatus, options)]: the next of [wait_results]. *)
Definition sys_waitpid (pid : Z) : MJ (option WaitStatus) := λ jw,
  match wait_results (kernel jw) with
  | r :: rest =>
      (Ret r, with_kernel (λ k, k_log (CWaitpid pid r) (k_set_wait_results rest k)) jw)
  | [] => (Ret None, with_kernel (k_log (CWaitpid pid None)) jw)
  end.

(** [setenv(name, value, 1)]. *)
Definition sys_setenv (name value : str) : MJ Z := λ jw,
  if setenv_fails (kernel jw) name
  then (Ret (-1), with_kernel (k_log (CSetenv name value (-1))) jw)
  else (Ret 0, with_kernel (λ k, k_log (CSetenv name value 0)
                                   (k_set_env (<[name := value]> (env k)) k)) jw).

(** [void format_job_info(Input * job, const char * status)]. *)
Definition format_job_info (job : option nat) (status : str) : M unit :=
  match job with
  | None => mret ()
  | Some p =>
      j ← deref p;
      cout (dec (JID j) ++ lit " " ++ status ++ lit " " ++ shellInput j ++ endl)
  end.

(** The loop of [delete_from_current_jobs]; [n] iterations remain. *)
Fixpoint delete_from_current_jobs_loop (job : nat) (i n : nat) : M unit :=
  match n with
  | O => mret ()
  | S n' =>
      jobs ← gets (λ w, current_jobs (glob w));
      match jobs !! i with
      | Some (Some q) =>
          j ← deref job;
          e ← deref q;
          if JID j =? JID e then
            delete_Input job;;
            modify (with_glob (λ g, glob_set_jobs (<[i := None]> (current_jobs g)) g))
            (* [break] *)
          else delete_from_current_jobs_loop job (S i) n'
      | _ => delete_from_current_jobs_loop job (S i) n'
      end
  end.

(** [void delete_from_current_jobs(Input * job)]. *)
Definition delete_from_current_jobs (job : option nat) : M unit :=
  match job with
  | None => mret ()
  | Some p =>
      s ← gets (λ w, length (current_jobs (glob w)));
      delete_from_current_jobs_loop p 0 s
  end.

(** The line both waiters print for a job that is gone. *)
Definition exited_line (j : Input) (how : str) : str :=
  dec (JID j) ++ lit " " ++ lit "Exited (" ++ how ++ lit ")" ++ lit " " ++ shellInput j ++ endl.

(** [void wait_for_job(Input * job)]. *)
Definition wait_for_job (job : option nat) : MJ unit :=
  match job with
  | None => mret ()
  | Some p =>
      j ← lift (deref p);
      match last (processes j) with
      | None => lift (undefined "back() of an empty vector")
      | Some proc =>
          r ← sys_waitpid (PID proc);
          match r with
          | None => mret ()
          | Some (WExited code) =>
              lift (cout (exited_line j (dec code)));;
              lift (delete_from_current_jobs (Some p));;
              lift (set_last_exit_status code)
          | Some (WSignaled sig) =>
              text ← (λ jw, (Ret (strsignal (kernel jw) sig), jw)) : MJ str;
              lift (cout (exited_line j text));;
              lift (delete_from_current_jobs (Some p));;
              lift (set_last_exit_status sig)
          | Some WStopped =>
              lift (update_Input p (setStatus (Some (lit "Stopped"))));;
              lift (format_job_info (Some p) (lit "Stopped"))
          | Some WContinued =>
              lift (update_Input p (setStatus (Some (lit "Running"))));;
              lift (format_job_info (Some p) (lit "Continued"))
          end
      end
  end.

(** [void put_job_in_foreground(Input * job, bool cont)]. *)
Definition put_job_in_foreground (job : option nat) (cont : bool) : MJ unit :=
  match job with
  | None => mret ()
  | Some p =>
      j ← lift (deref p);
      r ← sys_tcsetpgrp shell_terminal (JID j);
      (if r =? -1 then lift (nope_out (lit "tcsetpgrp")) else mret ());;
      (if cont then
         j ← lift (deref p);
         r ← sys_kill (- JID j) SIGCONT;
         if r <? 0 then lift (nope_out (lit "kill(SIGCONT)")) else mret ()
       else mret ());;
      wait_for_job (Some p);;
      pgid ← (λ jw, (Ret (shell_pgid jw), jw)) : MJ Z;
      r ← sys_tcsetpgrp shell_terminal pgid;
      if r =? -1 then lift (nope_out (lit "tcsetpgrp")) else mret ()
  end.

(** [void put_job_in_background(Input * job, bool cont)]. *)
Definition put_job_in_background (job : option nat) (cont : bool) : MJ unit :=
  match job with
  | None => mret ()
  | Some p =>
      if cont then
        j ← lift (deref p);
        r ← sys_kill (- JID j) SIGCONT;
        if r <? 0 then lift (nope_out (lit "kill(SIGCONT)")) else mret ()
      else mret ()
  end.

(** The body of the loop of [check_current_jobs] for the entry [p]: the
    [while] over [waitpid] leaves at the first status, and every status is
    one of the four. *)
Definition check_job (p : nat) : MJ unit :=
  j ← lift (deref p);
  match last (processes j) with
  | None => lift (undefined "back() of an empty vector")
  | Some proc =>
      r ← sys_waitpid (PID proc);
      match r with
      | None => mret ()
      | Some (WExited code) =>
          lift (cout (exited_line j (dec code)));;
          lift (set_last_exit_status code);;
          lift (delete_from_current_jobs (Some p))
      | Some (WSignaled sig) =>
          text ← (λ jw, (Ret (strsignal (kernel jw) sig), jw)) : MJ str;
          lift (cout (exited_line j text));;
          lift (set_last_exit_status sig);;
          lift (delete_from_current_jobs (Some p))
      | Some WStopped =>
          lift (update_Input p (setStatus (Some (lit "Stopped"))));;
          lift (format_job_info (Some p) (lit "Stopped"))
      | Some WContinued =>
          lift (update_Input p (setStatus (Some (lit "Running"))));;
          lift (format_job_info (Some p) (lit "Continued"))
      end
  end.

Fixpoint check_current_jobs_loop (i n : nat) : MJ unit :=
  match n with
  | O => mret ()
  | S n' =>
      jobs ← lift (gets (λ w, current_jobs (glob w)));
      match jobs !! i with
      | Some (Some p) => check_job p
      | _ => mret ()
      end;;
      check_current_jobs_loop (S i) n'
  end.

(** [void check_current_jobs()]. *)
Definition check_current_jobs : MJ unit :=
  s ← lift (gets (λ w, length (current_jobs (glob w))));
  check_current_jobs_loop 0 s.

(** The loop over the job table that [fg_builtin] and [bg_builtin] share
    word for word, up to the function [put] called on the job found; [n]
    iterations remain. A loop that finds no job leaves the [try] block for
    the [return -1] that ends the function. *)
Fixpoint resume_loop (put : option nat → bool → MJ unit) (jid : Z) (i n : nat) : MJ Z :=
  match n with
  | O => mret (-1)
  | S n' =>
      jobs ← lift (gets (λ w, current_jobs (glob w)));
      match jobs !! i with
      | Some (Some q) =>
          e ← lift (deref q);
          if JID e =? jid then put (Some q) true;; mret 0
          else resume_loop put jid (S i) n'
      | _ => resume_loop put jid (S i) n'
      end
  end.

(** [int fg_builtin(const vector<string> & args)]. *)
Definition fg_builtin (args : list str) : MJ Z :=
  match args with
  | [_; args_1] =>
      if isNumber_loop args_1 then
        match stoi args_1 with
        | stoi_value jid =>
            s ← lift (gets (λ w, length (current_jobs (glob w))));
            resume_loop put_job_in_foreground jid 0 s
        | stoi_invalid_argument | stoi_out_of_range =>
            lift (cout (lit "1730sh: fg: Invalid JID" ++ endl));;
            mret (-1)
        end
      else
        lift (cout (lit "1730sh: fg: Invalid JID" ++ endl));;
        mret (-1)
  | _ =>
      lift (cout (lit "1730sh: Usage: fg JID" ++ endl));;
      mret (-1)
  end.

(** [int bg_builtin(const vector<string> & args)]. *)
Definition bg_builtin (args : list str) : MJ Z :=
  match args with
  | [_; args_1] =>
      if isNumber_loop args_1 then
        match stoi args_1 with
        | stoi_value jid =>
            s ← lift (gets (λ w, length (current_jobs (glob w))));
            resume_loop put_job_in_background jid 0 s
        | stoi_invalid_argument | stoi_out_of_range =>
            lift (cout (lit "1730sh: bg: Invalid JID" ++ endl));;
            mret (-1)
        end
      else
        lift (cout (lit "1730sh: bg: Invalid JID" ++ endl));;
        mret (-1)
  | _ =>
      lift (cout (lit "1730sh: Usage: bg JID" ++ endl));;
      mret (-1)
  end.

(** Index of the first [c] in [s]. *)
Fixpoint first_of (c : ascii) (s : str) : option nat :=
  match s with
  | [] => None
  | x :: s' => if x ==c c then Some 0%nat else S <$> first_of c s'
  end.

(** [s.find(c)] for a string [c] of one character. *)
Definition str_find (s : str) (c : ascii) : Z := pos_or_npos (first_of c s).

(** [s.substr(pos, n)], for [pos <= size]. *)
Definition substr_n (s : str) (pos n : Z) : str :=
  take (Z.to_nat n) (drop (Z.to_nat pos) s).

(** The [setenv] call of [export_builtin] with its error branch. *)
Definition export_setenv (str' name value : str) : MJ Z :=
  r ← sys_setenv name value;
  if r =? -1 then
    err ← ((λ jw, (Ret (setenv_error (kernel jw)), jw)) : MJ str);
    lift (cout (lit "1730sh: export: " ++ str' ++ lit ": " ++ err ++ endl));;
    mret (-1)
  else mret 0.

(** [int export_builtin(const vector<string> & args)]. *)
Definition export_builtin (args : list str) : MJ Z :=
  match args with
  | [_; str'] =>
      let pos := str_find str' "="%char in
      if negb (pos =? npos) then
        if pos =? 0 then (* '=NAME' or '=' *)
          lift (cout (lit "1730sh: Usage: export NAME[=WORD]" ++ endl));;
          mret (-1)
        else (* 'NA=ME' or 'NAME=' *)
          let name := substr_n str' 0 pos in
          let value := if pos =? slen str' - 1 then []
                       else substr_n str' (pos + 1) (slen str' - 1 - pos) in
          export_setenv str' name value
      else (* 'NAME' *)
        export_setenv str' str' []
  | _ =>
      lift (cout (lit "1730sh: Usage: export NAME[=WORD]" ++ endl));;
      mret (-1)
  end.

(** [signal_map] of [kill_builtin]. *)
Definition signal_map : gmap str Z :=
  list_to_map [ (lit "SIGHUP", SIGHUP); (lit "SIGINT", SIGINT); (lit "SIGTERM", SIGTERM);
                (lit "SIGKILL", SIGKILL); (lit "SIGSTOP", SIGSTOP); (lit "SIGCONT", SIGCONT);
                (lit "SIGQUIT", SIGQUIT); (lit "SIGALRM", SIGALRM); (lit "SIGTSTP", SIGTSTP) ].

(** The [isNumber] loop of [kill_builtin], which steps over a leading [-]. *)
Definition isNumber_signed (number : str) : bool :=
  match number with
  | c :: rest => if c ==c "-"%char then isNumber_loop rest else isNumber_loop number
  | [] => true
  end.

(** [stoi(number, 0, 10)] on the strings that pass [isNumber_signed]: digits
    after an optional [-]. *)
Definition stoi_signed (number : str) : stoi_result :=
  match number with
  | c :: rest =>
      if c ==c "-"%char then
        match rest with
        | [] => stoi_invalid_argument
        | _ => if INT_MIN <=? - digits_value rest then stoi_value (- digits_value rest)
               else stoi_out_of_range
        end
      else stoi number
  | [] => stoi_invalid_argument
  end.

(** [if(kill(PID,signo) != -1) return 0;], else on to the [return -1] that
    ends [kill_builtin]. *)
Definition kill_send (pid signo : Z) : MJ Z :=
  r ← sys_kill pid signo;
  if negb (r =? -1) then mret 0 else mret (-1).

Definition kill_usage : MJ Z :=
  lift (cout (lit "1730sh: Usage: kill [-s SIGNAL] PID" ++ endl));;
  mret (-1).

(** The message of the [catch] blocks around the signal; [back] is
    [args.back()], the word of the pid. *)
Definition kill_invalid_signal (back : str) : MJ Z :=
  lift (cout (lit "1730sh: kill: `" ++ back ++ lit "': Invalid signal" ++ endl));;
  mret (-1).

Definition kill_invalid_PID (back : str) : MJ Z :=
  lift (cout (lit "1730sh: kill: `" ++ back ++ lit "': Invalid PID" ++ endl));;
  mret (-1).

(** [int kill_builtin(const vector<string> & args)]. *)
Definition kill_builtin (args : list str) : MJ Z :=
  match args with
  | [_; back] =>
      if isNumber_signed back then
        match stoi_signed back with
        | stoi_value pid =>
            match signal_map !! lit "SIGTERM" with
            | Some signo => kill_send pid signo
            | None =>
                lift (cout (lit "1730sh: kill: Invalid signal" ++ endl));;
                mret (-1)
            end
        | stoi_invalid_argument | stoi_out_of_range => kill_invalid_PID back
        end
      else kill_invalid_PID back
  | [_; args_1; args_2; back] =>
      if isNumber_signed back then
        match stoi_signed back with
        | stoi_value pid =>
            if args_1 ==s lit "-s" then
              if isNumber_loop args_2 then (* the signal as a number *)
                match stoi args_2 with
                | stoi_value signo => kill_send pid signo
                | stoi_invalid_argument | stoi_out_of_range => kill_invalid_signal back
                end
              else (* the signal as a name *)
                match signal_map !! args_2 with
                | Some signo => kill_send pid signo
                | None => kill_invalid_signal back
                end
            else kill_usage
        | stoi_invalid_argument | stoi_out_of_range => kill_invalid_PID back
        end
      else kill_invalid_PID back
  | _ => kill_usage
  end.

(** Lines 463-468 of [main]: what follows the launch of a job. *)
Definition put_job (next : Next) : MJ unit :=
  match next with
  | NextPrompt => mret ()
  | PutJob job fg =>
      if fg then put_job_in_foreground (Some job) false
      else put_job_in_background (Some job) false
  end.

(** Lines 379-468 of [main]: a valid, complete line from the construction
    of its job to the wait for it. *)
Definition launch_and_put (ext : Externals) (input : str) : MJ unit :=
  next ← lift (launch ext input);
  put_job next.

End JobControl.

(** ** Vocabulary of the statements

    Definitions that the theorems below are stated with: the words of the
    specification as predicates and counts, the worlds and jobs of the
    examples. *)

Import InputCpp ShellCpp.

(** How many of the words [argv] are one of [ops]. *)
Definition count_of (ops : list str) (argv : list str) : nat :=
  length (filter (λ a, a ∈ ops) argv).

(** The malformed lines of the specification: a leading [|], or one stream
    redirected twice. *)
Definition syntax_violation (argv : list str) : Prop :=
  head argv = Some (lit "|") ∨
  (1 < count_of [lit "<"] argv)%nat ∨
  (1 < count_of [lit ">"; lit ">>"] argv)%nat ∨
  (1 < count_of [lit "e>"; lit "e>>"] argv)%nat.

(** The state in which [main] enters its loop: descriptors 0, 1 and 2 on the
    terminal, no job, [last_exit_status = EXIT_SUCCESS], nothing pending. *)
Definition initial_world (fs : gset str) (deny : str → Z → bool) (pids : list Z)
    (cwd : str) : World :=
  {| os := {| fdt := <[STDIN_FILENO := Terminal]>
                       (<[STDOUT_FILENO := Terminal]> (<[STDERR_FILENO := Terminal]> ∅));
              files := fs; denied := deny; fork_results := pids; pipes_made := 0;
              cwd_shown := cwd; trace := [] |};
     glob := {| last_exit_status := EXIT_SUCCESS; current_jobs := []; heap := ∅;
                next_ptr := 0 |};
     loc := {| input := []; hangingPipe := false; hangingQuote := false |} |}.

(** A world for examples: an empty directory shown as [~], every [open]
    permitted, and three pids for the next [fork] calls. *)
Definition demo_world : World := initial_world ∅ (λ _ _, false) [100; 101; 102] (lit "~").

(** Built-ins outside the model, for examples that never call them. *)
Definition inert : External := λ _ g, (Ret (-1), g, []).
Definition inert_externals : Externals :=
  {| cd_builtin := inert; help_builtin := inert; export_builtin := inert;
     fg_builtin := inert; bg_builtin := inert; kill_builtin := inert |}.

Definition invalid_syntax_message : str := lit "./1730sh: Invalid command syntax" ++ endl.

(** *** Vocabulary for statements about runs *)

Definition is_open (e : Event) : bool :=
  match e with EOpen _ _ _ _ => true | _ => false end.
Definition is_fork (e : Event) : bool :=
  match e with EFork _ _ => true | _ => false end.
Definition is_write (e : Event) : bool :=
  match e with EWrite _ _ => true | _ => false end.

(** [m] appends to the trace only events that satisfy [P], and leaves the
    locals of [main] alone. *)
Definition frames (P : Event → Prop) {A} (m : M A) : Prop :=
  ∀ w, ∃ evs, trace (os (m w).2) = trace (os w) ++ evs ∧ Forall P evs ∧
              loc (m w).2 = loc w.

(** The specification's count: a double quote is escaped exactly when the
    character before it is a backslash. *)
Definition unescaped_quote_index (line : str) (i : nat) : bool :=
  bool_decide (line !! i = Some dquote) &&
  negb (bool_decide ((0 < i)%nat ∧ line !! (i - 1)%nat = Some backslash)).

Definition unescaped_quotes (line : str) : nat :=
  length (filter (λ i, unescaped_quote_index line i = true) (seq 0 (length line))).

(** *** The redirection resolver in the specification's words *)

Record OpenRequest := { req_path : str; req_flags : Z; req_mode : option Z }.

(** [<file]: read-only. *)
Definition read_only (path : str) : OpenRequest :=
  {| req_path := path; req_flags := O_RDONLY; req_mode := None |}.

(** [>file]: write-only, create if absent with mode 0644, truncate. *)
Definition truncating (path : str) : OpenRequest :=
  {| req_path := path; req_flags := Z.lor O_WRONLY (Z.lor O_CREAT O_TRUNC);
     req_mode := Some mode_0644 |}.

(** [>>file]: write-only, create if absent with mode 0666, append. *)
Definition appending (path : str) : OpenRequest :=
  {| req_path := path; req_flags := Z.lor O_WRONLY (Z.lor O_CREAT O_APPEND);
     req_mode := Some mode_0666 |}.

(** The target a line declares for a stream: the word after the first
    operator of [ops] among its words, with that operator; nothing when
    the first such operator is the last word. *)
Fixpoint target_after (ops : list str) (words : list str) : option (str * str) :=
  match words with
  | [] => None
  | word :: rest =>
      if bool_decide (word ∈ ops) then
        match rest with
        | file :: _ => Some (file, word)
        | [] => None
        end
      else target_after ops rest
  end.

(** What a line asks for: [<file] is a request to read [file], [>file] to
    truncate it, [>>file] to append to it, and [e>file], [e>>file] likewise
    for the standard error. Any word is a file name here. *)
Definition declared_stdin (line : str) : option OpenRequest :=
  match target_after [lit "<"] (redirect_tokens line) with
  | Some (file, _) => Some (read_only file)
  | None => None
  end.

Definition declared_stdout (line : str) : option OpenRequest :=
  match target_after [lit ">"; lit ">>"] (redirect_tokens line) with
  | Some (file, op) => Some (if op ==s lit ">>" then appending file else truncating file)
  | None => None
  end.

Definition declared_stderr (line : str) : option OpenRequest :=
  match target_after [lit "e>"; lit "e>>"] (redirect_tokens line) with
  | Some (file, op) => Some (if op ==s lit "e>>" then appending file else truncating file)
  | None => None
  end.

(** The [open] call of a request, with what it returned. *)
Definition open_of (q : OpenRequest) (fd : Z) : Event :=
  EOpen (req_path q) (req_flags q) (req_mode q) fd.

Definition opened (req : option OpenRequest) (fd : Z) : list Event :=
  match req with Some q => [open_of q fd] | None => [] end.

(** The descriptor a stream ends up with: the inherited one when nothing is
    requested, a freshly opened one otherwise. *)
Definition bound (req : option OpenRequest) (std fd : Z) : Prop :=
  match req with Some _ => fd ≠ -1 | None => fd = std end.

Definition no_such_file_message (path : str) : str :=
  lit "1730sh: " ++ path ++ lit ": No such file or directory" ++ endl.
Definition cannot_be_opened_message (path : str) : str :=
  lit "1730sh: `" ++ path ++ lit "' cannot be opened" ++ endl.

(** [open] refuses the request in the state [o]: the system denies it, or
    the file is missing and the request does not create it. *)
Definition open_fails (o : OS) (q : OpenRequest) : bool :=
  denied o (req_path q) (req_flags q) ||
  negb (has_flag (req_flags q) O_CREAT || bool_decide (req_path q ∈ files o)).

Definition fails_in (o : OS) (req : option OpenRequest) : bool :=
  match req with Some q => open_fails o q | None => false end.

(** What the resolver has done about the requests [rin], [rout], [rerr]
    when it returns [ret] with the descriptors [fin], [fout], [ferr], having
    issued the events [evs] and left the world [w']: all requests opened,
    in the order stdin, stdout, stderr; or the first failing request
    reported and the later ones not attempted. *)
Definition resolved_as (rin rout rerr : option OpenRequest) (w' : World)
    (ret fin fout ferr : Z) (evs : list Event) : Prop :=
  (ret = 0 ∧
   evs = opened rin fin ++ opened rout fout ++ opened rerr ferr ∧
   bound rin STDIN_FILENO fin ∧ bound rout STDOUT_FILENO fout ∧
   bound rerr STDERR_FILENO ferr ∧
   (∀ q, rout = Some q ∨ rerr = Some q → req_path q ∈ files (os w'))) ∨
  (ret = -1 ∧ ∃ q t, rin = Some q ∧
   evs = [open_of q (-1); EWrite t (no_such_file_message (req_path q))]) ∨
  (ret = -1 ∧ ∃ q t, rout = Some q ∧ bound rin STDIN_FILENO fin ∧
   evs = opened rin fin ++ [open_of q (-1); EWrite t (cannot_be_opened_message (req_path q))]) ∨
  (ret = -1 ∧ ∃ q t, rerr = Some q ∧ bound rin STDIN_FILENO fin ∧
   bound rout STDOUT_FILENO fout ∧
   evs = opened rin fin ++ opened rout fout ++
         [open_of q (-1); EWrite t (cannot_be_opened_message (req_path q))]).

(** The rules of the resolver for one call of [set_redirects] in [w], where
    [rin], [rout], [rerr] are the requests of the three streams: the
    requests are opened in the order stdin, stdout, stderr, each with the
    flags and the mode of its kind, and bound to its stream, which keeps
    the inherited descriptor when there is no request; the call returns -1
    exactly when the [open] of a request is refused, which ends the
    resolution with a message; a missing input file is reported as
    [No such file or directory]. *)
Definition follows_the_rules (rin rout rerr : option OpenRequest) (job : Input)
    (w : World) : Prop :=
  ∃ ret fin fout ferr w' evs,
    set_redirects job w = (Ret (ret, fin, fout, ferr), w') ∧
    trace (os w') = trace (os w) ++ evs ∧
    resolved_as rin rout rerr w' ret fin fout ferr evs ∧
    (ret = -1 ↔ fails_in (os w) rin || fails_in (os w) rout || fails_in (os w) rerr = true) ∧
    (∀ q, rin = Some q → req_path q ∉ files (os w) →
          ret = -1 ∧
          ∃ t, evs = [open_of q (-1); EWrite t (no_such_file_message (req_path q))]).

(** What one iteration of the loop that takes [w] to the result [r] does
    about the requests [rin], [rout], [rerr] of its line: the trace grows by
    the resolution of the three requests, which holds no [fork], and then by
    events none of which is an [open]. The resolution fails exactly when the
    [open] of a request is refused; then the iteration ends with the
    message of the resolver: nothing follows in the trace, no [fork] result
    has been consumed, the job table, the heap and the last exit status
    are as before, and the loop goes on to a fresh prompt with nothing
    pending. *)
Definition resolves_then_launches (rin rout rerr : option OpenRequest) (w : World)
    (r : Outcome Next * World) : Prop :=
  ∃ ret fin fout ferr w1 before after,
    trace (os r.2) = trace (os w) ++ before ++ after ∧
    resolved_as rin rout rerr w1 ret fin fout ferr before ∧
    Forall (λ e, is_fork e = false) before ∧
    Forall (λ e, is_open e = false) after ∧
    (ret = -1 ↔ fails_in (os w) rin || fails_in (os w) rout || fails_in (os w) rerr = true) ∧
    (ret = -1 →
       r.1 = Ret NextPrompt ∧ after = [] ∧
       fork_results (os r.2) = fork_results (os w) ∧
       current_jobs (glob r.2) = current_jobs (glob w) ∧
       heap (glob r.2) = heap (glob w) ∧
       last_exit_status (glob r.2) = last_exit_status (glob w) ∧
       hangingPipe (loc r.2) = false ∧ hangingQuote (loc r.2) = false).

(** The one exception of the code: [Input] records the name of the standard
    descriptor of a stream where the line has no redirection for it, so a
    target of that very name is taken for no redirection. *)
Definition unless_named (marker : str) (req : option OpenRequest) : option OpenRequest :=
  match req with
  | Some q => if req_path q ==s marker then None else Some q
  | None => None
  end.

(** *** What a job records of its redirections *)

(** The requests as [set_redirects] reads them off the fields of a job: a
    field that holds the name of its standard descriptor stands for no
    redirection, any other for a file to open, by the recorded operator. *)
Definition stdin_request (job : Input) : option OpenRequest :=
  if fd_STDIN job ==s lit "STDIN_FILENO" then None else Some (read_only (fd_STDIN job)).

Definition stdout_request (job : Input) : option OpenRequest :=
  if fd_STDOUT job ==s lit "STDOUT_FILENO" then None
  else if type_STDOUT job ==s lit ">>" then Some (appending (fd_STDOUT job))
  else Some (truncating (fd_STDOUT job)).

Definition stderr_request (job : Input) : option OpenRequest :=
  if fd_STDERR job ==s lit "STDERR_FILENO" then None
  else if type_STDERR job ==s lit "e>>" then Some (appending (fd_STDERR job))
  else Some (truncating (fd_STDERR job)).

(** The operator recorded with a redirection is one of the two of its stream. *)
Definition redirect_types_ok (job : Input) : Prop :=
  (fd_STDOUT job ≠ lit "STDOUT_FILENO" → type_STDOUT job ∈ [lit ">"; lit ">>"]) ∧
  (fd_STDERR job ≠ lit "STDERR_FILENO" → type_STDERR job ∈ [lit "e>"; lit "e>>"]).

(** From [w] to [w'] the globals, the heap and the locals of [main] are
    unchanged, and no [fork] has been consumed. *)
Definition same_shell (w w' : World) : Prop :=
  glob w' = glob w ∧ loc w' = loc w ∧ fork_results (os w') = fork_results (os w).

(** [m] reads and changes nothing but the operating system's state. *)
Definition os_only {A} (m : M A) : Prop :=
  ∀ w w2, os w2 = os w → m w2 = ((m w).1, with_os (λ _, os (m w).2) w2).

(** [resolved_as] for the requests a job records. *)
Definition resolved (job : Input) (w' : World) (ret fin fout ferr : Z)
    (evs : list Event) : Prop :=
  resolved_as (stdin_request job) (stdout_request job) (stderr_request job)
    w' ret fin fout ferr evs.

(** *** The [exit] built-in in the specification's words *)

(** A decimal argument: at least one character, all of them digits. *)
Definition decimal (n : str) : bool := negb (bool_decide (n = [])) && forallb isdigit n.

(** The status [exit [N]] asks for: [N], which defaults to the last exit
    status, when [N] is a decimal number that fits an [int]; nothing when
    the arguments are not of that form. *)
Definition exit_request (args : list str) (last : Z) : option Z :=
  match args with
  | [_] => Some last
  | [_; n] => if decimal n && (digits_value n <=? INT_MAX) then Some (digits_value n) else None
  | _ => None
  end.

(** The job table is sound: its entries are distinct live objects. *)
Definition jobs_live (g : Globals) : Prop :=
  NoDup (omap id (current_jobs g)) ∧
  ∀ p, Some p ∈ current_jobs g → is_Some (heap g !! p).

(** A file system that holds [in] and refuses to open [out]. *)
Definition guarded_world : World :=
  initial_world {[lit "in"]} (λ path _, bool_decide (path = lit "out")) [100; 101; 102]
    (lit "~").

(** The line [cat < in | wc > out] as a job. *)
Definition cat_wc_job : Input :=
  {| JID := -1; foreground := true; status := lit "Running";
     shellInput := lit "cat < in | wc > out";
     processes := [ {| PID := -1; PGID := -1; stopped := false; completed := false;
                       hasPipe := true; args := [lit "cat"] |};
                    {| PID := -1; PGID := -1; stopped := false; completed := false;
                       hasPipe := false; args := [lit "wc"] |} ];
     fd_STDIN := lit "in"; fd_STDOUT := lit "out"; type_STDOUT := lit ">";
     fd_STDERR := lit "STDERR_FILENO"; type_STDERR := [] |}.

(** An event other than an [open]. *)
Definition no_open (e : Event) : Prop := is_open e = false.

(** *** Jobs for examples *)

(** A pipeline whose two processes have completed. *)
Definition finished_job : Input :=
  {| JID := 100; foreground := true; status := lit "Running"; shellInput := lit "ls | wc";
     processes :=
       [ {| PID := 100; PGID := 100; stopped := false; completed := true; hasPipe := true;
            args := [lit "ls"] |};
         {| PID := 101; PGID := 100; stopped := true; completed := true; hasPipe := false;
            args := [lit "wc"] |} ];
     fd_STDIN := lit "STDIN_FILENO"; fd_STDOUT := lit "STDOUT_FILENO"; type_STDOUT := [];
     fd_STDERR := lit "STDERR_FILENO"; type_STDERR := [] |}.

(** A shell with one job in its table and the job of the line at hand
    allocated after it. *)
Definition shell_with_a_job : World :=
  let w1 := (new_Input finished_job (with_glob (glob_set_status 7) demo_world)).2 in
  (new_Input finished_job (with_glob (glob_set_jobs [Some 0%nat; None]) w1)).2.

(** The line [sort < in >> out e> err] as a job. *)
Definition sort_job : Input :=
  {| JID := -1; foreground := true; status := lit "Running";
     shellInput := lit "sort < in >> out e> err";
     processes := [ {| PID := -1; PGID := -1; stopped := false; completed := false;
                       hasPipe := false; args := [lit "sort"] |} ];
     fd_STDIN := lit "in"; fd_STDOUT := lit "out"; type_STDOUT := lit ">>";
     fd_STDERR := lit "err"; type_STDERR := lit "e>" |}.

(** *** Which words reach an argument vector *)

(** Whether the loop of [inputToProcesses] pushes [processed_argv[i]] to an
    argument vector: always when it starts a process ([i == 0], or after a
    [|]); otherwise when neither it nor its predecessor is a redirection
    operator and it is neither [|] nor [&]. *)
Definition pushed (prev : option str) (cur : str) : bool :=
  match prev with
  | None => true
  | Some p =>
      if p ==s lit "|" then true
      else no_redirect_here p cur && negb (cur ==s lit "|") && negb (cur ==s lit "&")
  end.

Fixpoint pushed_words (prev : option str) (ts : list str) : list str :=
  match ts with
  | [] => []
  | cur :: rest => (if pushed prev cur then [cur] else []) ++ pushed_words (Some cur) rest
  end.

(** Every [|] stands after a word that is neither [|] nor a redirection
    operator, and the words do not end with [|]. *)
Fixpoint pipes_well_placed (prev : option str) (ts : list str) : Prop :=
  match ts with
  | [] => prev ≠ Some (lit "|")
  | cur :: rest =>
      (cur = lit "|" → ∃ p, prev = Some p ∧ p ≠ lit "|" ∧ p ∉ redirect_ops) ∧
      pipes_well_placed (Some cur) rest
  end.

(** *** Vocabulary for the quote scanners and the argument processor *)

(** The least index of an unescaped double quote, if there is one. *)
Definition first_unescaped_quote (line : str) : option nat :=
  head (filter (λ i, unescaped_quote_index line i = true) (seq 0 (length line))).

(** The pieces of a command line as the user means them: a bare word, a
    word in double quotes, and a quoted span of several words. *)
Inductive Piece :=
  | Bare (w : str)
  | Quoted (w : str)
  | Span (a : str) (mids : list str) (b : str).

(** Words joined by single spaces. *)
Definition unwords (l : list str) : str :=
  match l with
  | [] => []
  | w :: rest => w ++ concat ((λ x, space :: x) <$> rest)
  end.

(** The words [operator>>] delivers for a piece. *)
Definition render (p : Piece) : list str :=
  match p with
  | Bare w => [w]
  | Quoted w => [dquote :: w ++ [dquote]]
  | Span a mids b => (dquote :: a) :: mids ++ [b ++ [dquote]]
  end.

(** The argument a piece stands for. *)
Definition value (p : Piece) : str :=
  match p with
  | Bare w => w
  | Quoted w => w
  | Span a mids b => unwords (a :: mids ++ [b])
  end.

(** A word without double quote and backslash. *)
Definition plain (w : str) : Prop := (dquote ∉ w) ∧ (backslash ∉ w).

(** A piece made of plain words, short enough for a [std::string]; a bare
    word neither starts nor ends with a space or a tab. *)
Definition clean (p : Piece) : Prop :=
  match p with
  | Bare w => plain w ∧ trim w = w
  | Quoted w => plain w ∧ (slen w + 3 < npos)
  | Span a mids b =>
      plain a ∧ Forall plain mids ∧ plain b ∧ (slen (unwords (a :: mids ++ [b])) + 3 < npos)
  end.

(** A process as [inputToProcesses] leaves it: a command, and the default
    member initialisers of [struct Process]. *)
Definition fresh (p : Process) : Prop :=
  args p ≠ [] ∧ PID p = -1 ∧ PGID p = -1 ∧ stopped p = false ∧ completed p = false.

(** *** Vocabulary for what the shell prints *)

(** The world after the texts have been written through [cout], one write
    each, with nothing else changed. *)
Definition wrote (texts : list str) (w : World) : World :=
  fold_left (λ w text, with_os (os_log (EWrite (fdt (os w) !! STDOUT_FILENO) text)) w) texts w.

(** The jobs the table points to, in table order, empty slots skipped. *)
Definition listed (g : Globals) : list Input :=
  omap (λ e : option nat, p ← e; heap g !! p) (current_jobs g).

(** The line [jobs] prints for a job. *)
Definition job_row (job : Input) : str :=
  setw_left 8 (dec (JID job)) ++ setw_left 13 (status job) ++ shellInput job ++ endl.

(** A world whose job table holds two jobs around an emptied slot. *)
Definition two_jobs_world : World :=
  with_glob (λ g, glob_set_next_ptr 3
                    (glob_set_jobs [Some 0%nat; None; Some 2%nat]
                       (glob_set_heap (<[0%nat := finished_job]> (<[2%nat := sort_job]> ∅)) g)))
    demo_world.

(** *** Vocabulary for the launch of a job *)

(** From [t] to [t'] a stream kept its standard descriptor [std], or got the
    descriptor [fd], which was free, for a newly opened file. *)
Definition grown (std fd : Z) (t t' : gmap Z OFD) : Prop :=
  (fd = std ∧ t' = t) ∨ (t !! fd = None ∧ ∃ d, t' = <[fd := d]> t).

(** The table after [close_redirects] has dealt with one stream. *)
Definition undo (std fd : Z) (t : gmap Z OFD) : gmap Z OFD :=
  if fd =? std then t else delete fd t.

(** The two [close] calls of [close_pipe] on the pipe of the stage before. *)
Definition closes_of (prev : option (Z * Z)) : list Event :=
  match prev with
  | Some (rd, wr) => [EClose rd 0; EClose wr 0]
  | None => []
  end.

(** What the child of a stage does: the first stage reads what the job
    reads, a later one the pipe of the stage before; the last stage writes
    where the job writes (both streams), an earlier one into its own pipe,
    with the standard error left alone. *)
Definition stage_child (fin fout ferr : Z) (i : nat) (prev next : option (Z * Z))
    (argv : list str) : Child :=
  {| child_stage := i;
     child_stdin := match prev with Some (rd, _) => rd | None => fin end;
     child_stdout := match next with Some (_, wr) => wr | None => fout end;
     child_stderr := match next with Some _ => -1 | None => ferr end;
     child_argv := argv |}.

(** The system calls of the parent for the stages from [i] on, where [pids]
    are the children to come, [pipes] the pipes to come, [prev] the pipe of
    stage [i - 1] and [pgid] the process group of the job: every stage but
    the last makes its pipe; every stage forks, puts the child into the
    group, and closes the pipe of the stage before. *)
Fixpoint stages_events (fin fout ferr pgid : Z) (argvs : list (list str)) (i : nat)
    (prev : option (Z * Z)) (pids : list Z) (pipes : list (Z * Z)) : list Event :=
  match pids with
  | [] => []
  | pid :: pids' =>
      let argv := default [] (argvs !! i) in
      match pids', pipes with
      | [], _ | _, [] =>
          [EFork pid (stage_child fin fout ferr i prev None argv); ESetpgid pid pgid]
            ++ closes_of prev
      | _, (rd, wr) :: pipes' =>
          [EPipe rd wr;
           EFork pid (stage_child fin fout ferr i prev (Some (rd, wr)) argv);
           ESetpgid pid pgid]
            ++ closes_of prev
            ++ stages_events fin fout ferr pgid argvs (S i) (Some (rd, wr)) pids' pipes'
      end
  end.

(** The [close] calls of [close_redirects]. *)
Definition redirect_closes (fin fout ferr : Z) : list Event :=
  (if fin =? STDIN_FILENO then [] else [EClose fin 0]) ++
  (if fout =? STDOUT_FILENO then [] else [EClose fout 0]) ++
  (if ferr =? STDERR_FILENO then [] else [EClose ferr 0]).

(** The job after its launch: every process has its pid, and the job and
    all its processes the pid of the first stage as group id. *)
Definition launched (pids : list Z) (j : Input) : Input :=
  let pgid := default (JID j) (head pids) in
  {| JID := pgid; foreground := foreground j; status := status j;
     shellInput := shellInput j;
     processes := zip_with (λ pid p, set_PID pid (set_PGID pgid p)) pids (processes j);
     fd_STDIN := fd_STDIN j; fd_STDOUT := fd_STDOUT j;
     type_STDOUT := type_STDOUT j; fd_STDERR := fd_STDERR j;
     type_STDERR := type_STDERR j |}.

(** The bookkeeping of the parent for stage [i], whose child is [pid]. *)
Definition book (i : nat) (pid : Z) (j : Input) : Input :=
  if bool_decide (i = 0%nat) then setJID pid (set_PID_at i pid j) else set_PID_at i pid j.

(** What the launch theorems assume of a job [j] parsed from [line] and the
    world [w] it is launched in: [set_redirects] succeeds with the
    descriptors [fin], [fout], [ferr]; the shell's three standard
    descriptors are open; every [fork] succeeds, with the pids [pids]; the
    job has as many pipes as it has stages after the first; and a job of a
    single stage is not a built-in. *)
Definition launches (line : str) (j : Input) (w : World) (fin fout ferr : Z)
    (pids rest : list Z) : Prop :=
  Input_new line = Some j ∧
  (set_redirects j w).1 = Ret (0, fin, fout, ferr) ∧
  is_Some (fdt (os w) !! STDIN_FILENO) ∧
  is_Some (fdt (os w) !! STDOUT_FILENO) ∧
  is_Some (fdt (os w) !! STDERR_FILENO) ∧
  fork_results (os w) = pids ++ rest ∧
  length pids = length (processes j) ∧ pids ≠ [] ∧
  Forall (λ p, 0 < p) pids ∧
  getNumPipes j = Z.of_nat (length (processes j)) - 1 ∧
  (length (processes j) = 1%nat → ∀ c r, args_at j 0 = c :: r → isBuiltIn c = false).

(** A directory that holds the file [in], every [open] permitted, and three
    pids for the coming [fork] calls. *)
Definition world_with_in : World :=
  initial_world {[lit "in"]} (λ _ _, false) [100; 101; 102] (lit "~").

(** The line [cat < in | sort | uniq > out] as a job. *)
Definition pipeline_job : Input :=
  {| JID := -1; foreground := true; status := lit "Running";
     shellInput := lit "cat < in | sort | uniq > out";
     processes := [ {| PID := -1; PGID := -1; stopped := false; completed := false;
                       hasPipe := true; args := [lit "cat"] |};
                    {| PID := -1; PGID := -1; stopped := false; completed := false;
                       hasPipe := true; args := [lit "sort"] |};
                    {| PID := -1; PGID := -1; stopped := false; completed := false;
                       hasPipe := false; args := [lit "uniq"] |} ];
     fd_STDIN := lit "in"; fd_STDOUT := lit "out"; type_STDOUT := lit ">";
     fd_STDERR := lit "STDERR_FILENO"; type_STDERR := [] |}.

(** *** Vocabulary for the job table *)

(** Job ids identify the jobs of the table. *)
Definition jids_distinct (g : Globals) : Prop :=
  ∀ p q jp jq, Some p ∈ current_jobs g → Some q ∈ current_jobs g →
    heap g !! p = Some jp → heap g !! q = Some jq → JID jp = JID jq → p = q.

(** A sound job table: distinct live jobs with distinct ids. *)
Definition table_sound (g : Globals) : Prop := jobs_live g ∧ jids_distinct g.

(** [w'] differs from [w] at most in the job table and the heap. *)
Definition only_jobs_changed (w w' : World) : Prop :=
  os w' = os w ∧ loc w' = loc w ∧
  last_exit_status (glob w') = last_exit_status (glob w) ∧
  next_ptr (glob w') = next_ptr (glob w).

(** The job [p], which was [j], has been reported as gone with [text] and
    [status]: its slot is empty, its object freed, the status recorded. *)
Definition gone (p : nat) (status : Z) (text : str) (w w' : World) : Prop :=
  ∃ i, current_jobs (glob w) !! i = Some (Some p) ∧
       current_jobs (glob w') = <[i := None]> (current_jobs (glob w)) ∧
       heap (glob w') = delete p (heap (glob w)) ∧
       last_exit_status (glob w') = status ∧
       next_ptr (glob w') = next_ptr (glob w) ∧
       loc w' = loc w ∧
       os w' = os_log (EWrite (fdt (os w) !! STDOUT_FILENO) text) (os w).

(** The job [p], which was [j], has got the status [st] and been reported
    as [shown]; nothing else has changed. *)
Definition marked (p : nat) (j : Input) (st shown : str) (w w' : World) : Prop :=
  glob w' = glob_set_heap (<[p := setStatus (Some st) j]> (heap (glob w))) (glob w) ∧
  loc w' = loc w ∧
  os w' = os_log (EWrite (fdt (os w) !! STDOUT_FILENO)
                    (dec (JID j) ++ lit " " ++ shown ++ lit " " ++ shellInput j ++ endl))
            (os w).

(** What the shell does about the job [p] when [waitpid] reports [r]. *)
Definition reaped (p : nat) (j : Input) (r : option JobControl.WaitStatus)
    (signal_text : Z → str) (w w' : World) : Prop :=
  match r with
  | None => w' = w
  | Some (JobControl.WExited code) => gone p code (JobControl.exited_line j (dec code)) w w'
  | Some (JobControl.WSignaled sig) =>
      gone p sig (JobControl.exited_line j (signal_text sig)) w w'
  | Some JobControl.WStopped => marked p j (lit "Stopped") (lit "Stopped") w w'
  | Some JobControl.WContinued => marked p j (lit "Running") (lit "Continued") w w'
  end.

(** Every job of the table has a process. *)
Definition jobs_have_processes (g : Globals) : Prop :=
  ∀ p j, Some p ∈ current_jobs g → heap g !! p = Some j → processes j ≠ [].

(** The pid the shell waits for on behalf of a table entry: that of the last
    process of the job. *)
Definition waited_pid (g : Globals) (e : option nat) : option Z :=
  p ← e; j ← heap g !! p; proc ← last (processes j); Some (PID proc).

(** The pids of the jobs of the table, in table order. *)
Definition polled_pids (g : Globals) : list Z := omap (waited_pid g) (current_jobs g).

(** One [waitpid] for each pid, answered by [results] in order. *)
Fixpoint polls (pids : list Z) (results : list (option JobControl.WaitStatus)) :
    list JobControl.Call :=
  match pids with
  | [] => []
  | pid :: pids' =>
      JobControl.CWaitpid pid (default None (head results)) :: polls pids' (tail results)
  end.

(** A kernel for examples: no call fails, the terminal belongs to the group
    1, and [waitpid] reports [results]. *)
Definition calm_kernel (results : list (option JobControl.WaitStatus)) : JobControl.Kernel :=
  {| JobControl.tty_pgrp := 1; JobControl.wait_results := results;
     JobControl.kill_fails := λ _ _, false; JobControl.tcsetpgrp_fails := λ _, false;
     JobControl.setenv_fails := λ _, false; JobControl.env := ∅;
     JobControl.strsignal := λ sig, if sig =? 9 then lit "Killed" else lit "Terminated";
     JobControl.setenv_error := lit "Invalid argument"; JobControl.calls := [] |}.

(** The shell of group 1 with the jobs 100 ([ls | wc], pids 100 and 101) and
    200 ([sort], pid 200) in the slots 0 and 2 of its table. *)
Definition jobs_shell (results : list (option JobControl.WaitStatus)) : JobControl.JWorld :=
  {| JobControl.base :=
       with_glob (λ g, glob_set_heap (<[2%nat := launched [200] sort_job]> (heap g)) g)
         two_jobs_world;
     JobControl.kernel := calm_kernel results;
     JobControl.shell_pgid := 1 |}.

(** What [kill_builtin] on [args] has done when it returns [r] and leaves
    [jw']. Either it has made one call of [kill], and none else, which
    returned [r]: on the pid that the last argument spells, with [SIGTERM]
    when that is the only argument, and otherwise with the signal that the
    word after [-s] spells as a number or names. Or it has made no call and
    printed one message, and [r] is -1. *)
Definition kill_outcome (args : list str) (jw : JobControl.JWorld) (r : Z)
    (jw' : JobControl.JWorld) : Prop :=
  (∃ back pid sig,
     last args = Some back ∧ JobControl.stoi_signed back = stoi_value pid ∧
     (length args = 2%nat → sig = JobControl.SIGTERM) ∧
     (length args = 4%nat →
        ∃ a0 a2, args = [a0; lit "-s"; a2; back] ∧
          if isNumber_loop a2 then stoi a2 = stoi_value sig
          else JobControl.signal_map !! a2 = Some sig) ∧
     jw' = JobControl.with_kernel (JobControl.k_log (JobControl.CKill pid sig r)) jw ∧
     r = (if JobControl.kill_fails (JobControl.kernel jw) pid sig then -1 else 0)) ∨
  (∃ text,
     jw' = JobControl.with_base
             (with_os (os_log (EWrite (fdt (os (JobControl.base jw)) !! STDOUT_FILENO) text)))
             jw ∧
     r = -1).

(** The shell of group 1 in [world_with_in], with an empty job table. *)
Definition shell_with_in (results : list (option JobControl.WaitStatus)) : JobControl.JWorld :=
  {| JobControl.base := world_with_in;
     JobControl.kernel := calm_kernel results;
     JobControl.shell_pgid := 1 |}.

(** The line [cat in &] as a job. *)
Definition cat_in_background : Input :=
  {| JID := -1; foreground := false; status := lit "Running"; shellInput := lit "cat in &";
     processes := [ {| PID := -1; PGID := -1; stopped := false; completed := false;
                       hasPipe := false; args := [lit "cat"; lit "in"] |} ];
     fd_STDIN := lit "STDIN_FILENO"; fd_STDOUT := lit "STDOUT_FILENO"; type_STDOUT := [];
     fd_STDERR := lit "STDERR_FILENO"; type_STDERR := [] |}.

(** * Theorems *)

(** ** [trim] *)

Section TrimFacts.
Implicit Types (s t pre post : str) (c : ascii).

Lemma last_not_of_None chars s :
  last_not_of chars s = None ↔ Forall (λ c, c ∈ chars) s.
Proof.
  induction s as [|c s IH]; simpl.
  - split; [constructor | done].
  - destruct (last_not_of chars s) as [i|] eqn:E.
    + split; [done |]. intros H. inversion H as [|? ? _ Hs]; subst.
      apply IH in Hs. done.
    + case_bool_decide as Hc.
      * split; [|done]. intros _. constructor; [done | by apply IH].
      * split; [done |]. intros H. inversion H; subst. done.
Qed.

Lemma last_not_of_app chars pre c post :
  c ∉ chars → Forall (λ c, c ∈ chars) post →
  last_not_of chars (pre ++ c :: post) = Some (length pre).
Proof.
  intros Hc Hpost. induction pre as [|a pre IH]; simpl.
  - apply last_not_of_None in Hpost. rewrite Hpost.
    by rewrite bool_decide_eq_false_2.
  - by rewrite IH.
Qed.

Lemma last_not_of_Some chars s i :
  last_not_of chars s = Some i →
  ∃ pre c post, s = pre ++ c :: post ∧ length pre = i ∧ (c ∉ chars) ∧
                Forall (λ c, c ∈ chars) post.
Proof.
  revert i. induction s as [|a s IH]; intros i; simpl; [done |].
  destruct (last_not_of chars s) as [j|] eqn:E.
  - intros [= <-]. destruct (IH j eq_refl) as (pre & c & post & -> & <- & Hc & Hp).
    by exists (a :: pre), c, post.
  - case_bool_decide as Ha; [done |]. intros [= <-].
    exists [], a, s. split_and!; try done. by apply last_not_of_None.
Qed.

Lemma first_not_of_None chars s :
  first_not_of chars s = None ↔ Forall (λ c, c ∈ chars) s.
Proof.
  induction s as [|c s IH]; simpl.
  - split; [constructor | done].
  - case_bool_decide as Hc.
    + rewrite fmap_None, IH. split; [by constructor |]. by inversion 1.
    + split; [done |]. by inversion 1.
Qed.

Lemma first_not_of_Some chars s i :
  first_not_of chars s = Some i →
  ∃ pre c post, s = pre ++ c :: post ∧ length pre = i ∧ (c ∉ chars) ∧
                Forall (λ c, c ∈ chars) pre.
Proof.
  revert i. induction s as [|a s IH]; intros i; simpl; [done |].
  case_bool_decide as Ha.
  - intros (j & Hj & ->)%fmap_Some.
    destruct (IH j Hj) as (pre & c & post & -> & <- & Hc & Hp).
    exists (a :: pre), c, post. split_and!; try done. by constructor.
  - intros [= <-]. by exists [], a, s.
Qed.

Lemma erase_to_end s i :
  slen s < npos → (i ≤ length s)%nat → erase s (Z.of_nat i) npos = take i s.
Proof.
  unfold erase, slen. intros Hs Hi.
  replace (Z.to_nat (Z.of_nat i)) with i by lia.
  replace (Z.to_nat _) with (length s) by lia.
  by rewrite drop_all, app_nil_r.
Qed.

Lemma erase_front s i :
  (i ≤ length s)%nat → erase s 0 (Z.of_nat i) = drop i s.
Proof.
  unfold erase, slen. intros Hi.
  replace (Z.to_nat (0 + _)) with i by lia. done.
Qed.

Lemma erase_all s : slen s < npos → erase s 0 npos = [].
Proof.
  unfold erase, slen. intros Hs.
  replace (Z.to_nat (0 + _)) with (length s) by lia.
  simpl. apply drop_all.
Qed.

End TrimFacts.

Section TrimShape.
Implicit Types (s t pre post : str) (c : ascii).

(** What [trim] computes when its positions do not wrap: the characters up to
    the last one outside [ws], from the first one outside [ws] on. *)
Lemma trim_unfold s :
  slen s < npos →
  trim s =
    match last_not_of ws s with
    | None => []
    | Some i =>
        match first_not_of ws (take (S i) s) with
        | None => []
        | Some j => drop j (take (S i) s)
        end
    end.
Proof.
  intros Hs. unfold trim, find_last_not_of, find_first_not_of.
  destruct (last_not_of ws s) as [i|] eqn:El; simpl.
  - destruct (last_not_of_Some _ _ _ El) as (pre & c & post & -> & <- & Hc & Hpost).
    assert (Hi : (S (length pre) ≤ length (pre ++ c :: post))%nat)
      by (rewrite length_app; simpl; lia).
    assert (Hadd : size_t_add (Z.of_nat (length pre)) 1 = Z.of_nat (S (length pre))).
    { unfold size_t_add. unfold slen, npos in Hs. rewrite length_app in Hs. simpl in Hs.
      rewrite Z.mod_small; lia. }
    rewrite Hadd, erase_to_end by done.
    set (s1 := take (S (length pre)) (pre ++ c :: post)).
    assert (Hs1 : slen s1 < npos).
    { unfold slen, s1 in *. rewrite length_take. lia. }
    destruct (first_not_of ws s1) as [j|] eqn:Ef; simpl.
    + destruct (first_not_of_Some _ _ _ Ef) as (pre' & c' & post' & E & <- & _ & _).
      apply erase_front. rewrite E, length_app. lia.
    + by apply erase_all.
  - replace (size_t_add npos 1) with (Z.of_nat 0) by done.
    rewrite erase_to_end by (done || lia). simpl. by apply erase_all.
Qed.

Lemma trim_erase_in_range s :
  slen s < npos →
  let pos := size_t_add (find_last_not_of s ws) 1 in
  0 ≤ pos ≤ slen s.
Proof.
  intros Hs. simpl. unfold find_last_not_of.
  destruct (last_not_of ws s) as [i|] eqn:El; simpl.
  - destruct (last_not_of_Some _ _ _ El) as (pre & c & post & -> & <- & _).
    unfold size_t_add, slen, npos in *. rewrite length_app in *. simpl in *.
    rewrite Z.mod_small; lia.
  - replace (size_t_add npos 1) with 0 by done. unfold slen. lia.
Qed.

(** The result of [trim] is empty, or starts and ends outside [ws]. *)
Lemma trim_shape s :
  slen s < npos →
  trim s = [] ∨
  (∃ c' mid pre c, trim s = c' :: mid ∧ (c' ∉ ws) ∧ c' :: mid = pre ++ [c] ∧ (c ∉ ws)).
Proof.
  intros Hs. rewrite trim_unfold by done.
  destruct (last_not_of ws s) as [i|] eqn:El.
  - destruct (last_not_of_Some _ _ _ El) as (pre & c & post & -> & <- & Hc & Hpost).
    replace (take (S (length pre)) (pre ++ c :: post)) with (pre ++ [c]).
    2:{ rewrite take_app_ge by lia. replace (S (length pre) - length pre)%nat with 1%nat by lia.
        done. }
    destruct (first_not_of ws (pre ++ [c])) as [j|] eqn:Ef.
    + right. destruct (first_not_of_Some _ _ _ Ef) as (pre' & c' & post' & E & <- & Hc' & _).
      rewrite E, drop_app_length.
      destruct (decide (post' = [])) as [->|Hne].
      * apply app_inj_tail in E as [_ <-]. by exists c, [], [], c.
      * destruct (exists_last Hne) as (post'' & x & ->).
        replace (pre' ++ c' :: post'' ++ [x]) with ((pre' ++ c' :: post'') ++ [x]) in E
          by by rewrite <-app_assoc.
        apply app_inj_tail in E as [_ <-].
        exists c', (post'' ++ [c]), (c' :: post''), c. done.
    + apply first_not_of_None in Ef. apply Forall_app in Ef as [_ Ef].
      by inversion Ef.
  - by left.
Qed.

Lemma trim_length s : slen s < npos → (length (trim s) ≤ length s)%nat.
Proof.
  intros Hs. rewrite trim_unfold by done.
  destruct (last_not_of ws s) as [i|]; [|simpl; lia].
  destruct (first_not_of ws (take (S i) s)) as [j|]; [|simpl; lia].
  rewrite length_drop, length_take. lia.
Qed.

(** A string that starts and ends outside [ws] is left alone. *)
Lemma trim_fixed c' mid pre c :
  slen (c' :: mid) < npos → c' ∉ ws → c' :: mid = pre ++ [c] → c ∉ ws →
  trim (c' :: mid) = c' :: mid.
Proof.
  intros Hs Hc' E Hc. rewrite trim_unfold by done.
  rewrite E at 1. rewrite (last_not_of_app ws pre c []) by (done || constructor).
  replace (take (S (length pre)) (c' :: mid)) with (c' :: mid).
  2:{ rewrite take_ge; [done |]. rewrite E, length_app. simpl. lia. }
  simpl. by rewrite bool_decide_eq_false_2.
Qed.

End TrimShape.

(** C10. [trim] is idempotent; its result neither begins nor ends with a
    space or a tab; and it maps a string of spaces and tabs only (the empty
    string included) to the empty string. The hypothesis says that [s] is a
    [std::string]: its length is a [size_t] below [npos]. *)
Theorem trim_idempotent_and_clean (s : str) :
  slen s < npos →
  trim (trim s) = trim s ∧
  (∀ c, head (trim s) = Some c → c ≠ space ∧ c ≠ tab) ∧
  (∀ c, last (trim s) = Some c → c ≠ space ∧ c ≠ tab) ∧
  (Forall (λ c, c = space ∨ c = tab) s → trim s = []).
Proof.
  intros Hs.
  assert (Hws : ∀ c, c ∉ ws → c ≠ space ∧ c ≠ tab).
  { intros c Hc. split; intros ->; apply Hc; unfold ws; rewrite !elem_of_cons; auto. }
  assert (Hlen := trim_length s Hs).
  destruct (trim_shape s Hs) as [E | (c' & mid & pre & c & E & Hc' & Esnoc & Hc)].
  - rewrite E. split_and!; try done.
  - rewrite E. split_and!.
    + apply (trim_fixed c' mid pre c); try done.
      rewrite <-E. unfold slen in *. lia.
    + intros x [= <-]. by apply Hws.
    + intros x. rewrite Esnoc, last_snoc. intros [= <-]. by apply Hws.
    + intros Hall. exfalso.
      assert (Hin : Forall (λ c, c ∈ ws) s).
      { eapply Forall_impl; [exact Hall |].
        intros x [->| ->]; unfold ws; rewrite !elem_of_cons; auto. }
      apply last_not_of_None in Hin. rewrite trim_unfold, Hin in E by done. done.
Qed.

Lemma trim_idempotent_and_clean_witness :
  slen (lit "  ls -l  ") < npos ∧
  trim (trim (lit "  ls -l  ")) = trim (lit "  ls -l  ") ∧
  trim (lit "  ls -l  ") = lit "ls -l".
Proof.
  split; [done |].
  split; [| reflexivity].
  apply (trim_idempotent_and_clean (lit "  ls -l  ")). done.
Defined.

(** ** Job status predicates *)

Lemma isCompleted_loop_isStopped_loop (ps : list Process) :
  isCompleted_loop ps = true → isStopped_loop ps = true.
Proof.
  induction ps as [|p ps IH]; simpl; [done |].
  destruct (completed p); simpl; [|done].
  rewrite andb_false_r. exact IH.
Qed.

(** C9. A job whose processes have all completed also counts as stopped:
    [isCompleted] implies [isStopped], whatever the flags of its processes. *)
Theorem isCompleted_implies_isStopped (job : Input) :
  isCompleted job = true → isStopped job = true.
Proof. unfold isCompleted, isStopped. apply isCompleted_loop_isStopped_loop. Qed.

Lemma isCompleted_implies_isStopped_witness :
  isCompleted finished_job = true ∧ isStopped finished_job = true.
Proof.
  split; [reflexivity |].
  apply (isCompleted_implies_isStopped finished_job). reflexivity.
Defined.

(** The converse fails: a stopped job need not be completed. *)
Lemma isStopped_not_isCompleted :
  let p := {| PID := 7; PGID := 7; stopped := true; completed := false; hasPipe := false;
              args := [lit "sleep"] |} in
  isStopped (with_processes [p] finished_job) = true ∧
  isCompleted (with_processes [p] finished_job) = false.
Proof. split; reflexivity. Qed.

(** ** The validator *)

Lemma count_of_cons ops a argv :
  count_of ops (a :: argv) = ((if bool_decide (a ∈ ops) then 1 else 0) + count_of ops argv)%nat.
Proof.
  unfold count_of. rewrite filter_cons. case_bool_decide as H.
  - by rewrite decide_True.
  - by rewrite decide_False.
Qed.

Lemma isValidInput_loop_spec fi fo fe argv :
  isValidInput_loop fi fo fe argv = true ↔
  ((if fi then 1 else 0) + count_of [lit "<"] argv ≤ 1)%nat ∧
  ((if fo then 1 else 0) + count_of [lit ">"; lit ">>"] argv ≤ 1)%nat ∧
  ((if fe then 1 else 0) + count_of [lit "e>"; lit "e>>"] argv ≤ 1)%nat.
Proof.
  revert fi fo fe. induction argv as [|a argv IH]; intros fi fo fe.
  - simpl. unfold count_of. simpl. destruct fi, fo, fe; simpl; split; (done || lia).
  - cbn [isValidInput_loop]. rewrite !count_of_cons. unfold str_eqb.
    destruct (decide (a = lit "<")) as [->|N1].
    { rewrite bool_decide_eq_true_2 by done.
      replace (bool_decide (lit "<" ∈ [lit "<"])) with true by done.
      replace (bool_decide (lit "<" ∈ [lit ">"; lit ">>"])) with false by done.
      replace (bool_decide (lit "<" ∈ [lit "e>"; lit "e>>"])) with false by done.
      destruct fi; simpl; [split; [done | lia] |]. rewrite IH. simpl. lia. }
    rewrite (bool_decide_eq_false_2 (a = lit "<")) by done.
    rewrite (bool_decide_eq_false_2 (a ∈ [lit "<"]))
      by (rewrite !elem_of_cons, elem_of_nil; intros [?|[]]; done).
    destruct (decide (a ∈ [lit ">"; lit ">>"])) as [Hout|Hout].
    { rewrite (bool_decide_eq_true_2 _ Hout).
      assert (bool_decide (a = lit ">") || bool_decide (a = lit ">>") = true) as ->.
      { rewrite !elem_of_cons, elem_of_nil in Hout. destruct Hout as [->|[->|[]]]; done. }
      assert (bool_decide (a ∈ [lit "e>"; lit "e>>"]) = false) as ->.
      { rewrite !elem_of_cons, elem_of_nil in Hout. destruct Hout as [->|[->|[]]]; done. }
      destruct fo; simpl; [split; [done | lia] |]. rewrite IH. simpl. lia. }
    rewrite (bool_decide_eq_false_2 _ Hout).
    assert (bool_decide (a = lit ">") || bool_decide (a = lit ">>") = false) as ->.
    { rewrite !elem_of_cons, elem_of_nil in Hout.
      rewrite !bool_decide_eq_false_2; [done | |]; intros ->; apply Hout; auto. }
    destruct (decide (a ∈ [lit "e>"; lit "e>>"])) as [Herr|Herr].
    { rewrite (bool_decide_eq_true_2 _ Herr).
      assert (bool_decide (a = lit "e>") || bool_decide (a = lit "e>>") = true) as ->.
      { rewrite !elem_of_cons, elem_of_nil in Herr. destruct Herr as [->|[->|[]]]; done. }
      destruct fe; simpl; [split; [done | lia] |]. rewrite IH. simpl. lia. }
    rewrite (bool_decide_eq_false_2 _ Herr).
    assert (bool_decide (a = lit "e>") || bool_decide (a = lit "e>>") = false) as ->.
    { rewrite !elem_of_cons, elem_of_nil in Herr.
      rewrite !bool_decide_eq_false_2; [done | |]; intros ->; apply Herr; auto. }
    rewrite IH. simpl. lia.
Qed.

(** On a line with at least one word the validator rejects exactly the
    lines that start with [|] or redirect one stream twice. *)
Theorem isValidInput_spec (line : str) :
  stream_words line ≠ [] →
  ∃ b, isValidInput line = Some b ∧ (b = false ↔ syntax_violation (stream_words line)).
Proof.
  intros Hne. unfold isValidInput.
  destruct line as [|c line]; [done |].
  replace (slen (c :: line) =? 0) with false by (unfold slen; simpl; lia).
  destruct (stream_words (c :: line)) as [|a argv] eqn:E; [done |].
  unfold str_eqb. case_bool_decide as Ha.
  - exists false. split; [done |]. split; [|done]. intros _. left. by rewrite Ha.
  - eexists. split; [done |]. unfold syntax_violation.
    rewrite <-not_true_iff_false, isValidInput_loop_spec. simpl.
    split.
    + intros H. right.
      destruct (decide (1 < count_of [lit "<"] (a :: argv))%nat); [by left |].
      destruct (decide (1 < count_of [lit ">"; lit ">>"] (a :: argv))%nat); [by right; left |].
      destruct (decide (1 < count_of [lit "e>"; lit "e>>"] (a :: argv))%nat); [by right; right |].
      exfalso. apply H. split_and!; cbn [Nat.add]; apply Nat.nlt_ge; assumption.
    + intros [H|H] [H1 [H2 H3]]; [by injection H |].
      cbn [Nat.add] in H1, H2, H3.
      destruct H as [H|[H|H]]; eapply Nat.lt_irrefl, Nat.lt_le_trans; eauto.
Qed.

Lemma isValidInput_spec_witness :
  stream_words (lit "cat < a < b") ≠ [] ∧
  isValidInput (lit "cat < a < b") = Some false ∧
  isValidInput (lit "cat < a > b e>> c") = Some true.
Proof.
  split; [done |]. split; [| reflexivity].
  destruct (isValidInput_spec (lit "cat < a < b")) as (b & Hb & Hiff); [done |].
  rewrite Hb. f_equal. apply Hiff. right; left. vm_compute. lia.
Defined.

(** ** Lines the shell mishandles *)

(** C3. A line that the validator rejects while a continuation is pending is
    not discarded. After [ls |] the loop waits for the rest of the pipeline;
    the rest [< a < b] makes the line invalid and the message is printed, but
    [hangingPipe] stays set and the line stays in [input]: the valid line
    [ls] that follows is appended to it and rejected as well. *)
Theorem rejected_line_is_kept_while_continuing (ext : Externals) :
  let w1 := (iteration ext (lit "ls |") demo_world).2 in
  let w2 := (iteration ext (lit "< a < b") w1).2 in
  let w3 := (iteration ext (lit "ls") w2).2 in
  isValidInput (lit "ls") = Some true ∧
  hangingPipe (loc w1) = true ∧
  last (trace (os w2)) = Some (EWrite (Some Terminal) invalid_syntax_message) ∧
  input (loc w2) = lit "ls | < a < b" ∧
  hangingPipe (loc w2) = true ∧
  input (loc w3) = lit "ls | < a < b ls" ∧
  last (trace (os w3)) = Some (EWrite (Some Terminal) invalid_syntax_message).
Proof. vm_compute. repeat split. Qed.

(** A line of white space that [trim] leaves alone (a carriage return) makes
    the validator read [argv[0]] of an empty vector. *)
Lemma isValidInput_without_words :
  trim [cr] = [cr] ∧ isValidInput [cr] = None.
Proof. split; reflexivity. Qed.

(** C1. The redirection of a built-in is never undone. After [jobs > out]
    descriptor 1 of the shell refers to the file [out], no longer to the
    terminal, and the next prompt is written into that file. *)
Theorem builtin_redirect_outlives_the_call (ext : Externals) :
  let to_out := OpenFile (lit "out") (Z.lor (Z.lor O_CREAT O_WRONLY) O_TRUNC) in
  let r := iteration ext (lit "jobs > out") demo_world in
  r.1 = Ret NextPrompt ∧
  fdt (os demo_world) !! STDOUT_FILENO = Some Terminal ∧
  fdt (os r.2) !! STDOUT_FILENO = Some to_out ∧
  last (trace (os (show_prompt r.2).2)) = Some (EWrite (Some to_out) (lit "1730sh:~$ ")).
Proof. vm_compute. repeat split. Qed.

(** C4. The accepted line [ls | | wc] yields three processes of which only
    the first has [hasPipe]: one pipe for three stages. The launcher then
    indexes the one-element array of [makePipes] at 1. *)
Theorem double_pipe_breaks_the_pipe_count (ext : Externals) :
  let line := lit "ls | | wc" in
  isValidInput line = Some true ∧
  hasQuotes line = false ∧
  last line ≠ Some "|"%char ∧
  (∃ job, Input_new line = Some job ∧
          args <$> processes job = [[lit "ls"]; [lit "|"]; [lit "wc"]] ∧
          hasPipe <$> processes job = [true; false; false] ∧
          getNumPipes job = 1) ∧
  (iteration ext line demo_world).1 = Undefined "pipes[i] outside the array of makePipes".
Proof.
  split_and!; try (vm_compute; done).
  eexists. split; [vm_compute; reflexivity |]. split_and!; reflexivity.
Qed.

(** C6. A redirection operator that is the first word of a partition is
    pushed to [argv]: [> out ls] runs the command [>] with the argument [ls],
    and [ls | > out] has a second stage whose command is [>]. *)
Theorem leading_redirect_operator_becomes_argv :
  isValidInput (lit "> out ls") = Some true ∧
  (∃ job, Input_new (lit "> out ls") = Some job ∧
          args <$> processes job = [[lit ">"; lit "ls"]] ∧
          fd_STDOUT job = lit "out") ∧
  isValidInput (lit "ls | > out") = Some true ∧
  (∃ job, Input_new (lit "ls | > out") = Some job ∧
          args <$> processes job = [[lit "ls"]; [lit ">"]]).
Proof.
  split_and!; try (vm_compute; done).
  - eexists. split; [vm_compute; reflexivity |]. split; reflexivity.
  - eexists. split; [vm_compute; reflexivity |]. reflexivity.
Qed.

(** ** Frames: which events a computation can add to the trace *)

Section Frames.
Context (P : Event → Prop).

Lemma frames_ret {A} (a : A) : frames P (mret a).
Proof. intros w. exists []. by rewrite app_nil_r. Qed.

Lemma frames_bind {A B} (m : M A) (f : A → M B) :
  frames P m → (∀ a, frames P (f a)) → frames P (m ≫= f).
Proof.
  intros Hm Hf w. destruct (Hm w) as (evs & Ht & HP & Hl).
  unfold mbind, M_bind. destruct (m w) as [[a|s|y] w1] eqn:E; simpl in *.
  - destruct (Hf a w1) as (evs' & Ht' & HP' & Hl').
    exists (evs ++ evs'). rewrite Ht', Ht, Hl', Hl, app_assoc.
    split_and!; [done | by apply Forall_app | done].
  - by exists evs.
  - by exists evs.
Qed.

Lemma frames_gets {A} (f : World → A) : frames P (gets f).
Proof. intros w. exists []. by rewrite app_nil_r. Qed.

Lemma frames_undefined {A} why : frames P (@undefined A why).
Proof. intros w. exists []. by rewrite app_nil_r. Qed.

Lemma frames_exit {A} s : frames P (@exit A s).
Proof. intros w. exists []. by rewrite app_nil_r. Qed.

Lemma frames_modify_glob f : frames P (modify (with_glob f)).
Proof. intros w. exists []. by rewrite app_nil_r. Qed.

Lemma frames_log e : P e → frames P (log e).
Proof. intros He w. exists [e]. split_and!; [done | by constructor | done]. Qed.

Lemma frames_cout text : (∀ t, P (EWrite t text)) → frames P (cout text).
Proof.
  intros HP. unfold cout. apply frames_bind; [apply frames_gets |].
  intros t. by apply frames_log.
Qed.

Lemma frames_nope_out {A} name : P (EPerror name) → frames P (@nope_out A name).
Proof.
  intros HP. unfold nope_out. apply frames_bind; [by apply frames_log |].
  intros _. apply frames_exit.
Qed.

Lemma frames_sys_open path flags mode :
  (∀ r, P (EOpen path flags mode r)) → frames P (sys_open path flags mode).
Proof.
  intros HP w. unfold sys_open. case_match; eexists [_]; simpl;
    (split_and!; [done | by constructor | done]).
Qed.

Lemma frames_sys_dup2 a b : (∀ r, P (EDup2 a b r)) → frames P (sys_dup2 a b).
Proof.
  intros HP w. unfold sys_dup2. case_match; eexists [_]; simpl;
    (split_and!; [done | by constructor | done]).
Qed.

Lemma frames_sys_close a : (∀ r, P (EClose a r)) → frames P (sys_close a).
Proof.
  intros HP w. unfold sys_close. case_match; eexists [_]; simpl;
    (split_and!; [done | by constructor | done]).
Qed.

Lemma frames_sys_pipe : (∀ a b, P (EPipe a b)) → frames P sys_pipe.
Proof.
  intros HP w. unfold sys_pipe. eexists [_]; simpl.
  split_and!; [done | by constructor | done].
Qed.

Lemma frames_sys_fork child : (∀ r, P (EFork r child)) → frames P (sys_fork child).
Proof.
  intros HP w. unfold sys_fork. case_match; eexists [_]; simpl;
    (split_and!; [done | by constructor | done]).
Qed.

Lemma frames_sys_setpgid a b : P (ESetpgid a b) → frames P (sys_setpgid a b).
Proof.
  intros HP. unfold sys_setpgid. apply frames_bind; [by apply frames_log |].
  intros _. apply frames_ret.
Qed.

Lemma frames_new_Input j : frames P (new_Input j).
Proof. intros w. exists []. by rewrite app_nil_r. Qed.

Lemma frames_delete_Input p : frames P (delete_Input p).
Proof. intros w. unfold delete_Input. case_match; exists []; by rewrite app_nil_r. Qed.

Lemma frames_deref p : frames P (deref p).
Proof. intros w. unfold deref. case_match; exists []; by rewrite app_nil_r. Qed.

Lemma frames_update_Input p f : frames P (update_Input p f).
Proof.
  unfold update_Input. apply frames_bind; [apply frames_deref |].
  intros j. apply frames_modify_glob.
Qed.

Lemma frames_run_external f args :
  (∀ t text, P (EWrite t text)) → frames P (run_external f args).
Proof.
  intros HP w. unfold run_external. destruct (f args (glob w)) as [[r g] printed]. simpl.
  set (t := fdt (os w) !! STDOUT_FILENO). clearbody t.
  exists ((EWrite t) <$> printed). split_and!; [| | done].
  - generalize (os w). induction printed as [|x printed IH]; intros o; simpl.
    + by rewrite app_nil_r.
    + rewrite IH. simpl. by rewrite <-app_assoc.
  - apply Forall_fmap, Forall_true. intros x. apply HP.
Qed.

End Frames.

(** A schematic tactic: walks down binds, conditionals and matches. *)
Ltac frames_step :=
  first
    [ apply frames_bind; [| intros ?]
    | apply frames_ret
    | apply frames_gets
    | apply frames_undefined
    | apply frames_exit
    | apply frames_modify_glob
    | apply frames_new_Input
    | apply frames_delete_Input
    | apply frames_deref
    | apply frames_update_Input
    | apply frames_cout; intros; done
    | apply frames_log; done
    | apply frames_nope_out; done
    | apply frames_sys_open; intros; done
    | apply frames_sys_dup2; intros; done
    | apply frames_sys_close; intros; done
    | apply frames_sys_pipe; intros; done
    | apply frames_sys_fork; intros; done
    | apply frames_sys_setpgid; done
    | apply frames_run_external; intros; done
    | match goal with
      | |- frames _ (if ?b then _ else _) => destruct b
      | |- frames _ (match ?x with _ => _ end) => destruct x
      end ].

Lemma frames_set_redirects job :
  frames (λ e, is_fork e = false) (set_redirects job).
Proof. unfold set_redirects, set_redirects_out, set_redirects_err. repeat frames_step. Qed.

Lemma frames_do_redirects a b c :
  frames (λ e, is_open e = false) (do_redirects a b c).
Proof. unfold do_redirects. repeat frames_step. Qed.

Lemma frames_close_redirects a b c :
  frames (λ e, is_open e = false) (close_redirects a b c).
Proof. unfold close_redirects. repeat frames_step. Qed.

Lemma frames_close_pipe p b :
  frames (λ e, is_open e = false) (close_pipe p b).
Proof. unfold close_pipe. repeat frames_step. Qed.

Lemma frames_exit_builtin args : frames no_open (exit_builtin args).
Proof. unfold exit_builtin, no_open. repeat frames_step. Qed.

Lemma frames_jobs_builtin_loop jobs : frames no_open (jobs_builtin_loop jobs).
Proof.
  unfold no_open. induction jobs as [|[p|] jobs IH]; simpl; repeat frames_step; exact IH.
Qed.

Lemma frames_jobs_builtin args : frames no_open (jobs_builtin args).
Proof.
  unfold jobs_builtin. repeat (apply frames_jobs_builtin_loop || (unfold no_open; frames_step)).
Qed.

Lemma frames_free_current_jobs i n : frames no_open (free_current_jobs i n).
Proof.
  unfold no_open. revert i. induction n as [|n IH]; intros i; simpl; repeat frames_step.
  apply IH.
Qed.

Lemma frames_callBuiltIn ext command args job :
  frames no_open (callBuiltIn ext command args job).
Proof.
  unfold callBuiltIn, set_last_exit_status.
  repeat (apply frames_jobs_builtin || apply frames_exit_builtin
          || apply frames_free_current_jobs || (unfold no_open; frames_step)).
Qed.

Lemma frames_pipe_at pipes i : frames no_open (pipe_at pipes i).
Proof. unfold pipe_at, no_open. repeat frames_step. Qed.

Lemma frames_pipe_into pipes i : frames no_open (pipe_into pipes i).
Proof. unfold pipe_into, no_open. repeat frames_step. Qed.

Lemma frames_stage_redirects pipes i size a b c :
  frames no_open (stage_redirects pipes i size a b c).
Proof.
  unfold stage_redirects. repeat (apply frames_pipe_at || (unfold no_open; frames_step)).
Qed.

Lemma frames_launch_single job a b c : frames no_open (launch_single job a b c).
Proof. unfold launch_single, no_open. repeat frames_step. Qed.

Lemma frames_launch_pipeline job a b c size pipes i n :
  frames no_open (launch_pipeline job a b c size pipes i n).
Proof.
  revert pipes i. induction n as [|n IH]; intros pipes i; simpl.
  - apply frames_ret.
  - repeat (apply frames_pipe_into || apply frames_stage_redirects || apply frames_pipe_at
            || apply frames_close_pipe || apply IH || (unfold no_open; frames_step)).
Qed.

(** What follows [set_redirects] in [launch] opens no file. *)
Lemma frames_after_set_redirects ext (j : Input) (job : nat) (r : Z * Z * Z * Z) :
  frames no_open
    (let '(ret, fd_STDIN, fd_STDOUT, fd_STDERR) := r in
     if ret =? -1 then delete_Input job;; mret NextPrompt
     else
       (if bool_decide (length (processes j) = 1%nat) then
          match args_at j 0 with
          | [] => undefined "args[0] of an empty vector"
          | command :: _ =>
              if isBuiltIn command then
                do_redirects fd_STDIN fd_STDOUT fd_STDERR;;
                close_redirects fd_STDIN fd_STDOUT fd_STDERR;;
                callBuiltIn ext command (args_at j 0) job;;
                mret false
              else
                launch_single job fd_STDIN fd_STDOUT fd_STDERR;;
                modify (with_glob (λ g, glob_set_jobs (current_jobs g ++ [Some job]) g));;
                mret true
          end
        else
          launch_pipeline job fd_STDIN fd_STDOUT fd_STDERR
            (length (processes j)) (makePipes (getNumPipes j)) 0 (length (processes j));;
          modify (with_glob (λ g, glob_set_jobs (current_jobs g ++ [Some job]) g));;
          mret true)
       ≫= λ launched : bool,
         if launched then
           close_redirects fd_STDIN fd_STDOUT fd_STDERR;;
           mret (PutJob job (foreground j))
         else mret NextPrompt).
Proof.
  destruct r as [[[ret a] b] c].
  repeat (apply frames_do_redirects || apply frames_close_redirects
          || apply frames_callBuiltIn || apply frames_launch_single
          || apply frames_launch_pipeline || (unfold no_open; frames_step)).
Qed.

Lemma frames_weaken (P Q : Event → Prop) {A} (m : M A) :
  (∀ e, P e → Q e) → frames P m → frames Q m.
Proof.
  intros HPQ Hm w. destruct (Hm w) as (evs & ? & ? & ?). exists evs.
  split_and!; [done | by eapply Forall_impl | done].
Qed.

Lemma frames_launch ext line : frames (λ _, True) (launch ext line).
Proof.
  unfold launch. destruct (Input_new line) as [j|]; [|apply frames_undefined].
  apply frames_bind; [apply frames_new_Input |]. intros job.
  apply frames_bind.
  - eapply frames_weaken; [|apply frames_set_redirects]. done.
  - intros r. eapply frames_weaken; [|apply (frames_after_set_redirects ext j job r)]. done.
Qed.

(** ** Quote counting and continuation *)

Lemma count_quotes_no_quote prev n s :
  hasQuotes_from prev s = false → count_quotes prev n s = n.
Proof.
  revert prev n. induction s as [|c s IH]; intros prev n; simpl; [done |].
  destruct (unescaped_quote_at prev c); [done |]. apply IH.
Qed.

Lemma unescaped_quote_index_at pre c rest :
  unescaped_quote_index (pre ++ c :: rest) (length pre) = unescaped_quote_at (last pre) c.
Proof.
  unfold unescaped_quote_index, unescaped_quote_at, chr_eqb.
  rewrite list_lookup_middle by done.
  assert (bool_decide (Some c = Some dquote) = bool_decide (c = dquote)) as ->.
  { apply bool_decide_ext. split; [by intros [= ->] | by intros ->]. }
  destruct (decide (pre = [])) as [->|Hne].
  - cbn [last length]. rewrite (bool_decide_eq_false_2 (_ ∧ _)) by (intros [? _]; lia).
    by rewrite andb_true_r.
  - destruct (exists_last Hne) as (pre0 & p & ->).
    rewrite last_snoc, length_app. simpl.
    f_equal. f_equal. apply bool_decide_ext.
    replace (length pre0 + 1 - 1)%nat with (length pre0) by lia.
    rewrite <-app_assoc. simpl. rewrite list_lookup_middle by done.
    split; [intros [_ H]; by simplify_eq | intros ->; split; [lia | done]].
Qed.

Lemma count_quotes_index pre rest n :
  count_quotes (last pre) n rest =
  n + Z.of_nat (length (filter (λ i, unescaped_quote_index (pre ++ rest) i = true)
                          (seq (length pre) (length rest)))).
Proof.
  revert pre n. induction rest as [|c rest IH]; intros pre n; simpl.
  - lia.
  - rewrite filter_cons, unescaped_quote_index_at.
    specialize (IH (pre ++ [c])). rewrite last_snoc, <-app_assoc in IH. simpl in IH.
    rewrite IH, length_app. simpl. replace (length pre + 1)%nat with (S (length pre)) by lia.
    destruct (unescaped_quote_at (last pre) c).
    + rewrite decide_True by done. simpl. lia.
    + rewrite decide_False by done. lia.
Qed.

(** The counter of [hasEvenQuotes] is the specification's count. *)
Lemma count_quotes_spec line :
  count_quotes None 0 line = Z.of_nat (unescaped_quotes line).
Proof. apply (count_quotes_index [] line 0). Qed.

Lemma hasEvenQuotes_spec line :
  hasEvenQuotes line = Nat.even (unescaped_quotes line).
Proof.
  unfold hasEvenQuotes. rewrite count_quotes_spec.
  set (n := unescaped_quotes line). clearbody n.
  rewrite Z.rem_mod_nonneg by lia.
  replace (Z.of_nat n `mod` 2) with (Z.of_nat (n mod 2)) by (by rewrite Nat2Z.inj_mod).
  destruct (Nat.even n) eqn:E.
  - apply Nat.even_spec in E as [k ->].
    replace (2 * k)%nat with (k * 2)%nat by lia. rewrite Nat.Div0.mod_mul. done.
  - rewrite <-Nat.negb_odd in E. apply negb_false_iff, Nat.odd_spec in E as [k ->].
    replace (2 * k + 1)%nat with (1 + k * 2)%nat by lia. rewrite Nat.Div0.mod_add. done.
Qed.

Lemma odd_quotes_hasQuotes line :
  hasQuotes line && negb (hasEvenQuotes line) = Nat.odd (unescaped_quotes line).
Proof.
  rewrite hasEvenQuotes_spec, Nat.negb_even.
  destruct (hasQuotes line) eqn:E; [done |].
  assert (H := count_quotes_no_quote None 0 line E).
  rewrite count_quotes_spec in H. by replace (unescaped_quotes line) with 0%nat by lia.
Qed.

(** What [evaluate] does with a non-empty line that passes the validator. *)
Lemma evaluate_valid_line (ext : Externals) (w : World) :
  input (loc w) ≠ [] →
  isValidInput (input (loc w)) = Some true →
  let line := input (loc w) in
  let settled := with_loc (loc_set_hangingQuote false) w in
  evaluate ext w =
    if Nat.odd (unescaped_quotes line)
    then (Ret NextPrompt, with_loc (loc_set_hangingQuote true) w)
    else if bool_decide (last line = Some "|"%char)
         then (Ret NextPrompt, with_loc (loc_set_hangingPipe true) settled)
         else launch ext line (with_loc (loc_set_hangingPipe false) settled).
Proof.
  intros Hne Hvalid line settled.
  unfold evaluate, mbind, M_bind, gets. simpl. fold line.
  unfold str_eqb. rewrite bool_decide_eq_false_2 by done.
  fold line in Hvalid. rewrite Hvalid, odd_quotes_hasQuotes.
  destruct (Nat.odd (unescaped_quotes line)); [done |].
  unfold modify. simpl. by case_bool_decide.
Qed.

(** What [evaluate] does with a non-empty line that the validator rejects. *)
Lemma evaluate_rejected_line (ext : Externals) (w : World) :
  input (loc w) ≠ [] →
  isValidInput (input (loc w)) = Some false →
  evaluate ext w =
    (Ret NextPrompt,
     with_os (os_log (EWrite (fdt (os w) !! STDOUT_FILENO) invalid_syntax_message)) w).
Proof.
  intros Hne Hvalid.
  unfold evaluate, mbind, M_bind, gets. simpl.
  unfold str_eqb. rewrite bool_decide_eq_false_2 by done.
  by rewrite Hvalid.
Qed.

(** C7, as the code has it. For a non-empty line that passes the validator:
    a continuation for an open quote is requested exactly when the count of
    unescaped double quotes is odd, and then nothing else happens; with an
    even count the line goes to [launch], unless it ends in [|], which
    requests the continuation of a pipeline. A non-empty line that the
    validator rejects gets [Invalid command syntax] on the standard output
    and nothing else, whatever its count of quotes. While a quote is pending
    the next prompt is [> ] and the next line is trimmed and appended with no
    separator. *)
Theorem quote_continuation_after_validation (ext : Externals) (w : World) :
  input (loc w) ≠ [] →
  let line := input (loc w) in
  let r := evaluate ext w in
  let settled := with_loc (loc_set_hangingQuote false) w in
  (isValidInput line = Some true →
     (hangingQuote (loc r.2) = true ↔ Nat.odd (unescaped_quotes line) = true) ∧
     (Nat.odd (unescaped_quotes line) = true →
        r = (Ret NextPrompt, with_loc (loc_set_hangingQuote true) w)) ∧
     (Nat.odd (unescaped_quotes line) = false → last line = Some "|"%char →
        r = (Ret NextPrompt, with_loc (loc_set_hangingPipe true) settled)) ∧
     (Nat.odd (unescaped_quotes line) = false → last line ≠ Some "|"%char →
        r = launch ext line (with_loc (loc_set_hangingPipe false) settled))) ∧
  (isValidInput line = Some false →
     r = (Ret NextPrompt,
          with_os (os_log (EWrite (fdt (os w) !! STDOUT_FILENO) invalid_syntax_message)) w)) ∧
  (∀ w' next, hangingQuote (loc w') = true →
     trace (os (show_prompt w').2) =
       trace (os w') ++ [EWrite (fdt (os w') !! STDOUT_FILENO) (lit "> ")] ∧
     input (loc (accumulate next w').2) = input (loc w') ++ trim next).
Proof.
  intros Hne line r settled.
  split; [|split].
  - intros Hvalid.
    assert (Hr := evaluate_valid_line ext w Hne Hvalid). fold line r settled in Hr.
    split_and!.
    + rewrite Hr. destruct (Nat.odd (unescaped_quotes line)); [done |].
      split; [|done]. case_bool_decide; simpl; [done |].
      destruct (frames_launch ext line (with_loc (loc_set_hangingPipe false) settled))
        as (_ & _ & _ & ->). done.
    + intros Hodd. by rewrite Hr, Hodd.
    + intros Hodd Hlast. by rewrite Hr, Hodd, bool_decide_eq_true_2.
    + intros Hodd Hlast. by rewrite Hr, Hodd, bool_decide_eq_false_2.
  - intros Hvalid. by apply evaluate_rejected_line.
  - intros w' next Hq. split.
    + unfold show_prompt, mbind, M_bind, gets. simpl. rewrite Hq, andb_false_r. done.
    + unfold accumulate, modify. simpl. rewrite Hq, andb_false_r. done.
Qed.

Lemma quote_continuation_after_validation_witness :
  let w := with_loc (loc_set_input (lit "echo " ++ [dquote] ++ lit "a b")) demo_world in
  let v := with_loc (loc_set_input (lit "| " ++ [dquote])) demo_world in
  (input (loc w) ≠ [] ∧
   isValidInput (input (loc w)) = Some true ∧
   unescaped_quotes (input (loc w)) = 1%nat ∧
   evaluate inert_externals w = (Ret NextPrompt, with_loc (loc_set_hangingQuote true) w)) ∧
  (input (loc v) ≠ [] ∧
   isValidInput (input (loc v)) = Some false ∧
   unescaped_quotes (input (loc v)) = 1%nat ∧
   evaluate inert_externals v =
     (Ret NextPrompt, with_os (os_log (EWrite (Some Terminal) invalid_syntax_message)) v)).
Proof.
  intros w v. split.
  - split; [done |]. split; [reflexivity |]. split; [reflexivity |].
    assert (Hne : input (loc w) ≠ []) by done.
    destruct (quote_continuation_after_validation inert_externals w Hne) as (Hvalid & _).
    by apply Hvalid.
  - split; [done |]. split; [reflexivity |]. split; [reflexivity |].
    assert (Hne : input (loc v) ≠ []) by done.
    destruct (quote_continuation_after_validation inert_externals v Hne) as (_ & Hrej & _).
    by apply Hrej.
Defined.

(** C7 as stated fails twice. The line made of a pipe sign and a double quote
    has one unescaped quote, yet the validator rejects it and no
    continuation is requested; the line [ls |]
    has none, yet it does not go on to parsing: a continuation is requested
    for the hanging pipe. *)
Lemma continuation_is_not_decided_by_quotes_alone :
  let odd_line := lit "| " ++ [dquote] in
  let r1 := iteration inert_externals odd_line demo_world in
  let r2 := iteration inert_externals (lit "ls |") demo_world in
  Nat.odd (unescaped_quotes odd_line) = true ∧
  hangingQuote (loc r1.2) = false ∧
  last (trace (os r1.2)) = Some (EWrite (Some Terminal) invalid_syntax_message) ∧
  Nat.odd (unescaped_quotes (lit "ls |")) = false ∧
  r2.1 = Ret NextPrompt ∧
  hangingPipe (loc r2.2) = true ∧
  heap (glob r2.2) = ∅.
Proof. vm_compute. repeat split. Qed.

(** ** The redirection resolver *)

(** A bind whose first computation is known. *)
Lemma bind_run {A B} (m : M A) (f : A → M B) w a w1 :
  m w = (Ret a, w1) → (m ≫= f) w = f a w1.
Proof. intros E. unfold mbind, M_bind. by rewrite E. Qed.

Lemma bind_exited {A B} (m : M A) (f : A → M B) w s w1 :
  m w = (Exited s, w1) → (m ≫= f) w = (Exited s, w1).
Proof. intros E. unfold mbind, M_bind. by rewrite E. Qed.

Lemma bind_undefined {A B} (m : M A) (f : A → M B) w y w1 :
  m w = (Undefined y, w1) → (m ≫= f) w = (Undefined y, w1).
Proof. intros E. unfold mbind, M_bind. by rewrite E. Qed.

(** The redirection fields of a job are those the setters compute. *)
Lemma Input_new_fields line job :
  Input_new line = Some job →
  fd_STDIN job = setSTDIN (shellInput job) ∧
  (fd_STDOUT job, type_STDOUT job) = setSTDOUT (shellInput job) ∧
  (fd_STDERR job, type_STDERR job) = setSTDERR (shellInput job).
Proof.
  unfold Input_new. destruct (set_foreground _); [| done]. intros [= <-].
  cbn [fd_STDIN fd_STDOUT type_STDOUT fd_STDERR type_STDERR shellInput].
  split_and!; [done | by destruct (setSTDOUT _) | by destruct (setSTDERR _)].
Qed.

Lemma lowest_free_from_ge fuel fd t : fd ≤ lowest_free_from fuel fd t.
Proof.
  revert fd. induction fuel as [|fuel IH]; intros fd; simpl; [lia |].
  destruct (t !! fd); [|lia]. specialize (IH (fd + 1)). lia.
Qed.

Lemma lowest_free_nonneg t : 0 ≤ lowest_free t.
Proof. apply lowest_free_from_ge. Qed.

Lemma sys_open_result path flags mode w :
  ∃ fd w', sys_open path flags mode w = (Ret fd, w') ∧
    trace (os w') = trace (os w) ++ [EOpen path flags mode fd] ∧
    same_shell w w' ∧
    files (os w) ⊆ files (os w') ∧
    (fd = -1 ∨ (fd ≠ -1 ∧ path ∈ files (os w'))) ∧
    (has_flag flags O_CREAT = false → path ∉ files (os w) → fd = -1).
Proof.
  unfold sys_open.
  destruct (negb (denied (os w) path flags) &&
            (has_flag flags O_CREAT || bool_decide (path ∈ files (os w)))) eqn:E.
  - eexists _, _. split; [done |]. simpl. split_and!; try done.
    + apply union_subseteq_r.
    + right. split; [| apply elem_of_union_l; by apply elem_of_singleton].
      pose proof (lowest_free_nonneg (fdt (os w))). lia.
    + intros Hc Hp. rewrite Hc, bool_decide_eq_false_2, andb_false_r in E by done. done.
  - eexists _, _. split; [done |]. simpl. split_and!; try done. by left.
Qed.

Lemma cout_result text w :
  cout text w = (Ret (), with_os (os_log (EWrite (fdt (os w) !! STDOUT_FILENO) text)) w).
Proof. done. Qed.

Lemma first_operand_op ops prev rest fd type :
  first_operand ops prev rest = Some (fd, type) → type ∈ ops.
Proof.
  revert prev. induction rest as [|cur rest IH]; intros prev; simpl; [done |].
  destruct prev as [p|]; [|apply IH].
  case_bool_decide; [by intros [= <- <-] | apply IH].
Qed.

Lemma setSTDOUT_type s :
  (setSTDOUT s).1 ≠ lit "STDOUT_FILENO" → (setSTDOUT s).2 ∈ [lit ">"; lit ">>"].
Proof.
  unfold setSTDOUT. destruct (first_operand _ _ _) as [[fd ty]|] eqn:E; simpl; [|done].
  intros _. apply first_operand_op in E. revert E. rewrite !elem_of_cons. tauto.
Qed.

Lemma setSTDERR_type s :
  (setSTDERR s).1 ≠ lit "STDERR_FILENO" → (setSTDERR s).2 ∈ [lit "e>"; lit "e>>"].
Proof.
  unfold setSTDERR. destruct (first_operand _ _ _) as [[fd ty]|] eqn:E; simpl; [|done].
  intros _. by apply first_operand_op in E.
Qed.

Lemma Input_new_types_ok line job : Input_new line = Some job → redirect_types_ok job.
Proof.
  unfold Input_new. destruct (set_foreground _); [|done]. intros [= <-].
  split; [apply setSTDOUT_type | apply setSTDERR_type].
Qed.

(** The pattern of each of the three [if]s: open, complain and give up on
    failure, go on otherwise. *)
Lemma open_or_give_up {A} path flags mode msg (failed : Z → A) (k : Z → M A) w :
  let m := fd ← sys_open path flags mode;
           if fd =? -1 then cout msg;; mret (failed fd) else k fd in
  (∃ t w', m w = (Ret (failed (-1)), w') ∧
           trace (os w') = trace (os w) ++ [EOpen path flags mode (-1); EWrite t msg] ∧
           same_shell w w' ∧ files (os w) ⊆ files (os w')) ∨
  (∃ fd w1, m w = k fd w1 ∧ fd ≠ -1 ∧
            trace (os w1) = trace (os w) ++ [EOpen path flags mode fd] ∧
            same_shell w w1 ∧ files (os w) ⊆ files (os w1) ∧ path ∈ files (os w1) ∧
            (has_flag flags O_CREAT = true ∨ path ∈ files (os w))).
Proof.
  simpl.
  destruct (sys_open_result path flags mode w) as (fd & w1 & E & Ht & Hs & Hf & Hfd & Hmiss).
  unfold mbind, M_bind. rewrite E.
  destruct Hfd as [-> | [Hne Hin]].
  - left. change (-1 =? -1) with true. cbv iota.
    eexists (fdt (os w1) !! STDOUT_FILENO), _. split; [reflexivity |]. simpl.
    rewrite Ht, <-app_assoc. destruct Hs as (? & ? & ?). done.
  - right. rewrite (proj2 (Z.eqb_neq fd (-1))) by done.
    exists fd, w1. split_and!; try done.
    destruct (has_flag flags O_CREAT) eqn:Ec; [by left | right].
    destruct (decide (path ∈ files (os w))) as [|Hn]; [done |].
    by specialize (Hmiss eq_refl Hn).
Qed.

Lemma same_shell_trans w1 w2 w3 : same_shell w1 w2 → same_shell w2 w3 → same_shell w1 w3.
Proof. intros (? & ? & ?) (? & ? & ?). split_and!; congruence. Qed.

(** The third [if] of [set_redirects]. *)
Lemma set_redirects_err_spec job fin fout w :
  redirect_types_ok job →
  ∃ ret ferr w' evs,
    set_redirects_err job fin fout w = (Ret (ret, fin, fout, ferr), w') ∧
    trace (os w') = trace (os w) ++ evs ∧ same_shell w w' ∧
    files (os w) ⊆ files (os w') ∧
    ((ret = 0 ∧ evs = opened (stderr_request job) ferr ∧
      bound (stderr_request job) STDERR_FILENO ferr ∧
      (∀ q, stderr_request job = Some q → req_path q ∈ files (os w'))) ∨
     (ret = -1 ∧ ferr = -1 ∧ ∃ q t, stderr_request job = Some q ∧
        evs = [open_of q (-1); EWrite t (cannot_be_opened_message (req_path q))])).
Proof.
  intros [_ Hty]. unfold set_redirects_err, stderr_request, str_eqb.
  case_bool_decide as Hfd; simpl.
  { eexists 0, _, w, []. rewrite app_nil_r. split_and!; try done. left. done. }
  specialize (Hty Hfd). rewrite !elem_of_cons, elem_of_nil in Hty.
  destruct Hty as [Hty|[Hty|[]]]; rewrite Hty.
  - replace (bool_decide (lit "e>" = lit "e>")) with true by done.
    replace (bool_decide (lit "e>" = lit "e>>")) with false by done.
    destruct (open_or_give_up (fd_STDERR job) (Z.lor (Z.lor O_CREAT O_WRONLY) O_TRUNC)
                (Some mode_0644) (cannot_be_opened_message (fd_STDERR job))
                (λ fd, (-1, fin, fout, fd)) (λ fd, mret (0, fin, fout, fd)) w)
      as [(t & w' & E & Ht & Hs & Hf) | (fd & w1 & E & Hne & Ht & Hs & Hf & Hin & _)].
    + eexists (-1), (-1), w', _. split; [exact E |]. split_and!; try done.
      right. split_and!; try done. by eexists _, t.
    + eexists 0, fd, w1, _. split; [exact E |]. split_and!; try done.
      left. split_and!; try done. by intros ? [= <-].
  - replace (bool_decide (lit "e>>" = lit "e>")) with false by done.
    replace (bool_decide (lit "e>>" = lit "e>>")) with true by done.
    destruct (open_or_give_up (fd_STDERR job) (Z.lor (Z.lor O_CREAT O_WRONLY) O_APPEND)
                (Some mode_0666) (cannot_be_opened_message (fd_STDERR job))
                (λ fd, (-1, fin, fout, fd)) (λ fd, mret (0, fin, fout, fd)) w)
      as [(t & w' & E & Ht & Hs & Hf) | (fd & w1 & E & Hne & Ht & Hs & Hf & Hin & _)].
    + eexists (-1), (-1), w', _. split; [exact E |]. split_and!; try done.
      right. split_and!; try done. by eexists _, t.
    + eexists 0, fd, w1, _. split; [exact E |]. split_and!; try done.
      left. split_and!; try done. by intros ? [= <-].
Qed.

(** The second [if] of [set_redirects], and the third after it. *)
Lemma set_redirects_out_spec job fin w :
  redirect_types_ok job →
  ∃ ret fout ferr w' evs,
    set_redirects_out job fin w = (Ret (ret, fin, fout, ferr), w') ∧
    trace (os w') = trace (os w) ++ evs ∧ same_shell w w' ∧
    files (os w) ⊆ files (os w') ∧
    ((ret = 0 ∧
      evs = opened (stdout_request job) fout ++ opened (stderr_request job) ferr ∧
      bound (stdout_request job) STDOUT_FILENO fout ∧
      bound (stderr_request job) STDERR_FILENO ferr ∧
      (∀ q, stdout_request job = Some q ∨ stderr_request job = Some q →
            req_path q ∈ files (os w'))) ∨
     (ret = -1 ∧ ∃ q t, stdout_request job = Some q ∧
        evs = [open_of q (-1); EWrite t (cannot_be_opened_message (req_path q))]) ∨
     (ret = -1 ∧ ∃ q t, stderr_request job = Some q ∧
        bound (stdout_request job) STDOUT_FILENO fout ∧
        evs = opened (stdout_request job) fout ++
              [open_of q (-1); EWrite t (cannot_be_opened_message (req_path q))])).
Proof.
  intros Hok.
  assert (Hnext : ∀ fout w1 (pre : list Event) (rout : option OpenRequest),
    trace (os w1) = trace (os w) ++ pre → same_shell w w1 → files (os w) ⊆ files (os w1) →
    (∀ q, rout = Some q → req_path q ∈ files (os w1)) →
    ∃ ret ferr w' evs,
      set_redirects_err job fin fout w1 = (Ret (ret, fin, fout, ferr), w') ∧
      trace (os w') = trace (os w) ++ evs ∧ same_shell w w' ∧
      files (os w) ⊆ files (os w') ∧
      ((ret = 0 ∧ evs = pre ++ opened (stderr_request job) ferr ∧
        bound (stderr_request job) STDERR_FILENO ferr ∧
        (∀ q, rout = Some q ∨ stderr_request job = Some q → req_path q ∈ files (os w'))) ∨
       (ret = -1 ∧ ∃ q t, stderr_request job = Some q ∧
          evs = pre ++ [open_of q (-1); EWrite t (cannot_be_opened_message (req_path q))]))).
  { intros fout w1 pre rout Ht Hs Hf Hrout.
    destruct (set_redirects_err_spec job fin fout w1 Hok)
      as (ret & ferr & w' & evs & E & Ht' & Hs' & Hf' & Hcases).
    exists ret, ferr, w', (pre ++ evs). split; [done |].
    rewrite Ht', Ht, <-app_assoc. split_and!; [done | by eapply same_shell_trans | by etrans |].
    destruct Hcases as [(-> & -> & Hb & Hfiles) | (-> & _ & q & t & Hq & ->)].
    - left. split_and!; try done. intros q [Hq|Hq]; [|by apply Hfiles].
      apply Hf'. by apply Hrout.
    - right. split; [done |]. by exists q, t. }
  destruct Hok as [Hty _]. unfold set_redirects_out, stdout_request, str_eqb.
  case_bool_decide as Hfd; simpl.
  { destruct (Hnext STDOUT_FILENO w [] None) as (ret & ferr & w' & evs & E & Ht & Hs & Hf & Hc);
      [by rewrite app_nil_r | done | done | done |].
    exists ret, STDOUT_FILENO, ferr, w', evs. split; [exact E |]. split_and!; try done.
    destruct Hc as [(-> & -> & Hb & Hfiles) | (-> & q & t & Hq & ->)].
    - left. done.
    - right; right. split; [done |]. by exists q, t. }
  specialize (Hty Hfd). rewrite !elem_of_cons, elem_of_nil in Hty.
  destruct Hty as [Hty|[Hty|[]]]; rewrite Hty.
  - replace (bool_decide (lit ">" = lit ">")) with true by done.
    replace (bool_decide (lit ">" = lit ">>")) with false by done.
    destruct (open_or_give_up (fd_STDOUT job) (Z.lor (Z.lor O_CREAT O_WRONLY) O_TRUNC)
                (Some mode_0644) (cannot_be_opened_message (fd_STDOUT job))
                (λ fd, (-1, fin, fd, STDERR_FILENO)) (λ fd, set_redirects_err job fin fd) w)
      as [(t & w' & E & Ht & Hs & Hf) | (fd & w1 & E & Hne & Ht & Hs & Hf & Hin & _)].
    + eexists (-1), (-1), STDERR_FILENO, w', _. split; [exact E |]. split_and!; try done.
      right; left. split; [done |]. by eexists _, t.
    + destruct (Hnext fd w1 _ (Some (truncating (fd_STDOUT job))) Ht Hs Hf)
        as (ret & ferr & w' & evs & E' & Ht' & Hs' & Hf' & Hc); [by intros ? [= <-] |].
      exists ret, fd, ferr, w', evs. split; [by rewrite <-E' |]. split_and!; try done.
      destruct Hc as [(-> & -> & Hb & Hfiles) | (-> & q & t & Hq & ->)].
      * left. done.
      * right; right. split; [done |]. by exists q, t.
  - replace (bool_decide (lit ">>" = lit ">")) with false by done.
    replace (bool_decide (lit ">>" = lit ">>")) with true by done.
    destruct (open_or_give_up (fd_STDOUT job) (Z.lor (Z.lor O_CREAT O_WRONLY) O_APPEND)
                (Some mode_0666) (cannot_be_opened_message (fd_STDOUT job))
                (λ fd, (-1, fin, fd, STDERR_FILENO)) (λ fd, set_redirects_err job fin fd) w)
      as [(t & w' & E & Ht & Hs & Hf) | (fd & w1 & E & Hne & Ht & Hs & Hf & Hin & _)].
    + eexists (-1), (-1), STDERR_FILENO, w', _. split; [exact E |]. split_and!; try done.
      right; left. split; [done |]. by eexists _, t.
    + destruct (Hnext fd w1 _ (Some (appending (fd_STDOUT job))) Ht Hs Hf)
        as (ret & ferr & w' & evs & E' & Ht' & Hs' & Hf' & Hc); [by intros ? [= <-] |].
      exists ret, fd, ferr, w', evs. split; [by rewrite <-E' |]. split_and!; try done.
      destruct Hc as [(-> & -> & Hb & Hfiles) | (-> & q & t & Hq & ->)].
      * left. done.
      * right; right. split; [done |]. by exists q, t.
Qed.

(** [set_redirects] as a whole. *)
Lemma set_redirects_resolved job w :
  redirect_types_ok job →
  ∃ ret fin fout ferr w' evs,
    set_redirects job w = (Ret (ret, fin, fout, ferr), w') ∧
    trace (os w') = trace (os w) ++ evs ∧ same_shell w w' ∧
    resolved job w' ret fin fout ferr evs ∧
    (∀ q, stdin_request job = Some q → req_path q ∉ files (os w) →
          ret = -1 ∧
          ∃ t, evs = [open_of q (-1); EWrite t (no_such_file_message (req_path q))]).
Proof.
  intros Hok. unfold resolved, resolved_as.
  assert (Hnext : ∀ fin w1 (pre : list Event),
    trace (os w1) = trace (os w) ++ pre → same_shell w w1 →
    ∃ ret fout ferr w' evs,
      set_redirects_out job fin w1 = (Ret (ret, fin, fout, ferr), w') ∧
      trace (os w') = trace (os w) ++ evs ∧ same_shell w w' ∧
      ((ret = 0 ∧
        evs = pre ++ opened (stdout_request job) fout ++ opened (stderr_request job) ferr ∧
        bound (stdout_request job) STDOUT_FILENO fout ∧
        bound (stderr_request job) STDERR_FILENO ferr ∧
        (∀ q, stdout_request job = Some q ∨ stderr_request job = Some q →
              req_path q ∈ files (os w'))) ∨
       (ret = -1 ∧ ∃ q t, stdout_request job = Some q ∧
          evs = pre ++ [open_of q (-1); EWrite t (cannot_be_opened_message (req_path q))]) ∨
       (ret = -1 ∧ ∃ q t, stderr_request job = Some q ∧
          bound (stdout_request job) STDOUT_FILENO fout ∧
          evs = pre ++ opened (stdout_request job) fout ++
                [open_of q (-1); EWrite t (cannot_be_opened_message (req_path q))]))).
  { intros fin w1 pre Ht Hs.
    destruct (set_redirects_out_spec job fin w1 Hok)
      as (ret & fout & ferr & w' & evs & E & Ht' & Hs' & _ & Hc).
    exists ret, fout, ferr, w', (pre ++ evs). split; [done |].
    rewrite Ht', Ht, <-app_assoc. split_and!; [done | by eapply same_shell_trans |].
    destruct Hc as [(-> & -> & ? & ? & ?) | [(-> & q & t & ? & ->) | (-> & q & t & ? & ? & ->)]].
    - left. done.
    - right; left. split; [done |]. by exists q, t.
    - right; right. split; [done |]. by exists q, t. }
  unfold set_redirects, stdin_request, str_eqb.
  case_bool_decide as Hfd; simpl.
  { destruct (Hnext STDIN_FILENO w []) as (ret & fout & ferr & w' & evs & E & Ht & Hs & Hc);
      [by rewrite app_nil_r | done |].
    exists ret, STDIN_FILENO, fout, ferr, w', evs. split; [exact E |].
    split_and!; try done.
    destruct Hc as [(-> & -> & ? & ? & ?) | [(-> & q & t & ? & ->) | (-> & q & t & ? & ? & ->)]].
    - left. done.
    - right; right; left. split; [done |]. by exists q, t.
    - right; right; right. split; [done |]. by exists q, t. }
  destruct (open_or_give_up (fd_STDIN job) O_RDONLY None (no_such_file_message (fd_STDIN job))
              (λ fd, (-1, fd, STDOUT_FILENO, STDERR_FILENO)) (λ fd, set_redirects_out job fd) w)
    as [(t & w' & E & Ht & Hs & Hf) | (fd & w1 & E & Hne & Ht & Hs & Hf & Hin & Hex)].
  - eexists (-1), (-1), STDOUT_FILENO, STDERR_FILENO, w', _. split; [exact E |].
    split_and!; try done.
    + right; left. split; [done |]. by eexists _, t.
    + intros q [= <-] _. split; [done |]. by exists t.
  - destruct (Hnext fd w1 _ Ht Hs) as (ret & fout & ferr & w' & evs & E' & Ht' & Hs' & Hc).
    exists ret, fd, fout, ferr, w', evs. split; [by rewrite <-E' |]. split_and!; try done.
    + destruct Hc as [(-> & -> & ? & ? & ?) | [(-> & q & t & ? & ->) | (-> & q & t & ? & ? & ->)]].
      * left. done.
      * right; right; left. split; [done |]. by exists q, t.
      * right; right; right. split; [done |]. by exists q, t.
    + intros q [= <-] Hmiss. simpl in Hmiss. destruct Hex as [Hex|Hex]; done.
Qed.

Lemma first_operand_target_after ops (ts : list str) :
  ∀ prev,
    first_operand ops prev ts =
      match prev with
      | Some p =>
          if bool_decide (p ∈ ops) then
            match ts with cur :: _ => Some (cur, p) | [] => None end
          else target_after ops ts
      | None => target_after ops ts
      end.
Proof.
  induction ts as [|cur ts IH]; intros prev.
  - destruct prev as [p|]; [by case_bool_decide | done].
  - cbn [first_operand target_after]. rewrite IH.
    destruct prev as [p|]; [by case_bool_decide | done].
Qed.

Lemma target_after_ext ops ops' (ts : list str) :
  (∀ a, a ∈ ops ↔ a ∈ ops') → target_after ops ts = target_after ops' ts.
Proof.
  intros H. induction ts as [|a ts IH]; [done |]. cbn.
  rewrite (bool_decide_ext _ _ (H a)). by rewrite IH.
Qed.

Lemma target_after_op ops ts file op : target_after ops ts = Some (file, op) → op ∈ ops.
Proof.
  induction ts as [|a ts IH]; [done |]. cbn. case_bool_decide; [| done].
  destruct ts; [done |]. by intros [= _ <-].
Qed.

(** The requests a job built from a line records are those the line
    declares, but for a target named like the marker of its stream. *)
Lemma requests_of_a_job (line : str) (job : Input) :
  Input_new line = Some job →
  stdin_request job = unless_named (lit "STDIN_FILENO") (declared_stdin (shellInput job)) ∧
  stdout_request job = unless_named (lit "STDOUT_FILENO") (declared_stdout (shellInput job)) ∧
  stderr_request job = unless_named (lit "STDERR_FILENO") (declared_stderr (shellInput job)).
Proof.
  intros Hjob. destruct (Input_new_fields line job Hjob) as (Hin & Hout & Herr).
  unfold stdin_request, stdout_request, stderr_request,
    declared_stdin, declared_stdout, declared_stderr.
  split_and!.
  - rewrite Hin. unfold setSTDIN. rewrite first_operand_target_after.
    destruct (target_after _ _) as [[file op]|]; [done |]. cbn.
    unfold str_eqb. by rewrite bool_decide_eq_true_2.
  - assert (fd_STDOUT job = (setSTDOUT (shellInput job)).1) as -> by (by rewrite <- Hout).
    assert (type_STDOUT job = (setSTDOUT (shellInput job)).2) as -> by (by rewrite <- Hout).
    unfold setSTDOUT. rewrite first_operand_target_after.
    rewrite (target_after_ext [lit ">>"; lit ">"] [lit ">"; lit ">>"])
      by (intros a; rewrite !elem_of_cons; tauto).
    destruct (target_after _ _) as [[file op]|] eqn:E; cbn.
    + unfold unless_named. by destruct (op ==s _).
    + unfold str_eqb. by rewrite bool_decide_eq_true_2.
  - assert (fd_STDERR job = (setSTDERR (shellInput job)).1) as -> by (by rewrite <- Herr).
    assert (type_STDERR job = (setSTDERR (shellInput job)).2) as -> by (by rewrite <- Herr).
    unfold setSTDERR. rewrite first_operand_target_after.
    destruct (target_after _ _) as [[file op]|] eqn:E; cbn.
    + unfold unless_named. by destruct (op ==s _).
    + unfold str_eqb. by rewrite bool_decide_eq_true_2.
Qed.

(** What [sys_open] returns. *)
Lemma sys_open_decided path flags mode w :
  let q := {| req_path := path; req_flags := flags; req_mode := mode |} in
  (open_fails (os w) q = true ∧
   sys_open path flags mode w = (Ret (-1), with_os (os_log (EOpen path flags mode (-1))) w)) ∨
  (open_fails (os w) q = false ∧
   ∃ fd w1, sys_open path flags mode w = (Ret fd, w1) ∧ fd ≠ -1 ∧
            denied (os w1) = denied (os w) ∧ fdt (os w1) !! STDOUT_FILENO =
              (<[fd := OpenFile path flags]> (fdt (os w))) !! STDOUT_FILENO).
Proof.
  intros q. unfold sys_open, open_fails. cbn [req_path req_flags q].
  destruct (denied (os w) path flags); cbn [negb andb orb]; [by left |].
  destruct (has_flag flags O_CREAT || bool_decide (path ∈ files (os w))); cbn [negb];
    [| by left].
  right. split; [done |]. eexists _, _. split; [done |]. split; [| done].
  pose proof (lowest_free_nonneg (fdt (os w))). lia.
Qed.

Lemma open_fails_creating (o o' : OS) (q : OpenRequest) :
  denied o' = denied o → has_flag (req_flags q) O_CREAT = true →
  open_fails o' q = open_fails o q.
Proof. intros Hd Hc. unfold open_fails. by rewrite Hd, Hc. Qed.

Lemma set_redirects_err_ret job fin fout w :
  redirect_types_ok job →
  ∃ ferr w',
    set_redirects_err job fin fout w =
      (Ret (if fails_in (os w) (stderr_request job) then -1 else 0, fin, fout, ferr), w') ∧
    denied (os w') = denied (os w).
Proof.
  intros [_ Hok]. unfold set_redirects_err, stderr_request, fails_in.
  destruct (fd_STDERR job ==s lit "STDERR_FILENO") eqn:Em; cbn [negb]; [by eexists _, _ |].
  assert (Hty : type_STDERR job ∈ [lit "e>"; lit "e>>"]).
  { apply Hok. intros E. unfold str_eqb in Em. by rewrite bool_decide_eq_true_2 in Em. }
  apply elem_of_cons in Hty as [Hty | Hty%list_elem_of_singleton]; rewrite Hty.
  - change (lit "e>" ==s lit "e>") with true. change (lit "e>" ==s lit "e>>") with false.
    cbv iota.
    destruct (sys_open_decided (fd_STDERR job) (Z.lor (Z.lor O_CREAT O_WRONLY) O_TRUNC)
                (Some mode_0644) w) as [[Hf E] | [Hf (fd & w1 & E & Hfd & Hd & _)]].
    + rewrite (bind_run _ _ _ _ _ E). change (-1 =? -1) with true. cbv iota.
      change (open_fails (os w) (truncating (fd_STDERR job))) with
        (open_fails (os w) {| req_path := fd_STDERR job;
                              req_flags := Z.lor (Z.lor O_CREAT O_WRONLY) O_TRUNC;
                              req_mode := Some mode_0644 |}).
      rewrite Hf. by eexists _, _.
    + rewrite (bind_run _ _ _ _ _ E). rewrite (proj2 (Z.eqb_neq fd (-1))) by done.
      change (open_fails (os w) (truncating (fd_STDERR job))) with
        (open_fails (os w) {| req_path := fd_STDERR job;
                              req_flags := Z.lor (Z.lor O_CREAT O_WRONLY) O_TRUNC;
                              req_mode := Some mode_0644 |}).
      rewrite Hf. by eexists _, _.
  - change (lit "e>>" ==s lit "e>") with false. change (lit "e>>" ==s lit "e>>") with true.
    cbv iota.
    destruct (sys_open_decided (fd_STDERR job) (Z.lor (Z.lor O_CREAT O_WRONLY) O_APPEND)
                (Some mode_0666) w) as [[Hf E] | [Hf (fd & w1 & E & Hfd & Hd & _)]].
    + rewrite (bind_run _ _ _ _ _ E). change (-1 =? -1) with true. cbv iota.
      change (open_fails (os w) (appending (fd_STDERR job))) with
        (open_fails (os w) {| req_path := fd_STDERR job;
                              req_flags := Z.lor (Z.lor O_CREAT O_WRONLY) O_APPEND;
                              req_mode := Some mode_0666 |}).
      rewrite Hf. by eexists _, _.
    + rewrite (bind_run _ _ _ _ _ E). rewrite (proj2 (Z.eqb_neq fd (-1))) by done.
      change (open_fails (os w) (appending (fd_STDERR job))) with
        (open_fails (os w) {| req_path := fd_STDERR job;
                              req_flags := Z.lor (Z.lor O_CREAT O_WRONLY) O_APPEND;
                              req_mode := Some mode_0666 |}).
      rewrite Hf. by eexists _, _.
Qed.

Lemma set_redirects_out_ret job fin w :
  redirect_types_ok job →
  ∃ fout ferr w',
    set_redirects_out job fin w =
      (Ret (if fails_in (os w) (stdout_request job) || fails_in (os w) (stderr_request job)
            then -1 else 0, fin, fout, ferr), w').
Proof.
  intros Hok. pose proof Hok as [Hty _].
  assert (Herr_creates : ∀ o o', denied o' = denied o →
            fails_in o' (stderr_request job) = fails_in o (stderr_request job)).
  { intros o o' Hd. unfold fails_in, stderr_request.
    destruct (fd_STDERR job ==s _); [done |].
    destruct (type_STDERR job ==s _); by apply open_fails_creating. }
  unfold set_redirects_out, stdout_request.
  destruct (fd_STDOUT job ==s lit "STDOUT_FILENO") eqn:Em; cbn [negb fails_in orb].
  { destruct (set_redirects_err_ret job fin STDOUT_FILENO w Hok) as (ferr & w' & E & _).
    rewrite E. by eexists _, _, _. }
  assert (Hin : type_STDOUT job ∈ [lit ">"; lit ">>"]).
  { apply Hty. intros E. unfold str_eqb in Em. by rewrite bool_decide_eq_true_2 in Em. }
  assert (Hstage : ∀ flags mode,
    ∃ fout ferr w',
      (fdSTDOUT ← sys_open (fd_STDOUT job) flags mode;
       if fdSTDOUT =? -1 then
         cout (lit "1730sh: `" ++ fd_STDOUT job ++ lit "' cannot be opened" ++ endl);;
         mret (-1, fin, fdSTDOUT, STDERR_FILENO)
       else set_redirects_err job fin fdSTDOUT) w =
      (Ret (if open_fails (os w) {| req_path := fd_STDOUT job; req_flags := flags;
                                    req_mode := mode |}
               || fails_in (os w) (stderr_request job)
            then -1 else 0, fin, fout, ferr), w')).
  { intros flags mode.
    destruct (sys_open_decided (fd_STDOUT job) flags mode w)
      as [[Hf E] | [Hf (fd & w1 & E & Hfd & Hd & _)]]; cbv zeta in Hf; rewrite Hf.
    - rewrite (bind_run _ _ _ _ _ E). change (-1 =? -1) with true. cbv iota.
      by eexists _, _, _.
    - rewrite (bind_run _ _ _ _ _ E). rewrite (proj2 (Z.eqb_neq fd (-1))) by done.
      destruct (set_redirects_err_ret job fin fd w1 Hok) as (ferr & w' & E' & _).
      rewrite E', (Herr_creates (os w) (os w1) Hd). by eexists _, _, _. }
  apply elem_of_cons in Hin as [Hin | Hin%list_elem_of_singleton]; rewrite Hin.
  - change (lit ">" ==s lit ">") with true. change (lit ">" ==s lit ">>") with false.
    cbv iota. apply Hstage.
  - change (lit ">>" ==s lit ">") with false. change (lit ">>" ==s lit ">>") with true.
    cbv iota. apply Hstage.
Qed.

(** [set_redirects] returns -1 exactly when the [open] of one of its
    requests is refused. *)
Lemma set_redirects_ret job w :
  redirect_types_ok job →
  ∃ fin fout ferr w',
    set_redirects job w =
      (Ret (if fails_in (os w) (stdin_request job) || fails_in (os w) (stdout_request job)
               || fails_in (os w) (stderr_request job)
            then -1 else 0, fin, fout, ferr), w').
Proof.
  intros Hok.
  assert (Hcreates : ∀ o o', denied o' = denied o →
            fails_in o' (stdout_request job) = fails_in o (stdout_request job) ∧
            fails_in o' (stderr_request job) = fails_in o (stderr_request job)).
  { intros o o' Hd. unfold fails_in, stdout_request, stderr_request. split.
    - destruct (fd_STDOUT job ==s _); [done |].
      destruct (type_STDOUT job ==s _); by apply open_fails_creating.
    - destruct (fd_STDERR job ==s _); [done |].
      destruct (type_STDERR job ==s _); by apply open_fails_creating. }
  unfold set_redirects, stdin_request.
  destruct (fd_STDIN job ==s lit "STDIN_FILENO") eqn:Em; cbn [negb fails_in orb].
  { destruct (set_redirects_out_ret job STDIN_FILENO w Hok) as (fout & ferr & w' & E).
    rewrite E. by eexists _, _, _, _. }
  destruct (sys_open_decided (fd_STDIN job) O_RDONLY None w)
    as [[Hf E] | [Hf (fd & w1 & E & Hfd & Hd & _)]]; cbv zeta in Hf;
    change (open_fails (os w) (read_only (fd_STDIN job))) with
      (open_fails (os w) {| req_path := fd_STDIN job; req_flags := O_RDONLY;
                            req_mode := None |});
    rewrite Hf.
  - rewrite (bind_run _ _ _ _ _ E). change (-1 =? -1) with true. cbv iota.
    by eexists _, _, _, _.
  - rewrite (bind_run _ _ _ _ _ E). rewrite (proj2 (Z.eqb_neq fd (-1))) by done.
    destruct (set_redirects_out_ret job fd w1 Hok) as (fout & ferr & w' & E').
    destruct (Hcreates (os w) (os w1) Hd) as [H1 H2].
    rewrite E', H1, H2. by eexists _, _, _, _.
Qed.

Lemma if_minus_one (b : bool) : (if b then -1 else 0) = -1 ↔ b = true.
Proof. by destruct b. Qed.

(** The resolver on the requests a job records. *)
Lemma set_redirects_follows_its_requests (job : Input) (w : World) :
  redirect_types_ok job →
  follows_the_rules (stdin_request job) (stdout_request job) (stderr_request job) job w.
Proof.
  intros Hok.
  destruct (set_redirects_resolved job w Hok)
    as (ret & fin & fout & ferr & w' & evs & E & Ht & _ & Hr & Hmiss).
  destruct (set_redirects_ret job w Hok) as (fin' & fout' & ferr' & w'' & E').
  rewrite E in E'. injection E' as Hret _ _ _ _.
  exists ret, fin, fout, ferr, w', evs. split_and!; try done.
  rewrite Hret. apply if_minus_one.
Qed.

(** C5, as the code has it. For a job built from a line, [set_redirects]
    follows the rules of the resolver on what the line declares: [<file] is
    opened read-only, and a missing file is reported as
    [No such file or directory]; [>file] is opened write-only, created with
    mode 0644 if absent, and truncated; [>>file] write-only, created with
    mode 0666 if absent, for appending; [e>file] and [e>>file] likewise,
    bound to the standard error; a stream without a redirection keeps its
    inherited descriptor. The exception: a target named [STDIN_FILENO],
    [STDOUT_FILENO] or [STDERR_FILENO] after [<], after [>] or [>>], or
    after [e>] or [e>>] is the marker of no redirection, and no file of
    that name is opened. *)
Theorem set_redirects_follows_the_resolver_rules (line : str) (job : Input) (w : World) :
  Input_new line = Some job →
  follows_the_rules
    (unless_named (lit "STDIN_FILENO") (declared_stdin (shellInput job)))
    (unless_named (lit "STDOUT_FILENO") (declared_stdout (shellInput job)))
    (unless_named (lit "STDERR_FILENO") (declared_stderr (shellInput job)))
    job w.
Proof.
  intros Hjob. destruct (requests_of_a_job line job Hjob) as (<- & <- & <-).
  apply set_redirects_follows_its_requests. by eapply Input_new_types_ok.
Qed.

Lemma set_redirects_follows_the_resolver_rules_witness :
  Input_new (lit "sort < in >> out e> err") = Some sort_job ∧
  declared_stdin (shellInput sort_job) = Some (read_only (lit "in")) ∧
  declared_stdout (shellInput sort_job) = Some (appending (lit "out")) ∧
  declared_stderr (shellInput sort_job) = Some (truncating (lit "err")) ∧
  follows_the_rules (Some (read_only (lit "in"))) (Some (appending (lit "out")))
    (Some (truncating (lit "err"))) sort_job world_with_in.
Proof.
  split; [reflexivity |]. split; [reflexivity |]. split; [reflexivity |].
  split; [reflexivity |].
  exact (set_redirects_follows_the_resolver_rules
           (lit "sort < in >> out e> err") sort_job world_with_in eq_refl).
Defined.

(** C5 as stated fails for a file named like a marker. The line
    [cat < STDIN_FILENO] declares the input file [STDIN_FILENO]; in a
    directory without such a file the rules demand a failed [open] and the
    message [No such file or directory], but [set_redirects] returns 0
    with the inherited descriptors and never calls [open]. Likewise
    [ls > STDOUT_FILENO] creates no file. *)
Lemma marker_named_file_is_never_opened :
  (∃ job, Input_new (lit "cat < STDIN_FILENO") = Some job ∧
     declared_stdin (shellInput job) = Some (read_only (lit "STDIN_FILENO")) ∧
     (lit "STDIN_FILENO" ∉ files (os demo_world)) ∧
     set_redirects job demo_world =
       (Ret (0, STDIN_FILENO, STDOUT_FILENO, STDERR_FILENO), demo_world) ∧
     ¬ follows_the_rules (declared_stdin (shellInput job)) (declared_stdout (shellInput job))
         (declared_stderr (shellInput job)) job demo_world) ∧
  (∃ job, Input_new (lit "ls > STDOUT_FILENO") = Some job ∧
     declared_stdout (shellInput job) = Some (truncating (lit "STDOUT_FILENO")) ∧
     set_redirects job demo_world =
       (Ret (0, STDIN_FILENO, STDOUT_FILENO, STDERR_FILENO), demo_world) ∧
     ¬ follows_the_rules (declared_stdin (shellInput job)) (declared_stdout (shellInput job))
         (declared_stderr (shellInput job)) job demo_world).
Proof.
  split.
  - eexists. split; [vm_compute; reflexivity |]. split; [reflexivity |].
    split; [apply not_elem_of_empty |]. split; [reflexivity |].
    intros (ret & fin & fout & ferr & w' & evs & E & Ht & Hr & _).
    injection E as <- <- <- <- <-. cbn in Ht. symmetry in Ht.
    destruct Hr as [(_ & -> & _) | [(Hret & _) | [(Hret & _) | (Hret & _)]]]; done.
  - eexists. split; [vm_compute; reflexivity |]. split; [reflexivity |].
    split; [reflexivity |].
    intros (ret & fin & fout & ferr & w' & evs & E & Ht & Hr & _).
    injection E as <- <- <- <- <-. cbn in Ht. symmetry in Ht.
    destruct Hr as [(_ & -> & _) | [(Hret & _) | [(Hret & _) | (Hret & _)]]]; done.
Qed.

(** The same job where [in] exists: three descriptors, three [open] calls. *)
Lemma set_redirects_sort_job :
  let w := initial_world {[lit "in"]} (λ _ _, false) [] (lit "~") in
  (set_redirects sort_job w).1 = Ret (0, 3, 4, 5) ∧
  trace (os (set_redirects sort_job w).2) =
    [open_of (read_only (lit "in")) 3; open_of (appending (lit "out")) 4;
     open_of (truncating (lit "err")) 5].
Proof. vm_compute. split; reflexivity. Qed.

(** ** Redirections are resolved first *)

Lemma os_only_ret {A} (a : A) : os_only (mret a).
Proof. intros w w2 H. unfold mret, M_ret. simpl. destruct w2. unfold with_os. simpl in *. by subst. Qed.

Lemma os_only_bind {A B} (m : M A) (f : A → M B) :
  os_only m → (∀ a, os_only (f a)) → os_only (m ≫= f).
Proof.
  intros Hm Hf w w2 H. unfold mbind, M_bind. rewrite (Hm w w2 H).
  destruct (m w) as [[a|s|y] w1]; simpl; [|done..].
  by rewrite (Hf a w1 (with_os (λ _, os w1) w2)).
Qed.

Lemma os_only_sys_open path flags mode : os_only (sys_open path flags mode).
Proof.
  intros w w2 H. unfold sys_open. rewrite H.
  destruct (negb _ && _); simpl; unfold with_os; simpl; by rewrite H.
Qed.

Lemma os_only_cout text : os_only (cout text).
Proof. intros w w2 H. rewrite !cout_result. unfold with_os. simpl. by rewrite H. Qed.

Ltac os_only_step :=
  first
    [ apply os_only_cout
    | apply os_only_sys_open
    | apply os_only_ret
    | apply os_only_bind; [| intros ?]
    | match goal with |- os_only (if ?b then _ else _) => destruct b end ].

Lemma os_only_set_redirects job : os_only (set_redirects job).
Proof. unfold set_redirects, set_redirects_out, set_redirects_err. repeat os_only_step. Qed.

(** In every run of [launch] the [open] calls come before the [fork] calls:
    the trace grows by the events of [set_redirects], none of them a [fork],
    and then by events none of which is an [open]. *)
Lemma launch_opens_before_forks ext line w :
  ∃ before after,
    trace (os (launch ext line w).2) = trace (os w) ++ before ++ after ∧
    Forall (λ e, is_fork e = false) before ∧ Forall (λ e, is_open e = false) after.
Proof.
  unfold launch. destruct (Input_new line) as [j|]; [|by exists [], []; rewrite app_nil_r].
  unfold mbind at 1, M_bind at 1. simpl.
  set (wa := with_glob _ w).
  unfold mbind at 1, M_bind at 1.
  destruct (frames_set_redirects j wa) as (evs1 & Ht1 & HP1 & _).
  destruct (set_redirects j wa) as [[r|s|y] w1] eqn:E; simpl in Ht1.
  - destruct (frames_after_set_redirects ext j (next_ptr (glob w)) r w1)
      as (evs2 & Ht2 & HP2 & _).
    exists evs1, evs2. split_and!; [| done..].
    rewrite app_assoc, <-Ht1. exact Ht2.
  - exists evs1, []. by rewrite app_nil_r.
  - exists evs1, []. by rewrite app_nil_r.
Qed.

(** One iteration on what the job of its line records. *)
Lemma evaluate_resolves_then_launches (ext : Externals) (w : World) (job : Input) :
  input (loc w) ≠ [] →
  isValidInput (input (loc w)) = Some true →
  Nat.odd (unescaped_quotes (input (loc w))) = false →
  last (input (loc w)) ≠ Some "|"%char →
  Input_new (input (loc w)) = Some job →
  heap (glob w) !! next_ptr (glob w) = None →
  resolves_then_launches (stdin_request job) (stdout_request job) (stderr_request job)
    w (evaluate ext w).
Proof.
  intros Hne Hvalid Heven Hlast Hjob Hfree.
  assert (Hr := evaluate_valid_line ext w Hne Hvalid). cbv zeta in Hr.
  rewrite Heven, bool_decide_eq_false_2 in Hr by done.
  set (ws := with_loc (loc_set_hangingPipe false) (with_loc (loc_set_hangingQuote false) w))
    in Hr.
  set (wa := (new_Input job ws).2).
  assert (Hos : os wa = os w) by done.
  pose proof (Input_new_types_ok _ _ Hjob) as Hok.
  destruct (set_redirects_follows_its_requests job wa Hok)
    as (ret & fin & fout & ferr & w1 & evs & E & Ht & Hres & Hret & _).
  rewrite Hos in Ht, Hret.
  destruct (frames_set_redirects job wa) as (evs1 & Ht1 & Hnofork & _).
  rewrite E in Ht1. cbn [snd] in Ht1. rewrite Hos, Ht in Ht1.
  apply app_inv_head in Ht1 as <-.
  destruct (frames_after_set_redirects ext job (next_ptr (glob w)) (ret, fin, fout, ferr) w1)
    as (evs2 & Ht2 & Hnoopen & _).
  assert (Hlaunch : evaluate ext w =
            (let '(ret, fd_STDIN, fd_STDOUT, fd_STDERR) := (ret, fin, fout, ferr) in
             if ret =? -1 then delete_Input (next_ptr (glob w));; mret NextPrompt
             else
               (if bool_decide (length (processes job) = 1%nat) then
                  match args_at job 0 with
                  | [] => undefined "args[0] of an empty vector"
                  | command :: _ =>
                      if isBuiltIn command then
                        do_redirects fd_STDIN fd_STDOUT fd_STDERR;;
                        close_redirects fd_STDIN fd_STDOUT fd_STDERR;;
                        callBuiltIn ext command (args_at job 0) (next_ptr (glob w));;
                        mret false
                      else
                        launch_single (next_ptr (glob w)) fd_STDIN fd_STDOUT fd_STDERR;;
                        modify (with_glob (λ g, glob_set_jobs
                                  (current_jobs g ++ [Some (next_ptr (glob w))]) g));;
                        mret true
                  end
                else
                  launch_pipeline (next_ptr (glob w)) fd_STDIN fd_STDOUT fd_STDERR
                    (length (processes job)) (makePipes (getNumPipes job)) 0
                    (length (processes job));;
                  modify (with_glob (λ g, glob_set_jobs
                            (current_jobs g ++ [Some (next_ptr (glob w))]) g));;
                  mret true)
               ≫= λ launched : bool,
                 if launched then
                   close_redirects fd_STDIN fd_STDOUT fd_STDERR;;
                   mret (PutJob (next_ptr (glob w)) (foreground job))
                 else mret NextPrompt) w1).
  { rewrite Hr. unfold launch. rewrite Hjob.
    unfold mbind at 1, M_bind at 1.
    change (new_Input job ws) with (Ret (next_ptr (glob w)), wa).
    cbv iota beta. unfold mbind at 1, M_bind at 1. rewrite E. reflexivity. }
  rewrite <- Hlaunch in Ht2.
  exists ret, fin, fout, ferr, w1, evs, evs2. split_and!; try done.
  - rewrite Ht2, Ht. by rewrite app_assoc.
  - intros ->. rewrite Hlaunch in Ht2 |- *. cbv iota beta in Ht2 |- *.
    change (-1 =? -1) with true in Ht2 |- *. cbv iota in Ht2 |- *.
    destruct (set_redirects_resolved job wa Hok)
      as (? & ? & ? & ? & w1' & ? & E' & _ & (Hg & Hl & Hfk) & _).
    rewrite E in E'. injection E' as _ _ _ _ <-.
    assert (Hdel : (delete_Input (next_ptr (glob w));; mret NextPrompt) w1 =
              (Ret NextPrompt,
               with_glob (λ g, glob_set_heap (delete (next_ptr (glob w)) (heap g)) g) w1)).
    { unfold mbind, M_bind, delete_Input. rewrite Hg. cbn. by rewrite lookup_insert_eq. }
    rewrite Hdel in Ht2 |- *. cbn [fst snd] in Ht2 |- *. cbn in Ht2.
    assert (Hw1 : glob w1 = glob wa ∧ loc w1 = loc wa ∧
                  fork_results (os w1) = fork_results (os wa)) by done.
    clear Hg Hl Hfk. destruct Hw1 as (Hg & Hl & Hfk).
    split; [done |]. split.
    { rewrite <- (app_nil_r (trace (os w1))) in Ht2 at 1. by apply app_inv_head in Ht2. }
    unfold with_glob. cbn [snd os glob loc glob_set_heap current_jobs heap last_exit_status].
    rewrite Hg, Hl, Hfk. cbn.
    split_and!; try done. by rewrite delete_insert_id.
Qed.

(** C2, as the code has it. For a complete, valid line whose job is [job],
    one iteration resolves the three redirection targets the line
    declares before any [fork], and when the [open] of one of them is
    refused it abandons the job: no child is created, the job is deleted,
    the job table and the heap are as before, the message of the resolver
    names the file, and the loop goes on to a fresh prompt. The exception is
    that of the resolver: a target named like the marker of its stream is
    no redirection. *)
Theorem failed_redirect_abandons_the_job (ext : Externals) (w : World) (job : Input) :
  input (loc w) ≠ [] →
  isValidInput (input (loc w)) = Some true →
  Nat.odd (unescaped_quotes (input (loc w))) = false →
  last (input (loc w)) ≠ Some "|"%char →
  Input_new (input (loc w)) = Some job →
  heap (glob w) !! next_ptr (glob w) = None →
  resolves_then_launches
    (unless_named (lit "STDIN_FILENO") (declared_stdin (shellInput job)))
    (unless_named (lit "STDOUT_FILENO") (declared_stdout (shellInput job)))
    (unless_named (lit "STDERR_FILENO") (declared_stderr (shellInput job)))
    w (evaluate ext w).
Proof.
  intros Hne Hvalid Heven Hlast Hjob Hfree.
  destruct (requests_of_a_job _ job Hjob) as (<- & <- & <-).
  by apply evaluate_resolves_then_launches.
Qed.

Lemma failed_redirect_abandons_the_job_witness :
  let w := with_loc (loc_set_input (lit "cat < in | wc > out")) guarded_world in
  let r := evaluate inert_externals w in
  (input (loc w) ≠ [] ∧ isValidInput (input (loc w)) = Some true ∧
   Nat.odd (unescaped_quotes (input (loc w))) = false ∧
   last (input (loc w)) ≠ Some "|"%char ∧
   Input_new (input (loc w)) = Some cat_wc_job ∧
   heap (glob w) !! next_ptr (glob w) = None) ∧
  declared_stdin (shellInput cat_wc_job) = Some (read_only (lit "in")) ∧
  declared_stdout (shellInput cat_wc_job) = Some (truncating (lit "out")) ∧
  open_fails (os w) (truncating (lit "out")) = true ∧
  r.1 = Ret NextPrompt ∧
  fork_results (os r.2) = fork_results (os w) ∧
  current_jobs (glob r.2) = current_jobs (glob w) ∧
  heap (glob r.2) = heap (glob w) ∧
  trace (os r.2) =
    [open_of (read_only (lit "in")) 3; open_of (truncating (lit "out")) (-1);
     EWrite (Some Terminal) (cannot_be_opened_message (lit "out"))].
Proof.
  intros w r.
  assert (H1 : input (loc w) ≠ []) by (vm_compute; discriminate).
  assert (H2 : isValidInput (input (loc w)) = Some true) by (vm_compute; reflexivity).
  assert (H3 : Nat.odd (unescaped_quotes (input (loc w))) = false)
    by (vm_compute; reflexivity).
  assert (H4 : last (input (loc w)) ≠ Some "|"%char) by (vm_compute; discriminate).
  assert (H5 : Input_new (input (loc w)) = Some cat_wc_job) by (vm_compute; reflexivity).
  assert (H6 : heap (glob w) !! next_ptr (glob w) = None) by (vm_compute; reflexivity).
  split; [repeat split; assumption |].
  split; [vm_compute; reflexivity |]. split; [vm_compute; reflexivity |].
  split; [vm_compute; reflexivity |].
  destruct (failed_redirect_abandons_the_job inert_externals w cat_wc_job H1 H2 H3 H4 H5 H6)
    as (ret & fin & fout & ferr & w1 & before & after & Ht & Hres & _ & _ & Hret & Hfail).
  destruct (Hfail (proj2 Hret ltac:(vm_compute; reflexivity)))
    as (Hr & _ & Hfk & Hjobs & Hheap & _).
  split; [exact Hr |]. split; [exact Hfk |]. split; [exact Hjobs |].
  split; [exact Hheap |]. vm_compute. reflexivity.
Defined.

(** C2 as stated fails for a target that carries the name of the marker of
    no redirection: the line [cat < STDIN_FILENO] declares a standard input,
    yet nothing is opened and the first event of the launch is the [fork]. *)
Lemma marker_named_target_is_not_resolved :
  let line := lit "cat < STDIN_FILENO" in
  let w := with_loc (loc_set_input line) demo_world in
  let r := evaluate inert_externals w in
  (input (loc w) ≠ [] ∧ isValidInput (input (loc w)) = Some true ∧
   Nat.odd (unescaped_quotes (input (loc w))) = false ∧
   last (input (loc w)) ≠ Some "|"%char ∧
   heap (glob w) !! next_ptr (glob w) = None) ∧
  (∃ job, Input_new (input (loc w)) = Some job ∧ shellInput job = line) ∧
  declared_stdin line = Some (read_only (lit "STDIN_FILENO")) ∧
  open_fails (os w) (read_only (lit "STDIN_FILENO")) = true ∧
  (∃ child, trace (os r.2) = [EFork 100 child; ESetpgid 100 100]) ∧
  ¬ resolves_then_launches (declared_stdin line) (declared_stdout line)
      (declared_stderr line) w r.
Proof.
  intros line w r.
  split; [split_and!; vm_compute; (reflexivity || discriminate) |].
  split; [eexists; split; vm_compute; reflexivity |].
  split; [vm_compute; reflexivity |]. split; [vm_compute; reflexivity |].
  split; [eexists; vm_compute; reflexivity |].
  intros (ret & fin & fout & ferr & w1 & before & after & Ht & Hres & Hnofork & _).
  assert (Hrin : declared_stdin line = Some (read_only (lit "STDIN_FILENO")))
    by (vm_compute; reflexivity).
  rewrite Hrin in Hres.
  assert (Hb : ∃ fd rest, before = open_of (read_only (lit "STDIN_FILENO")) fd :: rest).
  { destruct Hres as [(_ & -> & _) | [(_ & q & t & [= <-] & ->) |
      [(_ & q & t & _ & _ & ->) | (_ & q & t & _ & _ & _ & ->)]]]; by eexists _, _. }
  destruct Hb as (fd & rest & ->).
  vm_compute in Ht. discriminate Ht.
Qed.

(** ** The [exit] built-in *)

Lemma isNumber_loop_forallb n : isNumber_loop n = forallb isdigit n.
Proof. induction n as [|c n IH]; simpl; [done |]. destruct (isdigit c); simpl; done. Qed.

Lemma digits_value_nonneg n acc :
  forallb isdigit n = true → 0 ≤ acc →
  0 ≤ fold_left (λ acc c, acc * 10 + (Z.of_nat (nat_of_ascii c) - 48)) n acc.
Proof.
  revert acc. induction n as [|c n IH]; intros acc; simpl; [done |].
  intros [Hc Hn]%andb_true_iff Hacc. apply IH; [done |].
  unfold isdigit in Hc. lia.
Qed.

(** What [exit_builtin] returns; it writes one line and changes nothing else. *)
Lemma exit_builtin_result args w :
  ∃ t msg,
    exit_builtin args w =
      (Ret (default (-1) (exit_request args (last_exit_status (glob w)))),
       with_os (os_log (EWrite t msg)) w).
Proof.
  unfold exit_builtin, exit_request.
  destruct args as [|a0 [|n [|a2 args]]]; try (by eexists _, _).
  rewrite isNumber_loop_forallb. unfold decimal, stoi.
  destruct n as [|c n]; [by rewrite !andb_false_l; eexists _, _ |].
  rewrite bool_decide_eq_false_2 by done. simpl negb. rewrite andb_true_l.
  destruct (forallb isdigit (c :: n)); [|by eexists _, _].
  rewrite andb_true_l. destruct (digits_value (c :: n) <=? INT_MAX); by eexists _, _.
Qed.

Lemma exit_request_not_minus_one args last n :
  last ≠ -1 → exit_request args last = Some n → n ≠ -1.
Proof.
  intros Hlast. unfold exit_request.
  destruct args as [|a0 [|d [|a2 args]]]; try done.
  - by intros [= <-].
  - destruct (decimal d) eqn:Hd; [|done].
    destruct (digits_value d <=? INT_MAX); [|done]. simpl. intros [= <-].
    apply andb_true_iff in Hd as [_ Hd].
    pose proof (digits_value_nonneg d 0 Hd). unfold digits_value. lia.
Qed.

Lemma free_current_jobs_S i n w :
  free_current_jobs i (S n) w =
    match (match current_jobs (glob w) !! i with
           | Some (Some p) => delete_Input p
           | _ => mret ()
           end) w with
    | (Ret _, w1) =>
        free_current_jobs (S i) n
          (with_glob (λ g, glob_set_jobs (<[i := None]> (current_jobs g)) g) w1)
    | (Exited s, w1) => (Exited s, w1)
    | (Undefined y, w1) => (Undefined y, w1)
    end.
Proof. reflexivity. Qed.

Lemma free_current_jobs_spec n :
  ∀ i w jobs,
    current_jobs (glob w) = jobs → (i + n = length jobs)%nat →
    NoDup (omap id (drop i jobs)) →
    (∀ p, Some p ∈ drop i jobs → is_Some (heap (glob w) !! p)) →
    ∃ w', free_current_jobs i n w = (Ret (), w') ∧
          os w' = os w ∧ loc w' = loc w ∧
          last_exit_status (glob w') = last_exit_status (glob w) ∧
          current_jobs (glob w') = take i jobs ++ replicate n None ∧
          (∀ p, heap (glob w') !! p =
                if bool_decide (Some p ∈ drop i jobs) then None else heap (glob w) !! p).
Proof.
  induction n as [|n IH]; intros i w jobs Hjobs Hlen Hnd Hlive.
  - exists w. simpl. split_and!; try done.
    + rewrite app_nil_r, take_ge by lia. done.
    + intros p. rewrite drop_ge by lia. by rewrite bool_decide_eq_false_2 by apply not_elem_of_nil.
  - assert (is_Some (jobs !! i)) as [x Hx] by (apply lookup_lt_is_Some; lia).
    rewrite (drop_S _ _ _ Hx) in Hnd, Hlive.
    assert (Hstep : ∃ w1,
      (match jobs !! i with
       | Some (Some p) => delete_Input p
       | _ => mret ()
       end) w = (Ret (), w1) ∧ os w1 = os w ∧ loc w1 = loc w ∧
      last_exit_status (glob w1) = last_exit_status (glob w) ∧
      current_jobs (glob w1) = jobs ∧
      (∀ q, Some q ∈ drop (S i) jobs → is_Some (heap (glob w1) !! q)) ∧
      (∀ q, heap (glob w1) !! q =
            if bool_decide (Some q = x) then None else heap (glob w) !! q)).
    { rewrite Hx. destruct x as [p|].
      - destruct (Hlive p) as [j Hj]; [by left |].
        unfold delete_Input. rewrite Hj. eexists. split; [done |]. simpl.
        split_and!; try done.
        + intros q Hq. rewrite lookup_delete_ne; [apply Hlive; by right |].
          intros ->. simpl in Hnd. apply NoDup_cons in Hnd as [Hnd _]. apply Hnd.
          apply list_elem_of_omap. by exists (Some q).
        + intros q. case_bool_decide as Hq.
          * injection Hq as ->. apply lookup_delete_eq.
          * apply lookup_delete_ne. congruence.
          
      - exists w. split_and!; try done.
        intros q Hq. apply Hlive. by right. }
    destruct Hstep as (w1 & E1 & Hos1 & Hloc1 & Hst1 & Hj1 & Hlive1 & Hheap1).
    set (w2 := with_glob (λ g, glob_set_jobs (<[i := None]> (current_jobs g)) g) w1).
    destruct (IH (S i) w2 (<[i := None]> jobs)) as (w' & E & Hos & Hloc & Hst & Hj & Hheap).
    + unfold w2. simpl. by rewrite Hj1.
    + rewrite length_insert. lia.
    + rewrite drop_insert_lt by lia. destruct x; simpl in Hnd; [by apply NoDup_cons in Hnd as [_ ?] | done].
    + rewrite drop_insert_lt by lia. exact Hlive1.
    + exists w'. split_and!.
      * rewrite free_current_jobs_S, Hjobs, E1. exact E.
      * by rewrite Hos.
      * by rewrite Hloc.
      * by rewrite Hst.
      * rewrite Hj. rewrite (take_S_r _ _ None) by (apply list_lookup_insert_eq; lia).
        rewrite take_insert_ge by lia. by rewrite <-app_assoc.
      * intros p. rewrite Hheap, drop_insert_lt by lia. cbn beta.
        rewrite Hheap1, (drop_S _ _ _ Hx).
        destruct (decide (Some p = x)) as [<-|Hpx].
        -- rewrite (bool_decide_eq_true_2 (Some p = Some p)) by done.
           rewrite (bool_decide_eq_true_2 (Some p ∈ Some p :: _)) by (by left).
           by case_bool_decide.
        -- rewrite (bool_decide_eq_false_2 (Some p = x)) by done.
           apply (f_equal (λ b : bool, if b then None else heap (glob w) !! p)).
           apply bool_decide_ext. rewrite elem_of_cons. intuition congruence.
Qed.

(** The branch of [callBuiltIn] for [exit]. *)
Lemma callBuiltIn_exit ext args job :
  callBuiltIn ext (lit "exit") args job =
    ((status ← exit_builtin args;
      set_last_exit_status (if negb (status =? -1) then status else EXIT_FAILURE);;
      delete_Input job;;
      if negb (status =? -1) then
        s ← gets (λ w, length (current_jobs (glob w)));
        free_current_jobs 0 s;;
        exit status
      else mret ());;
     delete_Input job).
Proof. reflexivity. Qed.

(** The branch for [exit] in general. On arguments that [exit_builtin]
    accepts the shell exits with the status asked for, every entry of the
    job table deleted and cleared by then. On arguments it refuses
    [last_exit_status] becomes [EXIT_FAILURE], [exit] is not called, and
    the job of the line, deleted once after the call of [exit_builtin], is
    deleted again at the end of [callBuiltIn]. The hypotheses say that the
    job of the built-in is live and not in the job table, that the table
    holds distinct live jobs, and that the last status is none of the
    shell's own error code -1. *)
Lemma callBuiltIn_exit_outcome (ext : Externals) (w : World) (args : list str)
    (job : nat) :
  is_Some (heap (glob w) !! job) →
  Some job ∉ current_jobs (glob w) →
  jobs_live (glob w) →
  last_exit_status (glob w) ≠ -1 →
  let r := callBuiltIn ext (lit "exit") args job w in
  match exit_request args (last_exit_status (glob w)) with
  | Some n =>
      r.1 = Exited n ∧
      current_jobs (glob r.2) = replicate (length (current_jobs (glob w))) None ∧
      (∀ p, Some p ∈ current_jobs (glob w) → heap (glob r.2) !! p = None) ∧
      heap (glob r.2) !! job = None
  | None =>
      r.1 = Undefined "delete of an Input that is not live" ∧
      last_exit_status (glob r.2) = EXIT_FAILURE ∧
      current_jobs (glob r.2) = current_jobs (glob w) ∧
      heap (glob r.2) = delete job (heap (glob w))
  end.
Proof.
  intros [j Hjob] Hnotin [Hnd Hlive] Hlast r. subst r. rewrite callBuiltIn_exit.
  destruct (exit_builtin_result args w) as (t & msg & E).
  set (w1 := with_os (os_log (EWrite t msg)) w) in E.
  destruct (exit_request args (last_exit_status (glob w))) as [n|] eqn:Ereq;
    simpl in E.
  - assert (Hn : n ≠ -1) by by eapply exit_request_not_minus_one.
    set (w2 := with_glob (glob_set_status n) w1).
    set (w3 := with_glob (λ g, glob_set_heap (delete job (heap g)) g) w2).
    destruct (free_current_jobs_spec (length (current_jobs (glob w))) 0%nat w3
                (current_jobs (glob w)))
      as (w' & Efree & _ & _ & _ & Hjobs & Hheap); [done | done | done | |].
    { intros p Hp. simpl. rewrite lookup_delete_ne; [by apply Hlive |]. by intros ->. }
    assert (Hrun : ((status ← exit_builtin args;
                     set_last_exit_status (if negb (status =? -1) then status else EXIT_FAILURE);;
                     delete_Input job;;
                     if negb (status =? -1) then
                       s ← gets (λ w, length (current_jobs (glob w)));
                       free_current_jobs 0 s;;
                       exit status
                     else mret ())) w = (Exited n, w')).
    { rewrite (bind_run _ _ _ _ _ E). rewrite (proj2 (Z.eqb_neq n (-1))) by done. simpl negb.
      cbv iota. rewrite (bind_run _ _ w1 () w2) by done.
      rewrite (bind_run _ _ w2 () w3) by (unfold delete_Input; simpl; by rewrite Hjob).
      rewrite (bind_run _ _ w3 (length (current_jobs (glob w))) w3) by done.
      by rewrite (bind_run _ _ _ _ _ Efree). }
    rewrite (bind_exited _ _ _ _ _ Hrun). simpl. split_and!; [done | done | |].
    + intros p Hp. rewrite Hheap. by rewrite bool_decide_eq_true_2.
    + rewrite Hheap, bool_decide_eq_false_2 by done. simpl. apply lookup_delete_eq.
  - set (w2 := with_glob (glob_set_status EXIT_FAILURE) w1).
    set (w3 := with_glob (λ g, glob_set_heap (delete job (heap g)) g) w2).
    assert (Hrun : ((status ← exit_builtin args;
                     set_last_exit_status (if negb (status =? -1) then status else EXIT_FAILURE);;
                     delete_Input job;;
                     if negb (status =? -1) then
                       s ← gets (λ w, length (current_jobs (glob w)));
                       free_current_jobs 0 s;;
                       exit status
                     else mret ())) w = (Ret (), w3)).
    { rewrite (bind_run _ _ _ _ _ E). change (negb (-1 =? -1)) with false. cbv iota.
      rewrite (bind_run _ _ w1 () w2) by done.
      by rewrite (bind_run _ _ w2 () w3) by (unfold delete_Input; simpl; by rewrite Hjob). }
    rewrite (bind_run _ _ _ _ _ Hrun).
    unfold delete_Input. simpl. rewrite lookup_delete_eq. simpl. done.
Qed.

(** [exit 42] in a shell that has a job in its table: the shell exits with
    42, the entry is cleared, and both the job of the table and the job of
    the line are deleted. *)
Lemma exit_frees_the_job_table_example :
  let w := shell_with_a_job in
  let r := callBuiltIn inert_externals (lit "exit") [lit "exit"; lit "42"] 1%nat w in
  current_jobs (glob w) = [Some 0%nat; None] ∧
  heap (glob w) = <[1%nat := finished_job]> (<[0%nat := finished_job]> ∅) ∧
  r.1 = Exited 42 ∧
  current_jobs (glob r.2) = [None; None] ∧
  heap (glob r.2) = ∅.
Proof.
  intros w r.
  assert (H1 : is_Some (heap (glob w) !! 1%nat)) by (eexists; vm_compute; reflexivity).
  assert (H2 : Some 1%nat ∉ current_jobs (glob w)).
  { intros [[=] | [[=] | []%elem_of_nil]%elem_of_cons]%elem_of_cons. }
  assert (H3 : jobs_live (glob w)).
  { split; [vm_compute; repeat constructor; apply not_elem_of_nil |].
    intros p [[= ->] | [[=] | []%elem_of_nil]%elem_of_cons]%elem_of_cons.
    eexists. vm_compute. reflexivity. }
  assert (H4 : last_exit_status (glob w) ≠ -1) by (vm_compute; discriminate).
  split; [reflexivity |]. split; [reflexivity |].
  destruct (callBuiltIn_exit_outcome inert_externals w [lit "exit"; lit "42"] 1%nat
              H1 H2 H3 H4) as (Hr & Hjobs & _).
  split; [exact Hr |]. split; [exact Hjobs |]. vm_compute. reflexivity.
Qed.

(** A decimal argument beyond [INT_MAX]: [stoi] raises [out_of_range], which
    [exit_builtin] catches, so the shell does not exit with that status. *)
Lemma exit_beyond_int_is_refused :
  decimal (lit "2147483648") = true ∧
  exit_request [lit "exit"; lit "2147483648"] EXIT_SUCCESS = None ∧
  exit_request [lit "exit"; lit "2147483647"] EXIT_SUCCESS = Some 2147483647 ∧
  (iteration inert_externals (lit "exit 2147483647") demo_world).1 = Exited 2147483647.
Proof. vm_compute. split_and!; reflexivity. Qed.

(** C8. With arguments that [exit_builtin] refuses the shell is to go on
    with [last_exit_status] set to failure. [callBuiltIn] sets the status
    and deletes the job of the line right after the call of [exit_builtin]
    (line 917); as [exit] is not called, control reaches the [delete job]
    that ends the function (line 937), the only one the other built-ins
    pass, and the job is deleted a second time. On the line [exit now] the
    complaint is printed and the status is [EXIT_FAILURE], the heap holds
    no job any more, and the outcome is undefined behaviour; the same
    mistake in the arguments of [jobs] returns to the prompt. *)
Theorem exit_usage_error_deletes_twice (ext : Externals) :
  let r := iteration ext (lit "exit now") demo_world in
  let sibling := iteration ext (lit "jobs now") demo_world in
  exit_request [lit "exit"; lit "now"] (last_exit_status (glob demo_world)) = None ∧
  r.1 = Undefined "delete of an Input that is not live" ∧
  last_exit_status (glob r.2) = EXIT_FAILURE ∧
  last (trace (os r.2)) =
    Some (EWrite (Some Terminal) (lit "1730sh: exit: Invalid exit value" ++ endl)) ∧
  heap (glob r.2) = ∅ ∧
  sibling.1 = Ret NextPrompt ∧
  last_exit_status (glob sibling.2) = EXIT_FAILURE.
Proof. vm_compute. split_and!; reflexivity. Qed.

(** ** The processes of a job *)

Lemma alter_back_snoc {A} (f : A → A) (l : list A) (x : A) :
  alter_back f (l ++ [x]) = l ++ [f x].
Proof.
  unfold alter_back. rewrite length_app. simpl.
  replace (length l + 1 - 1)%nat with (length l + 0)%nat by lia.
  by rewrite alter_app_r.
Qed.

Lemma concat_args_snoc (pv : list Process) (x : Process) :
  concat (args <$> (pv ++ [x])) = concat (args <$> pv) ++ args x.
Proof. by rewrite fmap_app, concat_app; simpl; rewrite app_nil_r. Qed.

Lemma inputToProcesses_step_words pv x prev cur :
  concat (args <$> inputToProcesses_step (pv ++ [x]) (Some prev) cur) =
    concat (args <$> (pv ++ [x])) ++ (if pushed (Some prev) cur then [cur] else []) ∧
  ∃ pv' x', inputToProcesses_step (pv ++ [x]) (Some prev) cur = pv' ++ [x'].
Proof.
  unfold inputToProcesses_step, pushed.
  destruct (prev ==s lit "|").
  - rewrite alter_back_snoc. split; [| eauto].
    by rewrite (concat_args_snoc (pv ++ [x])).
  - destruct (no_redirect_here prev cur), (cur ==s lit "|"), (cur ==s lit "&");
      cbn [andb negb]; rewrite ?alter_back_snoc; (split; [| eauto]);
      rewrite ?concat_args_snoc, ?app_nil_r; try done.
    simpl. by rewrite <-app_assoc.
Qed.

Lemma inputToProcesses_loop_words pv x prev ts :
  concat (args <$> inputToProcesses_loop (pv ++ [x]) (Some prev) ts) =
    concat (args <$> (pv ++ [x])) ++ pushed_words (Some prev) ts.
Proof.
  revert pv x prev.
  induction ts as [|cur ts IH]; intros pv x prev; cbn [inputToProcesses_loop pushed_words].
  - by rewrite app_nil_r.
  - destruct (inputToProcesses_step_words pv x prev cur) as [Hw (pv' & x' & E)].
    rewrite E, IH, <-E, Hw, <-app_assoc. done.
Qed.

(** The words of all argument vectors of a job, in order, are the words of
    the line that [pushed] selects. *)
Theorem inputToProcesses_words (ts : list str) :
  concat (args <$> inputToProcesses_loop [] None ts) = pushed_words None ts.
Proof.
  destruct ts as [|cur ts]; [done |].
  simpl. apply (inputToProcesses_loop_words [] (push_arg cur new_Process) cur ts).
Qed.

(** The loop of [inputToProcesses] on a list of words cut after a word. *)
Lemma inputToProcesses_loop_snoc (pre : list str) :
  ∀ p_vector prev x rest,
    inputToProcesses_loop p_vector prev (pre ++ x :: rest) =
      inputToProcesses_loop (inputToProcesses_loop p_vector prev (pre ++ [x])) (Some x) rest.
Proof.
  induction pre as [|y pre IH]; intros p_vector prev x rest; [done |].
  cbn [app inputToProcesses_loop]. apply IH.
Qed.

Lemma inputToProcesses_of_words (line : str) :
  redirect_tokens line ≠ [] →
  inputToProcesses line = inputToProcesses_loop [] None (redirect_tokens line).
Proof.
  intros Hne. unfold inputToProcesses.
  destruct (slen line =? 0) eqn:E; [| done].
  exfalso. apply Hne. destruct line; [done | discriminate E].
Qed.

(** The iteration on a word whose predecessor is a redirection operator. *)
Lemma inputToProcesses_step_operand (p_vector : list Process) (op cur : str) :
  op ∈ redirect_ops → inputToProcesses_step p_vector (Some op) cur = p_vector.
Proof.
  unfold redirect_ops. rewrite !elem_of_cons, elem_of_nil.
  intros [->|[->|[->|[->|[->|[]]]]]]; unfold inputToProcesses_step, no_redirect_here, str_eqb;
    simpl; repeat case_bool_decide; simpl; done.
Qed.

(** The iteration on a redirection operator that does not start a process. *)
Lemma inputToProcesses_step_operator (p_vector : list Process) (prev op : str) :
  op ∈ redirect_ops → prev ≠ lit "|" →
  inputToProcesses_step p_vector (Some prev) op = p_vector.
Proof.
  intros Hop Hprev. unfold inputToProcesses_step, str_eqb.
  rewrite (bool_decide_eq_false_2 _ Hprev).
  revert Hop. unfold redirect_ops. rewrite !elem_of_cons, elem_of_nil.
  intros [->|[->|[->|[->|[->|[]]]]]]; unfold no_redirect_here, str_eqb;
    simpl; repeat case_bool_decide; simpl; done.
Qed.

(** A word that follows a redirection operator is never pushed: the
    iteration of [inputToProcesses] on it leaves every process as it is,
    and the processes of the line are those of the line without it. *)
Theorem operand_is_never_pushed (line : str) (pre : list str) (op word : str)
    (post : list str) :
  redirect_tokens line = pre ++ op :: word :: post →
  op ∈ redirect_ops →
  let before := inputToProcesses_loop [] None (pre ++ [op]) in
  inputToProcesses_step before (Some op) word = before ∧
  inputToProcesses line = inputToProcesses_loop before (Some word) post.
Proof.
  intros Hline Hop before.
  assert (Hstep := inputToProcesses_step_operand before op word Hop).
  split; [exact Hstep |].
  rewrite inputToProcesses_of_words by (rewrite Hline; by destruct pre).
  rewrite Hline, inputToProcesses_loop_snoc. fold before.
  cbn [inputToProcesses_loop]. by rewrite Hstep.
Qed.

Lemma operand_is_never_pushed_witness :
  let line := lit "ls > out -l | wc" in
  redirect_tokens line = [lit "ls"] ++ lit ">" :: lit "out" :: [lit "-l"; lit "|"; lit "wc"] ∧
  lit ">" ∈ redirect_ops ∧
  inputToProcesses line =
    inputToProcesses_loop (inputToProcesses_loop [] None [lit "ls"; lit ">"])
      (Some (lit "out")) [lit "-l"; lit "|"; lit "wc"] ∧
  args <$> inputToProcesses line = [[lit "ls"; lit "-l"]; [lit "wc"]].
Proof.
  intros line.
  assert (H : lit ">" ∈ redirect_ops) by (unfold redirect_ops; rewrite !elem_of_cons; auto).
  assert (Hline : redirect_tokens line =
            [lit "ls"] ++ lit ">" :: lit "out" :: [lit "-l"; lit "|"; lit "wc"])
    by (vm_compute; reflexivity).
  split; [exact Hline |]. split; [exact H |]. split; [| vm_compute; reflexivity].
  exact (proj2 (operand_is_never_pushed line [lit "ls"] (lit ">") (lit "out")
                  [lit "-l"; lit "|"; lit "wc"] Hline H)).
Defined.

(** A redirection operator is pushed only where it starts a process: on an
    operator whose predecessor is a word other than [|] the iteration of
    [inputToProcesses] leaves every process as it is. *)
Theorem operator_is_pushed_only_first (line : str) (pre : list str) (prev op : str)
    (post : list str) :
  redirect_tokens line = pre ++ prev :: op :: post →
  op ∈ redirect_ops →
  prev ≠ lit "|" →
  let before := inputToProcesses_loop [] None (pre ++ [prev]) in
  inputToProcesses_step before (Some prev) op = before ∧
  inputToProcesses line = inputToProcesses_loop before (Some op) post.
Proof.
  intros Hline Hop Hprev before.
  assert (Hstep := inputToProcesses_step_operator before prev op Hop Hprev).
  split; [exact Hstep |].
  rewrite inputToProcesses_of_words by (rewrite Hline; by destruct pre).
  rewrite Hline, inputToProcesses_loop_snoc. fold before.
  cbn [inputToProcesses_loop]. by rewrite Hstep.
Qed.

Lemma operator_is_pushed_only_first_witness :
  let line := lit "sort -r >> out" in
  redirect_tokens line = [lit "sort"] ++ lit "-r" :: lit ">>" :: [lit "out"] ∧
  lit ">>" ∈ redirect_ops ∧ lit "-r" ≠ lit "|" ∧
  inputToProcesses line =
    inputToProcesses_loop (inputToProcesses_loop [] None [lit "sort"; lit "-r"])
      (Some (lit ">>")) [lit "out"] ∧
  args <$> inputToProcesses line = [[lit "sort"; lit "-r"]].
Proof.
  intros line.
  assert (H : lit ">>" ∈ redirect_ops) by (unfold redirect_ops; rewrite !elem_of_cons; auto).
  assert (H' : lit "-r" ≠ lit "|") by discriminate.
  assert (Hline : redirect_tokens line = [lit "sort"] ++ lit "-r" :: lit ">>" :: [lit "out"])
    by (vm_compute; reflexivity).
  split; [exact Hline |]. split; [exact H |]. split; [exact H' |].
  split; [| vm_compute; reflexivity].
  exact (proj2 (operator_is_pushed_only_first line [lit "sort"] (lit "-r") (lit ">>")
                  [lit "out"] Hline H H')).
Defined.

(** *** Pipes and the [hasPipe] flags *)

Lemma no_redirect_here_true prev cur :
  prev ∉ redirect_ops → cur ∉ redirect_ops → no_redirect_here prev cur = true.
Proof.
  unfold redirect_ops. rewrite !elem_of_cons, elem_of_nil. intros Hp Hc.
  unfold no_redirect_here, str_eqb.
  rewrite !bool_decide_eq_false_2; [done | intros ->; tauto ..].
Qed.

Lemma hasPipe_flags_done (done : list Process) :
  Forall (λ p, hasPipe p = true) done → hasPipe <$> done = replicate (length done) true.
Proof.
  induction 1 as [|p done Hp _ IH]; [done |]. by rewrite fmap_cons, Hp, IH.
Qed.

Lemma inputToProcesses_loop_flags ts :
  ∀ done x prev,
    Forall (λ p, hasPipe p = true) done →
    hasPipe x = bool_decide (prev = lit "|") →
    pipes_well_placed (Some prev) ts →
    hasPipe <$> inputToProcesses_loop (done ++ [x]) (Some prev) ts =
      replicate (length done + (if bool_decide (prev = lit "|") then 1 else 0)
                 + count_of [lit "|"] ts) true ++ [false].
Proof.
  induction ts as [|cur ts IH]; intros done x prev Hdone Hx Hwf.
  - cbn [inputToProcesses_loop pipes_well_placed] in *.
    assert (Hprev : prev ≠ lit "|") by (intros ->; by apply Hwf).
    rewrite (bool_decide_eq_false_2 _ Hprev) in Hx |- *.
    rewrite fmap_app, (hasPipe_flags_done done Hdone). cbn [fmap list_fmap]. rewrite Hx.
    by replace (length done + 0 + count_of [lit "|"] [])%nat with (length done)
      by (unfold count_of; simpl; lia).
  - cbn [inputToProcesses_loop]. destruct Hwf as [Hcur Hwf].
    rewrite count_of_cons. unfold inputToProcesses_step, str_eqb.
    destruct (decide (prev = lit "|")) as [Hprev|Hprev].
    + rewrite (bool_decide_eq_true_2 _ Hprev) in Hx |- *.
      assert (Hc : cur ≠ lit "|").
      { intros Hc. destruct (Hcur Hc) as (p & [= <-] & Hp & _). done. }
      rewrite alter_back_snoc.
      rewrite (IH (done ++ [x]) (push_arg cur new_Process) cur); [| | | done].
      * rewrite (bool_decide_eq_false_2 _ Hc), length_app.
        rewrite (bool_decide_eq_false_2 (cur ∈ [lit "|"]))
          by (rewrite list_elem_of_singleton; done).
        simpl. do 2 f_equal. lia.
      * apply Forall_app. split; [done |]. by constructor.
      * by rewrite (bool_decide_eq_false_2 _ Hc).
    + rewrite (bool_decide_eq_false_2 _ Hprev) in Hx |- *.
      destruct (decide (cur = lit "|")) as [Hc|Hc].
      * destruct (Hcur Hc) as (p & [= <-] & _ & Hops).
        rewrite no_redirect_here_true; [| done | subst cur; unfold redirect_ops;
          rewrite !elem_of_cons, elem_of_nil; intros [?|[?|[?|[?|[?|[]]]]]]; done].
        rewrite (bool_decide_eq_true_2 _ Hc), alter_back_snoc.
        rewrite (IH done (set_hasPipe x) cur); [| done | | done].
        -- rewrite (bool_decide_eq_true_2 _ Hc).
           rewrite (bool_decide_eq_true_2 (cur ∈ [lit "|"]))
             by (rewrite list_elem_of_singleton; done).
           do 2 f_equal. lia.
        -- by rewrite (bool_decide_eq_true_2 _ Hc).
      * rewrite (bool_decide_eq_false_2 (cur = lit "|")) by done.
        rewrite (bool_decide_eq_false_2 (cur ∈ [lit "|"]))
          by (rewrite list_elem_of_singleton; done).
        assert (Hgo : ∀ x', hasPipe x' = false →
          hasPipe <$> inputToProcesses_loop (done ++ [x']) (Some cur) ts =
            replicate (length done + 0 + (0 + count_of [lit "|"] ts)) true ++ [false]).
        { intros x' Hx'. rewrite (IH done x' cur); [| done | | done].
          - rewrite (bool_decide_eq_false_2 _ Hc). do 2 f_equal.
          - by rewrite (bool_decide_eq_false_2 _ Hc). }
        destruct (no_redirect_here prev cur); [| by apply Hgo].
        destruct (negb (bool_decide (cur = lit "&"))); [| by apply Hgo].
        rewrite alter_back_snoc. by apply Hgo.
Qed.

Lemma getNumPipes_flags (ps : list Process) (n : Z) :
  fold_left (λ pipes p, if hasPipe p then pipes + 1 else pipes) ps n =
    n + Z.of_nat (length (filter (λ b, b = true) (hasPipe <$> ps))).
Proof.
  revert n. induction ps as [|p ps IH]; intros n; [simpl; lia |].
  cbn [fold_left]. rewrite IH, fmap_cons, filter_cons.
  destruct (hasPipe p); [rewrite decide_True by done | rewrite decide_False by done];
    cbn [length]; lia.
Qed.

Lemma filter_replicate_true n :
  length (filter (λ b : bool, b = true) (replicate n true)) = n.
Proof.
  induction n as [|n IH]; [done |].
  cbn [replicate]. rewrite filter_cons_True by done. cbn [length]. by rewrite IH.
Qed.

Lemma Input_new_processes line job :
  Input_new line = Some job → processes job = inputToProcesses (shellInput job).
Proof. unfold Input_new. destruct (set_foreground _); [|done]. by intros [= <-]. Qed.

(** On a line whose pipes are well placed the job has the shape [main]
    relies on: [N = 1 +] the number of [|] words processes, the first
    [N - 1] of them with [hasPipe], the last without, and
    [getNumPipes() = N - 1]. *)
Theorem well_placed_pipes_give_a_pipeline (line : str) (job : Input) :
  Input_new line = Some job →
  let ts := processArgv (stream_words (shellInput job)) in
  ts ≠ [] →
  pipes_well_placed None ts →
  let N := S (count_of [lit "|"] ts) in
  length (processes job) = N ∧
  hasPipe <$> processes job = replicate (N - 1) true ++ [false] ∧
  getNumPipes job = Z.of_nat N - 1.
Proof.
  intros Hjob ts Hne Hwf N. subst N. unfold getNumPipes.
  rewrite (Input_new_processes line job Hjob).
  assert (Hflags : hasPipe <$> inputToProcesses (shellInput job) =
                   replicate (S (count_of [lit "|"] ts) - 1) true ++ [false]).
  { unfold inputToProcesses. fold ts.
    destruct (shellInput job) as [|c s] eqn:Es; [done |].
    replace (slen (c :: s) =? 0) with false by (unfold slen; simpl; lia).
    destruct ts as [|cur ts'] eqn:Ets; [done |]. cbn [inputToProcesses_loop].
    destruct Hwf as [Hcur Hwf].
    assert (Hc : cur ≠ lit "|").
    { intros Hc. by destruct (Hcur Hc) as (p & ? & _). }
    change (inputToProcesses_step [] None cur) with ([] ++ [push_arg cur new_Process]).
    rewrite (inputToProcesses_loop_flags ts' [] (push_arg cur new_Process) cur);
      [| done | by rewrite (bool_decide_eq_false_2 _ Hc) | done].
    rewrite (bool_decide_eq_false_2 _ Hc). rewrite count_of_cons.
    rewrite (bool_decide_eq_false_2 (cur ∈ [lit "|"])) by (rewrite list_elem_of_singleton; done).
    simpl. do 2 f_equal. lia. }
  split_and!.
  - rewrite <-(length_fmap hasPipe), Hflags, length_app, length_replicate. simpl. lia.
  - done.
  - rewrite getNumPipes_flags, Hflags, filter_app, length_app, filter_replicate_true.
    rewrite filter_cons_False, filter_nil by done. simpl. lia.
Qed.

Lemma well_placed_pipes_give_a_pipeline_witness :
  ∃ job,
    Input_new (lit "ls -l | sort > out | wc &") = Some job ∧
    processArgv (stream_words (shellInput job)) ≠ [] ∧
    pipes_well_placed None (processArgv (stream_words (shellInput job))) ∧
    length (processes job) = 3%nat ∧
    hasPipe <$> processes job = [true; true; false] ∧
    getNumPipes job = 2.
Proof.
  eexists. split; [vm_compute; reflexivity |].
  match goal with |- ?A ∧ ?B ∧ _ => assert (Ha : A) by (vm_compute; discriminate);
                                    assert (Hb : B) end.
  { change (pipes_well_placed None
              [lit "ls"; lit "-l"; lit "|"; lit "sort"; lit ">"; lit "out";
               lit "|"; lit "wc"; lit "&"]).
    cbn [pipes_well_placed].
    repeat split; try discriminate.
    all: intros _; eexists; split; [reflexivity |]; split; [discriminate |].
    all: unfold redirect_ops; rewrite !elem_of_cons, elem_of_nil.
    all: intros [?|[?|[?|[?|[?|[]]]]]]; discriminate. }
  split; [exact Ha |]. split; [exact Hb |].
  exact (well_placed_pipes_give_a_pipeline (lit "ls -l | sort > out | wc &") _ eq_refl Ha Hb).
Defined.

(** ** The quote scanners *)

Lemma quote_scan_from pre rest :
  hasQuotes_from (last pre) rest =
    bool_decide (is_Some (head (filter (λ i, unescaped_quote_index (pre ++ rest) i = true)
                                  (seq (length pre) (length rest))))) ∧
  ∀ i, pos_of_first_quote_from (last pre) i rest =
    match head (filter (λ i, unescaped_quote_index (pre ++ rest) i = true)
                  (seq (length pre) (length rest))) with
    | Some q => i + (Z.of_nat q - Z.of_nat (length pre))
    | None => 0
    end.
Proof.
  revert pre. induction rest as [|c rest IH]; intros pre; cbn [hasQuotes_from pos_of_first_quote_from].
  - split; [done | done].
  - cbn [length seq]. rewrite filter_cons, unescaped_quote_index_at.
    destruct (IH (pre ++ [c])) as [IH1 IH2]. rewrite last_snoc, <-app_assoc, length_app in *.
    cbn [app length] in *. replace (length pre + 1)%nat with (S (length pre)) in * by lia.
    destruct (unescaped_quote_at (last pre) c).
    + rewrite decide_True by done. cbn [head]. split; [done |]. intros i. lia.
    + rewrite decide_False by done. split; [done |]. intros i. rewrite IH2.
      destruct (head _); lia.
Qed.

(** [hasQuotes] tells whether the string has an unescaped double quote, and
    [pos_of_first_quote] is the least index of one; without any it is 0,
    which is also the answer for a string that starts with a quote. *)
Theorem pos_of_first_quote_spec (input : str) :
  hasQuotes input = bool_decide (is_Some (first_unescaped_quote input)) ∧
  pos_of_first_quote input = Z.of_nat (default 0%nat (first_unescaped_quote input)).
Proof.
  destruct (quote_scan_from [] input) as [H1 H2]. split; [exact H1 |].
  unfold pos_of_first_quote. change None with (last (@nil ascii)). rewrite H2.
  unfold first_unescaped_quote. cbn [app length]. destruct (head _); simpl; lia.
Qed.

(** ** The argument processor *)

Lemma remove_quotes_unquoted prev a :
  hasQuotes_from prev a = false → remove_quotes prev a = a.
Proof.
  revert prev. induction a as [|c a IH]; intros prev; cbn [hasQuotes_from remove_quotes]; [done |].
  destruct (unescaped_quote_at prev c) eqn:E; [done |]. intros H. rewrite (IH _ H).
  unfold unescaped_quote_at, chr_eqb in *.
  destruct (bool_decide (c = dquote)); [| done].
  destruct prev as [p|]; [| done]. by destruct (bool_decide (p = backslash)).
Qed.

Lemma sanitize_without chars a : Forall (λ c, c ∉ chars) a → sanitize a chars = a.
Proof.
  unfold sanitize. induction 1 as [|c a Hc _ IH]; [done |].
  by rewrite filter_cons_True, IH.
Qed.

Lemma sanitize_clean chars a : Forall (λ c, c ∉ chars) (sanitize a chars).
Proof. unfold sanitize. apply Forall_forall. intros c Hc. by apply list_elem_of_filter in Hc as [? _]. Qed.

Lemma trim_nil : trim [] = [].
Proof. reflexivity. Qed.

(** A word that neither starts nor ends with a space or a tab is its own [trim]. *)
Lemma trim_word (a : str) :
  slen a < npos →
  (∀ c, head a = Some c → c ∉ ws) → (∀ c, last a = Some c → c ∉ ws) → trim a = a.
Proof.
  intros Hlen Hh Hl. destruct a as [|c' mid]; [done |].
  destruct (exists_last (l := c' :: mid)) as (pre & c & E); [done |].
  apply (trim_fixed c' mid pre c); [done | by apply Hh | done |].
  apply Hl. by rewrite E, last_snoc.
Qed.

(** The loop of [processArgv] from a state without an open quote, over words
    without an unescaped quote: each word is finished on its own. *)
Lemma processArgv_unquoted (argv : list str) :
  ∀ st, quote_count st = 0 →
    Forall (λ a, hasQuotes a = false ∧ trim a = a) argv →
    let st' := fold_left processArgv_step argv st in
    quote_count st' = 0 ∧
    processed_argv st' = processed_argv st ++ ((λ a, sanitize a [backslash]) <$> argv).
Proof.
  induction argv as [|a argv IH]; intros st Hqc Hall; cbn [fold_left fmap list_fmap].
  - by rewrite app_nil_r.
  - inversion Hall as [|? ? [Hq Ht] Hall']; subst.
    assert (E : processArgv_step st a =
                {| quote_count := 0; arg := a;
                   processed_argv := processed_argv st ++ [sanitize a [backslash]] |}).
    { unfold processArgv_step. rewrite Hq, Hqc. cbn [Z.rem Z.eqb Z.quotrem fst].
      unfold finish_arg. rewrite Ht. by rewrite (remove_quotes_unquoted None a Hq). }
    rewrite E. edestruct (IH _ (eq_refl : quote_count {| quote_count := 0; arg := a; processed_argv := processed_argv st ++ [sanitize a [backslash]] |} = 0) Hall') as [H1 H2]. split; [exact H1 |].
    rewrite H2. cbn [processed_argv]. by rewrite <-app_assoc.
Qed.

(** *** The words of a line *)

(** What [ss >> a] yields: non-empty words without white space, made of
    characters of the line. *)
Lemma extract_words_shape (s cur : str) :
  Forall (λ c, isspace c = false) cur →
  Forall (λ a, a ≠ [] ∧ Forall (λ c, isspace c = false) a ∧
               (length a ≤ length cur + length s)%nat ∧
               ∀ c, c ∈ a → c ∈ cur ∨ c ∈ s)
         (extract_words cur s).
Proof.
  revert cur. induction s as [|c s IH]; intros cur Hcur; cbn [extract_words].
  - destruct cur as [|c0 cur]; [constructor |].
    constructor; [| constructor]. split_and!; [done | done | simpl; lia | auto].
  - destruct (isspace c) eqn:Ec.
    + assert (Hrest : Forall (λ a, a ≠ [] ∧ Forall (λ c, isspace c = false) a ∧
                        (length a ≤ length cur + length (c :: s))%nat ∧
                        ∀ x, x ∈ a → x ∈ cur ∨ x ∈ c :: s) (extract_words [] s)).
      { eapply Forall_impl; [apply (IH []); constructor |].
        intros a (Ha1 & Ha2 & Ha3 & Hin). split_and!; [done | done | simpl in *; lia |].
        intros x Hx. destruct (Hin x Hx) as [H|H]; [by apply elem_of_nil in H |].
        right. by right. }
      destruct cur as [|c0 cur]; [exact Hrest |].
      constructor; [| exact Hrest]. split_and!; [done | done | simpl; lia | auto].
    + eapply Forall_impl; [apply (IH (cur ++ [c])) |].
      * apply Forall_app. split; [done |]. by constructor.
      * intros a (Ha1 & Ha2 & Hlen & Hin). split_and!; [done | done | |].
        -- rewrite length_app in Hlen. simpl in *. lia.
        -- intros x Hx. destruct (Hin x Hx) as [H|H]; [| right; by right].
           apply elem_of_app in H as [H|H]; [by left |].
           apply list_elem_of_singleton in H as ->. right. by left.
Qed.

Lemma hasQuotes_from_snoc prev (a : str) (c : ascii) :
  hasQuotes_from prev (a ++ [c]) =
    hasQuotes_from prev a ||
    unescaped_quote_at (match last a with Some x => Some x | None => prev end) c.
Proof.
  revert prev. induction a as [|x a IH]; intros prev; cbn [app hasQuotes_from].
  - cbn [last orb]. by destruct (unescaped_quote_at prev c).
  - destruct (unescaped_quote_at prev x); [done |]. rewrite IH.
    f_equal. destruct a as [|y a]; [done |].
    change (last (x :: y :: a)) with (last (y :: a)).
    destruct (last (y :: a)) eqn:E; [done |]. by apply last_None in E.
Qed.

(** The words of a line without an unescaped quote have none either: [prev]
    is the character before [s] in the line, [cur] the word being read. *)
Lemma extract_words_unquoted (s cur : str) (prev : option ascii) :
  hasQuotes_from prev s = false →
  hasQuotes cur = false →
  (cur ≠ [] → prev = last cur) →
  (cur = [] → prev ≠ Some backslash) →
  Forall (λ a, hasQuotes a = false) (extract_words cur s).
Proof.
  revert cur prev. induction s as [|c s IH]; intros cur prev Hs Hcur Hlast Hnil;
    cbn [extract_words hasQuotes_from] in *.
  - destruct cur; [constructor | by repeat constructor].
  - destruct (unescaped_quote_at prev c) eqn:Eq; [done |].
    destruct (isspace c) eqn:Ec.
    + assert (Hc : c ≠ backslash) by (intros ->; done).
      assert (Hrest : Forall (λ a, hasQuotes a = false) (extract_words [] s)).
      { apply (IH [] (Some c)); [done | done | done |]. intros _ [= ?]. done. }
      destruct cur; [exact Hrest | by constructor].
    + apply (IH (cur ++ [c]) (Some c)); [done | | by rewrite last_snoc |].
      * unfold hasQuotes in *. rewrite hasQuotes_from_snoc, Hcur. cbn [orb].
        destruct cur as [|x cur].
        -- cbn [last]. destruct prev as [p|]; [| exact Eq].
           unfold unescaped_quote_at, chr_eqb in *.
           destruct (bool_decide (c = dquote)); [| done].
           rewrite (bool_decide_eq_false_2 (p = backslash)) in Eq; [done |].
           intros ->. by apply Hnil.
        -- rewrite <-(Hlast ltac:(done)). destruct prev; [exact Eq |].
           specialize (Hlast ltac:(done)). by destruct (last (x :: cur)).
      * intros E. by apply app_nil in E as [_ ?].
Qed.

(** On a line without an unescaped double quote, [processArgv] yields the
    words of the line with their backslashes removed; without a backslash in
    the line, the words themselves. *)
Theorem unquoted_line_keeps_its_words (line : str) :
  slen line < npos →
  hasQuotes line = false →
  processArgv (stream_words line) = (λ a, sanitize a [backslash]) <$> stream_words line ∧
  (backslash ∉ line → processArgv (stream_words line) = stream_words line).
Proof.
  intros Hlen Hq.
  assert (Hshape := extract_words_shape line [] ltac:(constructor)).
  assert (Hunq := extract_words_unquoted line [] None Hq eq_refl ltac:(done) ltac:(done)).
  fold (stream_words line) in Hshape, Hunq.
  assert (Hws : ∀ c, isspace c = false → c ∉ ws).
  { intros c Hc Hin. unfold isspace in Hc. apply bool_decide_eq_false in Hc. apply Hc.
    unfold ws in Hin. rewrite !elem_of_cons, elem_of_nil in Hin. rewrite !elem_of_cons.
    destruct Hin as [->|[->|[]]]; auto. }
  assert (E : processArgv (stream_words line) =
              (λ a, sanitize a [backslash]) <$> stream_words line).
  { unfold processArgv.
    edestruct (processArgv_unquoted (stream_words line)
                 {| quote_count := 0; arg := []; processed_argv := [] |} eq_refl) as [_ E];
      [| exact E].
    apply Forall_forall. intros a Ha.
    rewrite Forall_forall in Hshape, Hunq.
    destruct (Hshape a Ha) as (Hne & Hsp & Hl & _). split; [by apply Hunq |].
    apply trim_word.
    - unfold slen in *. simpl in Hl. lia.
    - intros c Hc. apply Hws. rewrite Forall_forall in Hsp. apply Hsp.
      destruct a; [done |]. injection Hc as ->. by left.
    - intros c Hc. apply Hws. rewrite Forall_forall in Hsp. apply Hsp.
      by apply last_Some_elem_of. }
  split; [exact E |]. intros Hb. rewrite E.
  transitivity (id <$> stream_words line); [| apply list_fmap_id].
  apply Forall_fmap_ext_1. eapply Forall_impl; [exact Hshape |].
  intros a (_ & _ & _ & Hin). apply sanitize_without, Forall_forall.
  intros c Hc Hcb. apply list_elem_of_singleton in Hcb as ->.
  destruct (Hin _ Hc) as [H|H]; [by apply elem_of_nil in H | done].
Qed.

Lemma unquoted_line_keeps_its_words_witness :
  slen (lit "grep -v a\b  file") < npos ∧ hasQuotes (lit "grep -v a\b  file") = false ∧
  processArgv (stream_words (lit "grep -v a\b  file")) = [lit "grep"; lit "-v"; lit "ab"; lit "file"].
Proof.
  assert (H1 : slen (lit "grep -v a\b  file") < npos) by done.
  assert (H2 : hasQuotes (lit "grep -v a\b  file") = false) by reflexivity.
  split; [exact H1 |]. split; [exact H2 |].
  destruct (unquoted_line_keeps_its_words _ H1 H2) as [E _]. rewrite E. reflexivity.
Defined.

(** *** Quoted spans *)

Lemma hasQuotes_from_plain prev (w : str) : dquote ∉ w → hasQuotes_from prev w = false.
Proof.
  revert prev. induction w as [|c w IH]; intros prev Hw; cbn [hasQuotes_from]; [done |].
  rewrite not_elem_of_cons in Hw. destruct Hw as [Hc Hw].
  assert (unescaped_quote_at prev c = false) as ->; [| by apply IH].
  unfold unescaped_quote_at, chr_eqb. rewrite (bool_decide_eq_false_2 (c = dquote)) by done.
  by destruct prev.
Qed.

Definition last_or (prev : option ascii) (a : str) : option ascii :=
  match last a with Some x => Some x | None => prev end.

Lemma last_or_cons prev x a : last_or prev (x :: a) = last_or (Some x) a.
Proof.
  unfold last_or. destruct a as [|y a]; [done |].
  change (last (x :: y :: a)) with (last (y :: a)).
  destruct (last (y :: a)) eqn:E; [done |]. by apply last_None in E.
Qed.

Lemma remove_quotes_app prev (a b : str) :
  remove_quotes prev (a ++ b) = remove_quotes prev a ++ remove_quotes (last_or prev a) b.
Proof.
  revert prev. induction a as [|x a IH]; intros prev; [done |].
  cbn [app remove_quotes]. by rewrite IH, last_or_cons, <-app_assoc.
Qed.

Lemma pos_of_first_quote_from_app prev i (a b : str) :
  dquote ∉ a →
  pos_of_first_quote_from prev i (a ++ b) =
    pos_of_first_quote_from (last_or prev a) (i + slen a) b.
Proof.
  revert prev i. induction a as [|x a IH]; intros prev i Ha.
  - unfold slen. simpl. by rewrite Z.add_0_r.
  - rewrite not_elem_of_cons in Ha. destruct Ha as [Hx Ha].
    cbn [app pos_of_first_quote_from].
    assert (unescaped_quote_at prev x = false) as ->.
    { unfold unescaped_quote_at, chr_eqb. rewrite (bool_decide_eq_false_2 (x = dquote)) by done.
      by destruct prev. }
    rewrite IH, last_or_cons by done. f_equal. unfold slen. simpl length. lia.
Qed.

Lemma last_or_plain (a : str) : backslash ∉ a → last_or None a ≠ Some backslash.
Proof.
  intros Ha. unfold last_or. destruct (last a) as [x|] eqn:E; [| done].
  intros [= ->]. apply Ha. by apply last_Some_elem_of.
Qed.

Lemma closing_quote_counts (p : option ascii) :
  p ≠ Some backslash → unescaped_quote_at p dquote = true.
Proof.
  intros Hp. unfold unescaped_quote_at, chr_eqb. rewrite bool_decide_eq_true_2 by done.
  destruct p as [x|]; [| done]. rewrite bool_decide_eq_false_2; [done |]. by intros ->.
Qed.

Lemma hasQuotes_closing (b : str) : plain b → hasQuotes (b ++ [dquote]) = true.
Proof.
  intros [Hq Hb]. unfold hasQuotes. rewrite hasQuotes_from_snoc.
  rewrite (hasQuotes_from_plain None b Hq). cbn [orb].
  apply closing_quote_counts, (last_or_plain b Hb).
Qed.

Lemma pos_of_first_quote_closing (b : str) :
  plain b → pos_of_first_quote (b ++ [dquote]) = slen b.
Proof.
  intros [Hq Hb]. unfold pos_of_first_quote. rewrite pos_of_first_quote_from_app by done.
  cbn [pos_of_first_quote_from]. by rewrite (closing_quote_counts _ (last_or_plain b Hb)).
Qed.

Lemma remove_quotes_quoted (u : str) :
  plain u → remove_quotes None (dquote :: u ++ [dquote]) = u.
Proof.
  intros [Hq Hb]. cbn [remove_quotes].
  change (dquote ==c dquote) with true. cbn [app].
  rewrite remove_quotes_app, remove_quotes_unquoted by by apply hasQuotes_from_plain.
  cbn [remove_quotes]. change (dquote ==c dquote) with true.
  destruct (last_or (Some dquote) u) as [p|] eqn:E; [| by rewrite app_nil_r].
  assert (Hp : p ≠ backslash).
  { intros ->. unfold last_or in E. destruct (last u) eqn:El.
    - injection E as ->. apply Hb. by apply last_Some_elem_of.
    - by injection E. }
  unfold chr_eqb. rewrite (bool_decide_eq_false_2 (p = backslash)) by done.
  by rewrite !app_nil_r.
Qed.

Lemma trim_quoted (u : str) :
  slen u + 3 < npos → trim (space :: dquote :: u ++ [dquote]) = dquote :: u ++ [dquote].
Proof.
  intros Hlen.
  assert (Hd : dquote ∉ ws).
  { unfold ws. rewrite !elem_of_cons, elem_of_nil. intros [?|[?|[]]]; done. }
  rewrite trim_unfold.
  2:{ unfold slen in *. simpl length. rewrite length_app. simpl. lia. }
  change (space :: dquote :: u ++ [dquote]) with ((space :: dquote :: u) ++ [dquote]).
  rewrite (last_not_of_app ws (space :: dquote :: u) dquote []) by (done || constructor).
  rewrite take_ge by (rewrite length_app; simpl; lia).
  cbn [app first_not_of].
  rewrite bool_decide_eq_true_2 by (unfold ws; rewrite elem_of_cons; auto).
  by rewrite bool_decide_eq_false_2.
Qed.

Lemma plain_unwords (a : str) (l : list str) :
  plain a → Forall plain l → plain (unwords (a :: l)).
Proof.
  intros [Ha1 Ha2] Hl. unfold unwords.
  assert (H : plain (concat ((λ x, space :: x) <$> l))).
  { induction Hl as [|x l [Hx1 Hx2] _ [IH1 IH2]]; [split; apply not_elem_of_nil |].
    cbn [fmap list_fmap concat]. split; rewrite elem_of_app, elem_of_cons; intros [[?|?]|?]; done. }
  destruct H as [H1 H2]. split; rewrite elem_of_app; intros [?|?]; done.
Qed.

(** The loop of [processArgv] over the words between the two quotes of a
    span: each is appended to [arg] after a space. *)
Lemma processArgv_inside (mids : list str) :
  ∀ st, quote_count st = 1 → Forall plain mids →
    fold_left processArgv_step mids st =
      {| quote_count := 1; arg := arg st ++ concat ((λ x, space :: x) <$> mids);
         processed_argv := processed_argv st |}.
Proof.
  induction mids as [|m mids IH]; intros st Hqc Hall.
  - cbn [fold_left fmap list_fmap concat]. rewrite app_nil_r. destruct st; simpl in *; by subst.
  - inversion Hall as [|? ? [Hq _] Hall']; subst. cbn [fold_left].
    assert (E : processArgv_step st m =
                {| quote_count := 1; arg := arg st ++ [space] ++ m;
                   processed_argv := processed_argv st |}).
    { unfold processArgv_step, hasQuotes. rewrite (hasQuotes_from_plain None m Hq), Hqc. done. }
    rewrite E, IH by done. cbn [arg processed_argv fmap list_fmap concat].
    by rewrite <-!app_assoc.
Qed.

Lemma processArgv_piece (p : Piece) (st : ArgvState) :
  quote_count st = 0 → clean p →
  let st' := fold_left processArgv_step (render p) st in
  quote_count st' = 0 ∧ processed_argv st' = processed_argv st ++ [value p].
Proof.
  intros Hqc Hp. destruct p as [w | w | a mids b]; cbn [render value clean] in *.
  - destruct Hp as [[Hq Hb] Ht].
    destruct (processArgv_unquoted [w] st Hqc) as [H1 H2].
    { constructor; [| constructor]. split; [by apply hasQuotes_from_plain | done]. }
    split; [exact H1 |]. rewrite H2. cbn [fmap list_fmap].
    rewrite sanitize_without; [done |]. apply Forall_forall. intros c Hc Hcb.
    apply list_elem_of_singleton in Hcb as ->. done.
  - destruct Hp as [Hw Hlen]. cbn [fold_left]. unfold processArgv_step.
    change (hasQuotes (dquote :: w ++ [dquote])) with true. cbv iota. rewrite Hqc.
    change (pos_of_first_quote (dquote :: w ++ [dquote])) with 0.
    change (substr (dquote :: w ++ [dquote]) (0 + 1)) with (w ++ [dquote]).
    rewrite (hasQuotes_closing w Hw).
    assert ((slen (dquote :: w ++ [dquote]) >? 1) = true) as ->.
    { apply Z.gtb_lt. unfold slen. simpl length. rewrite length_app. simpl. lia. }
    assert ((0 =? slen (dquote :: w ++ [dquote]) - 1) = false) as ->.
    { apply Z.eqb_neq. unfold slen. simpl length. rewrite length_app. simpl. lia. }
    cbn [Z.eqb Z.add negb andb Pos.eqb Pos.add Pos.succ]. unfold finish_arg.
    cbn [quote_count processed_argv app].
    rewrite trim_quoted, remove_quotes_quoted by done.
    split; [done |]. rewrite sanitize_without; [done |]. apply Forall_forall.
    intros c Hc Hcb. apply list_elem_of_singleton in Hcb as ->. by destruct Hw.
  - destruct Hp as (Ha & Hmids & Hb & Hlen).
    cbn [fold_left]. rewrite fold_left_app. cbn [fold_left].
    set (st1 := processArgv_step st (dquote :: a)).
    assert (E1 : st1 = {| quote_count := 1; arg := space :: dquote :: a;
                          processed_argv := processed_argv st |}).
    { unfold st1, processArgv_step.
      change (hasQuotes (dquote :: a)) with true. cbv iota. rewrite Hqc.
      change (pos_of_first_quote (dquote :: a)) with 0.
      change (substr (dquote :: a) (0 + 1)) with a.
      unfold hasQuotes. rewrite (hasQuotes_from_plain None a) by apply Ha.
      rewrite andb_false_r. done. }
    rewrite E1, processArgv_inside by done. cbn [arg processed_argv].
    unfold processArgv_step. rewrite (hasQuotes_closing b Hb). cbn [quote_count arg processed_argv].
    rewrite (pos_of_first_quote_closing b Hb).
    assert ((slen b =? slen (b ++ [dquote]) - 1) = true) as ->.
    { apply Z.eqb_eq. unfold slen. rewrite length_app. simpl. lia. }
    cbn [negb andb]. rewrite andb_false_r. cbn [Z.eqb Z.add Pos.eqb Pos.add].
    unfold finish_arg. cbn [quote_count processed_argv].
    assert (Earg : (space :: dquote :: a) ++ concat ((λ x, space :: x) <$> mids) ++
                     [space] ++ b ++ [dquote] =
                   space :: dquote :: unwords (a :: mids ++ [b]) ++ [dquote]).
    { unfold unwords. rewrite fmap_app, concat_app. cbn [fmap list_fmap concat app].
      rewrite app_nil_r, <-!app_assoc. done. }
    rewrite <-app_assoc, Earg.
    assert (Hu : plain (unwords (a :: mids ++ [b]))).
    { apply plain_unwords; [done |]. apply Forall_app. split; [done |]. by constructor. }
    rewrite trim_quoted, remove_quotes_quoted by done.
    split; [done |]. rewrite sanitize_without; [done |]. apply Forall_forall.
    intros c Hc Hcb. apply list_elem_of_singleton in Hcb as ->. by destruct Hu.
Qed.

Lemma processArgv_pieces (ps : list Piece) :
  ∀ st, quote_count st = 0 → Forall clean ps →
    let st' := fold_left processArgv_step (concat (render <$> ps)) st in
    quote_count st' = 0 ∧ processed_argv st' = processed_argv st ++ (value <$> ps).
Proof.
  induction ps as [|p ps IH]; intros st Hqc Hall; cbn [fmap list_fmap concat].
  - by rewrite app_nil_r.
  - inversion Hall as [|? ? Hp Hall']; subst. rewrite fold_left_app.
    destruct (processArgv_piece p st Hqc Hp) as [H1 H2].
    destruct (IH _ H1 Hall') as [H3 H4]. split; [exact H3 |].
    rewrite H4, H2, <-app_assoc. done.
Qed.

(** [processArgv] turns every piece of a line into one argument: a bare
    word into itself, a quoted word or span into its text without the
    quotes, the words of a span joined by single spaces. *)
Theorem quoted_spans_become_single_arguments (ps : list Piece) :
  Forall clean ps → processArgv (concat (render <$> ps)) = value <$> ps.
Proof.
  intros Hall. unfold processArgv.
  by destruct (processArgv_pieces ps {| quote_count := 0; arg := []; processed_argv := [] |}
                 eq_refl Hall) as [_ ->].
Qed.

Lemma quoted_spans_become_single_arguments_witness :
  let ps := [Bare (lit "echo"); Span (lit "hello") [lit "big"] (lit "world");
             Quoted (lit "x"); Bare (lit "end")] in
  Forall clean ps ∧
  concat (render <$> ps) =
    [lit "echo"; dquote :: lit "hello"; lit "big"; lit "world" ++ [dquote];
     dquote :: lit "x" ++ [dquote]; lit "end"] ∧
  processArgv (concat (render <$> ps)) =
    [lit "echo"; lit "hello big world"; lit "x"; lit "end"].
Proof.
  intros ps.
  assert (Hp : ∀ w : str, bool_decide (dquote ∉ w) && bool_decide (backslash ∉ w) = true → plain w).
  { intros w [H1 H2]%andb_prop. split; by eapply bool_decide_eq_true_1. }
  assert (H : Forall clean ps).
  { repeat constructor; try (apply Hp; vm_compute; reflexivity); vm_compute; reflexivity. }
  split; [exact H |]. split; [reflexivity |].
  rewrite (quoted_spans_become_single_arguments ps H). reflexivity.
Defined.

(** *** What no argument contains *)

Lemma processArgv_step_grows (st : ArgvState) (a : str) :
  processed_argv (processArgv_step st a) = processed_argv st ∨
  ∃ x, processed_argv (processArgv_step st a) =
         processed_argv st ++ [sanitize x [backslash]].
Proof.
  unfold processArgv_step, finish_arg.
  repeat match goal with |- context [if ?b then _ else _] => destruct b end;
    cbn [processed_argv]; eauto.
Qed.

Lemma processArgv_loop_grows (argv : list str) :
  ∀ st, ∃ new,
    processed_argv (fold_left processArgv_step argv st) = processed_argv st ++ new ∧
    (length new ≤ length argv)%nat ∧ Forall (λ a, backslash ∉ a) new.
Proof.
  induction argv as [|a argv IH]; intros st; cbn [fold_left].
  - exists []. by rewrite app_nil_r.
  - destruct (IH (processArgv_step st a)) as (new & E & Hlen & Hall). rewrite E.
    destruct (processArgv_step_grows st a) as [->|[x ->]].
    + exists new. split_and!; [done | simpl; lia | done].
    + exists (sanitize x [backslash] :: new). split_and!.
      * by rewrite <-app_assoc.
      * simpl. lia.
      * constructor; [| done]. intros Hin.
        pose proof (sanitize_clean [backslash] x) as Hc. rewrite Forall_forall in Hc.
        apply (Hc _ Hin). by left.
Qed.

(** [processArgv] yields at most as many arguments as it is given words, and
    no argument contains a backslash: every backslash of the line is dropped,
    also one that escapes another backslash. *)
Theorem processArgv_drops_every_backslash (argv : list str) :
  (length (processArgv argv) ≤ length argv)%nat ∧
  Forall (λ a, backslash ∉ a) (processArgv argv).
Proof.
  unfold processArgv.
  destruct (processArgv_loop_grows argv {| quote_count := 0; arg := []; processed_argv := [] |})
    as (new & -> & Hlen & Hall).
  done.
Qed.

(** ** The constructors of [Input] *)

Lemma setShellInput_trim input : setShellInput input = trim input.
Proof. reflexivity. Qed.

Lemma trim_trim (s : str) : slen s < npos → trim (trim s) = trim s.
Proof.
  intros Hs. pose proof (trim_length s Hs) as Hlen.
  destruct (trim_shape s Hs) as [E | (c' & mid & pre & c & E & Hc' & Esnoc & Hc)].
  - by rewrite E.
  - rewrite E. apply (trim_fixed c' mid pre c); try done.
    rewrite <-E. unfold slen in *. lia.
Qed.

(** The members of a freshly constructed job. *)
Lemma Input_new_members (line : str) :
  slen line < npos →
  (Input_new line = None ↔ trim line = []) ∧
  ∀ job, Input_new line = Some job →
    shellInput job = trim line ∧
    foreground job = negb (bool_decide (last (trim line) = Some "&"%char)) ∧
    JID job = -1 ∧ status job = lit "Running" ∧
    Input_new (shellInput job) = Some job.
Proof.
  intros Hs.
  assert (Hnew : ∀ s c, last (trim s) = Some c →
            Input_new s =
              Some {| JID := -1;
                      foreground := (if c ==c "&"%char then false else true);
                      status := lit "Running";
                      shellInput := trim s;
                      processes := inputToProcesses (trim s);
                      fd_STDIN := setSTDIN (trim s);
                      fd_STDOUT := fst (setSTDOUT (trim s));
                      type_STDOUT := snd (setSTDOUT (trim s));
                      fd_STDERR := fst (setSTDERR (trim s));
                      type_STDERR := snd (setSTDERR (trim s)) |}).
  { intros s c E. unfold Input_new, set_foreground. rewrite setShellInput_trim, E. done. }
  split.
  - destruct (last (trim line)) as [c|] eqn:E.
    + rewrite (Hnew _ _ E). split; [done |]. intros Ht. by rewrite Ht in E.
    + split; [intros _; by apply last_None |]. intros _.
      unfold Input_new, set_foreground. by rewrite setShellInput_trim, E.
  - intros job. destruct (last (trim line)) as [c|] eqn:E.
    + rewrite (Hnew _ _ E). intros [= <-]. cbn [shellInput foreground JID status].
      split_and!; try done.
      * unfold chr_eqb. destruct (decide (c = "&"%char)) as [->|Hc].
        -- by rewrite !bool_decide_eq_true_2.
        -- rewrite !bool_decide_eq_false_2; [done | | done]. by intros [= ?].
      * rewrite (Hnew (trim line) c); rewrite (trim_trim line Hs); done.
    + unfold Input_new, set_foreground. by rewrite setShellInput_trim, E.
Qed.

(** The constructor reads outside the string exactly on a line of spaces and
    tabs. Otherwise the job keeps the trimmed line, is a background job
    exactly when that ends with [&], and parsing its stored line again
    yields the same job. *)
Theorem Input_new_spec (line : str) :
  slen line < npos →
  (Input_new line = None ↔ trim line = []) ∧
  ∀ job, Input_new line = Some job →
    shellInput job = trim line ∧
    foreground job = negb (bool_decide (last (trim line) = Some "&"%char)) ∧
    JID job = -1 ∧ status job = lit "Running" ∧
    Input_new (shellInput job) = Some job.
Proof. intros Hs. by apply Input_new_members. Qed.

Lemma Input_new_spec_witness :
  slen (lit "  sleep 10 &	") < npos ∧
  ∃ job, Input_new (lit "  sleep 10 &	") = Some job ∧
         shellInput job = lit "sleep 10 &" ∧ foreground job = false ∧
         args <$> processes job = [[lit "sleep"; lit "10"]].
Proof.
  assert (H : slen (lit "  sleep 10 &	") < npos) by done.
  split; [exact H |].
  destruct (Input_new (lit "  sleep 10 &	")) as [job|] eqn:E; [| by vm_compute in E].
  exists job. split; [done |].
  destruct (Input_new_spec _ H) as [_ Hjob].
  destruct (Hjob job E) as (H1 & H2 & _). rewrite H1, H2.
  split; [reflexivity |]. split; [reflexivity |].
  vm_compute in E. by injection E as <-.
Defined.

(** ** The processes of a freshly parsed job *)

Lemma fresh_push_new a : fresh (push_arg a new_Process).
Proof. unfold fresh. by cbn. Qed.

Lemma fresh_push_arg a p : fresh p → fresh (push_arg a p).
Proof.
  unfold fresh. intros (? & ? & ? & ? & ?). cbn [push_arg args PID PGID stopped completed].
  split_and!; try done. intros E. by apply app_nil in E as [_ ?].
Qed.

Lemma fresh_set_hasPipe p : fresh p → fresh (set_hasPipe p).
Proof. by unfold fresh. Qed.

Lemma removelast_cons2 {A} (x y : A) l : removelast (x :: y :: l) = x :: removelast (y :: l).
Proof. done. Qed.

Lemma inputToProcesses_loop_fresh (ts : list str) :
  ∀ pv x prev, Forall fresh (pv ++ [x]) →
    let r := inputToProcesses_loop (pv ++ [x]) (Some prev) ts in
    Forall fresh r ∧
    length r = (length pv + 1 + count_of [lit "|"] (removelast (prev :: ts)))%nat.
Proof.
  induction ts as [|cur ts IH]; intros pv x prev Hall; cbn [inputToProcesses_loop].
  - split; [done |]. rewrite length_app. unfold count_of. simpl. lia.
  - rewrite removelast_cons2, count_of_cons.
    rewrite Forall_app, Forall_singleton in Hall. destruct Hall as [Hpv Hx].
    unfold inputToProcesses_step, str_eqb.
    destruct (decide (prev = lit "|")) as [->|Hprev].
    + rewrite bool_decide_eq_true_2 by done. rewrite alter_back_snoc.
      destruct (IH (pv ++ [x]) (push_arg cur new_Process) cur) as [H1 H2].
      { apply Forall_app. split; [apply Forall_app; split; [done | by apply Forall_singleton] |].
        apply Forall_singleton, fresh_push_new. }
      split; [exact H1 |]. rewrite H2, length_app.
      rewrite (bool_decide_eq_true_2 (lit "|" ∈ [lit "|"])) by (by left). simpl. lia.
    + rewrite (bool_decide_eq_false_2 (prev = lit "|")) by done.
      rewrite (bool_decide_eq_false_2 (prev ∈ [lit "|"]))
        by (rewrite list_elem_of_singleton; done).
      assert (Hgo : ∀ x', fresh x' →
                let r := inputToProcesses_loop (pv ++ [x']) (Some cur) ts in
                Forall fresh r ∧
                length r = (length pv + 1 + (0 + count_of [lit "|"] (removelast (cur :: ts))))%nat).
      { intros x' Hx'. apply IH. apply Forall_app. split; [done | by apply Forall_singleton]. }
      destruct (no_redirect_here prev cur); [| by apply Hgo].
      destruct (bool_decide (cur = lit "|")).
      * rewrite alter_back_snoc. by apply Hgo, fresh_set_hasPipe.
      * destruct (negb (bool_decide (cur = lit "&"))); [| by apply Hgo].
        rewrite alter_back_snoc. by apply Hgo, fresh_push_arg.
Qed.

Lemma inputToProcesses_fresh (s : str) :
  let ts := redirect_tokens s in
  Forall fresh (inputToProcesses s) ∧
  (s ≠ [] → length (inputToProcesses s) =
     match ts with [] => 0%nat | _ => S (count_of [lit "|"] (removelast ts)) end).
Proof.
  unfold inputToProcesses, redirect_tokens. destruct s as [|c s]; [done |].
  replace (slen (c :: s) =? 0) with false by (unfold slen; simpl; lia).
  cbv zeta. destruct (processArgv (stream_words (c :: s))) as [|cur ts]; [done |].
  cbn [inputToProcesses_loop].
  change (inputToProcesses_step [] None cur) with ([] ++ [push_arg cur new_Process]).
  destruct (inputToProcesses_loop_fresh ts [] (push_arg cur new_Process) cur) as [H1 H2].
  { apply Forall_singleton, fresh_push_new. }
  split; [exact H1 |]. intros _. rewrite H2. simpl. lia.
Qed.

(** Every process of a freshly constructed job has a command ([args[0]]
    exists) and the default ids and flags; there is one process for the
    first word and one more for every [|] that is not the last word. *)
Theorem every_process_has_a_command (line : str) (job : Input) :
  Input_new line = Some job →
  let ts := redirect_tokens (shellInput job) in
  Forall fresh (processes job) ∧
  length (processes job) =
    match ts with [] => 0%nat | _ => S (count_of [lit "|"] (removelast ts)) end.
Proof.
  intros Hjob ts. rewrite (Input_new_processes line job Hjob).
  destruct (inputToProcesses_fresh (shellInput job)) as [H1 H2]. split; [exact H1 |].
  apply H2. intros E. unfold Input_new in Hjob.
  destruct (set_foreground (setShellInput line)) eqn:Ef; [| done].
  injection Hjob as <-. cbn [shellInput] in E. by rewrite E in Ef.
Qed.

Lemma every_process_has_a_command_witness :
  ∃ job, Input_new (lit "cat < in | sort | | uniq > out &") = Some job ∧
         Forall fresh (processes job) ∧ length (processes job) = 4%nat ∧
         args <$> processes job = [[lit "cat"]; [lit "sort"]; [lit "|"]; [lit "uniq"]].
Proof.
  eexists. split; [vm_compute; reflexivity |].
  match goal with |- Forall fresh (processes ?j) ∧ _ =>
    pose proof (every_process_has_a_command (lit "cat < in | sort | | uniq > out &") j eq_refl)
      as [H1 H2] end.
  split; [exact H1 |]. split; [| reflexivity]. exact H2.
Defined.

(** A copy of a job keeps its [JID] and [status], but its processes are
    those of the freshly parsed line: the pids, the group ids and the
    [stopped] and [completed] flags of the original are not copied. *)
Theorem copy_forgets_the_processes (line : str) (job : Input) (pgid : Z)
    (s : option str) (ps : list Process) :
  slen line < npos →
  Input_new line = Some job →
  let launched := setStatus s (with_processes ps (setJID pgid job)) in
  Input_copy launched = Some (with_JID_status pgid (status launched) job).
Proof.
  intros Hs Hjob launched.
  destruct (Input_new_members line Hs) as [_ H]. destruct (H job Hjob) as (_ & _ & _ & _ & Hre).
  unfold Input_copy.
  assert (shellInput launched = shellInput job) as -> by (unfold launched; by destruct s).
  rewrite Hre. simpl. do 2 f_equal. unfold launched. by destruct s.
Qed.

Lemma copy_forgets_the_processes_witness :
  slen (lit "ls | wc") < npos ∧
  ∃ job copy,
    Input_new (lit "ls | wc") = Some job ∧
    Input_copy (setStatus (Some (lit "Stopped"))
                  (with_processes (set_PID 100 <$> processes (setJID 100 job))
                     (setJID 100 job))) = Some copy ∧
    JID copy = 100 ∧ status copy = lit "Stopped" ∧
    PID <$> processes copy = [-1; -1] ∧ PGID <$> processes copy = [-1; -1].
Proof.
  assert (H : slen (lit "ls | wc") < npos) by done.
  split; [exact H |]. eexists. eexists.
  split; [vm_compute; reflexivity |].
  split; [refine (copy_forgets_the_processes (lit "ls | wc") _ 100 (Some (lit "Stopped")) _ H eq_refl) |].
  split_and!; reflexivity.
Defined.

(** ** The redirection targets of a job *)

Lemma first_operand_found ops (pre : list str) op file post :
  op ∈ ops → Forall (λ a, a ∉ ops) pre →
  ∀ prev, (∀ p, prev = Some p → p ∉ ops) →
    first_operand ops prev (pre ++ op :: file :: post) = Some (file, op).
Proof.
  intros Hop Hpre. induction Hpre as [|a pre Ha _ IH]; intros prev Hprev; cbn [app first_operand].
  - destruct prev as [p|].
    + rewrite bool_decide_eq_false_2 by by apply Hprev. by rewrite bool_decide_eq_true_2.
    + by rewrite bool_decide_eq_true_2.
  - assert (Hgo : first_operand ops (Some a) (pre ++ op :: file :: post) = Some (file, op)).
    { apply IH. by intros p [= <-]. }
    destruct prev as [p|]; [| exact Hgo].
    by rewrite bool_decide_eq_false_2 by by apply Hprev.
Qed.

Lemma first_operand_absent ops (ts : list str) :
  ∀ prev, (∀ p, prev = Some p → ts ≠ [] → p ∉ ops) →
    Forall (λ a, a ∉ ops) (removelast ts) →
    first_operand ops prev ts = None.
Proof.
  induction ts as [|a ts IH]; intros prev Hprev Hall; cbn [first_operand]; [done |].
  assert (Hgo : first_operand ops (Some a) ts = None).
  { apply IH.
    - intros p [= <-] Hne. destruct ts as [|b ts]; [done |].
      rewrite removelast_cons2 in Hall. by inversion Hall.
    - destruct ts as [|b ts]; [constructor |].
      rewrite removelast_cons2 in Hall. by inversion Hall. }
  destruct prev as [p|]; [| exact Hgo].
  by rewrite bool_decide_eq_false_2 by by apply Hprev.
Qed.

(** The target of each stream is the word after the first operator of that
    stream that has a word after it, and the recorded type is that operator.
    [ops] is one of the three operator sets. *)
Theorem redirect_target_is_the_first_operand (line : str) (job : Input)
    (pre : list str) (op file : str) (post : list str) :
  Input_new line = Some job →
  redirect_tokens (shellInput job) = pre ++ op :: file :: post →
  (op = lit "<" → lit "<" ∉ pre → fd_STDIN job = file) ∧
  (op ∈ [lit ">>"; lit ">"] → Forall (λ a, a ∉ [lit ">>"; lit ">"]) pre →
     fd_STDOUT job = file ∧ type_STDOUT job = op) ∧
  (op ∈ [lit "e>"; lit "e>>"] → Forall (λ a, a ∉ [lit "e>"; lit "e>>"]) pre →
     fd_STDERR job = file ∧ type_STDERR job = op).
Proof.
  intros Hjob Hts. destruct (Input_new_fields line job Hjob) as (Hin & Hout & Herr).
  split_and!.
  - intros -> Hpre. rewrite Hin. unfold setSTDIN. rewrite Hts.
    rewrite (first_operand_found [lit "<"] pre (lit "<") file post); [done | by left | | done].
    apply Forall_forall. intros a Ha ->%list_elem_of_singleton. done.
  - intros Hop Hpre. unfold setSTDOUT in Hout. rewrite Hts in Hout.
    rewrite (first_operand_found _ pre op file post Hop Hpre) in Hout by done.
    by injection Hout.
  - intros Hop Hpre. unfold setSTDERR in Herr. rewrite Hts in Herr.
    rewrite (first_operand_found _ pre op file post Hop Hpre) in Herr by done.
    by injection Herr.
Qed.

Lemma redirect_target_is_the_first_operand_witness :
  ∃ job, Input_new (lit "sort -r >> out > other") = Some job ∧
         redirect_tokens (shellInput job) =
           [lit "sort"; lit "-r"] ++ lit ">>" :: lit "out" :: [lit ">"; lit "other"] ∧
         fd_STDOUT job = lit "out" ∧ type_STDOUT job = lit ">>".
Proof.
  eexists. split; [vm_compute; reflexivity |]. split; [reflexivity |].
  refine (proj1 (proj2 (redirect_target_is_the_first_operand
            (lit "sort -r >> out > other") _ [lit "sort"; lit "-r"] (lit ">>") (lit "out")
            [lit ">"; lit "other"] eq_refl eq_refl)) _ _).
  - rewrite elem_of_cons. by left.
  - repeat constructor; rewrite !elem_of_cons, elem_of_nil; intros [?|[?|[]]]; discriminate.
Defined.

(** A stream is left alone (the marker [STD..._FILENO], no type) when none
    of its operators occurs before the last word: an operator that ends the
    line has no operand and is ignored. *)
Theorem redirect_needs_an_operand (line : str) (job : Input) :
  Input_new line = Some job →
  let ts := removelast (redirect_tokens (shellInput job)) in
  (lit "<" ∉ ts → fd_STDIN job = lit "STDIN_FILENO") ∧
  (Forall (λ a, a ∉ [lit ">>"; lit ">"]) ts →
     fd_STDOUT job = lit "STDOUT_FILENO" ∧ type_STDOUT job = []) ∧
  (Forall (λ a, a ∉ [lit "e>"; lit "e>>"]) ts →
     fd_STDERR job = lit "STDERR_FILENO" ∧ type_STDERR job = []).
Proof.
  intros Hjob ts. destruct (Input_new_fields line job Hjob) as (Hin & Hout & Herr).
  split_and!.
  - intros Hts. rewrite Hin. unfold setSTDIN.
    rewrite first_operand_absent; [done | done |].
    apply Forall_forall. intros a Ha ->%list_elem_of_singleton. done.
  - intros Hts. unfold setSTDOUT in Hout. rewrite first_operand_absent in Hout by done.
    by injection Hout.
  - intros Hts. unfold setSTDERR in Herr. rewrite first_operand_absent in Herr by done.
    by injection Herr.
Qed.

Lemma redirect_needs_an_operand_witness :
  ∃ job, Input_new (lit "ls -l >") = Some job ∧
         removelast (redirect_tokens (shellInput job)) = [lit "ls"; lit "-l"] ∧
         fd_STDOUT job = lit "STDOUT_FILENO" ∧ type_STDOUT job = [] ∧
         args <$> processes job = [[lit "ls"; lit "-l"]].
Proof.
  eexists. split; [vm_compute; reflexivity |]. split; [reflexivity |].
  match goal with |- fd_STDOUT ?j = _ ∧ _ =>
    destruct (proj1 (proj2 (redirect_needs_an_operand (lit "ls -l >") j eq_refl))) as [H1 H2] end.
  - repeat constructor; rewrite !elem_of_cons, elem_of_nil; intros [?|[?|[]]]; discriminate.
  - split_and!; [exact H1 | exact H2 | reflexivity].
Defined.

(** ** The [jobs] built-in *)

Lemma wrote_cons text texts w :
  wrote (text :: texts) w =
    wrote texts (with_os (os_log (EWrite (fdt (os w) !! STDOUT_FILENO) text)) w).
Proof. done. Qed.

Lemma jobs_builtin_loop_rows (jobs : list (option nat)) :
  ∀ w, (∀ p, Some p ∈ jobs → is_Some (heap (glob w) !! p)) →
    jobs_builtin_loop jobs w =
      (Ret (), wrote (job_row <$> omap (λ e : option nat, p ← e; heap (glob w) !! p) jobs) w).
Proof.
  induction jobs as [|[p|] jobs IH]; intros w Hlive; cbn [jobs_builtin_loop omap list_omap].
  - done.
  - destruct (Hlive p) as [job Hjob]; [by left |].
    cbn [mbind option_bind]. rewrite Hjob. cbn [fmap list_fmap]. rewrite wrote_cons.
    unfold mbind at 1, M_bind at 1. unfold deref. rewrite Hjob.
    unfold mbind at 1, M_bind at 1. rewrite cout_result.
    rewrite IH; [done |]. intros q Hq. apply Hlive. by right.
  - cbn [mbind option_bind]. apply IH. intros q Hq. apply Hlive. by right.
Qed.

(** [jobs] prints the header and one row for every job in the table, in
    table order, and returns 0; with any argument it prints its usage and
    returns -1. Either way it changes nothing but the output. *)
Theorem jobs_builtin_lists_every_job (args : list str) (w : World) :
  (∀ p, Some p ∈ current_jobs (glob w) → is_Some (heap (glob w) !! p)) →
  jobs_builtin args w =
    if bool_decide (length args = 1%nat) then
      (Ret 0, wrote ((lit "JID     STATUS       COMMAND" ++ endl)
                       :: (job_row <$> listed (glob w))) w)
    else (Ret (-1), wrote [lit "1730sh: Usage: jobs" ++ endl] w).
Proof.
  intros Hlive. destruct args as [|a [|b args]]; [done | | done].
  rewrite bool_decide_eq_true_2 by done. unfold jobs_builtin.
  unfold mbind at 1, M_bind at 1. rewrite cout_result.
  unfold mbind at 1, M_bind at 1. unfold gets at 1. cbv beta iota.
  unfold mbind at 1, M_bind at 1.
  rewrite jobs_builtin_loop_rows by exact Hlive. done.
Qed.

Lemma jobs_builtin_lists_every_job_witness :
  (∀ p, Some p ∈ current_jobs (glob two_jobs_world) →
        is_Some (heap (glob two_jobs_world) !! p)) ∧
  (jobs_builtin [lit "jobs"] two_jobs_world).1 = Ret 0 ∧
  trace (os (jobs_builtin [lit "jobs"] two_jobs_world).2) =
    [EWrite (Some Terminal) (lit "JID     STATUS       COMMAND" ++ endl);
     EWrite (Some Terminal) (lit "100     Running      ls | wc" ++ endl);
     EWrite (Some Terminal) (lit "-1      Running      sort < in >> out e> err" ++ endl)].
Proof.
  assert (H : ∀ p, Some p ∈ current_jobs (glob two_jobs_world) →
                   is_Some (heap (glob two_jobs_world) !! p)).
  { intros p. cbn. rewrite !elem_of_cons, elem_of_nil.
    intros [[= ->]|[?|[[= ->]|[]]]]; try done; vm_compute; eauto. }
  split; [exact H |].
  rewrite (jobs_builtin_lists_every_job [lit "jobs"] two_jobs_world H).
  split; vm_compute; reflexivity.
Defined.

(** ** The descriptor table *)

Lemma lowest_free_from_fresh (fuel : nat) :
  ∀ fd (t s : gmap Z OFD),
    (∀ k, fd ≤ k → t !! k = s !! k) → (size s ≤ fuel)%nat →
    t !! lowest_free_from fuel fd t = None.
Proof.
  induction fuel as [|fuel IH]; intros fd t s Hag Hsize; cbn [lowest_free_from].
  - assert (s = ∅) as -> by (apply map_size_empty_inv; lia).
    rewrite Hag by lia. apply lookup_empty.
  - destruct (t !! fd) as [d|] eqn:E; [| exact E].
    apply (IH (fd + 1) t (delete fd s)).
    + intros k Hk. rewrite lookup_delete_ne by lia. apply Hag. lia.
    + rewrite Hag in E by lia. rewrite map_size_delete_Some by eauto. lia.
Qed.

(** The descriptor [open] and [pipe] hand out is not in use. *)
Lemma lowest_free_fresh (t : gmap Z OFD) : t !! lowest_free t = None.
Proof. unfold lowest_free. apply lowest_free_from_fresh with (s := t); [done | lia]. Qed.

(** ** Running the primitives *)

Lemma run_deref p j w : heap (glob w) !! p = Some j → deref p w = (Ret j, w).
Proof. intros E. unfold deref. by rewrite E. Qed.

Lemma run_update_Input p f j w :
  heap (glob w) !! p = Some j →
  update_Input p f w =
    (Ret (), with_glob (λ g, glob_set_heap (<[p := f j]> (heap g)) g) w).
Proof. intros E. unfold update_Input. by rewrite (bind_run _ _ _ _ _ (run_deref p j w E)). Qed.

Lemma run_sys_fork child pid rest w :
  fork_results (os w) = pid :: rest → 0 < pid →
  sys_fork child w =
    (Ret pid, with_os (λ o, os_log (EFork pid child) (os_set_fork_results rest o)) w).
Proof.
  intros E Hpid. unfold sys_fork. rewrite E.
  by replace (0 <? pid) with true by (symmetry; by apply Z.ltb_lt).
Qed.

Lemma run_sys_close fd d w :
  fdt (os w) !! fd = Some d →
  sys_close fd w =
    (Ret 0, with_os (λ o, os_log (EClose fd 0) (os_set_fdt (delete fd (fdt o)) o)) w).
Proof. intros E. unfold sys_close. by rewrite E. Qed.

(** [close_pipe] on a pipe whose two ends are open. *)
Lemma run_close_pipe rd wr d1 d2 b w :
  rd ≠ wr → fdt (os w) !! rd = Some d1 → fdt (os w) !! wr = Some d2 →
  close_pipe (rd, wr) b w =
    (Ret (), with_os (λ o, os_log (EClose wr 0) (os_log (EClose rd 0)
                        (os_set_fdt (delete wr (delete rd (fdt o))) o))) w).
Proof.
  intros Hne E1 E2. unfold close_pipe. cbn [fst snd].
  unfold mbind at 1, M_bind at 1. unfold mbind at 1, M_bind at 1.
  rewrite (run_sys_close rd d1 w E1). cbn [Z.eqb andb].
  unfold mret at 1, M_ret at 1. cbv iota beta.
  unfold mbind at 1, M_bind at 1.
  erewrite run_sys_close; [| cbn; rewrite lookup_delete_ne by done; exact E2].
  done.
Qed.

(** One stream of [close_redirects] after the stream has [grown]. *)
Lemma grown_lookup std fd t t' k d :
  grown std fd t t' → t !! k = Some d → t' !! k = Some d.
Proof.
  intros [[_ ->] | [Hfree [d' ->]]] Hk; [done |].
  rewrite lookup_insert_ne; [done |]. intros ->. congruence.
Qed.

Lemma grown_open std fd t t' :
  is_Some (t !! std) → grown std fd t t' → fd = std ∨ (fd ≠ std ∧ is_Some (t' !! fd)).
Proof.
  intros Hstd [[-> _] | [Hfree [d ->]]]; [by left | right].
  split; [| rewrite lookup_insert_eq; eauto]. intros ->. rewrite Hfree in Hstd. by destruct Hstd.
Qed.

Lemma undo_grown std fd t t' :
  is_Some (t !! std) → grown std fd t t' → undo std fd t' = t.
Proof.
  intros Hstd [[-> ->] | [Hfree [d ->]]]; unfold undo.
  - by rewrite Z.eqb_refl.
  - rewrite (proj2 (Z.eqb_neq fd std)).
    + by rewrite delete_insert_id.
    + intros ->. rewrite Hfree in Hstd. by destruct Hstd.
Qed.

Lemma undo_comm s1 f1 s2 f2 t : undo s1 f1 (undo s2 f2 t) = undo s2 f2 (undo s1 f1 t).
Proof.
  unfold undo. destruct (f1 =? s1), (f2 =? s2); try done. apply delete_delete.
Qed.

(** Growing a table step by step and undoing all steps gives it back. *)
Lemma undo_all fin fout ferr (t0 t1 t2 t3 : gmap Z OFD) :
  is_Some (t0 !! STDIN_FILENO) → is_Some (t0 !! STDOUT_FILENO) →
  is_Some (t0 !! STDERR_FILENO) →
  grown STDIN_FILENO fin t0 t1 → grown STDOUT_FILENO fout t1 t2 →
  grown STDERR_FILENO ferr t2 t3 →
  undo STDERR_FILENO ferr (undo STDOUT_FILENO fout (undo STDIN_FILENO fin t3)) = t0.
Proof.
  intros H0 H1 H2 G1 G2 G3.
  assert (H1' : is_Some (t1 !! STDOUT_FILENO)).
  { destruct H1 as [d Hd]. exists d. by eapply grown_lookup. }
  assert (H2' : is_Some (t2 !! STDERR_FILENO)).
  { destruct H2 as [d Hd]. exists d. eapply grown_lookup; [exact G2 |].
    by eapply grown_lookup. }
  rewrite (undo_comm STDERR_FILENO), (undo_comm STDERR_FILENO).
  rewrite (undo_grown _ _ _ _ H2' G3).
  rewrite (undo_comm STDOUT_FILENO), (undo_grown _ _ _ _ H1' G2).
  by apply undo_grown.
Qed.

Lemma run_close_one (std fd : Z) (w : World) :
  fd = std ∨ is_Some (fdt (os w) !! fd) →
  ∃ w', (if negb (fd =? std) then
           r ← sys_close fd; if r =? -1 then nope_out (lit "close") else mret ()
         else mret ()) w = (Ret (), w') ∧
        fdt (os w') = undo std fd (fdt (os w)) ∧
        trace (os w') = trace (os w) ++ (if fd =? std then [] else [EClose fd 0]) ∧
        same_shell w w'.
Proof.
  intros H. unfold undo. destruct (fd =? std) eqn:E; cbn [negb].
  - exists w. by rewrite app_nil_r.
  - destruct H as [-> | [d Hd]]; [by rewrite Z.eqb_refl in E |].
    rewrite (bind_run _ _ _ _ _ (run_sys_close fd d w Hd)). cbn [Z.eqb].
    eexists. split; [reflexivity |]. done.
Qed.

(** [close_redirects] closes what [set_redirects] opened, and only that. *)
Lemma run_close_redirects fin fout ferr (t0 t1 t2 : gmap Z OFD) (w : World) :
  is_Some (t0 !! STDIN_FILENO) → is_Some (t0 !! STDOUT_FILENO) →
  is_Some (t0 !! STDERR_FILENO) →
  grown STDIN_FILENO fin t0 t1 → grown STDOUT_FILENO fout t1 t2 →
  grown STDERR_FILENO ferr t2 (fdt (os w)) →
  ∃ w', close_redirects fin fout ferr w = (Ret (), w') ∧
        fdt (os w') = t0 ∧
        trace (os w') = trace (os w) ++ redirect_closes fin fout ferr ∧
        same_shell w w'.
Proof.
  intros H0 H1 H2 G1 G2 G3.
  assert (H1' : is_Some (t1 !! STDOUT_FILENO)).
  { destruct H1 as [d Hd]. exists d. by eapply grown_lookup. }
  assert (H2' : is_Some (t2 !! STDERR_FILENO)).
  { destruct H2 as [d Hd]. exists d. eapply grown_lookup; [exact G2 |].
    by eapply grown_lookup. }
  assert (Hin : fin = STDIN_FILENO ∨ is_Some (fdt (os w) !! fin)).
  { destruct (grown_open _ _ _ _ H0 G1) as [|[_ [d Hd]]]; [by left | right].
    exists d. eapply grown_lookup; [exact G3 |]. by eapply grown_lookup. }
  assert (Hout : fout = STDOUT_FILENO ∨
                 (fout ≠ fin ∧ is_Some (fdt (os w) !! fout))).
  { destruct (grown_open _ _ _ _ H1' G2) as [|[Hne [d Hd]]]; [by left | right]. split.
    - destruct G2 as [[? _] | [Hfree _]]; [done |]. intros ->.
      destruct G1 as [[-> ->] | [_ [d' ->]]].
      + destruct H0 as [? H0]. congruence.
      + by rewrite lookup_insert_eq in Hfree.
    - exists d. by eapply grown_lookup. }
  assert (Herr : ferr = STDERR_FILENO ∨
                 (ferr ≠ fin ∧ ferr ≠ fout ∧ is_Some (fdt (os w) !! ferr))).
  { destruct (grown_open _ _ _ _ H2' G3) as [|[Hne Hd]]; [by left | right].
    destruct G3 as [[? _] | [Hfree _]]; [done |]. split_and!; [| | done].
    - intros ->. destruct G1 as [[-> ->] | [_ [d' ->]]].
      + destruct H0 as [d0 H0]. pose proof (grown_lookup _ _ _ _ _ _ G2 H0). congruence.
      + pose proof (grown_lookup _ _ _ _ fin d' G2 (lookup_insert_eq _ _ _)). congruence.
    - intros ->. destruct G2 as [[-> ->] | [_ [d' ->]]].
      + destruct H1' as [? ?]. congruence.
      + by rewrite lookup_insert_eq in Hfree. }
  unfold close_redirects.
  destruct (run_close_one STDIN_FILENO fin w Hin) as (w1 & E1 & T1 & Tr1 & S1).
  rewrite (bind_run _ _ _ _ _ E1).
  destruct (run_close_one STDOUT_FILENO fout w1) as (w2 & E2 & T2 & Tr2 & S2).
  { destruct Hout as [|[Hne [d Hd]]]; [by left | right]. rewrite T1. unfold undo.
    destruct (fin =? STDIN_FILENO); [eauto |]. rewrite lookup_delete_ne by done. eauto. }
  rewrite (bind_run _ _ _ _ _ E2).
  destruct (run_close_one STDERR_FILENO ferr w2) as (w3 & E3 & T3 & Tr3 & S3).
  { destruct Herr as [|(Hne1 & Hne2 & [d Hd])]; [by left | right]. rewrite T2, T1. unfold undo.
    destruct (fout =? STDOUT_FILENO), (fin =? STDIN_FILENO);
      rewrite ?lookup_delete_ne by done; eauto. }
  exists w3. split; [exact E3 |]. split_and!.
  - rewrite T3, T2, T1. by eapply undo_all.
  - rewrite Tr3, Tr2, Tr1. unfold redirect_closes. by rewrite <-!app_assoc.
  - eapply same_shell_trans; [| exact S3]. by eapply same_shell_trans.
Qed.

(** *** What [set_redirects] does to the descriptor table *)

Lemma sys_open_cases path flags mode w :
  sys_open path flags mode w =
    (Ret (-1), with_os (os_log (EOpen path flags mode (-1))) w) ∨
  sys_open path flags mode w =
    (Ret (lowest_free (fdt (os w))),
     with_os (λ o, os_log (EOpen path flags mode (lowest_free (fdt (os w))))
                     (os_set_files ({[path]} ∪ files o)
                        (os_set_fdt (<[lowest_free (fdt (os w)) := OpenFile path flags]> (fdt o))
                           o))) w).
Proof.
  unfold sys_open.
  destruct (negb (denied (os w) path flags) &&
            (has_flag flags O_CREAT || bool_decide (path ∈ files (os w)))); auto.
Qed.

Lemma open_grows {A} path flags mode msg (failed : Z → A) (k : Z → M A) w :
  let m := fd ← sys_open path flags mode;
           if fd =? -1 then cout msg;; mret (failed fd) else k fd in
  (∃ w', m w = (Ret (failed (-1)), w') ∧ fdt (os w') = fdt (os w)) ∨
  (∃ fd w1, m w = k fd w1 ∧ fdt (os w) !! fd = None ∧
            fdt (os w1) = <[fd := OpenFile path flags]> (fdt (os w))).
Proof.
  cbv zeta. destruct (sys_open_cases path flags mode w) as [E|E];
    rewrite (bind_run _ _ _ _ _ E).
  - left. change (-1 =? -1) with true. cbv iota.
    eexists. split; [reflexivity | done].
  - right. pose proof (lowest_free_nonneg (fdt (os w))) as Hnn.
    rewrite (proj2 (Z.eqb_neq (lowest_free (fdt (os w))) (-1))) by lia.
    eexists _, _. split; [reflexivity |]. split; [apply lowest_free_fresh | done].
Qed.

Lemma set_redirects_err_grows job fin fout w :
  ∃ ret ferr w', set_redirects_err job fin fout w = (Ret (ret, fin, fout, ferr), w') ∧
    (ret = 0 ∨ ret = -1) ∧
    (ret = 0 → grown STDERR_FILENO ferr (fdt (os w)) (fdt (os w'))).
Proof.
  unfold set_redirects_err.
  destruct (negb (fd_STDERR job ==s lit "STDERR_FILENO")).
  - destruct (type_STDERR job ==s lit "e>").
    + edestruct (open_grows (fd_STDERR job) (Z.lor (Z.lor O_CREAT O_WRONLY) O_TRUNC)
                   (Some mode_0644)
                   (lit "1730sh: `" ++ fd_STDERR job ++ lit "' cannot be opened" ++ endl)
                   (λ fd, (-1, fin, fout, fd))
                   (λ fd, mret (0, fin, fout, fd)) w)
        as [(w' & E & _) | (fd & w1 & E & Hfree & Ht)]; cbv zeta in E; rewrite E.
      * eexists _, _, _. split; [reflexivity |]. split; [by right | done].
      * eexists _, _, _. split; [reflexivity |]. split; [by left |]. intros _. right. eauto.
    + edestruct (open_grows (fd_STDERR job) (Z.lor (Z.lor O_CREAT O_WRONLY) O_APPEND)
                   (Some mode_0666)
                   (lit "1730sh: `" ++ fd_STDERR job ++ lit "' cannot be opened" ++ endl)
                   (λ fd, (-1, fin, fout, fd))
                   (λ fd, mret (0, fin, fout, fd)) w)
        as [(w' & E & _) | (fd & w1 & E & Hfree & Ht)]; cbv zeta in E; rewrite E.
      * eexists _, _, _. split; [reflexivity |]. split; [by right | done].
      * eexists _, _, _. split; [reflexivity |]. split; [by left |]. intros _. right. eauto.
  - eexists _, _, _. split; [reflexivity |]. split; [by left |]. intros _. by left.
Qed.

Lemma set_redirects_out_grows job fin w :
  ∃ ret fout ferr w' t1, set_redirects_out job fin w = (Ret (ret, fin, fout, ferr), w') ∧
    (ret = 0 ∨ ret = -1) ∧
    (ret = 0 → grown STDOUT_FILENO fout (fdt (os w)) t1 ∧
               grown STDERR_FILENO ferr t1 (fdt (os w'))).
Proof.
  unfold set_redirects_out.
  assert (Hnext : ∀ fout w1, grown STDOUT_FILENO fout (fdt (os w)) (fdt (os w1)) →
    ∃ ret fout' ferr w' t1,
      set_redirects_err job fin fout w1 = (Ret (ret, fin, fout', ferr), w') ∧
      (ret = 0 ∨ ret = -1) ∧
      (ret = 0 → grown STDOUT_FILENO fout' (fdt (os w)) t1 ∧
                 grown STDERR_FILENO ferr t1 (fdt (os w')))).
  { intros fout w1 G. destruct (set_redirects_err_grows job fin fout w1)
      as (ret & ferr & w' & E & Hret & Hg).
    exists ret, fout, ferr, w', (fdt (os w1)). split; [exact E |]. split; [exact Hret |]. eauto. }
  destruct (negb (fd_STDOUT job ==s lit "STDOUT_FILENO")).
  - destruct (type_STDOUT job ==s lit ">").
    + edestruct (open_grows (fd_STDOUT job) (Z.lor (Z.lor O_CREAT O_WRONLY) O_TRUNC)
                   (Some mode_0644)
                   (lit "1730sh: `" ++ fd_STDOUT job ++ lit "' cannot be opened" ++ endl)
                   (λ fd, (-1, fin, fd, STDERR_FILENO))
                   (λ fd, set_redirects_err job fin fd) w)
        as [(w' & E & _) | (fd & w1 & E & Hfree & Ht)]; cbv zeta in E; rewrite E.
      * eexists _, _, _, _, (fdt (os w)). split; [reflexivity |]. split; [by right | done].
      * apply Hnext. right. eauto.
    + edestruct (open_grows (fd_STDOUT job) (Z.lor (Z.lor O_CREAT O_WRONLY) O_APPEND)
                   (Some mode_0666)
                   (lit "1730sh: `" ++ fd_STDOUT job ++ lit "' cannot be opened" ++ endl)
                   (λ fd, (-1, fin, fd, STDERR_FILENO))
                   (λ fd, set_redirects_err job fin fd) w)
        as [(w' & E & _) | (fd & w1 & E & Hfree & Ht)]; cbv zeta in E; rewrite E.
      * eexists _, _, _, _, (fdt (os w)). split; [reflexivity |]. split; [by right | done].
      * apply Hnext. right. eauto.
  - apply Hnext. by left.
Qed.

(** When [set_redirects] returns 0, each stream has kept its standard
    descriptor or got a fresh one. *)
Lemma set_redirects_grows job w :
  ∃ ret fin fout ferr w' t1 t2,
    set_redirects job w = (Ret (ret, fin, fout, ferr), w') ∧
    (ret = 0 ∨ ret = -1) ∧
    (ret = 0 → grown STDIN_FILENO fin (fdt (os w)) t1 ∧
               grown STDOUT_FILENO fout t1 t2 ∧
               grown STDERR_FILENO ferr t2 (fdt (os w'))).
Proof.
  unfold set_redirects.
  assert (Hnext : ∀ fin w1, grown STDIN_FILENO fin (fdt (os w)) (fdt (os w1)) →
    ∃ ret fin' fout ferr w' t1 t2,
      set_redirects_out job fin w1 = (Ret (ret, fin', fout, ferr), w') ∧
      (ret = 0 ∨ ret = -1) ∧
      (ret = 0 → grown STDIN_FILENO fin' (fdt (os w)) t1 ∧
                 grown STDOUT_FILENO fout t1 t2 ∧
                 grown STDERR_FILENO ferr t2 (fdt (os w')))).
  { intros fin w1 G. destruct (set_redirects_out_grows job fin w1)
      as (ret & fout & ferr & w' & t2 & E & Hret & Hg).
    exists ret, fin, fout, ferr, w', (fdt (os w1)), t2.
    split; [exact E |]. split; [exact Hret |]. intros H. by destruct (Hg H). }
  destruct (negb (fd_STDIN job ==s lit "STDIN_FILENO")).
  - edestruct (open_grows (fd_STDIN job) O_RDONLY None
                 (lit "1730sh: " ++ fd_STDIN job ++ lit ": No such file or directory" ++ endl)
                 (λ fd, (-1, fd, STDOUT_FILENO, STDERR_FILENO))
                 (λ fd, set_redirects_out job fd) w)
      as [(w' & E & _) | (fd & w1 & E & Hfree & Ht)]; cbv zeta in E; rewrite E.
    + eexists _, _, _, _, _, (fdt (os w)), (fdt (os w)).
      split; [reflexivity |]. split; [by right | done].
    + apply Hnext. right. eauto.
  - apply Hnext. by left.
Qed.

(** ** Launching a job *)

Lemma args_at_fmap (j : Input) (i : nat) :
  args_at j i = default [] ((args <$> processes j) !! i).
Proof. unfold args_at. rewrite list_lookup_fmap. by destruct (processes j !! i). Qed.

Lemma args_book i pid j : args <$> processes (book i pid j) = args <$> processes j.
Proof.
  assert (H : args <$> processes (set_PID_at i pid j) = args <$> processes j).
  { unfold set_PID_at. cbn [processes with_processes].
    apply list_eq. intros k. rewrite !list_lookup_fmap.
    destruct (decide (k = i)) as [->|Hne].
    - rewrite list_lookup_alter_eq. by destruct (processes j !! i).
    - by rewrite list_lookup_alter_ne. }
  unfold book. case_bool_decide; [| exact H].
  cbn [setJID processes]. rewrite <-H, <-list_fmap_compose. by apply list_fmap_ext.
Qed.

(** The parent side of one stage after its [fork] has succeeded. *)
Lemma run_single job fin fout ferr pid rest j w :
  heap (glob w) !! job = Some j →
  fork_results (os w) = pid :: rest → 0 < pid →
  ∃ w', launch_single job fin fout ferr w = (Ret (), w') ∧
        fdt (os w') = fdt (os w) ∧ fork_results (os w') = rest ∧ loc w' = loc w ∧
        last_exit_status (glob w') = last_exit_status (glob w) ∧
        current_jobs (glob w') = current_jobs (glob w) ∧
        next_ptr (glob w') = next_ptr (glob w) ∧
        heap (glob w') = <[job := book 0 pid j]> (heap (glob w)) ∧
        trace (os w') = trace (os w) ++
          stages_events fin fout ferr pid (args <$> processes j) 0 None [pid] [].
Proof.
  intros Hj Hf Hpid. unfold launch_single.
  rewrite (bind_run _ _ _ _ _ (run_deref job j w Hj)).
  erewrite bind_run; [| by apply run_sys_fork].
  rewrite (proj2 (Z.eqb_neq pid (-1))) by lia.
  erewrite bind_run; [| by apply (run_update_Input job _ j)].
  erewrite bind_run; [| apply (run_update_Input job _ (set_PID_at 0 pid j)); cbn;
                        by rewrite lookup_insert_eq].
  erewrite bind_run; [| apply (run_deref job (setJID pid (set_PID_at 0 pid j))); cbn;
                        by rewrite lookup_insert_eq].
  cbn [JID setJID]. unfold sys_setpgid.
  eexists. split; [reflexivity |]. cbn.
  split_and!; try done.
  - by rewrite insert_insert_eq.
  - by rewrite args_at_fmap, <-app_assoc.
Qed.

Lemma run_sys_pipe w :
  sys_pipe w =
    (Ret (lowest_free (fdt (os w)),
          lowest_free (<[lowest_free (fdt (os w)) := PipeRead (pipes_made (os w))]> (fdt (os w)))),
     with_os (λ o, os_log (EPipe (lowest_free (fdt (os w)))
                             (lowest_free (<[lowest_free (fdt (os w)) :=
                                               PipeRead (pipes_made (os w))]> (fdt (os w)))))
                     (os_set_pipes_made (S (pipes_made o))
                        (os_set_fdt
                           (<[lowest_free (<[lowest_free (fdt (os w)) :=
                                               PipeRead (pipes_made (os w))]> (fdt (os w))) :=
                                PipeWrite (pipes_made (os w))]>
                              (<[lowest_free (fdt (os w)) := PipeRead (pipes_made (os w))]>
                                 (fdt (os w)))) o))) w).
Proof. done. Qed.

Lemma bind_ret {A B} (a : A) (f : A → M B) w : (mret a ≫= f) w = f a w.
Proof. done. Qed.

Lemma bind_bind_ret {A B C} (a : A) (f : A → M B) (g : B → M C) w :
  ((mret a ≫= f) ≫= g) w = (f a ≫= g) w.
Proof. done. Qed.

Lemma JID_book i pid j : JID (book i pid j) = if bool_decide (i = 0%nat) then pid else JID j.
Proof. unfold book. by case_bool_decide. Qed.

Lemma table_without_pipe (T : gmap Z OFD) rd wr d1 d2 :
  rd ≠ wr → T !! rd = None → T !! wr = None →
  delete wr (delete rd (<[wr := d2]> (<[rd := d1]> T))) = T.
Proof.
  intros. rewrite (delete_insert_ne _ rd wr) by done.
  rewrite (delete_insert_id T rd) by done. by apply delete_insert_id.
Qed.

(** The table with the pipe of the stage before, closed. *)
Lemma table_without_prev (T : gmap Z OFD) rd wr d1 d2 rd' wr' e1 e2 :
  rd' ≠ rd → rd' ≠ wr → wr' ≠ rd → wr' ≠ wr →
  T !! rd' = None → T !! wr' = None →
  delete wr' (delete rd' (<[wr := d2]> (<[rd := d1]> (<[wr' := e2]> (<[rd' := e1]> T))))) =
    <[wr := d2]> (<[rd := d1]> T).
Proof.
  intros. apply map_eq. intros k.
  destruct (decide (k = wr')) as [->|]; [by rewrite lookup_delete_eq, !lookup_insert_ne |].
  rewrite lookup_delete_ne by done.
  destruct (decide (k = rd')) as [->|]; [by rewrite lookup_delete_eq, !lookup_insert_ne |].
  rewrite lookup_delete_ne by done.
  destruct (decide (k = wr)) as [->|]; [by rewrite !lookup_insert_eq |].
  rewrite !(lookup_insert_ne _ wr) by done.
  destruct (decide (k = rd)) as [->|]; [by rewrite !lookup_insert_eq |].
  by rewrite !lookup_insert_ne.
Qed.

Lemma launch_pipeline_S job fd_STDIN fd_STDOUT fd_STDERR size pipes i n :
  launch_pipeline job fd_STDIN fd_STDOUT fd_STDERR size pipes i (S n) =
    (pipes ← (if negb (bool_decide (i = (size - 1)%nat)) then pipe_into pipes i
              else mret pipes);
     j ← deref job;
     fds ← stage_redirects pipes i size fd_STDIN fd_STDOUT fd_STDERR;
     pid ← sys_fork {| child_stage := i; child_stdin := fds.1.1; child_stdout := fds.1.2;
                       child_stderr := fds.2; child_argv := args_at j i |};
     if pid =? -1 then nope_out (lit "fork")
     else
       update_Input job (set_PID_at i pid);;
       (if bool_decide (i = 0%nat) then update_Input job (setJID pid) else mret ());;
       j ← deref job;
       r ← sys_setpgid pid (JID j);
       if r =? -1 then nope_out (lit "setpgid")
       else
         (if negb (bool_decide (i = 0%nat)) then
            p ← pipe_at pipes (i - 1); close_pipe p true
          else mret ());;
         launch_pipeline job fd_STDIN fd_STDOUT fd_STDERR size pipes (S i) n).
Proof. done. Qed.

(** The loop of the pipeline from stage [i] on, [S n] stages to go, when
    every [fork] succeeds: the descriptor table ends as [T], the table the
    loop started from. *)
Lemma run_pipeline (job : nat) (fin fout ferr : Z) (size : nat) (T : gmap Z OFD)
    (argvs : list (list str)) (pgid : Z) (rest : list Z) :
  (2 ≤ size)%nat →
  ∀ n i pipes w pids j prev,
    (i + S n = size)%nat →
    length pipes = (size - 1)%nat →
    heap (glob w) !! job = Some j →
    args <$> processes j = argvs →
    (i ≠ 0%nat → JID j = pgid) →
    fork_results (os w) = pids ++ rest → length pids = S n → Forall (λ p, 0 < p) pids →
    (i = 0%nat → head pids = Some pgid) →
    match prev with
    | None => i = 0%nat ∧ fdt (os w) = T
    | Some (rd, wr) =>
        i ≠ 0%nat ∧ pipes !! (i - 1)%nat = Some (Some (rd, wr)) ∧
        T !! rd = None ∧ T !! wr = None ∧ rd ≠ wr ∧
        ∃ d1 d2, fdt (os w) = <[wr := d2]> (<[rd := d1]> T)
    end →
    ∃ w' newpipes,
      launch_pipeline job fin fout ferr size pipes i (S n) w = (Ret (), w') ∧
      fdt (os w') = T ∧ fork_results (os w') = rest ∧ loc w' = loc w ∧
      last_exit_status (glob w') = last_exit_status (glob w) ∧
      current_jobs (glob w') = current_jobs (glob w) ∧
      next_ptr (glob w') = next_ptr (glob w) ∧
      heap (glob w') =
        <[job := fold_left (λ j kp, book kp.1 kp.2 j) (zip (seq i (S n)) pids) j]>
          (heap (glob w)) ∧
      length newpipes = n ∧
      trace (os w') =
        trace (os w) ++ stages_events fin fout ferr pgid argvs i prev pids newpipes.
Proof.
  intros Hsize n. induction n as [|n IH];
    intros i pipes w pids j prev Hi Hlen Hj Hargs Hjid Hf Hpids Hpos Hhead Hprev.
  - (* the last stage *)
    destruct pids as [|pid [|? ?]]; try done. clear Hpids.
    rewrite Forall_singleton in Hpos.
    assert (Hi0 : i ≠ 0%nat) by lia.
    destruct prev as [[rd wr]|]; [| by destruct Hprev].
    destruct Hprev as (_ & Hpr & Hrd & Hwr & Hne & d1 & d2 & Ht).
    rewrite launch_pipeline_S.
    rewrite (bool_decide_eq_true_2 (i = (size - 1)%nat)) by lia. cbn [negb].
    erewrite bind_run; [| reflexivity].
    rewrite (bind_run _ _ _ _ _ (run_deref job j w Hj)).
    unfold stage_redirects. rewrite (bool_decide_eq_false_2 (i = 0%nat)) by done.
    rewrite (bool_decide_eq_true_2 (i = (size - 1)%nat)) by lia. cbn [negb].
    unfold pipe_at. rewrite Hpr.
    erewrite bind_run; [| reflexivity]. cbn [fst snd].
    erewrite bind_run; [| by apply (run_sys_fork _ pid rest)].
    rewrite (proj2 (Z.eqb_neq pid (-1))) by lia.
    erewrite bind_run; [| by apply (run_update_Input job _ j)].
    erewrite bind_run; [| reflexivity].
    erewrite bind_run; [| apply (run_deref job (set_PID_at i pid j)); cbn;
                          by rewrite lookup_insert_eq].
    erewrite bind_run; [| reflexivity]. cbn [Z.eqb].
    cbn [negb]. rewrite bind_bind_ret.
    erewrite bind_run.
    2:{ apply (run_close_pipe rd wr d1 d2); [done | |]; cbn; rewrite Ht.
        - rewrite lookup_insert_ne by done. apply lookup_insert_eq.
        - apply lookup_insert_eq. }
    cbn [launch_pipeline]. eexists _, []. split; [reflexivity |]. cbn.
    split_and!; try done.
    + rewrite Ht. by apply table_without_pipe.
    + unfold book. by rewrite (bool_decide_eq_false_2 (i = 0%nat)).
    + rewrite args_at_fmap, Hargs, <-!app_assoc. cbn [app].
      unfold set_PID_at. cbn [JID with_processes]. by rewrite Hjid.
  - (* a stage that makes a pipe *)
    destruct pids as [|pid pids]; [done |]. injection Hpids as Hpids.
    rewrite Forall_cons in Hpos. destruct Hpos as [Hpid Hpos'].
    assert (Hlt : (i < length pipes)%nat) by lia.
    destruct (lookup_lt_is_Some_2 pipes i Hlt) as [slot Hslot].
    rewrite launch_pipeline_S.
    rewrite (bool_decide_eq_false_2 (i = (size - 1)%nat)) by lia. cbn [negb].
    unfold pipe_into at 1. rewrite Hslot.
    set (rd := lowest_free (fdt (os w))).
    set (wr := lowest_free (<[rd := PipeRead (pipes_made (os w))]> (fdt (os w)))).
    assert (Hrd : fdt (os w) !! rd = None) by apply lowest_free_fresh.
    assert (Hwr : <[rd := PipeRead (pipes_made (os w))]> (fdt (os w)) !! wr = None)
      by apply lowest_free_fresh.
    assert (Hne : rd ≠ wr).
    { intros E. rewrite <-E, lookup_insert_eq in Hwr. done. }
    rewrite lookup_insert_ne in Hwr by done.
    rewrite (bind_run _ _ _ _ _ (bind_run _ _ _ _ _ (run_sys_pipe w))).
    fold rd wr. set (pipes' := <[i := Some (rd, wr)]> pipes).
    set (w1 := with_os _ w).
    assert (Hj1 : heap (glob w1) !! job = Some j) by exact Hj.
    rewrite (bind_run _ _ _ _ _ (run_deref job j w1 Hj1)).
    assert (Hp' : pipes' !! i = Some (Some (rd, wr)))
      by (unfold pipes'; by rewrite list_lookup_insert_eq).
    assert (Hstage : stage_redirects pipes' i size fin fout ferr w1 =
              (Ret (match prev with Some (r, _) => r | None => fin end, wr, -1), w1)).
    { unfold stage_redirects. destruct prev as [[rd' wr']|].
      - destruct Hprev as (Hi0 & Hpr & _).
        rewrite (bool_decide_eq_false_2 (i = 0%nat)) by done.
        rewrite (bool_decide_eq_false_2 (i = (size - 1)%nat)) by lia. cbn [negb].
        unfold pipe_at. rewrite Hp'. unfold pipes'.
        rewrite (list_lookup_insert_ne pipes i (i - 1)) by lia. rewrite Hpr. done.
      - destruct Hprev as [-> _]. rewrite bool_decide_eq_true_2 by done.
        unfold pipe_at. rewrite Hp'. done. }
    rewrite (bind_run _ _ _ _ _ Hstage). cbn [fst snd].
    erewrite bind_run; [| by apply (run_sys_fork _ pid (pids ++ rest))].
    rewrite (proj2 (Z.eqb_neq pid (-1))) by lia.
    erewrite bind_run; [| by apply (run_update_Input job _ j)].
    set (w2 := with_glob _ _).
    assert (Hbook : ∃ w3,
      (if bool_decide (i = 0%nat) then update_Input job (setJID pid) else mret ()) w2 =
        (Ret (), w3) ∧
      os w3 = os w2 ∧ loc w3 = loc w2 ∧
      last_exit_status (glob w3) = last_exit_status (glob w) ∧
      current_jobs (glob w3) = current_jobs (glob w) ∧
      next_ptr (glob w3) = next_ptr (glob w) ∧
      heap (glob w3) = <[job := book i pid j]> (heap (glob w))).
    { unfold book. case_bool_decide as Hi0.
      - eexists. split.
        + apply (run_update_Input job _ (set_PID_at i pid j)). cbn.
          by rewrite lookup_insert_eq.
        + cbn. split_and!; try done. by rewrite insert_insert_eq.
      - eexists. split; [reflexivity |]. done. }
    destruct Hbook as (w3 & E3 & Hos3 & Hloc3 & Hst3 & Hcj3 & Hnp3 & Hheap3).
    rewrite (bind_run _ _ _ _ _ E3).
    assert (Hj3 : heap (glob w3) !! job = Some (book i pid j))
      by (rewrite Hheap3; apply lookup_insert_eq).
    rewrite (bind_run _ _ _ _ _ (run_deref job _ w3 Hj3)).
    assert (Hpg : JID (book i pid j) = pgid).
    { rewrite JID_book. case_bool_decide as Hi0; [| by apply Hjid].
      specialize (Hhead Hi0). by injection Hhead. }
    rewrite Hpg. erewrite bind_run; [| reflexivity]. cbn [Z.eqb].
    set (w4 := with_os _ w3).
    assert (Hclose : ∃ w5,
      (if negb (bool_decide (i = 0%nat))
       then p ← pipe_at pipes' (i - 1); close_pipe p true else mret ()) w4 = (Ret (), w5) ∧
      glob w5 = glob w3 ∧ loc w5 = loc w ∧ fork_results (os w5) = pids ++ rest ∧
      (∃ d1 d2, fdt (os w5) = <[wr := d2]> (<[rd := d1]> T)) ∧
      T !! rd = None ∧ T !! wr = None ∧
      trace (os w5) =
        trace (os w) ++ [EPipe rd wr;
                         EFork pid (stage_child fin fout ferr i prev (Some (rd, wr))
                                      (default [] (argvs !! i)));
                         ESetpgid pid pgid] ++ closes_of prev).
    { assert (Htr4 : trace (os w4) =
                trace (os w) ++ [EPipe rd wr;
                                 EFork pid (stage_child fin fout ferr i prev (Some (rd, wr))
                                              (default [] (argvs !! i)));
                                 ESetpgid pid pgid]).
      { unfold w4. cbn. rewrite Hos3. cbn. rewrite args_at_fmap, Hargs, <-!app_assoc. done. }
      assert (Hfd4 : fdt (os w4) =
                <[wr := PipeWrite (pipes_made (os w))]>
                  (<[rd := PipeRead (pipes_made (os w))]> (fdt (os w)))).
      { unfold w4. cbn. rewrite Hos3. done. }
      assert (Hfk4 : fork_results (os w4) = pids ++ rest).
      { unfold w4. cbn. rewrite Hos3. done. }
      assert (Hg4 : glob w4 = glob w3) by done.
      assert (Hl4 : loc w4 = loc w) by (unfold w4; cbn; by rewrite Hloc3).
      clearbody w4.
      destruct prev as [[rd' wr']|].
      - destruct Hprev as (Hi0 & Hpr & Hrd' & Hwr' & Hne' & e1 & e2 & Ht).
        rewrite (bool_decide_eq_false_2 (i = 0%nat)) by done. cbn [negb].
        unfold pipe_at. unfold pipes'.
        rewrite (list_lookup_insert_ne pipes i (i - 1)) by lia. rewrite Hpr.
        erewrite bind_run; [| reflexivity].
        assert (Hrd1 : rd ≠ rd') by (intros E; rewrite E, Ht, lookup_insert_ne, lookup_insert_eq in Hrd; done).
        assert (Hrd2 : rd ≠ wr') by (intros E; rewrite E, Ht, lookup_insert_eq in Hrd; done).
        assert (Hwr1 : wr ≠ rd') by (intros E; rewrite E, Ht, lookup_insert_ne, lookup_insert_eq in Hwr; done).
        assert (Hwr2 : wr ≠ wr') by (intros E; rewrite E, Ht, lookup_insert_eq in Hwr; done).
        eexists. split.
        + apply (run_close_pipe rd' wr' e1 e2); [done | |]; rewrite Hfd4, Ht.
          * rewrite !lookup_insert_ne by done. apply lookup_insert_eq.
          * rewrite !lookup_insert_ne by done. apply lookup_insert_eq.
        + cbn. split_and!; try done.
          * exists (PipeRead (pipes_made (os w))), (PipeWrite (pipes_made (os w))).
            rewrite Hfd4, Ht. by apply table_without_prev.
          * rewrite Ht, !lookup_insert_ne in Hrd by done. done.
          * rewrite Ht, !lookup_insert_ne in Hwr by done. done.
          * rewrite Htr4, <-!app_assoc. done.
      - destruct Hprev as [-> Ht]. rewrite bool_decide_eq_true_2 by done. cbn [negb].
        eexists. split; [reflexivity |].
        split_and!; try done; try (by rewrite <-Ht);
          try (rewrite Htr4; cbn [closes_of]; by rewrite app_nil_r).
        exists (PipeRead (pipes_made (os w))), (PipeWrite (pipes_made (os w))).
        by rewrite Hfd4, Ht. }
    destruct Hclose as (w5 & E5 & Hg5 & Hloc5 & Hfk5 & Hfd5 & HTrd & HTwr & Htr5).
    rewrite (bind_run _ _ _ _ _ E5).
    destruct (IH (S i) pipes' w5 pids (book i pid j) (Some (rd, wr)))
      as (w' & newpipes & E & Hfd & Hfk & Hloc & Hst & Hcj & Hnp & Hheap & Hnl & Htr).
    + lia.
    + unfold pipes'. by rewrite length_insert.
    + by rewrite Hg5.
    + by rewrite args_book.
    + intros _. exact Hpg.
    + exact Hfk5.
    + exact Hpids.
    + exact Hpos'.
    + done.
    + replace (S i - 1)%nat with i by lia. split_and!; try done.
    + exists w', ((rd, wr) :: newpipes). split; [exact E |].
      split_and!; try done.
      * by rewrite Hloc.
      * by rewrite Hst, Hg5.
      * by rewrite Hcj, Hg5.
      * by rewrite Hnp, Hg5.
      * rewrite Hheap, Hg5, Hheap3, insert_insert_eq. done.
      * simpl. by rewrite Hnl.
      * rewrite Htr, Htr5, <-!app_assoc. cbn [stages_events].
        destruct pids as [|pid' pids]; [done |]. done.
Qed.

(** *** The bookkeeping of a launch in closed form *)

Lemma with_processes_twice ps ps' j :
  with_processes ps (with_processes ps' j) = with_processes ps j.
Proof. done. Qed.

Lemma fold_book_later (pids : list Z) :
  ∀ (todo done : list Process) (j : Input),
    length pids = length todo → processes j = done ++ todo → done ≠ [] →
    fold_left (λ j kp, book kp.1 kp.2 j) (zip (seq (length done) (length pids)) pids) j =
      with_processes (done ++ zip_with set_PID pids todo) j.
Proof.
  induction pids as [|pid pids IH]; intros todo done j Hlen Hps Hdone.
  - destruct todo; [| done]. cbn. rewrite <-Hps. by destruct j.
  - destruct todo as [|p todo]; [done |]. injection Hlen as Hlen.
    cbn [length seq zip zip_with fold_left fst snd].
    assert (Hb : book (length done) pid j =
                 with_processes ((done ++ [set_PID pid p]) ++ todo) j).
    { unfold book. rewrite bool_decide_eq_false_2 by (by destruct done).
      unfold set_PID_at. rewrite Hps. f_equal.
      replace (length done) with (length done + 0)%nat by lia.
      rewrite alter_app_r. by rewrite <-app_assoc. }
    rewrite Hb.
    replace (S (length done)) with (length (done ++ [set_PID pid p]))
      by (rewrite length_app; simpl; lia).
    rewrite (IH todo (done ++ [set_PID pid p])); [| done | done | intros E; by apply app_nil in E as [_ ?]].
    rewrite with_processes_twice. f_equal. by rewrite <-app_assoc.
Qed.

(** After the loop over all stages the job is [launched]. *)
Lemma fold_book (pids : list Z) (j : Input) :
  length pids = length (processes j) → pids ≠ [] →
  fold_left (λ j kp, book kp.1 kp.2 j) (zip (seq 0 (length pids)) pids) j = launched pids j.
Proof.
  intros Hlen Hne. destruct pids as [|pid0 pids]; [done |].
  destruct (processes j) as [|p0 todo] eqn:Hps; [done |]. injection Hlen as Hlen.
  cbn [length seq zip zip_with fold_left fst snd].
  assert (Hb : processes (book 0 pid0 j) =
               [set_PGID pid0 (set_PID pid0 p0)] ++ (set_PGID pid0 <$> todo)).
  { unfold book. rewrite bool_decide_eq_true_2 by done.
    unfold set_PID_at. cbn [setJID processes with_processes]. by rewrite Hps. }
  rewrite (fold_book_later pids (set_PGID pid0 <$> todo) [set_PGID pid0 (set_PID pid0 p0)]);
    [| by rewrite length_fmap | exact Hb | done].
  unfold launched, book. rewrite bool_decide_eq_true_2 by done.
  unfold with_processes, set_PID_at, setJID. cbn. rewrite Hps. cbn. f_equal. f_equal.
  clear. revert todo. induction pids as [|pid pids IH]; intros [|p todo]; cbn; try done.
  by rewrite IH.
Qed.

(** *** The launch of an external job, end to end *)

Lemma launch_run (ext : Externals) (line : str) (j : Input) (w : World)
    (fin fout ferr : Z) (pids rest : list Z) :
  Input_new line = Some j →
  (set_redirects j w).1 = Ret (0, fin, fout, ferr) →
  is_Some (fdt (os w) !! STDIN_FILENO) →
  is_Some (fdt (os w) !! STDOUT_FILENO) →
  is_Some (fdt (os w) !! STDERR_FILENO) →
  fork_results (os w) = pids ++ rest →
  length pids = length (processes j) → pids ≠ [] →
  Forall (λ p, 0 < p) pids →
  getNumPipes j = Z.of_nat (length (processes j)) - 1 →
  (length (processes j) = 1%nat → ∀ c r, args_at j 0 = c :: r → isBuiltIn c = false) →
  ∃ w' pipes,
    launch ext line w = (Ret (PutJob (next_ptr (glob w)) (foreground j)), w') ∧
    fdt (os w') = fdt (os w) ∧ fork_results (os w') = rest ∧ loc w' = loc w ∧
    last_exit_status (glob w') = last_exit_status (glob w) ∧
    current_jobs (glob w') = current_jobs (glob w) ++ [Some (next_ptr (glob w))] ∧
    next_ptr (glob w') = S (next_ptr (glob w)) ∧
    heap (glob w') = <[next_ptr (glob w) := launched pids j]> (heap (glob w)) ∧
    length pipes = (length pids - 1)%nat ∧
    trace (os w') =
      trace (os (set_redirects j w).2) ++
      stages_events fin fout ferr (default 0 (head pids)) (args <$> processes j)
        0 None pids pipes ++
      redirect_closes fin fout ferr.
Proof.
  intros Hjob Hret H0 H1 H2 Hfk Hlen Hne Hpos Hpipes Hext.
  set (p := next_ptr (glob w)).
  destruct (set_redirects_grows j w)
    as (ret & fin' & fout' & ferr' & ws & t1 & t2 & Es & _ & Hg).
  rewrite Es in Hret. cbn [fst] in Hret. injection Hret as -> -> -> ->.
  destruct (Hg eq_refl) as (G1 & G2 & G3). clear Hg.
  destruct (set_redirects_resolved j w (Input_new_types_ok _ _ Hjob))
    as (? & ? & ? & ? & ? & ? & Es' & _ & (_ & _ & Hfks) & _).
  rewrite Es in Es'. injection Es' as <- <- <- <- <-. rewrite Es. cbn [snd].
  unfold launch. rewrite Hjob.
  erewrite bind_run; [| reflexivity].
  set (wa := with_glob _ w).
  pose proof (os_only_set_redirects j w wa eq_refl) as Ea. rewrite Es in Ea. cbn [fst snd] in Ea.
  rewrite (bind_run _ _ _ _ _ Ea). cbv iota beta. change (0 =? -1) with false. cbv iota.
  set (w1 := with_os _ wa).
  assert (Hj1 : heap (glob w1) !! p = Some j) by (cbn; apply lookup_insert_eq).
  assert (Hfk1 : fork_results (os w1) = pids ++ rest) by (cbn; by rewrite Hfks).
  assert (Hfresh := proj1 (inputToProcesses_fresh (shellInput j))).
  rewrite <-(Input_new_processes line j Hjob) in Hfresh.
  assert (Hin : ∃ w3 pipes,
    (if bool_decide (length (processes j) = 1%nat) then
       match args_at j 0 with
       | [] => undefined "args[0] of an empty vector"
       | command :: _ =>
           if isBuiltIn command then
             do_redirects fin fout ferr;;
             close_redirects fin fout ferr;;
             callBuiltIn ext command (args_at j 0) p;;
             mret false
           else
             launch_single p fin fout ferr;;
             modify (with_glob (λ g, glob_set_jobs (current_jobs g ++ [Some p]) g));;
             mret true
       end
     else
       launch_pipeline p fin fout ferr (length (processes j))
         (makePipes (getNumPipes j)) 0 (length (processes j));;
       modify (with_glob (λ g, glob_set_jobs (current_jobs g ++ [Some p]) g));;
       mret true) w1 = (Ret true, w3) ∧
    fdt (os w3) = fdt (os ws) ∧ fork_results (os w3) = rest ∧ loc w3 = loc w ∧
    last_exit_status (glob w3) = last_exit_status (glob w) ∧
    current_jobs (glob w3) = current_jobs (glob w) ++ [Some p] ∧
    next_ptr (glob w3) = S p ∧
    heap (glob w3) = <[p := launched pids j]> (heap (glob w)) ∧
    length pipes = (length pids - 1)%nat ∧
    trace (os w3) =
      trace (os ws) ++
      stages_events fin fout ferr (default 0 (head pids)) (args <$> processes j)
        0 None pids pipes).
  { case_bool_decide as HN.
    - destruct pids as [|pid [|? ?]]; try (simpl in Hlen; lia). clear Hne.
      rewrite Forall_singleton in Hpos.
      destruct (processes j) as [|p0 [|? ?]] eqn:Hps; try done.
      assert (Hargs : args_at j 0 = args p0) by (unfold args_at; by rewrite Hps).
      rewrite Forall_singleton in Hfresh. destruct Hfresh as (Hcmd & _).
      destruct (args p0) as [|c r] eqn:Hp0; [done |].
      rewrite Hargs. rewrite (Hext eq_refl c r Hargs).
      destruct (run_single p fin fout ferr pid rest j w1 Hj1 Hfk1 Hpos)
        as (w2 & E2 & Hfd2 & Hfk2 & Hloc2 & Hst2 & Hcj2 & Hnp2 & Hheap2 & Htr2).
      rewrite (bind_run _ _ _ _ _ E2).
      eexists _, []. split; [reflexivity |]. cbn.
      rewrite Hfd2, Hfk2, Hloc2, Hst2, Hcj2, Hnp2, Hheap2, Htr2.
      split_and!; try done.
      + cbn. rewrite insert_insert_eq. f_equal.
        rewrite <-(fold_book [pid] j); [done | by rewrite Hps | done].
      + cbn. by rewrite Hps.
    - assert (Hsize : (2 ≤ length (processes j))%nat).
      { destruct pids; [done |]. simpl in Hlen. lia. }
      destruct (length (processes j)) as [|n] eqn:HNn; [lia |].
      destruct (run_pipeline p fin fout ferr (S n) (fdt (os ws)) (args <$> processes j)
                  (default 0 (head pids)) rest Hsize n 0 (makePipes (getNumPipes j)) w1
                  pids j None)
        as (w2 & pipes & E2 & Hfd2 & Hfk2 & Hloc2 & Hst2 & Hcj2 & Hnp2 & Hheap2 & Hpl & Htr2);
        try done.
      + unfold makePipes. rewrite length_replicate, Hpipes. lia.
      + intros _. by destruct pids.
      + rewrite (bind_run _ _ _ _ _ E2).
        rewrite <-Hlen, fold_book in Hheap2; [| by rewrite HNn | done].
        eexists _, pipes. split; [reflexivity |]. cbn.
        rewrite Hfd2, Hfk2, Hloc2, Hst2, Hcj2, Hnp2, Hheap2, Htr2.
        split_and!; try done.
        * cbn. by rewrite insert_insert_eq.
        * lia. }
  destruct Hin as (w3 & pipes & E3 & Hfd3 & Hfk3 & Hloc3 & Hst3 & Hcj3 & Hnp3 & Hheap3 & Hpl & Htr3).
  rewrite (bind_run _ _ _ _ _ E3). cbv iota.
  destruct (run_close_redirects fin fout ferr (fdt (os w)) t1 t2 w3 H0 H1 H2 G1 G2)
    as (w4 & E4 & Hfd4 & Htr4 & (Hg4 & Hloc4 & Hfk4)).
  { by rewrite Hfd3. }
  rewrite (bind_run _ _ _ _ _ E4).
  exists w4, pipes. split; [reflexivity |].
  rewrite Hg4, Hloc4, Hfk4, Htr4, Htr3, <-app_assoc. done.
Qed.

(** When an external job is launched and every call succeeds, the shell ends
    the iteration with the descriptor table it started with: whatever
    [set_redirects] and [pipe] opened in the shell has been closed again. *)
Theorem launch_restores_the_descriptor_table (ext : Externals) (line : str) (j : Input)
    (w : World) (fin fout ferr : Z) (pids rest : list Z) :
  launches line j w fin fout ferr pids rest →
  let r := launch ext line w in
  r.1 = Ret (PutJob (next_ptr (glob w)) (foreground j)) ∧
  fdt (os r.2) = fdt (os w) ∧
  loc r.2 = loc w.
Proof.
  intros (Hjob & Hret & H0 & H1 & H2 & Hfk & Hlen & Hne & Hpos & Hpipes & Hext) r.
  destruct (launch_run ext line j w fin fout ferr pids rest)
    as (w' & pipes & E & Hfd & _ & Hloc & _); try done.
  unfold r. by rewrite E.
Qed.

(** The parent's system calls for a launched job, after those of
    [set_redirects]: for every stage but the last a [pipe]; for every stage
    a [fork] whose child reads the pipe of the stage before (the first: the
    job's input) and writes its own pipe (the last: the job's output and
    error), and a [setpgid] into the group of the first child; then the
    [close] of both ends of the pipe of the stage before; at the end the
    [close] of what [set_redirects] opened. *)
Theorem launch_wires_the_stages (ext : Externals) (line : str) (j : Input)
    (w : World) (fin fout ferr : Z) (pids rest : list Z) :
  launches line j w fin fout ferr pids rest →
  ∃ pipes,
    length pipes = (length pids - 1)%nat ∧
    trace (os (launch ext line w).2) =
      trace (os (set_redirects j w).2) ++
      stages_events fin fout ferr (default 0 (head pids)) (args <$> processes j)
        0 None pids pipes ++
      redirect_closes fin fout ferr.
Proof.
  intros (Hjob & Hret & H0 & H1 & H2 & Hfk & Hlen & Hne & Hpos & Hpipes & Hext).
  destruct (launch_run ext line j w fin fout ferr pids rest)
    as (w' & pipes & E & _ & _ & _ & _ & _ & _ & _ & Hpl & Htr); try done.
  exists pipes. by rewrite E.
Qed.

(** A launched job is appended to the job table; its object records the pid
    of every stage, and the pid of the first stage as the job id and as the
    group id of every stage; the [fork] results have been consumed. *)
Theorem launch_records_the_job (ext : Externals) (line : str) (j : Input)
    (w : World) (fin fout ferr : Z) (pids rest : list Z) :
  launches line j w fin fout ferr pids rest →
  let p := next_ptr (glob w) in
  let w' := (launch ext line w).2 in
  current_jobs (glob w') = current_jobs (glob w) ++ [Some p] ∧
  heap (glob w') = <[p := launched pids j]> (heap (glob w)) ∧
  next_ptr (glob w') = S p ∧
  last_exit_status (glob w') = last_exit_status (glob w) ∧
  fork_results (os w') = rest.
Proof.
  intros (Hjob & Hret & H0 & H1 & H2 & Hfk & Hlen & Hne & Hpos & Hpipes & Hext) p w'.
  destruct (launch_run ext line j w fin fout ferr pids rest)
    as (w2 & pipes & E & _ & Hfk2 & _ & Hst & Hcj & Hnp & Hheap & _); try done.
  unfold w'. by rewrite E.
Qed.

Ltac launches_by_evaluation :=
  unfold launches; split_and!;
  [ vm_compute; reflexivity | vm_compute; reflexivity
  | vm_compute; eauto | vm_compute; eauto | vm_compute; eauto
  | reflexivity | reflexivity | discriminate
  | repeat constructor; lia | reflexivity
  | intros Hone; vm_compute in Hone; discriminate ].

Lemma launch_restores_the_descriptor_table_witness :
  launches (lit "cat < in | sort | uniq > out") pipeline_job world_with_in 3 4 2
    [100; 101; 102] [] ∧
  fdt (os (launch inert_externals (lit "cat < in | sort | uniq > out") world_with_in).2) =
    fdt (os world_with_in).
Proof.
  assert (H : launches (lit "cat < in | sort | uniq > out") pipeline_job world_with_in 3 4 2
                [100; 101; 102] []) by launches_by_evaluation.
  split; [exact H |].
  exact (proj1 (proj2 (launch_restores_the_descriptor_table inert_externals _ _ _ _ _ _ _ _ H))).
Defined.

Lemma launch_wires_the_stages_witness :
  launches (lit "cat < in | sort | uniq > out") pipeline_job world_with_in 3 4 2
    [100; 101; 102] [] ∧
  ∃ pipes,
    length pipes = 2%nat ∧
    trace (os (launch inert_externals (lit "cat < in | sort | uniq > out") world_with_in).2) =
      trace (os (set_redirects pipeline_job world_with_in).2) ++
      stages_events 3 4 2 100 [[lit "cat"]; [lit "sort"]; [lit "uniq"]] 0 None
        [100; 101; 102] pipes ++
      redirect_closes 3 4 2.
Proof.
  assert (H : launches (lit "cat < in | sort | uniq > out") pipeline_job world_with_in 3 4 2
                [100; 101; 102] []) by launches_by_evaluation.
  split; [exact H |].
  exact (launch_wires_the_stages inert_externals _ _ _ _ _ _ _ _ H).
Defined.

(** The trace of the example, evaluated. *)
Lemma launch_wires_the_stages_example :
  trace (os (launch inert_externals (lit "cat < in | sort | uniq > out") world_with_in).2) =
    [ EOpen (lit "in") O_RDONLY None 3;
      EOpen (lit "out") (Z.lor (Z.lor O_CREAT O_WRONLY) O_TRUNC) (Some mode_0644) 4;
      EPipe 5 6;
      EFork 100 {| child_stage := 0; child_stdin := 3; child_stdout := 6; child_stderr := -1;
                   child_argv := [lit "cat"] |};
      ESetpgid 100 100;
      EPipe 7 8;
      EFork 101 {| child_stage := 1; child_stdin := 5; child_stdout := 8; child_stderr := -1;
                   child_argv := [lit "sort"] |};
      ESetpgid 101 100;
      EClose 5 0; EClose 6 0;
      EFork 102 {| child_stage := 2; child_stdin := 7; child_stdout := 4; child_stderr := 2;
                   child_argv := [lit "uniq"] |};
      ESetpgid 102 100;
      EClose 7 0; EClose 8 0;
      EClose 3 0; EClose 4 0 ].
Proof. vm_compute. reflexivity. Qed.

Lemma launch_records_the_job_witness :
  launches (lit "cat < in | sort | uniq > out") pipeline_job world_with_in 3 4 2
    [100; 101; 102] [] ∧
  let w' := (launch inert_externals (lit "cat < in | sort | uniq > out") world_with_in).2 in
  current_jobs (glob w') = [Some 0%nat] ∧
  heap (glob w') = <[0%nat := launched [100; 101; 102] pipeline_job]> ∅ ∧
  PID <$> processes (launched [100; 101; 102] pipeline_job) = [100; 101; 102] ∧
  PGID <$> processes (launched [100; 101; 102] pipeline_job) = [100; 100; 100].
Proof.
  assert (H : launches (lit "cat < in | sort | uniq > out") pipeline_job world_with_in 3 4 2
                [100; 101; 102] []) by launches_by_evaluation.
  split; [exact H |]. intros w'.
  destruct (launch_records_the_job inert_externals _ _ _ _ _ _ _ _ H) as (H1 & H2 & _).
  split; [exact H1 |]. split; [exact H2 |]. split; reflexivity.
Defined.

(** ** A failed redirection after a successful one *)

Lemma run_sys_open_ok path flags mode w :
  denied (os w) path flags = false →
  has_flag flags O_CREAT = true ∨ path ∈ files (os w) →
  sys_open path flags mode w =
    (Ret (lowest_free (fdt (os w))),
     with_os (λ o, os_log (EOpen path flags mode (lowest_free (fdt (os w))))
                     (os_set_files ({[path]} ∪ files o)
                        (os_set_fdt (<[lowest_free (fdt (os w)) := OpenFile path flags]> (fdt o))
                           o))) w).
Proof.
  intros Hd Hok. unfold sys_open. rewrite Hd. cbn [negb andb].
  destruct Hok as [-> | Hin]; [done |].
  by rewrite (bool_decide_eq_true_2 _ Hin), orb_true_r.
Qed.

Lemma run_sys_open_denied path flags mode w :
  denied (os w) path flags = true →
  sys_open path flags mode w =
    (Ret (-1), with_os (os_log (EOpen path flags mode (-1))) w).
Proof. intros Hd. unfold sys_open. by rewrite Hd. Qed.

(** When the input file has been opened and the output file cannot be,
    [set_redirects] returns -1 and the iteration ends with the descriptor of
    the input file still open in the shell: nothing closes it. *)
Theorem failed_redirect_leaves_a_descriptor_open (ext : Externals) (line : str)
    (j : Input) (w : World) :
  Input_new line = Some j →
  fd_STDIN j ≠ lit "STDIN_FILENO" →
  denied (os w) (fd_STDIN j) O_RDONLY = false → fd_STDIN j ∈ files (os w) →
  fd_STDOUT j ≠ lit "STDOUT_FILENO" →
  (∀ flags, denied (os w) (fd_STDOUT j) flags = true) →
  let r := launch ext line w in
  let fd := lowest_free (fdt (os w)) in
  r.1 = Ret NextPrompt ∧
  fdt (os w) !! fd = None ∧
  fdt (os r.2) = <[fd := OpenFile (fd_STDIN j) O_RDONLY]> (fdt (os w)) ∧
  heap (glob r.2) = delete (next_ptr (glob w)) (heap (glob w)) ∧
  current_jobs (glob r.2) = current_jobs (glob w).
Proof.
  intros Hjob Hin Hok Hfile Hout Hden r fd.
  assert (Hset : ∃ t ty,
    set_redirects j w =
      (Ret (-1, fd, -1, STDERR_FILENO),
       with_os (os_log (EWrite t (lit "1730sh: `" ++ fd_STDOUT j ++ lit "' cannot be opened"
                                    ++ endl)))
         (with_os (os_log (EOpen (fd_STDOUT j) (Z.lor (Z.lor O_CREAT O_WRONLY) ty)
                             (Some (if ty =? O_TRUNC then mode_0644 else mode_0666)) (-1)))
            (with_os (λ o, os_log (EOpen (fd_STDIN j) O_RDONLY None fd)
                             (os_set_files ({[fd_STDIN j]} ∪ files o)
                                (os_set_fdt (<[fd := OpenFile (fd_STDIN j) O_RDONLY]> (fdt o))
                                   o))) w)))).
  { unfold set_redirects, str_eqb. rewrite (bool_decide_eq_false_2 _ Hin). cbn [negb].
    rewrite (bind_run _ _ _ _ _ (run_sys_open_ok _ _ None w Hok (or_intror Hfile))).
    fold fd. pose proof (lowest_free_nonneg (fdt (os w))) as Hnn. fold fd in Hnn.
    rewrite (proj2 (Z.eqb_neq fd (-1))) by lia.
    unfold set_redirects_out, str_eqb. rewrite (bool_decide_eq_false_2 _ Hout). cbn [negb].
    destruct (bool_decide (type_STDOUT j = lit ">")).
    - erewrite bind_run; [| apply run_sys_open_denied; apply Hden].
      change (-1 =? -1) with true. cbv iota.
      eexists _, O_TRUNC. reflexivity.
    - erewrite bind_run; [| apply run_sys_open_denied; apply Hden].
      change (-1 =? -1) with true. cbv iota.
      eexists _, O_APPEND. reflexivity. }
  destruct Hset as (t & ty & Es).
  assert (Hr : r = (Ret NextPrompt,
                    with_glob (λ g, glob_set_heap (delete (next_ptr (glob w)) (heap g)) g)
                      (with_os (λ _, os (set_redirects j w).2) (new_Input j w).2))).
  { unfold r, launch. rewrite Hjob.
    erewrite bind_run; [| reflexivity].
    pose proof (os_only_set_redirects j w (new_Input j w).2 eq_refl) as Ea.
    rewrite Es in Ea. cbn [fst snd] in Ea.
    erewrite bind_run; [| exact Ea]. cbv iota beta. change (-1 =? -1) with true. cbv iota.
    rewrite Es. cbn [snd].
    unfold mbind, M_bind, delete_Input. cbn. by rewrite lookup_insert_eq. }
  rewrite Hr, Es. cbn. split_and!; try done.
  - apply lowest_free_fresh.
  - by rewrite delete_insert_eq.
Qed.

Lemma failed_redirect_leaves_a_descriptor_open_witness :
  let w := initial_world {[lit "in"]} (λ path _, bool_decide (path = lit "/locked"))
             [100] (lit "~") in
  let r := launch inert_externals (lit "cat < in > /locked") w in
  r.1 = Ret NextPrompt ∧
  fdt (os w) !! 3 = None ∧
  fdt (os r.2) !! 3 = Some (OpenFile (lit "in") O_RDONLY) ∧
  heap (glob r.2) = ∅.
Proof.
  intros w r.
  destruct (Input_new (lit "cat < in > /locked")) as [j|] eqn:Ej; [| by vm_compute in Ej].
  assert (Ej' := Ej). vm_compute in Ej'. injection Ej' as Ej'.
  destruct (failed_redirect_leaves_a_descriptor_open inert_externals
              (lit "cat < in > /locked") j w Ej) as (H1 & H2 & H3 & H4 & _).
  - by rewrite <-Ej'.
  - by rewrite <-Ej'.
  - rewrite <-Ej'. vm_compute. reflexivity.
  - by rewrite <-Ej'.
  - intros flags. rewrite <-Ej'. reflexivity.
  - fold r in H1, H3, H4. split; [exact H1 |]. split; [exact H2 |].
    rewrite H3, H4. split; [| reflexivity].
    rewrite <-Ej'. reflexivity.
Defined.

Import JobControl.

(** ** The job table *)

Lemma delete_from_current_jobs_loop_S job i n :
  delete_from_current_jobs_loop job i (S n) =
    (jobs ← gets (λ w, current_jobs (glob w));
     match jobs !! i with
     | Some (Some q) =>
         j ← deref job;
         e ← deref q;
         if JID j =? JID e then
           delete_Input job;;
           modify (with_glob (λ g, glob_set_jobs (<[i := None]> (current_jobs g)) g))
         else delete_from_current_jobs_loop job (S i) n
     | _ => delete_from_current_jobs_loop job (S i) n
     end).
Proof. done. Qed.

(** The loop from index [length pre] on: it stops at the first entry with
    the id of [job]. *)
Lemma delete_from_current_jobs_loop_spec (p : nat) (jp : Input) (rest : list (option nat)) :
  ∀ pre w,
    current_jobs (glob w) = pre ++ rest →
    heap (glob w) !! p = Some jp →
    (∀ q, Some q ∈ rest → is_Some (heap (glob w) !! q)) →
    (∀ q jq, Some q ∈ rest → heap (glob w) !! q = Some jq → JID jq = JID jp → q = p) →
    ((Some p ∉ rest) ∧ delete_from_current_jobs_loop p (length pre) (length rest) w = (Ret (), w)) ∨
    (∃ k, rest !! k = Some (Some p) ∧
          delete_from_current_jobs_loop p (length pre) (length rest) w =
            (Ret (), with_glob (λ g, glob_set_jobs (<[(length pre + k)%nat := None]> (current_jobs g))
                                       (glob_set_heap (delete p (heap g)) g)) w)).
Proof.
  induction rest as [|e rest IH]; intros pre w Hjobs Hp Hlive Hid.
  - left. split; [apply not_elem_of_nil | done].
  - cbn [length]. rewrite delete_from_current_jobs_loop_S.
    erewrite bind_run; [| reflexivity]. rewrite Hjobs.
    rewrite list_lookup_middle by done.
    assert (Hnext :
      ((Some p ∉ rest) ∧
       delete_from_current_jobs_loop p (S (length pre)) (length rest) w = (Ret (), w)) ∨
      (∃ k, rest !! k = Some (Some p) ∧
            delete_from_current_jobs_loop p (S (length pre)) (length rest) w =
              (Ret (), with_glob (λ g, glob_set_jobs
                                         (<[(length pre + S k)%nat := None]> (current_jobs g))
                                         (glob_set_heap (delete p (heap g)) g)) w))).
    { destruct (IH (pre ++ [e]) w) as [[Hn E] | (k & Hk & E)].
      - by rewrite <-app_assoc.
      - done.
      - intros q Hq. apply Hlive. by right.
      - intros q jq Hq. apply Hid. by right.
      - left. split; [done |]. rewrite length_app in E. simpl in E.
        by replace (length pre + 1)%nat with (S (length pre)) in E by lia.
      - right. exists k. split; [done |]. rewrite length_app in E. simpl in E.
        replace (length pre + 1)%nat with (S (length pre)) in E by lia.
        by replace (length pre + S k)%nat with (S (length pre) + k)%nat by lia. }
    destruct e as [q|].
    + destruct (Hlive q) as [jq Hq]; [by left |].
      rewrite (bind_run _ _ _ _ _ (run_deref p jp w Hp)).
      rewrite (bind_run _ _ _ _ _ (run_deref q jq w Hq)).
      destruct (JID jp =? JID jq) eqn:Ej.
      * apply Z.eqb_eq in Ej. assert (q = p) as -> by (apply (Hid q jq); [by left | done | done]).
        right. exists 0%nat. split; [done |].
        unfold delete_Input. unfold mbind at 1, M_bind at 1. rewrite Hp.
        by replace (length pre + 0)%nat with (length pre) by lia.
      * apply Z.eqb_neq in Ej.
        destruct Hnext as [[Hn E] | (k & Hk & E)].
        -- left. split; [| done]. rewrite not_elem_of_cons. split; [| done].
           intros [= ->]. rewrite Hq in Hp. by injection Hp as ->.
        -- right. exists (S k). by split.
    + destruct Hnext as [[Hn E] | (k & Hk & E)].
      * left. split; [| done]. rewrite not_elem_of_cons. by split.
      * right. exists (S k). by split.
Qed.

Lemma table_entry_split (jobs : list (option nat)) i p :
  jobs !! i = Some (Some p) →
  ∃ pre post, jobs = pre ++ Some p :: post ∧ length pre = i ∧
              <[i := None]> jobs = pre ++ None :: post.
Proof.
  intros Hi. exists (take i jobs), (drop (S i) jobs).
  pose proof (lookup_lt_Some _ _ _ Hi) as Hlt.
  split_and!.
  - by rewrite take_drop_middle.
  - rewrite length_take. lia.
  - rewrite <-(take_drop_middle jobs i (Some p) Hi) at 1.
    rewrite insert_app_r_alt by (rewrite length_take; lia).
    rewrite length_take. by replace (i - i `min` length jobs)%nat with 0%nat by lia.
Qed.

Lemma elem_of_omap_id (l : list (option nat)) q : q ∈ omap id l ↔ Some q ∈ l.
Proof.
  rewrite list_elem_of_omap. split.
  - intros ([x|] & Hx & E); [| done]. simpl in E. by injection E as ->.
  - intros H. by exists (Some q).
Qed.

(** Emptying the slot of a job and freeing it keeps the table sound. *)
Lemma table_sound_remove (g : Globals) i p :
  table_sound g → current_jobs g !! i = Some (Some p) →
  let g' := glob_set_jobs (<[i := None]> (current_jobs g)) (glob_set_heap (delete p (heap g)) g) in
  table_sound g' ∧ (Some p ∉ current_jobs g') ∧
  ∀ q, Some q ∈ current_jobs g' → Some q ∈ current_jobs g ∧ q ≠ p.
Proof.
  intros [[Hnd Hlive] Hid] Hi g'.
  destruct (table_entry_split _ _ _ Hi) as (pre & post & E & _ & E').
  assert (Hin : ∀ q, Some q ∈ current_jobs g' → Some q ∈ current_jobs g ∧ q ≠ p).
  { intros q. unfold g'. cbn [current_jobs glob_set_jobs]. rewrite E', E.
    rewrite E, omap_app in Hnd. cbn in Hnd. apply NoDup_app in Hnd as (_ & Hpre & Hpost).
    apply NoDup_cons in Hpost as [Hpost _].
    rewrite !elem_of_app, !elem_of_cons. intros [Hq | [Hq | Hq]]; [| done |].
    - split; [by left |]. intros ->. apply (Hpre p); [by apply elem_of_omap_id | by left].
    - split; [right; by right |]. intros ->. apply Hpost. by apply elem_of_omap_id. }
  split_and!; [| | exact Hin].
  - split; [split |].
    + unfold g'. cbn [current_jobs glob_set_jobs]. rewrite E'.
      rewrite E, omap_app in Hnd. cbn in Hnd. rewrite omap_app. cbn.
      apply NoDup_app in Hnd as (H1 & H2 & H3). apply NoDup_cons in H3 as [_ H3].
      apply NoDup_app. split_and!; [done | | done].
      intros x Hx Hx'. apply (H2 x Hx). by right.
    + intros q Hq. destruct (Hin q Hq) as [Hq' Hne]. unfold g'. cbn.
      rewrite lookup_delete_ne by done. by apply Hlive.
    + intros a b ja jb Ha Hb. destruct (Hin a Ha) as [Ha' Hna]. destruct (Hin b Hb) as [Hb' Hnb].
      unfold g'. cbn. rewrite !lookup_delete_ne by done. by apply Hid.
  - intros Hp. by destruct (Hin p Hp).
Qed.

Lemma run_delete_from_current_jobs (p : nat) (w : World) :
  table_sound (glob w) → Some p ∈ current_jobs (glob w) →
  ∃ i w',
    delete_from_current_jobs (Some p) w = (Ret (), w') ∧
    current_jobs (glob w) !! i = Some (Some p) ∧
    current_jobs (glob w') = <[i := None]> (current_jobs (glob w)) ∧
    heap (glob w') = delete p (heap (glob w)) ∧
    only_jobs_changed w w' ∧
    table_sound (glob w') ∧ (Some p ∉ current_jobs (glob w')).
Proof.
  intros Hsound Hp. pose proof Hsound as [[Hnd Hlive] Hid].
  destruct (Hlive p Hp) as [jp Hjp].
  destruct (delete_from_current_jobs_loop_spec p jp (current_jobs (glob w)) [] w)
    as [[Hn _] | (k & Hk & E)]; try done.
  { intros q jq Hq Hjq Ej. by apply (Hid q p jq jp). }
  exists k. eexists. split; [| split; [exact Hk |]].
  - unfold delete_from_current_jobs. erewrite bind_run; [| reflexivity]. exact E.
  - cbn. destruct (table_sound_remove (glob w) k p Hsound Hk) as (H1 & H2 & _).
    split_and!; done.
Qed.

(** [delete_from_current_jobs] on a job of a sound table: the job is freed
    and its slot emptied, nothing else changes, and the table stays sound. *)
Theorem delete_from_current_jobs_removes_the_job (p : nat) (w : World) :
  table_sound (glob w) → Some p ∈ current_jobs (glob w) →
  ∃ i w',
    delete_from_current_jobs (Some p) w = (Ret (), w') ∧
    current_jobs (glob w) !! i = Some (Some p) ∧
    current_jobs (glob w') = <[i := None]> (current_jobs (glob w)) ∧
    heap (glob w') = delete p (heap (glob w)) ∧
    only_jobs_changed w w' ∧
    table_sound (glob w') ∧ (Some p ∉ current_jobs (glob w')).
Proof. apply run_delete_from_current_jobs. Qed.

Lemma two_jobs_world_sound : table_sound (glob two_jobs_world).
Proof.
  assert (Hin : ∀ p, Some p ∈ current_jobs (glob two_jobs_world) → p = 0%nat ∨ p = 2%nat).
  { intros p. cbn. rewrite !elem_of_cons, elem_of_nil.
    intros [[= ->]|[?|[[= ->]|[]]]]; auto; done. }
  split; [split |].
  - cbn. apply NoDup_cons. split; [| apply NoDup_singleton].
    rewrite list_elem_of_singleton. done.
  - intros p Hp. destruct (Hin p Hp) as [-> | ->]; vm_compute; eauto.
  - intros p q jp jq Hp Hq. destruct (Hin p Hp) as [-> | ->], (Hin q Hq) as [-> | ->];
      try done; vm_compute; intros [= <-] [= <-]; discriminate.
Qed.

Lemma delete_from_current_jobs_removes_the_job_witness :
  table_sound (glob two_jobs_world) ∧ Some 2%nat ∈ current_jobs (glob two_jobs_world) ∧
  ∃ w', delete_from_current_jobs (Some 2%nat) two_jobs_world = (Ret (), w') ∧
        current_jobs (glob w') = [Some 0%nat; None; None] ∧
        heap (glob w') !! 2%nat = None.
Proof.
  assert (Hin : Some 2%nat ∈ current_jobs (glob two_jobs_world)).
  { cbn. rewrite !elem_of_cons. auto. }
  split; [exact two_jobs_world_sound |]. split; [exact Hin |].
  destruct (delete_from_current_jobs_removes_the_job 2 two_jobs_world two_jobs_world_sound Hin)
    as (i & w' & E & Hi & Hjobs & Hheap & _).
  exists w'. split; [exact E |]. rewrite Hheap. split; [| apply lookup_delete_eq].
  rewrite Hjobs. destruct i as [|[|[|i]]]; try done.
Defined.

(** ** Waiting for a job *)

Lemma bindJ_run {A B} (m : MJ A) (f : A → MJ B) jw a jw1 :
  m jw = (Ret a, jw1) → (m ≫= f) jw = f a jw1.
Proof. intros E. unfold mbind, MJ_bind. by rewrite E. Qed.

Lemma lift_run {A} (m : M A) jw a w' :
  m (base jw) = (Ret a, w') → lift m jw = (Ret a, with_base (λ _, w') jw).
Proof. intros E. unfold lift. by rewrite E. Qed.

Lemma run_sys_waitpid pid jw :
  ∃ r rest,
    sys_waitpid pid jw =
      (Ret r, with_kernel (λ k, k_log (CWaitpid pid r) (k_set_wait_results rest k)) jw) ∧
    r = default None (head (wait_results (kernel jw))) ∧
    rest = tail (wait_results (kernel jw)).
Proof.
  unfold sys_waitpid. destruct (wait_results (kernel jw)) as [|r rest] eqn:E.
  - exists None, []. split; [| done]. f_equal. unfold with_kernel. f_equal.
    unfold k_log, k_set_wait_results. cbn. by rewrite E.
  - by exists r, rest.
Qed.

(** What both waiters do once [waitpid] has reported [r] about the job [p]
    of a sound table. *)
Lemma run_reap_exited (p : nat) (j : Input) (status : Z) (text : str) (w : World) :
  table_sound (glob w) → Some p ∈ current_jobs (glob w) →
  ∃ w', (cout text;; delete_from_current_jobs (Some p);; set_last_exit_status status) w =
          (Ret (), w') ∧
        (cout text;; set_last_exit_status status;; delete_from_current_jobs (Some p)) w =
          (Ret (), w') ∧
        gone p status text w w' ∧ table_sound (glob w') ∧
        ∀ q, Some q ∈ current_jobs (glob w') → Some q ∈ current_jobs (glob w) ∧ q ≠ p.
Proof.
  intros Hsound Hp.
  set (w1 := with_os (os_log (EWrite (fdt (os w) !! STDOUT_FILENO) text)) w).
  destruct (run_delete_from_current_jobs p w1 Hsound Hp)
    as (i & w2 & E & Hi & Hjobs & Hheap & (Hos & Hloc & Hst & Hnp) & Hs2 & Hnp2).
  set (w1' := with_glob (glob_set_status status) w1).
  destruct (run_delete_from_current_jobs p w1' Hsound Hp)
    as (i' & w2' & E' & Hi' & Hjobs' & Hheap' & (Hos' & Hloc' & Hst' & Hnp') & Hs2' & Hnp2').
  assert (i' = i) as ->.
  { destruct Hsound as [[Hnd _] _].
    destruct (table_entry_split _ _ _ Hi) as (pre & post & Ej & Hl & _).
    destruct (table_entry_split _ _ _ Hi') as (pre' & post' & Ej' & Hl' & _).
    cbn in Ej, Ej'. rewrite Ej in Ej'.
    assert (Hp1 : Some p ∉ pre).
    { rewrite Ej, omap_app in Hnd. cbn in Hnd. apply NoDup_app in Hnd as (_ & Hd & _).
      intros Hin. apply (Hd p); [by apply elem_of_omap_id | by left]. }
    assert (Hp2 : Some p ∉ pre').
    { rewrite Ej, Ej', omap_app in Hnd. cbn in Hnd. apply NoDup_app in Hnd as (_ & Hd & _).
      intros Hin. apply (Hd p); [by apply elem_of_omap_id | by left]. }
    symmetry in Ej'.
    destruct (not_elem_of_app_cons_inv_l _ _ _ _ _ _ Hp1 Hp2 Ej') as [-> _]. congruence. }
  exists (with_glob (glob_set_status status) w2). split_and!.
  - rewrite (bind_run _ _ _ _ _ (cout_result text w)).
    by rewrite (bind_run _ _ _ _ _ E).
  - rewrite (bind_run _ _ _ _ _ (cout_result text w)).
    rewrite (bind_run (set_last_exit_status status) _ w1 () w1' eq_refl).
    rewrite E'. f_equal.
    destruct w2 as [o2 [s2 c2 h2 n2] l2], w2' as [o2' [s2' c2' h2' n2'] l2'].
    cbn in *. subst. done.
  - exists i. cbn. rewrite Hjobs, Hheap, Hnp, Hloc, Hos. done.
  - destruct Hs2 as [[? ?] ?]. done.
  - intros q Hq. cbn in Hq. rewrite Hjobs in Hq.
    destruct (table_sound_remove (glob w) i p Hsound Hi) as (_ & _ & H).
    apply H. exact Hq.
Qed.

Lemma run_mark (p : nat) (j : Input) (st shown : str) (w : World) :
  heap (glob w) !! p = Some j →
  ∃ w', (update_Input p (setStatus (Some st));; format_job_info (Some p) shown) w =
          (Ret (), w') ∧
        marked p j st shown w w'.
Proof.
  intros Hj. eexists. split.
  - rewrite (bind_run _ _ _ _ _ (run_update_Input p _ j w Hj)).
    unfold format_job_info. erewrite bind_run.
    2:{ apply (run_deref p (setStatus (Some st) j)). cbn. apply lookup_insert_eq. }
    rewrite cout_result. reflexivity.
  - done.
Qed.

(** Giving a job a status keeps the table sound. *)
Lemma table_sound_mark (g : Globals) p j st :
  table_sound g → heap g !! p = Some j →
  table_sound (glob_set_heap (<[p := setStatus (Some st) j]> (heap g)) g).
Proof.
  intros [[Hnd Hlive] Hid] Hj. split; [split |]; cbn.
  - done.
  - intros q Hq. destruct (decide (q = p)) as [->|Hne].
    + rewrite lookup_insert_eq. eauto.
    + rewrite lookup_insert_ne by done. by apply Hlive.
  - intros a b ja jb Ha Hb.
    assert (Hlook : ∀ q jq, <[p := setStatus (Some st) j]> (heap g) !! q = Some jq →
                            ∃ jq', heap g !! q = Some jq' ∧ JID jq' = JID jq).
    { intros q jq. destruct (decide (q = p)) as [->|Hne].
      - rewrite lookup_insert_eq. intros [= <-]. by exists j.
      - rewrite lookup_insert_ne by done. eauto. }
    intros (ja' & Hja & Ea)%Hlook (jb' & Hjb & Eb)%Hlook E.
    apply (Hid a b ja' jb'); try done. congruence.
Qed.

Lemma lift_bind {A B} (m : M A) (f : A → M B) jw :
  (lift m ≫= λ a, lift (f a)) jw = lift (m ≫= f) jw.
Proof.
  unfold mbind, MJ_bind, M_bind, lift. destruct (m (base jw)) as [[a| |] w1]; try done.
Qed.

Lemma lift_seq3 (a b c : M unit) jw :
  (lift a;; lift b;; lift c) jw = lift (a;; b;; c) jw.
Proof.
  rewrite <- lift_bind. unfold mbind at 1 3. unfold MJ_bind.
  destruct (lift a jw) as [[[]| |] jw1]; try done. apply lift_bind.
Qed.

(** [wait_for_job] on a job of a sound table that has a process: one
    [waitpid] on the pid of the last process, then the job is [reaped]. *)
Lemma run_wait_for_job (p : nat) (j : Input) (proc : Process) (jw : JWorld) :
  table_sound (glob (base jw)) → Some p ∈ current_jobs (glob (base jw)) →
  heap (glob (base jw)) !! p = Some j → last (processes j) = Some proc →
  let r := default None (head (wait_results (kernel jw))) in
  ∃ jw', wait_for_job (Some p) jw = (Ret (), jw') ∧
         reaped p j r (strsignal (kernel jw)) (base jw) (base jw') ∧
         kernel jw' = k_log (CWaitpid (PID proc) r)
                        (k_set_wait_results (tail (wait_results (kernel jw))) (kernel jw)) ∧
         shell_pgid jw' = shell_pgid jw ∧
         table_sound (glob (base jw')).
Proof.
  intros Hsound Hp Hj Hlast r. unfold wait_for_job.
  rewrite (bindJ_run _ _ _ _ _ (lift_run _ jw _ _ (run_deref p j _ Hj))). rewrite Hlast.
  destruct (run_sys_waitpid (PID proc) (with_base (λ _, base jw) jw)) as (r' & rest & E & -> & ->).
  rewrite (bindJ_run _ _ _ _ _ E). cbn [kernel with_base]. fold r.
  destruct r as [[code | sig | |]|].
  - destruct (run_reap_exited p j code (exited_line j (dec code)) (base jw) Hsound Hp)
      as (w' & E1 & _ & Hgone & Hs' & _).
    eexists. split.
    + rewrite lift_seq3. apply lift_run. exact E1.
    + done.
  - destruct (run_reap_exited p j sig (exited_line j (strsignal (kernel jw) sig)) (base jw)
                Hsound Hp) as (w' & E1 & _ & Hgone & Hs' & _).
    eexists. split.
    + erewrite bindJ_run; [| reflexivity]. rewrite lift_seq3. apply lift_run. exact E1.
    + done.
  - destruct (run_mark p j (lit "Stopped") (lit "Stopped") (base jw) Hj) as (w' & E1 & Hm).
    eexists. split.
    + rewrite lift_bind. apply lift_run. exact E1.
    + cbn [base with_base kernel shell_pgid with_kernel]. split_and!; try done.
      destruct Hm as (-> & _). by apply table_sound_mark.
  - destruct (run_mark p j (lit "Running") (lit "Continued") (base jw) Hj) as (w' & E1 & Hm).
    eexists. split.
    + rewrite lift_bind. apply lift_run. exact E1.
    + cbn [base with_base kernel shell_pgid with_kernel]. split_and!; try done.
      destruct Hm as (-> & _). by apply table_sound_mark.
  - eexists. split; [reflexivity |]. cbn. split_and!; try done.
Qed.

(** ** A job in the foreground *)

Lemma run_sys_tcsetpgrp fd pgrp jw :
  tcsetpgrp_fails (kernel jw) pgrp = false →
  sys_tcsetpgrp fd pgrp jw =
    (Ret 0, with_kernel (λ k, k_log (CTcsetpgrp fd pgrp 0) (k_set_tty pgrp k)) jw).
Proof. intros E. unfold sys_tcsetpgrp. by rewrite E. Qed.

Lemma run_sys_kill pid sig jw :
  kill_fails (kernel jw) pid sig = false →
  sys_kill pid sig jw = (Ret 0, with_kernel (k_log (CKill pid sig 0)) jw).
Proof. intros E. unfold sys_kill. by rewrite E. Qed.

Lemma run_put_job_in_foreground (p : nat) (j : Input) (proc : Process) (cont : bool)
    (jw : JWorld) :
  table_sound (glob (base jw)) → Some p ∈ current_jobs (glob (base jw)) →
  heap (glob (base jw)) !! p = Some j → last (processes j) = Some proc →
  tcsetpgrp_fails (kernel jw) (JID j) = false →
  tcsetpgrp_fails (kernel jw) (shell_pgid jw) = false →
  (cont = true → kill_fails (kernel jw) (- JID j) SIGCONT = false) →
  let r := default None (head (wait_results (kernel jw))) in
  ∃ jw', put_job_in_foreground (Some p) cont jw = (Ret (), jw') ∧
         reaped p j r (strsignal (kernel jw)) (base jw) (base jw') ∧
         table_sound (glob (base jw')) ∧
         tty_pgrp (kernel jw') = shell_pgid jw ∧
         shell_pgid jw' = shell_pgid jw ∧
         wait_results (kernel jw') = tail (wait_results (kernel jw)) ∧
         calls (kernel jw') =
           calls (kernel jw) ++
           [CTcsetpgrp shell_terminal (JID j) 0] ++
           (if cont then [CKill (- JID j) SIGCONT 0] else []) ++
           [CWaitpid (PID proc) r; CTcsetpgrp shell_terminal (shell_pgid jw) 0].
Proof.
  intros Hsound Hp Hj Hlast Ht1 Ht2 Hk r. unfold put_job_in_foreground.
  rewrite (bindJ_run _ _ _ _ _ (lift_run _ jw _ _ (run_deref p j _ Hj))).
  erewrite bindJ_run; [| by apply run_sys_tcsetpgrp].
  change (0 =? -1) with false. cbv iota.
  erewrite bindJ_run; [| reflexivity].
  set (jw1 := with_kernel _ _).
  assert (∃ jw2, (if cont then
                    j0 ← lift (deref p);
                    r0 ← sys_kill (- JID j0) SIGCONT;
                    if r0 <? 0 then lift (nope_out (lit "kill(SIGCONT)")) else mret ()
                  else mret ()) jw1 = (Ret (), jw2) ∧
                 base jw2 = base jw ∧ shell_pgid jw2 = shell_pgid jw ∧
                 wait_results (kernel jw2) = wait_results (kernel jw) ∧
                 strsignal (kernel jw2) = strsignal (kernel jw) ∧
                 tcsetpgrp_fails (kernel jw2) = tcsetpgrp_fails (kernel jw) ∧
                 calls (kernel jw2) =
                   calls (kernel jw) ++ [CTcsetpgrp shell_terminal (JID j) 0] ++
                   (if cont then [CKill (- JID j) SIGCONT 0] else []))
    as (jw2 & E2 & Hb2 & Hs2 & Hw2 & Hss2 & Htf2 & Hc2).
  { destruct cont.
    - eexists. split.
      + rewrite (bindJ_run _ _ _ _ _ (lift_run _ jw1 _ _ (run_deref p j _ Hj))).
        erewrite bindJ_run; [| apply run_sys_kill; by apply Hk]. reflexivity.
      + cbn. by rewrite <- app_assoc.
    - eexists. split; [reflexivity |]. done. }
  rewrite (bindJ_run _ _ _ _ _ E2).
  assert (Hw := run_wait_for_job p j proc jw2).
  rewrite Hb2 in Hw. destruct (Hw Hsound Hp Hj Hlast) as (jw3 & E3 & Hr3 & Hk3 & Hs3 & Hsound3).
  clear Hw.
  rewrite (bindJ_run _ _ _ _ _ E3).
  erewrite bindJ_run; [| reflexivity].
  erewrite bindJ_run.
  2:{ apply run_sys_tcsetpgrp. rewrite Hk3. cbn. rewrite Hs3, Hs2, Htf2. exact Ht2. }
  change (0 =? -1) with false. cbv iota.
  eexists. split; [reflexivity |].
  cbn [base kernel shell_pgid with_kernel]. rewrite Hk3. cbn.
  rewrite Hw2, Hss2 in Hr3. rewrite Hs3, Hs2, Hw2, Hc2.
  fold r. split_and!; try done.
  rewrite <- !app_assoc. destruct cont; done.
Qed.

(** [put_job_in_foreground] on a job of a sound table, when the calls
    succeed: the terminal goes to the group of the job and comes back to the
    shell; in between the group gets [SIGCONT] if asked for, and the last
    process of the job is waited for once, with the consequences that
    [reaped] describes. No other call is made, and the table stays sound. *)
Theorem foreground_job_borrows_the_terminal (p : nat) (j : Input) (proc : Process)
    (cont : bool) (jw : JWorld) :
  table_sound (glob (base jw)) → Some p ∈ current_jobs (glob (base jw)) →
  heap (glob (base jw)) !! p = Some j → last (processes j) = Some proc →
  tcsetpgrp_fails (kernel jw) (JID j) = false →
  tcsetpgrp_fails (kernel jw) (shell_pgid jw) = false →
  (cont = true → kill_fails (kernel jw) (- JID j) SIGCONT = false) →
  let r := default None (head (wait_results (kernel jw))) in
  ∃ jw', put_job_in_foreground (Some p) cont jw = (Ret (), jw') ∧
         reaped p j r (strsignal (kernel jw)) (base jw) (base jw') ∧
         table_sound (glob (base jw')) ∧
         tty_pgrp (kernel jw') = shell_pgid jw ∧
         shell_pgid jw' = shell_pgid jw ∧
         wait_results (kernel jw') = tail (wait_results (kernel jw)) ∧
         calls (kernel jw') =
           calls (kernel jw) ++
           [CTcsetpgrp shell_terminal (JID j) 0] ++
           (if cont then [CKill (- JID j) SIGCONT 0] else []) ++
           [CWaitpid (PID proc) r; CTcsetpgrp shell_terminal (shell_pgid jw) 0].
Proof. apply run_put_job_in_foreground. Qed.

Lemma jobs_shell_sound results : table_sound (glob (base (jobs_shell results))).
Proof.
  assert (Hin : ∀ p, Some p ∈ current_jobs (glob (base (jobs_shell results))) →
                     p = 0%nat ∨ p = 2%nat).
  { intros p. cbn. rewrite !elem_of_cons, elem_of_nil.
    intros [[= ->]|[?|[[= ->]|[]]]]; auto; done. }
  split; [split |].
  - cbn. apply NoDup_cons. split; [| apply NoDup_singleton].
    rewrite list_elem_of_singleton. done.
  - intros p Hp. destruct (Hin p Hp) as [-> | ->]; vm_compute; eauto.
  - intros p q jp jq Hp Hq. destruct (Hin p Hp) as [-> | ->], (Hin q Hq) as [-> | ->];
      try done; vm_compute; intros [= <-] [= <-]; discriminate.
Qed.

Lemma foreground_job_borrows_the_terminal_witness :
  let jw := jobs_shell [Some (WExited 3)] in
  table_sound (glob (base jw)) ∧ Some 0%nat ∈ current_jobs (glob (base jw)) ∧
  heap (glob (base jw)) !! 0%nat = Some finished_job ∧
  ∃ jw', put_job_in_foreground (Some 0%nat) false jw = (Ret (), jw') ∧
         calls (kernel jw') =
           [CTcsetpgrp 0 100 0; CWaitpid 101 (Some (WExited 3)); CTcsetpgrp 0 1 0] ∧
         tty_pgrp (kernel jw') = 1 ∧
         last_exit_status (glob (base jw')) = 3 ∧
         current_jobs (glob (base jw')) = [None; None; Some 2%nat] ∧
         heap (glob (base jw')) !! 0%nat = None.
Proof.
  intros jw.
  assert (Hin : Some 0%nat ∈ current_jobs (glob (base jw))).
  { cbn. rewrite !elem_of_cons. auto. }
  split; [apply jobs_shell_sound |]. split; [exact Hin |]. split; [reflexivity |].
  destruct (foreground_job_borrows_the_terminal 0 finished_job
              {| PID := 101; PGID := 100; stopped := true; completed := true;
                 hasPipe := false; args := [lit "wc"] |} false jw
              (jobs_shell_sound _) Hin eq_refl eq_refl eq_refl eq_refl
              (λ H : false = true, False_ind _ (eq_ind false (λ b, if b then False else True) I true H)))
    as (jw' & E & Hr & _ & Htty & _ & _ & Hcalls).
  exists jw'. split; [exact E |]. split; [exact Hcalls |]. split; [exact Htty |].
  destruct Hr as (i & Hi & Hjobs & Hheap & Hst & _).
  split; [exact Hst |]. rewrite Hjobs, Hheap. split; [| apply lookup_delete_eq].
  destruct i as [|[|[|i]]]; try done.
Defined.

(** ** The poll of the job table *)

(** The poll treats a job the way [wait_for_job] does. *)
Lemma run_check_job (p : nat) (j : Input) (proc : Process) (jw : JWorld) :
  table_sound (glob (base jw)) → Some p ∈ current_jobs (glob (base jw)) →
  heap (glob (base jw)) !! p = Some j → last (processes j) = Some proc →
  let r := default None (head (wait_results (kernel jw))) in
  ∃ jw', check_job p jw = (Ret (), jw') ∧
         reaped p j r (strsignal (kernel jw)) (base jw) (base jw') ∧
         kernel jw' = k_log (CWaitpid (PID proc) r)
                        (k_set_wait_results (tail (wait_results (kernel jw))) (kernel jw)) ∧
         shell_pgid jw' = shell_pgid jw ∧
         table_sound (glob (base jw')).
Proof.
  intros Hsound Hp Hj Hlast r. unfold check_job.
  rewrite (bindJ_run _ _ _ _ _ (lift_run _ jw _ _ (run_deref p j _ Hj))). rewrite Hlast.
  destruct (run_sys_waitpid (PID proc) (with_base (λ _, base jw) jw)) as (r' & rest & E & -> & ->).
  rewrite (bindJ_run _ _ _ _ _ E). cbn [kernel with_base]. fold r.
  destruct r as [[code | sig | |]|].
  - destruct (run_reap_exited p j code (exited_line j (dec code)) (base jw) Hsound Hp)
      as (w' & _ & E1 & Hgone & Hs' & _).
    eexists. split.
    + rewrite lift_seq3. apply lift_run. exact E1.
    + done.
  - destruct (run_reap_exited p j sig (exited_line j (strsignal (kernel jw) sig)) (base jw)
                Hsound Hp) as (w' & _ & E1 & Hgone & Hs' & _).
    eexists. split.
    + erewrite bindJ_run; [| reflexivity]. rewrite lift_seq3. apply lift_run. exact E1.
    + done.
  - destruct (run_mark p j (lit "Stopped") (lit "Stopped") (base jw) Hj) as (w' & E1 & Hm).
    eexists. split.
    + rewrite lift_bind. apply lift_run. exact E1.
    + cbn [base with_base kernel shell_pgid with_kernel]. split_and!; try done.
      destruct Hm as (-> & _). by apply table_sound_mark.
  - destruct (run_mark p j (lit "Running") (lit "Continued") (base jw) Hj) as (w' & E1 & Hm).
    eexists. split.
    + rewrite lift_bind. apply lift_run. exact E1.
    + cbn [base with_base kernel shell_pgid with_kernel]. split_and!; try done.
      destruct Hm as (-> & _). by apply table_sound_mark.
  - eexists. split; [reflexivity |]. cbn. split_and!; try done.
Qed.

Lemma table_index_unique (g : Globals) i k p :
  jobs_live g → current_jobs g !! i = Some (Some p) → current_jobs g !! k = Some (Some p) →
  i = k.
Proof.
  intros [Hnd _] Hi Hk.
  destruct (table_entry_split _ _ _ Hi) as (pre & post & Ej & Hl & _).
  destruct (table_entry_split _ _ _ Hk) as (pre' & post' & Ej' & Hl' & _).
  assert (Hp1 : Some p ∉ pre).
  { rewrite Ej, omap_app in Hnd. cbn in Hnd. apply NoDup_app in Hnd as (_ & Hd & _).
    intros Hin. apply (Hd p); [by apply elem_of_omap_id | by left]. }
  assert (Hp2 : Some p ∉ pre').
  { rewrite Ej', omap_app in Hnd. cbn in Hnd. apply NoDup_app in Hnd as (_ & Hd & _).
    intros Hin. apply (Hd p); [by apply elem_of_omap_id | by left]. }
  rewrite Ej in Ej'. symmetry in Ej'.
  destruct (not_elem_of_app_cons_inv_l _ _ _ _ _ _ Hp1 Hp2 Ej') as [E _]. congruence.
Qed.

(** What [reaped] means for the table and the heap. *)
Lemma reaped_facts (p : nat) (j : Input) r txt (w w' : World) i :
  table_sound (glob w) → current_jobs (glob w) !! i = Some (Some p) →
  heap (glob w) !! p = Some j → reaped p j r txt w w' →
  (current_jobs (glob w') = current_jobs (glob w) ∨
   current_jobs (glob w') = <[i := None]> (current_jobs (glob w))) ∧
  (∀ q, q ≠ p → heap (glob w') !! q = heap (glob w) !! q) ∧
  (∀ j', heap (glob w') !! p = Some j' → ∃ st, j' = setStatus st j) ∧
  (r = None → w' = w).
Proof.
  intros [Hlive _] Hi Hj Hr.
  assert (Hgone : ∀ s t, gone p s t w w' →
    (current_jobs (glob w') = current_jobs (glob w) ∨
     current_jobs (glob w') = <[i := None]> (current_jobs (glob w))) ∧
    (∀ q, q ≠ p → heap (glob w') !! q = heap (glob w) !! q) ∧
    (∀ j', heap (glob w') !! p = Some j' → ∃ st, j' = setStatus st j)).
  { intros s t (k & Hk & Hjobs & Hheap & _).
    rewrite (table_index_unique _ _ _ _ Hlive Hi Hk). split_and!.
    - by right.
    - intros q Hq. rewrite Hheap. by rewrite lookup_delete_ne.
    - intros j'. rewrite Hheap, lookup_delete_eq. done. }
  assert (Hmarked : ∀ s t, marked p j s t w w' →
    (current_jobs (glob w') = current_jobs (glob w) ∨
     current_jobs (glob w') = <[i := None]> (current_jobs (glob w))) ∧
    (∀ q, q ≠ p → heap (glob w') !! q = heap (glob w) !! q) ∧
    (∀ j', heap (glob w') !! p = Some j' → ∃ st, j' = setStatus st j)).
  { intros s t (Hg & _). rewrite Hg. cbn. split_and!.
    - by left.
    - intros q Hq. by rewrite lookup_insert_ne.
    - intros j'. rewrite lookup_insert_eq. intros [= <-]. by exists (Some s). }
  destruct r as [[code | sig | |]|]; cbn in Hr.
  - destruct (Hgone _ _ Hr) as (? & ? & ?). done.
  - destruct (Hgone _ _ Hr) as (? & ? & ?). done.
  - destruct (Hmarked _ _ Hr) as (? & ? & ?). done.
  - destruct (Hmarked _ _ Hr) as (? & ? & ?). done.
  - subst w'. split_and!; try done.
    + by left.
    + intros j'. rewrite Hj. intros [= <-]. by exists None.
Qed.

Lemma omap_ext_in {A B} (f g : A → option B) (l : list A) :
  (∀ x, x ∈ l → f x = g x) → omap f l = omap g l.
Proof.
  induction l as [|x l IH]; [done |]. intros H. cbn.
  rewrite (H x) by (by left). rewrite IH; [done |]. intros y Hy. apply H. by right.
Qed.

Lemma setStatus_setStatus a b j : ∃ c, setStatus a (setStatus b j) = setStatus c j.
Proof. destruct a as [s|]; [exists (Some s); by destruct b | by exists b]. Qed.

Lemma check_current_jobs_loop_S i n :
  check_current_jobs_loop i (S n) =
    (jobs ← lift (gets (λ w, current_jobs (glob w)));
     match jobs !! i with
     | Some (Some p) => check_job p
     | _ => mret ()
     end;;
     check_current_jobs_loop (S i) n).
Proof. reflexivity. Qed.

Lemma elem_of_insert_None (l : list (option nat)) i q :
  Some q ∈ <[i := None]> l → Some q ∈ l.
Proof.
  intros (k & Hk)%list_elem_of_lookup_1. destruct (decide (k = i)) as [->|Hne].
  - pose proof (lookup_lt_Some _ _ _ Hk) as Hlt. rewrite length_insert in Hlt.
    rewrite list_lookup_insert_eq in Hk by done. done.
  - rewrite list_lookup_insert_ne in Hk by done. by eapply list_elem_of_lookup_2.
Qed.

Lemma lookup_insert_None_cases (l : list (option nat)) i k :
  <[i := None]> l !! k = l !! k ∨ <[i := None]> l !! k = Some None.
Proof.
  destruct (decide (k = i)) as [->|Hne].
  - destruct (decide (i < length l)%nat).
    + right. by apply list_lookup_insert_eq.
    + left. rewrite !lookup_ge_None_2; [done | lia | rewrite length_insert; lia].
  - left. by apply list_lookup_insert_ne.
Qed.

Lemma elem_of_take_in {A} (n : nat) (l : list A) (x : A) : x ∈ take n l → x ∈ l.
Proof. intros Hx. rewrite <-(take_drop n l). apply elem_of_app. by left. Qed.

Lemma run_check_current_jobs_loop (n : nat) : ∀ (i : nat) (jw : JWorld),
  table_sound (glob (base jw)) → jobs_have_processes (glob (base jw)) →
  (i + n ≤ length (current_jobs (glob (base jw))))%nat →
  let g := glob (base jw) in
  let pids := omap (waited_pid g) (take n (drop i (current_jobs g))) in
  ∃ jw', check_current_jobs_loop i n jw = (Ret (), jw') ∧
    calls (kernel jw') = calls (kernel jw) ++ polls pids (wait_results (kernel jw)) ∧
    wait_results (kernel jw') = drop (length pids) (wait_results (kernel jw)) ∧
    tty_pgrp (kernel jw') = tty_pgrp (kernel jw) ∧
    shell_pgid jw' = shell_pgid jw ∧
    table_sound (glob (base jw')) ∧ jobs_have_processes (glob (base jw')) ∧
    length (current_jobs (glob (base jw'))) = length (current_jobs g) ∧
    (∀ k, current_jobs (glob (base jw')) !! k = current_jobs g !! k ∨
          current_jobs (glob (base jw')) !! k = Some None) ∧
    (∀ q j', heap (glob (base jw')) !! q = Some j' →
             ∃ j st, heap g !! q = Some j ∧ j' = setStatus st j) ∧
    (Forall (λ r, r = None) (take (length pids) (wait_results (kernel jw))) →
     base jw' = base jw).
Proof.
  induction n as [|n IH]; intros i jw Hsound Hproc Hlen g pids.
  - exists jw. split; [reflexivity |].
    assert (pids = []) as -> by done.
    cbn. rewrite app_nil_r. split_and!; try done.
    + by left.
    + intros q j' Hq. by exists j', None.
  - rewrite check_current_jobs_loop_S.
    erewrite bindJ_run; [| apply lift_run; reflexivity].
    set (jw0 := with_base (λ _, base jw) jw).
    destruct (current_jobs (glob (base jw)) !! i) as [[p|]|] eqn:Hi.
    + (* a job *)
      assert (Hp : Some p ∈ current_jobs (glob (base jw))) by (by eapply list_elem_of_lookup_2).
      destruct Hsound as [Hlive Hid].
      destruct (proj2 Hlive p Hp) as [j Hj].
      destruct (last (processes j)) as [proc|] eqn:Hlast.
      2:{ apply last_None in Hlast. by destruct (Hproc p j Hp Hj). }
      destruct (run_check_job p j proc jw0 (conj Hlive Hid) Hp Hj Hlast)
        as (jw1 & E1 & Hr & Hk1 & Hs1 & Hsound1).
      cbn [base kernel shell_pgid jw0 with_base] in Hr, Hk1, Hs1.
      destruct (reaped_facts p j _ _ _ _ i (conj Hlive Hid) Hi Hj Hr)
        as (Htab & Hother & Hsame & Hquiet).
      rewrite (bindJ_run _ _ _ _ _ E1).
      assert (Hlen1 : length (current_jobs (glob (base jw1))) =
                      length (current_jobs (glob (base jw)))).
      { destruct Htab as [-> | ->]; [done | apply length_insert]. }
      assert (Hin1 : ∀ q, Some q ∈ current_jobs (glob (base jw1)) →
                          Some q ∈ current_jobs (glob (base jw))).
      { intros q. destruct Htab as [-> | ->]; [done | apply elem_of_insert_None]. }
      assert (Hproc1 : jobs_have_processes (glob (base jw1))).
      { intros q j1 Hq Hj1. destruct (decide (q = p)) as [->|Hne].
        - destruct (Hsame j1 Hj1) as [st ->]. destruct st; by apply (Hproc p j).
        - rewrite Hother in Hj1 by done. apply (Hproc q j1); [by apply Hin1 | done]. }
      assert (Hdrop : drop (S i) (current_jobs (glob (base jw1))) =
                      drop (S i) (current_jobs (glob (base jw)))).
      { destruct Htab as [-> | ->]; [done | apply drop_insert_lt; lia]. }
      assert (Hlater : ∀ e, e ∈ drop (S i) (current_jobs (glob (base jw))) → e ≠ Some p).
      { intros e He ->. apply list_elem_of_lookup_1 in He as [k Hk].
        rewrite lookup_drop in Hk.
        pose proof (table_index_unique _ _ _ _ Hlive Hi Hk). lia. }
      assert (Hpids1 : omap (waited_pid (glob (base jw1)))
                         (take n (drop (S i) (current_jobs (glob (base jw1))))) =
                       omap (waited_pid g) (take n (drop (S i) (current_jobs g)))).
      { rewrite Hdrop. apply omap_ext_in. intros [q|] He; [| done].
        unfold waited_pid. cbn. rewrite Hother; [done |].
        intros ->. by apply (Hlater _ (elem_of_take_in _ _ _ He)). }
      destruct (IH (S i) jw1 Hsound1 Hproc1 ltac:(lia))
        as (jw' & E' & Hc & Hw & Ht & Hs & Hsound' & Hproc' & Hlen' & Hent & Hheap & Hq').
      rewrite Hpids1 in Hc, Hw, Hq'.
      exists jw'. split; [exact E' |].
      assert (Epids : pids =
                PID proc :: omap (waited_pid g) (take n (drop (S i) (current_jobs g)))).
      { unfold pids, g. rewrite (drop_S _ _ _ Hi). cbn.
        unfold waited_pid at 1. cbn. rewrite Hj. cbn. by rewrite Hlast. }
      rewrite Epids. cbn [polls length]. rewrite Hk1 in Hc, Hw, Ht. cbn in Hc, Hw, Ht.
      split; [rewrite Hc; by rewrite <- app_assoc |].
      split; [rewrite Hw; destruct (wait_results (kernel jw)); [cbn; by rewrite !drop_nil | done] |].
      split; [exact Ht |]. split; [by rewrite Hs |]. split; [exact Hsound' |].
      split; [exact Hproc' |]. split; [by rewrite Hlen' |]. split; [| split].
      * intros k. destruct (Hent k) as [-> | ->]; [| by right].
        destruct Htab as [-> | ->]; [by left | apply lookup_insert_None_cases].
      * intros q j' Hq. destruct (Hheap q j' Hq) as (j1 & st & Hj1 & ->).
        destruct (decide (q = p)) as [->|Hne].
        -- destruct (Hsame j1 Hj1) as [st' ->].
           destruct (setStatus_setStatus st st' j) as [c Hc']. by exists j, c.
        -- rewrite Hother in Hj1 by done. by exists j1, st.
      * intros Hall. destruct (wait_results (kernel jw)) as [|r0 rs] eqn:Er.
        -- rewrite Hq'; [by rewrite Hquiet |]. rewrite Hk1. cbn. by rewrite take_nil.
        -- cbn in Hall. apply Forall_cons in Hall as [-> Hall].
           rewrite Hq'; [by rewrite Hquiet |]. rewrite Hk1. cbn. exact Hall.
    + (* an empty slot *)
      erewrite bindJ_run; [| reflexivity].
      destruct (IH (S i) jw0 Hsound Hproc ltac:(cbn; lia))
        as (jw' & E' & Hc & Hw & Ht & Hs & Hsound' & Hproc' & Hlen' & Hent & Hheap & Hq').
      exists jw'. split; [exact E' |].
      assert (Epids : pids = omap (waited_pid g) (take n (drop (S i) (current_jobs g)))).
      { unfold pids, g. by rewrite (drop_S _ _ _ Hi). }
      rewrite Epids. done.
    + apply lookup_ge_None in Hi. lia.
Qed.

Lemma run_check_current_jobs (jw : JWorld) :
  table_sound (glob (base jw)) → jobs_have_processes (glob (base jw)) →
  let g := glob (base jw) in
  ∃ jw', check_current_jobs jw = (Ret (), jw') ∧
    calls (kernel jw') =
      calls (kernel jw) ++ polls (polled_pids g) (wait_results (kernel jw)) ∧
    wait_results (kernel jw') = drop (length (polled_pids g)) (wait_results (kernel jw)) ∧
    tty_pgrp (kernel jw') = tty_pgrp (kernel jw) ∧
    shell_pgid jw' = shell_pgid jw ∧
    table_sound (glob (base jw')) ∧ jobs_have_processes (glob (base jw')) ∧
    length (current_jobs (glob (base jw'))) = length (current_jobs g) ∧
    (∀ k, current_jobs (glob (base jw')) !! k = current_jobs g !! k ∨
          current_jobs (glob (base jw')) !! k = Some None) ∧
    (∀ q j', heap (glob (base jw')) !! q = Some j' →
             ∃ j st, heap g !! q = Some j ∧ j' = setStatus st j) ∧
    (Forall (λ r, r = None) (take (length (polled_pids g)) (wait_results (kernel jw))) →
     base jw' = base jw).
Proof.
  intros Hsound Hproc g. unfold check_current_jobs.
  erewrite bindJ_run; [| apply lift_run; reflexivity].
  pose proof (run_check_current_jobs_loop (length (current_jobs g)) 0
                (with_base (λ _, base jw) jw) Hsound Hproc (Nat.le_refl _)) as H.
  cbn [base with_base kernel shell_pgid] in H. fold g in H.
  rewrite drop_0, firstn_all in H. exact H.
Qed.

(** [check_current_jobs] on a sound table whose jobs all have a process
    asks [waitpid] once about every job, in table order, about the pid of
    the last process of the job; it makes no other call and leaves the
    terminal alone. *)
Theorem poll_asks_once_about_every_job (jw : JWorld) :
  table_sound (glob (base jw)) → jobs_have_processes (glob (base jw)) →
  ∃ jw', check_current_jobs jw = (Ret (), jw') ∧
    calls (kernel jw') =
      calls (kernel jw) ++ polls (polled_pids (glob (base jw))) (wait_results (kernel jw)) ∧
    wait_results (kernel jw') =
      drop (length (polled_pids (glob (base jw)))) (wait_results (kernel jw)) ∧
    tty_pgrp (kernel jw') = tty_pgrp (kernel jw) ∧
    shell_pgid jw' = shell_pgid jw.
Proof.
  intros Hsound Hproc.
  destruct (run_check_current_jobs jw Hsound Hproc) as (jw' & E & Hc & Hw & Ht & Hs & _).
  by exists jw'.
Qed.

Lemma jobs_shell_have_processes results :
  jobs_have_processes (glob (base (jobs_shell results))).
Proof.
  intros p j. cbn. rewrite !elem_of_cons, elem_of_nil.
  intros [[= ->]|[?|[[= ->]|[]]]]; try done; vm_compute; by intros [= <-].
Qed.

Lemma poll_asks_once_about_every_job_witness :
  let jw := jobs_shell [Some WStopped; Some (WSignaled 9)] in
  table_sound (glob (base jw)) ∧ jobs_have_processes (glob (base jw)) ∧
  ∃ jw', check_current_jobs jw = (Ret (), jw') ∧
         calls (kernel jw') = [CWaitpid 101 (Some WStopped); CWaitpid 200 (Some (WSignaled 9))] ∧
         wait_results (kernel jw') = [].
Proof.
  intros jw. split; [apply jobs_shell_sound |]. split; [apply jobs_shell_have_processes |].
  destruct (poll_asks_once_about_every_job jw (jobs_shell_sound _) (jobs_shell_have_processes _))
    as (jw' & E & Hc & Hw & _).
  exists jw'. split; [exact E |]. split; [exact Hc | exact Hw].
Defined.

(** The poll keeps the table sound and of the same length: a slot keeps its
    job or becomes empty; an object of the heap is freed or keeps
    everything but its status; and when [waitpid] has nothing to report the
    shell is left as it was. *)
Theorem poll_only_empties_slots (jw : JWorld) :
  table_sound (glob (base jw)) → jobs_have_processes (glob (base jw)) →
  let g := glob (base jw) in
  let g' := glob (base (check_current_jobs jw).2) in
  table_sound g' ∧ jobs_have_processes g' ∧
  length (current_jobs g') = length (current_jobs g) ∧
  (∀ k, current_jobs g' !! k = current_jobs g !! k ∨ current_jobs g' !! k = Some None) ∧
  (∀ q j', heap g' !! q = Some j' → ∃ j st, heap g !! q = Some j ∧ j' = setStatus st j) ∧
  (Forall (λ r, r = None) (wait_results (kernel jw)) →
   base (check_current_jobs jw).2 = base jw).
Proof.
  intros Hsound Hproc g g'.
  destruct (run_check_current_jobs jw Hsound Hproc)
    as (jw' & E & _ & _ & _ & _ & H1 & H2 & H3 & H4 & H5 & H6).
  unfold g'. rewrite E. split_and!; try done.
  intros Hall. apply H6. by apply Forall_take.
Qed.

Lemma poll_only_empties_slots_witness :
  let jw := jobs_shell [Some WStopped; Some (WSignaled 9)] in
  table_sound (glob (base jw)) ∧ jobs_have_processes (glob (base jw)) ∧
  let g' := glob (base (check_current_jobs jw).2) in
  table_sound g' ∧ length (current_jobs g') = 3%nat.
Proof.
  intros jw. split; [apply jobs_shell_sound |]. split; [apply jobs_shell_have_processes |].
  destruct (poll_only_empties_slots jw (jobs_shell_sound _) (jobs_shell_have_processes _))
    as (H1 & _ & H3 & _).
  split; [exact H1 | exact H3].
Defined.

(** ** The built-ins [fg] and [bg] *)

Lemma with_base_id (jw : JWorld) : with_base (λ _, base jw) jw = jw.
Proof. by destruct jw. Qed.

Lemma lift_gets {A} (f : World → A) jw : lift (gets f) jw = (Ret (f (base jw)), jw).
Proof. unfold lift, gets. by rewrite with_base_id. Qed.

Lemma lift_deref p j jw :
  heap (glob (base jw)) !! p = Some j → lift (deref p) jw = (Ret j, jw).
Proof. intros Hj. unfold lift. rewrite (run_deref p j _ Hj). by rewrite with_base_id. Qed.

Lemma resume_loop_S put jid i n :
  resume_loop put jid i (S n) =
    (jobs ← lift (gets (λ w, current_jobs (glob w)));
     match jobs !! i with
     | Some (Some q) =>
         e ← lift (deref q);
         if JID e =? jid then put (Some q) true;; mret 0
         else resume_loop put jid (S i) n
     | _ => resume_loop put jid (S i) n
     end).
Proof. reflexivity. Qed.

(** The loop stops at the job with the id asked for. *)
Lemma resume_loop_found put (p : nat) (j : Input) (k : nat) (jw : JWorld) :
  table_sound (glob (base jw)) →
  current_jobs (glob (base jw)) !! k = Some (Some p) →
  heap (glob (base jw)) !! p = Some j →
  ∀ n i, (i ≤ k)%nat → (i + n)%nat = length (current_jobs (glob (base jw))) →
  resume_loop put (JID j) i n jw = (put (Some p) true;; mret 0) jw.
Proof.
  intros [[Hnd Hlive] Hid] Hk Hj.
  pose proof (lookup_lt_Some _ _ _ Hk) as Hlt.
  assert (Hp : Some p ∈ current_jobs (glob (base jw))) by (by eapply list_elem_of_lookup_2).
  induction n as [|n IH]; intros i Hi Hlen; [lia |].
  rewrite resume_loop_S. rewrite (bindJ_run _ _ _ _ _ (lift_gets _ jw)).
  destruct (current_jobs (glob (base jw)) !! i) as [[q|]|] eqn:Ei.
  - assert (Hq : Some q ∈ current_jobs (glob (base jw))) by (by eapply list_elem_of_lookup_2).
    destruct (Hlive q Hq) as [e He].
    rewrite (bindJ_run _ _ _ _ _ (lift_deref q e jw He)).
    destruct (JID e =? JID j) eqn:Eid.
    + apply Z.eqb_eq in Eid. by rewrite (Hid q p e j Hq Hp He Hj Eid).
    + apply IH; [| lia]. destruct (decide (i = k)) as [->|]; [| lia].
      rewrite Hk in Ei. injection Ei as <-. rewrite Hj in He. injection He as <-.
      rewrite Z.eqb_refl in Eid. done.
  - apply IH; [| lia]. destruct (decide (i = k)) as [->|]; [| lia]. congruence.
  - apply lookup_ge_None in Ei. lia.
Qed.

(** The loop finds nothing when no job has the id asked for. *)
Lemma resume_loop_absent put (jid : Z) (jw : JWorld) :
  jobs_live (glob (base jw)) →
  (∀ q e, Some q ∈ current_jobs (glob (base jw)) → heap (glob (base jw)) !! q = Some e →
          JID e ≠ jid) →
  ∀ n i, resume_loop put jid i n jw = (Ret (-1), jw).
Proof.
  intros [_ Hlive] Hno. induction n as [|n IH]; intros i; [done |].
  rewrite resume_loop_S. rewrite (bindJ_run _ _ _ _ _ (lift_gets _ jw)).
  destruct (current_jobs (glob (base jw)) !! i) as [[q|]|] eqn:Ei; try apply IH.
  assert (Hq : Some q ∈ current_jobs (glob (base jw))) by (by eapply list_elem_of_lookup_2).
  destruct (Hlive q Hq) as [e He].
  rewrite (bindJ_run _ _ _ _ _ (lift_deref q e jw He)).
  destruct (JID e =? jid) eqn:Eid; [| apply IH].
  apply Z.eqb_eq in Eid. by destruct (Hno q e Hq He).
Qed.

(** [fg N], where [N] is the id of a job of a sound table and the calls
    succeed, returns 0 after [put_job_in_foreground] has run on that job
    with [cont] set: the terminal goes to the job, its group gets
    [SIGCONT], the shell waits for its last process and takes the terminal
    back. *)
Theorem fg_resumes_the_job_with_that_id (p : nat) (j : Input) (proc : Process)
    (c a : str) (jw : JWorld) :
  table_sound (glob (base jw)) → Some p ∈ current_jobs (glob (base jw)) →
  heap (glob (base jw)) !! p = Some j → last (processes j) = Some proc →
  isNumber_loop a = true → stoi a = stoi_value (JID j) →
  tcsetpgrp_fails (kernel jw) (JID j) = false →
  tcsetpgrp_fails (kernel jw) (shell_pgid jw) = false →
  kill_fails (kernel jw) (- JID j) SIGCONT = false →
  let r := default None (head (wait_results (kernel jw))) in
  ∃ jw', fg_builtin [c; a] jw = (Ret 0, jw') ∧
         reaped p j r (strsignal (kernel jw)) (base jw) (base jw') ∧
         table_sound (glob (base jw')) ∧
         tty_pgrp (kernel jw') = shell_pgid jw ∧
         calls (kernel jw') =
           calls (kernel jw) ++
           [CTcsetpgrp shell_terminal (JID j) 0; CKill (- JID j) SIGCONT 0;
            CWaitpid (PID proc) r; CTcsetpgrp shell_terminal (shell_pgid jw) 0].
Proof.
  intros Hsound Hp Hj Hlast Hnum Hstoi Ht1 Ht2 Hkill r.
  destruct (run_put_job_in_foreground p j proc true jw Hsound Hp Hj Hlast Ht1 Ht2 (λ _, Hkill))
    as (jw' & E & Hr & Hs' & Htty & _ & _ & Hcalls).
  exists jw'. split; [| done].
  unfold fg_builtin. rewrite Hnum, Hstoi.
  rewrite (bindJ_run _ _ _ _ _ (lift_gets _ jw)).
  apply list_elem_of_lookup_1 in Hp as [k Hk].
  rewrite (resume_loop_found _ p j k jw Hsound Hk Hj) by lia.
  by rewrite (bindJ_run _ _ _ _ _ E).
Qed.

Lemma fg_resumes_the_job_with_that_id_witness :
  let jw := jobs_shell [Some WStopped] in
  table_sound (glob (base jw)) ∧ Some 2%nat ∈ current_jobs (glob (base jw)) ∧
  isNumber_loop (lit "200") = true ∧ stoi (lit "200") = stoi_value 200 ∧
  ∃ jw', fg_builtin [lit "fg"; lit "200"] jw = (Ret 0, jw') ∧
         calls (kernel jw') =
           [CTcsetpgrp 0 200 0; CKill (-200) 18 0; CWaitpid 200 (Some WStopped);
            CTcsetpgrp 0 1 0] ∧
         status <$> heap (glob (base jw')) !! 2%nat = Some (lit "Stopped").
Proof.
  intros jw.
  assert (Hin : Some 2%nat ∈ current_jobs (glob (base jw))).
  { cbn. rewrite !elem_of_cons. auto. }
  split; [apply jobs_shell_sound |]. split; [exact Hin |].
  split; [reflexivity |]. split; [reflexivity |].
  destruct (fg_resumes_the_job_with_that_id 2 (launched [200] sort_job)
              {| PID := 200; PGID := 200; stopped := false; completed := false;
                 hasPipe := false; args := [lit "sort"] |} (lit "fg") (lit "200") jw
              (jobs_shell_sound _) Hin eq_refl eq_refl eq_refl eq_refl eq_refl eq_refl eq_refl)
    as (jw' & E & Hr & _ & _ & Hcalls).
  exists jw'. split; [exact E |]. split; [exact Hcalls |].
  destruct Hr as (Hg & _). rewrite Hg. cbn. by rewrite lookup_insert_eq.
Defined.

(** [bg N], where [N] is the id of a job of a sound table, sends [SIGCONT]
    to the group of the job and does nothing else: it returns 0 and neither
    waits, nor touches the terminal, nor changes the status the table
    shows. When that [kill] fails, the shell itself ends, with
    [EXIT_FAILURE] after [perror]. *)
Theorem bg_only_sends_SIGCONT (p : nat) (j : Input) (c a : str) (jw : JWorld) :
  table_sound (glob (base jw)) → Some p ∈ current_jobs (glob (base jw)) →
  heap (glob (base jw)) !! p = Some j →
  isNumber_loop a = true → stoi a = stoi_value (JID j) →
  let sent ret := with_kernel (k_log (CKill (- JID j) SIGCONT ret)) jw in
  bg_builtin [c; a] jw =
    if kill_fails (kernel jw) (- JID j) SIGCONT
    then (Exited EXIT_FAILURE,
          with_base (with_os (os_log (EPerror (lit "kill(SIGCONT)")))) (sent (-1)))
    else (Ret 0, sent 0).
Proof.
  intros Hsound Hp Hj Hnum Hstoi sent.
  unfold bg_builtin. rewrite Hnum, Hstoi.
  rewrite (bindJ_run _ _ _ _ _ (lift_gets _ jw)).
  apply list_elem_of_lookup_1 in Hp as [k Hk].
  rewrite (resume_loop_found _ p j k jw Hsound Hk Hj) by lia.
  unfold put_job_in_background.
  unfold mbind at 1. unfold MJ_bind at 1.
  rewrite (bindJ_run _ _ _ _ _ (lift_deref p j jw Hj)).
  unfold mbind at 1. unfold MJ_bind at 1. unfold sys_kill at 1.
  destruct (kill_fails (kernel jw) (- JID j) SIGCONT); reflexivity.
Qed.

Lemma bg_only_sends_SIGCONT_witness :
  let jw := jobs_shell [] in
  table_sound (glob (base jw)) ∧ Some 2%nat ∈ current_jobs (glob (base jw)) ∧
  bg_builtin [lit "bg"; lit "200"] jw =
    (Ret 0, with_kernel (k_log (CKill (-200) SIGCONT 0)) jw).
Proof.
  intros jw.
  assert (Hin : Some 2%nat ∈ current_jobs (glob (base jw))).
  { cbn. rewrite !elem_of_cons. auto. }
  split; [apply jobs_shell_sound |]. split; [exact Hin |].
  exact (bg_only_sends_SIGCONT 2 (launched [200] sort_job) (lit "bg") (lit "200") jw
           (jobs_shell_sound _) Hin eq_refl eq_refl eq_refl).
Defined.

(** [fg N] and [bg N] with a number [N] that is the id of no job of the
    table return -1 and do nothing at all: no message, no call. *)
Theorem unknown_job_id_is_refused_silently (c a : str) (n : Z) (jw : JWorld) :
  jobs_live (glob (base jw)) →
  isNumber_loop a = true → stoi a = stoi_value n →
  (∀ q e, Some q ∈ current_jobs (glob (base jw)) → heap (glob (base jw)) !! q = Some e →
          JID e ≠ n) →
  fg_builtin [c; a] jw = (Ret (-1), jw) ∧ bg_builtin [c; a] jw = (Ret (-1), jw).
Proof.
  intros Hlive Hnum Hstoi Hno. unfold fg_builtin, bg_builtin. rewrite Hnum, Hstoi.
  rewrite !(bindJ_run _ _ _ _ _ (lift_gets _ jw)).
  by rewrite !resume_loop_absent.
Qed.

Lemma unknown_job_id_is_refused_silently_witness :
  let jw := jobs_shell [] in
  jobs_live (glob (base jw)) ∧
  fg_builtin [lit "fg"; lit "7"] jw = (Ret (-1), jw) ∧
  bg_builtin [lit "bg"; lit "7"] jw = (Ret (-1), jw).
Proof.
  intros jw. split; [apply jobs_shell_sound |].
  apply (unknown_job_id_is_refused_silently (lit "fg") (lit "7") 7 jw).
  - apply jobs_shell_sound.
  - reflexivity.
  - reflexivity.
  - intros q e. cbn. rewrite !elem_of_cons, elem_of_nil.
    intros [[= ->]|[?|[[= ->]|[]]]]; try done; vm_compute; by intros [= <-].
Defined.

(** ** The built-in [export] *)

Lemma first_of_absent (c : ascii) (s : str) : c ∉ s → first_of c s = None.
Proof.
  induction s as [|x s IH]; [done |]. rewrite not_elem_of_cons. intros [Hx Hs]. cbn.
  unfold chr_eqb. rewrite bool_decide_eq_false_2 by done. by rewrite IH.
Qed.

Lemma first_of_app (c : ascii) (s t : str) :
  c ∉ s → first_of c (s ++ c :: t) = Some (length s).
Proof.
  induction s as [|x s IH]; intros Hs; cbn.
  - unfold chr_eqb. by rewrite bool_decide_eq_true_2.
  - apply not_elem_of_cons in Hs as [Hx Hs].
    unfold chr_eqb. rewrite bool_decide_eq_false_2 by done. by rewrite IH.
Qed.

Lemma run_export_setenv (str' name value : str) (jw : JWorld) :
  setenv_fails (kernel jw) name = false →
  export_setenv str' name value jw =
    (Ret 0, with_kernel (λ k, k_log (CSetenv name value 0)
                                (k_set_env (<[name := value]> (env k)) k)) jw).
Proof.
  intros Hok. unfold export_setenv.
  erewrite bindJ_run; [| unfold sys_setenv; by rewrite Hok]. done.
Qed.

(** [export NAME=VALUE], for a non-empty [NAME] without [=], sets [NAME] to
    [VALUE], which is everything after the first [=] and may be empty or
    hold a [=] itself. [export NAME] sets [NAME] to the empty string,
    whatever its value was. Both return 0 when [setenv] succeeds and leave
    the shell's own state alone. *)
Theorem export_sets_the_variable (c name value : str) (jw : JWorld) :
  name ≠ [] → "="%char ∉ name → slen name < npos →
  setenv_fails (kernel jw) name = false →
  let set v := with_kernel (λ k, k_log (CSetenv name v 0)
                                   (k_set_env (<[name := v]> (env k)) k)) jw in
  export_builtin [c; name ++ "="%char :: value] jw = (Ret 0, set value) ∧
  export_builtin [c; name] jw = (Ret 0, set []).
Proof.
  intros Hne Hno Hlen Hok set. unfold export_builtin, str_find. split.
  - rewrite first_of_app by done. cbn [pos_or_npos].
    assert ((Z.of_nat (length name) =? npos) = false) as ->
      by (apply Z.eqb_neq; unfold slen in Hlen; lia).
    assert ((Z.of_nat (length name) =? 0) = false) as ->.
    { apply Z.eqb_neq. destruct name; [done | cbn; lia]. }
    cbn [negb].
    assert (substr_n (name ++ "="%char :: value) 0 (Z.of_nat (length name)) = name) as ->.
    { unfold substr_n. rewrite Nat2Z.id. change (Z.to_nat 0) with 0%nat.
      rewrite drop_0. by rewrite take_app_length. }
    assert ((if Z.of_nat (length name) =? slen (name ++ "="%char :: value) - 1 then []
             else substr_n (name ++ "="%char :: value) (Z.of_nat (length name) + 1)
                    (slen (name ++ "="%char :: value) - 1 - Z.of_nat (length name))) = value)
      as ->.
    { unfold slen. rewrite length_app. cbn [length].
      destruct (Z.eqb_spec (Z.of_nat (length name))
                  (Z.of_nat (length name + S (length value)) - 1)) as [E|E].
      - destruct value; [done | cbn in E; lia].
      - unfold substr_n.
        replace (Z.to_nat (Z.of_nat (length name) + 1)) with (length name + 1)%nat by lia.
        replace (Z.to_nat (Z.of_nat (length name + S (length value)) - 1 - Z.of_nat (length name)))
          with (length value) by lia.
        rewrite <- drop_drop, drop_app_length.
        change (drop 1 ("="%char :: value)) with value. by rewrite firstn_all. }
    by apply run_export_setenv.
  - rewrite first_of_absent by done. cbn [pos_or_npos]. rewrite Z.eqb_refl. cbn [negb].
    by apply run_export_setenv.
Qed.

Lemma export_sets_the_variable_witness :
  let jw := jobs_shell [] in
  ∃ jw', export_builtin [lit "export"; lit "PATH=/bin:/usr/bin"] jw = (Ret 0, jw') ∧
         env (kernel jw') !! lit "PATH" = Some (lit "/bin:/usr/bin") ∧
         base jw' = base jw.
Proof.
  intros jw.
  destruct (export_sets_the_variable (lit "export") (lit "PATH") (lit "/bin:/usr/bin") jw)
    as [E _].
  - done.
  - apply (bool_decide_eq_true_1 _). reflexivity.
  - done.
  - reflexivity.
  - eexists. split; [exact E |]. split; [apply lookup_insert_eq | reflexivity].
Defined.

(** ** The built-in [kill] *)

Lemma run_kill_send (pid sig : Z) (jw : JWorld) :
  kill_send pid sig jw =
    if kill_fails (kernel jw) pid sig
    then (Ret (-1), with_kernel (k_log (CKill pid sig (-1))) jw)
    else (Ret 0, with_kernel (k_log (CKill pid sig 0)) jw).
Proof.
  unfold kill_send, sys_kill, mbind, MJ_bind.
  by destruct (kill_fails (kernel jw) pid sig).
Qed.

Lemma run_message (text : str) (jw : JWorld) :
  (lift (cout text);; mret (-1)) jw =
    (Ret (-1), with_base (with_os (os_log (EWrite (fdt (os (base jw)) !! STDOUT_FILENO) text))) jw).
Proof. reflexivity. Qed.

(** Whatever its arguments, [kill_builtin] returns, and does one of three
    things: it sends one signal that arrives and returns 0; it sends one
    signal, the [kill] fails, and it returns -1 without a message; or it
    sends nothing, prints one message and returns -1. The pid is the number
    of the last argument; the signal is [SIGTERM] when there is no other
    argument, and with [-s] the number given, which is not checked, or the
    number of the name given. The jobs and the table of the shell are not
    touched. *)
Theorem kill_builtin_outcomes (args : list str) (jw : JWorld) :
  ∃ r jw', kill_builtin args jw = (Ret r, jw') ∧ kill_outcome args jw r jw'.
Proof.
  assert (Hsend : ∀ back pid sig,
    last args = Some back → stoi_signed back = stoi_value pid →
    (length args = 2%nat → sig = SIGTERM) →
    (length args = 4%nat → ∃ a0 a2, args = [a0; lit "-s"; a2; back] ∧
       if isNumber_loop a2 then stoi a2 = stoi_value sig else signal_map !! a2 = Some sig) →
    ∃ r jw', kill_send pid sig jw = (Ret r, jw') ∧ kill_outcome args jw r jw').
  { intros back pid sig Hb Hs Hsig Hfour. rewrite run_kill_send.
    destruct (kill_fails (kernel jw) pid sig) eqn:Ek.
    - exists (-1), (with_kernel (k_log (CKill pid sig (-1))) jw). split; [done |].
      left. exists back, pid, sig. by rewrite Ek.
    - exists 0, (with_kernel (k_log (CKill pid sig 0)) jw). split; [done |].
      left. exists back, pid, sig. by rewrite Ek. }
  assert (Hmsg : ∀ text,
    ∃ r jw', (lift (cout text);; mret (-1)) jw = (Ret r, jw') ∧ kill_outcome args jw r jw').
  { intros text. eexists _, _. split; [apply run_message |]. right. by eexists. }
  destruct args as [|a0 [|a1 [|a2 [|a3 [|a4 rest]]]]]; try apply Hmsg.
  - (* kill PID *)
    unfold kill_builtin. destruct (isNumber_signed a1); [| apply Hmsg].
    destruct (stoi_signed a1) as [pid| |] eqn:Es; try apply Hmsg.
    change (signal_map !! lit "SIGTERM") with (Some SIGTERM).
    apply (Hsend a1); [done | done | done | cbn; lia].
  - (* kill -s SIGNAL PID *)
    unfold kill_builtin. destruct (isNumber_signed a3); [| apply Hmsg].
    destruct (stoi_signed a3) as [pid| |] eqn:Es; try apply Hmsg.
    destruct (a1 ==s lit "-s") eqn:E1; [| apply Hmsg].
    apply bool_decide_eq_true_1 in E1 as ->.
    destruct (isNumber_loop a2) eqn:En.
    + destruct (stoi a2) as [signo| |] eqn:E2; try apply Hmsg.
      apply (Hsend a3); [done | done | cbn; lia |].
      intros _. exists a0, a2. by rewrite En.
    + destruct (signal_map !! a2) as [signo|] eqn:E2; [| apply Hmsg].
      apply (Hsend a3); [done | done | cbn; lia |].
      intros _. exists a0, a2. by rewrite En.
Qed.

(** ** A foreground command, from the launch to the wait *)

Lemma table_sound_push (g g' : Globals) (p : nat) (jn : Input) :
  table_sound g → heap g !! p = None →
  (∀ q e, Some q ∈ current_jobs g → heap g !! q = Some e → JID e ≠ JID jn) →
  current_jobs g' = current_jobs g ++ [Some p] → heap g' = <[p := jn]> (heap g) →
  table_sound g'.
Proof.
  intros [[Hnd Hlive] Hid] Hp Hnew Hjobs Hheap.
  assert (Hnot : Some p ∉ current_jobs g).
  { intros Hin. destruct (Hlive p Hin) as [? ?]. congruence. }
  assert (Hin : ∀ q, Some q ∈ current_jobs g' → q = p ∨ (q ≠ p ∧ Some q ∈ current_jobs g)).
  { intros q. rewrite Hjobs, elem_of_app, list_elem_of_singleton.
    intros [Hq | [= ->]]; [| by left]. right. split; [| done]. by intros ->. }
  split; [split |].
  - rewrite Hjobs, omap_app. cbn. apply NoDup_app. split_and!; [done | | apply NoDup_singleton].
    intros x Hx. rewrite list_elem_of_singleton. intros ->. by apply Hnot, elem_of_omap_id.
  - intros q Hq. rewrite Hheap. destruct (Hin q Hq) as [-> | [Hne Hq']].
    + rewrite lookup_insert_eq. eauto.
    + rewrite lookup_insert_ne by done. by apply Hlive.
  - intros a b ja jb Ha Hb. rewrite Hheap.
    destruct (Hin a Ha) as [-> | [Hna Ha']], (Hin b Hb) as [-> | [Hnb Hb']]; try done.
    + rewrite lookup_insert_eq, lookup_insert_ne by done. intros [= <-] Hjb E.
      by destruct (Hnew b jb Hb' Hjb).
    + rewrite lookup_insert_eq, lookup_insert_ne by done. intros Hja [= <-] E.
      by destruct (Hnew a ja Ha' Hja).
    + rewrite !lookup_insert_ne by done. by apply Hid.
Qed.

Lemma last_zip_with {A B C} (f : A → B → C) (l : list A) (k : list B) :
  length l = length k →
  last (zip_with f l k) = (a ← last l; b ← last k; Some (f a b)).
Proof.
  revert k. induction l as [|a l IH]; intros [|b k] Hlen; try done.
  destruct l as [|a' l], k as [|b' k]; try done.
  specialize (IH (b' :: k)). cbn in IH, Hlen |- *. rewrite IH by lia. done.
Qed.

Lemma last_launched (pids : list Z) (j : Input) :
  length pids = length (processes j) → pids ≠ [] →
  ∃ proc, last (processes (launched pids j)) = Some proc ∧ PID proc = default 0 (last pids).
Proof.
  intros Hlen Hne. cbn [launched processes]. rewrite last_zip_with by done.
  destruct (last pids) as [pid|] eqn:Ep; [| by apply last_None in Ep].
  destruct (last (processes j)) as [q|] eqn:Eq.
  - eexists. split; [reflexivity |]. done.
  - apply last_None in Eq. rewrite Eq in Hlen. by destruct pids.
Qed.

(** A foreground command that is launched (all calls succeeding) is waited
    for at once: the shell passes the terminal to the group of the first
    child, waits for the last child, and takes the terminal back; what the
    [waitpid] reports is dealt with as [reaped] says. When the command has
    exited, its status is [last_exit_status], the job object is freed, the
    shell's descriptors are as before the line, and the job table has
    grown by one empty slot. *)
Theorem foreground_command_is_waited_for (ext : Externals) (line : str) (j : Input)
    (jw : JWorld) (fin fout ferr : Z) (pids rest : list Z) :
  launches line j (base jw) fin fout ferr pids rest →
  foreground j = true →
  table_sound (glob (base jw)) →
  heap (glob (base jw)) !! next_ptr (glob (base jw)) = None →
  (∀ q e, Some q ∈ current_jobs (glob (base jw)) → heap (glob (base jw)) !! q = Some e →
          JID e ≠ default 0 (head pids)) →
  tcsetpgrp_fails (kernel jw) (default 0 (head pids)) = false →
  tcsetpgrp_fails (kernel jw) (shell_pgid jw) = false →
  let p := next_ptr (glob (base jw)) in
  let r := default None (head (wait_results (kernel jw))) in
  ∃ jw', launch_and_put ext line jw = (Ret (), jw') ∧
    reaped p (launched pids j) r (strsignal (kernel jw))
      (launch ext line (base jw)).2 (base jw') ∧
    tty_pgrp (kernel jw') = shell_pgid jw ∧
    calls (kernel jw') =
      calls (kernel jw) ++
      [CTcsetpgrp shell_terminal (default 0 (head pids)) 0;
       CWaitpid (default 0 (last pids)) r;
       CTcsetpgrp shell_terminal (shell_pgid jw) 0] ∧
    (∀ code, r = Some (WExited code) →
       current_jobs (glob (base jw')) = current_jobs (glob (base jw)) ++ [None] ∧
       heap (glob (base jw')) = heap (glob (base jw)) ∧
       last_exit_status (glob (base jw')) = code ∧
       fdt (os (base jw')) = fdt (os (base jw))).
Proof.
  intros (Hjob & Hret & H0 & H1 & H2 & Hfk & Hlen & Hne & Hpos & Hpipes & Hext)
    Hfg Hsound Hfresh Hnew Ht1 Ht2 p r.
  destruct (launch_run ext line j (base jw) fin fout ferr pids rest)
    as (w1 & pipes & E & Hfd & _ & _ & _ & Hcj & _ & Hheap & _); try done.
  rewrite E. cbn [snd].
  assert (Hjid : JID (launched pids j) = default 0 (head pids)).
  { destruct pids; done. }
  destruct (last_launched pids j Hlen Hne) as (proc & Hlast & Hpid).
  set (jw1 := with_base (λ _, w1) jw).
  assert (Hsound1 : table_sound (glob (base jw1))).
  { apply (table_sound_push (glob (base jw)) _ p (launched pids j)); try done.
    by rewrite Hjid. }
  assert (Hp1 : Some p ∈ current_jobs (glob (base jw1))).
  { cbn. rewrite Hcj, elem_of_app, list_elem_of_singleton. by right. }
  assert (Hj1 : heap (glob (base jw1)) !! p = Some (launched pids j)).
  { cbn. rewrite Hheap. apply lookup_insert_eq. }
  destruct (run_put_job_in_foreground p (launched pids j) proc false jw1 Hsound1 Hp1 Hj1 Hlast)
    as (jw' & E' & Hr & _ & Htty & _ & _ & Hcalls); try (by rewrite ?Hjid).
  exists jw'. split; [| split; [exact Hr | split; [exact Htty | split]]].
  - unfold launch_and_put. erewrite bindJ_run; [| apply lift_run; exact E].
    cbn [put_job]. rewrite Hfg. exact E'.
  - rewrite Hcalls, Hjid, Hpid. done.
  - intros code Hcode. cbn [kernel jw1 with_base base] in Hr. fold r in Hr. rewrite Hcode in Hr.
    destruct Hr as (i & Hi & Hjobs & Hheap' & Hst & _ & _ & Hos).
    assert (i = length (current_jobs (glob (base jw)))) as ->.
    { apply (table_index_unique (glob w1) _ _ p); [by destruct Hsound1 | done |].
      rewrite Hcj. by rewrite lookup_app_r, Nat.sub_diag by lia. }
    split_and!.
    + rewrite Hjobs, Hcj. rewrite insert_app_r_alt by lia. by rewrite Nat.sub_diag.
    + rewrite Hheap', Hheap. by apply delete_insert_id.
    + done.
    + rewrite Hos. cbn. done.
Qed.

Lemma foreground_command_is_waited_for_witness :
  let jw := shell_with_in [Some (WExited 0)] in
  launches (lit "cat < in | sort | uniq > out") pipeline_job (base jw) 3 4 2
    [100; 101; 102] [] ∧
  ∃ jw', launch_and_put inert_externals (lit "cat < in | sort | uniq > out") jw = (Ret (), jw') ∧
         calls (kernel jw') =
           [CTcsetpgrp 0 100 0; CWaitpid 102 (Some (WExited 0)); CTcsetpgrp 0 1 0] ∧
         current_jobs (glob (base jw')) = [None] ∧
         heap (glob (base jw')) = ∅ ∧
         last_exit_status (glob (base jw')) = 0.
Proof.
  intros jw.
  assert (H : launches (lit "cat < in | sort | uniq > out") pipeline_job (base jw) 3 4 2
                [100; 101; 102] []) by launches_by_evaluation.
  split; [exact H |].
  destruct (foreground_command_is_waited_for inert_externals _ _ jw _ _ _ _ _ H)
    as (jw' & E & _ & _ & Hcalls & Hexit).
  - reflexivity.
  - split; [split |].
    + cbn. apply NoDup_nil_2.
    + intros q. cbn. by rewrite elem_of_nil.
    + intros a b ja jb. cbn. by rewrite elem_of_nil.
  - reflexivity.
  - intros q e. cbn. by rewrite elem_of_nil.
  - reflexivity.
  - reflexivity.
  - exists jw'. split; [exact E |]. split; [exact Hcalls |].
    destruct (Hexit 0 eq_refl) as (Hj & Hh & Hs & _).
    split; [exact Hj |]. split; [exact Hh | exact Hs].
Defined.

(** ** A background command, from the launch to the poll that reaps it *)

Lemma bindJ_assoc {A B C} (m : MJ A) (f : A → MJ B) (g : B → MJ C) jw :
  ((m ≫= f) ≫= g) jw = (m ≫= λ a, f a ≫= g) jw.
Proof. unfold mbind, MJ_bind. by destruct (m jw) as [[a| |] jw1]. Qed.

Lemma bindJ_ext {A B} (m : MJ A) (f g : A → MJ B) jw :
  (∀ a jw', f a jw' = g a jw') → (m ≫= f) jw = (m ≫= g) jw.
Proof. intros H. unfold mbind, MJ_bind. destruct (m jw) as [[a| |] jw1]; [apply H | done | done]. Qed.

Lemma check_current_jobs_loop_app (n k : nat) : ∀ (i : nat) (jw : JWorld),
  check_current_jobs_loop i (n + k) jw =
    (check_current_jobs_loop i n;; check_current_jobs_loop (i + n) k) jw.
Proof.
  induction n as [|n IH]; intros i jw.
  - cbn [Nat.add]. rewrite Nat.add_0_r. reflexivity.
  - cbn [Nat.add]. rewrite !check_current_jobs_loop_S.
    rewrite bindJ_assoc. apply bindJ_ext. intros jobs jw0.
    rewrite bindJ_assoc. apply bindJ_ext. intros [] jw1.
    rewrite IH. by rewrite Nat.add_succ_r.
Qed.

Lemma polls_app (a b : list Z) results :
  polls (a ++ b) results = polls a results ++ polls b (drop (length a) results).
Proof.
  revert results. induction a as [|x a IH]; intros results; [done |].
  assert (Hd : drop (length (x :: a)) results = drop (length a) (tail results)).
  { destruct results; cbn [tail length]; [by rewrite !drop_nil | done]. }
  rewrite Hd. cbn [app polls]. by rewrite IH.
Qed.

Lemma polls_quiet (a : list Z) later :
  Forall (λ r : option WaitStatus, r = None) (take (length a) (replicate (length a) None ++ later)).
Proof.
  rewrite take_app_length'; [| by rewrite length_replicate].
  apply Forall_forall. by intros x ->%elem_of_replicate_inv.
Qed.

Lemma processes_launched (pids : list Z) (j : Input) :
  length pids = length (processes j) → pids ≠ [] → processes (launched pids j) ≠ [].
Proof.
  intros Hlen Hne. cbn. destruct pids as [|pid pids]; [done |].
  destruct (processes j); [done |]. done.
Qed.

(** A background command that is launched (all calls succeeding) is not
    waited for: the shell makes no call of job control and returns to the
    prompt with the job in its table. The next poll that finds the command
    exited, and nothing new about the other jobs, has called [waitpid]
    once for every job in table order, the new job last; it reports the
    job, stores its status in [last_exit_status], frees the object and
    empties the slot, so that the table has grown by one empty slot. *)
Theorem background_command_is_reaped_by_the_poll (ext : Externals) (line : str)
    (j : Input) (jw : JWorld) (fin fout ferr : Z) (pids rest : list Z) (code : Z)
    (later : list (option WaitStatus)) :
  launches line j (base jw) fin fout ferr pids rest →
  foreground j = false →
  table_sound (glob (base jw)) → jobs_have_processes (glob (base jw)) →
  heap (glob (base jw)) !! next_ptr (glob (base jw)) = None →
  (∀ q e, Some q ∈ current_jobs (glob (base jw)) → heap (glob (base jw)) !! q = Some e →
          JID e ≠ default 0 (head pids)) →
  wait_results (kernel jw) =
    replicate (length (polled_pids (glob (base jw)))) None ++ Some (WExited code) :: later →
  let launched_world := (launch ext line (base jw)).2 in
  let jw1 := with_base (λ _, launched_world) jw in
  launch_and_put ext line jw = (Ret (), jw1) ∧
  ∃ jw2,
    check_current_jobs jw1 = (Ret (), jw2) ∧
    calls (kernel jw2) =
      calls (kernel jw) ++
      polls (polled_pids (glob (base jw)) ++ [default 0 (last pids)]) (wait_results (kernel jw)) ∧
    wait_results (kernel jw2) = later ∧
    current_jobs (glob (base jw2)) = current_jobs (glob (base jw)) ++ [None] ∧
    heap (glob (base jw2)) = heap (glob (base jw)) ∧
    last_exit_status (glob (base jw2)) = code ∧
    os (base jw2) =
      os_log (EWrite (fdt (os launched_world) !! STDOUT_FILENO)
                (exited_line (launched pids j) (dec code)))
        (os launched_world).
Proof.
  intros (Hjob & Hret & H0 & H1 & H2 & Hfk & Hlen & Hne & Hpos & Hpipes & Hext)
    Hbg Hsound Hproc Hfresh Hnew Hres launched_world jw1.
  set (p := next_ptr (glob (base jw))) in *.
  destruct (launch_run ext line j (base jw) fin fout ferr pids rest)
    as (w1 & pipes & E & Hfd & _ & _ & _ & Hcj & _ & Hheap & _); try done.
  fold p in Hcj, Hheap, E.
  assert (launched_world = w1) as Hw1 by (unfold launched_world; by rewrite E).
  clearbody launched_world. subst launched_world. split.
  { unfold launch_and_put. erewrite bindJ_run; [| apply lift_run; exact E].
    cbn [put_job]. by rewrite Hbg. }
  assert (Hjid : JID (launched pids j) = default 0 (head pids)) by (by destruct pids).
  destruct (last_launched pids j Hlen Hne) as (proc & Hlast & Hpid).
  assert (Hnot : ∀ q, Some q ∈ current_jobs (glob (base jw)) → q ≠ p).
  { intros q Hq ->. destruct Hsound as [[_ Hlive] _]. destruct (Hlive p Hq). congruence. }
  assert (Hsound1 : table_sound (glob (base jw1))).
  { apply (table_sound_push (glob (base jw)) _ p (launched pids j)); try done.
    by rewrite Hjid. }
  assert (Hproc1 : jobs_have_processes (glob (base jw1))).
  { intros q e. cbn. rewrite Hcj, Hheap, elem_of_app, list_elem_of_singleton.
    intros [Hq | [= ->]].
    - rewrite lookup_insert_ne by (intros ->; by apply (Hnot _ Hq)). by apply Hproc.
    - rewrite lookup_insert_eq. intros [= <-]. by apply processes_launched. }
  assert (Hp1 : current_jobs (glob (base jw1)) !! length (current_jobs (glob (base jw))) =
                Some (Some p)).
  { cbn. rewrite Hcj. by rewrite lookup_app_r, Nat.sub_diag by lia. }
  assert (Hj1 : heap (glob (base jw1)) !! p = Some (launched pids j)).
  { cbn. rewrite Hheap. apply lookup_insert_eq. }
  set (m := length (current_jobs (glob (base jw)))) in *.
  (* the first [m] iterations find nothing *)
  destruct (run_check_current_jobs_loop m 0 jw1 Hsound1 Hproc1)
    as (jwm & Em & Hcm & Hwm & _ & _ & _ & _ & _ & _ & _ & Hqm).
  { cbn. rewrite Hcj, length_app. cbn. lia. }
  assert (Hpids : omap (waited_pid (glob (base jw1)))
                    (take m (drop 0 (current_jobs (glob (base jw1))))) =
                  polled_pids (glob (base jw))).
  { cbn [base jw1 with_base]. rewrite drop_0, Hcj. unfold m. rewrite take_app_length.
    unfold polled_pids.
    apply omap_ext_in. intros [q|] Hq; [| done]. unfold waited_pid. cbn.
    rewrite Hheap, lookup_insert_ne; [done |]. intros <-. by apply (Hnot _ Hq). }
  rewrite Hpids in Hcm, Hwm, Hqm. cbn [kernel jw1 with_base] in Hcm, Hwm, Hqm.
  rewrite Hres in Hwm, Hqm. specialize (Hqm (polls_quiet _ _)).
  rewrite drop_app_length' in Hwm by (by rewrite length_replicate).
  (* the last one finds the job exited *)
  assert (Hsoundm : table_sound (glob (base jwm))) by (by rewrite Hqm).
  assert (Hpm : Some p ∈ current_jobs (glob (base jwm))).
  { rewrite Hqm. by eapply list_elem_of_lookup_2. }
  assert (Hjm : heap (glob (base jwm)) !! p = Some (launched pids j)) by (by rewrite Hqm).
  destruct (run_check_job p (launched pids j) proc jwm Hsoundm Hpm Hjm Hlast)
    as (jw2 & E2 & Hr2 & Hk2 & _ & _).
  rewrite Hwm in Hr2, Hk2. cbn [head default tail] in Hr2, Hk2. cbn [reaped] in Hr2.
  exists jw2. split.
  { unfold check_current_jobs. erewrite bindJ_run; [| apply lift_run; reflexivity].
    cbn [base jw1 with_base]. rewrite Hcj, length_app. cbn [length]. fold m.
    rewrite check_current_jobs_loop_app.
    erewrite bindJ_run; [| exact Em].
    cbn [Nat.add]. rewrite check_current_jobs_loop_S.
    rewrite (bindJ_run _ _ _ _ _ (lift_gets _ jwm)). rewrite Hqm, Hp1.
    by rewrite (bindJ_run _ _ _ _ _ E2). }
  destruct Hr2 as (i & Hi & Hjobs & Hheap2 & Hst & _ & _ & Hos).
  rewrite Hqm in Hi, Hjobs, Hheap2, Hos.
  assert (i = m) as ->.
  { apply (table_index_unique (glob (base jw1)) _ _ p); [by destruct Hsound1 | done | done]. }
  split_and!.
  - rewrite Hk2. cbn. rewrite Hcm, polls_app, Hres.
    rewrite drop_app_length' by (by rewrite length_replicate).
    cbn. rewrite Hpid. by rewrite <- app_assoc.
  - by rewrite Hk2.
  - rewrite Hjobs. cbn. rewrite Hcj. rewrite insert_app_r_alt by (unfold m; lia).
    unfold m. by rewrite Nat.sub_diag.
  - rewrite Hheap2. cbn. rewrite Hheap. by apply delete_insert_id.
  - done.
  - done.
Qed.

Lemma background_command_is_reaped_by_the_poll_witness :
  let jw := shell_with_in [Some (WExited 7)] in
  let jw1 := with_base (λ _, (launch inert_externals (lit "cat in &") (base jw)).2) jw in
  launches (lit "cat in &") cat_in_background (base jw) 0 1 2 [100] [101; 102] ∧
  launch_and_put inert_externals (lit "cat in &") jw = (Ret (), jw1) ∧
  ∃ jw2, check_current_jobs jw1 = (Ret (), jw2) ∧
         calls (kernel jw2) = [CWaitpid 100 (Some (WExited 7))] ∧
         current_jobs (glob (base jw2)) = [None] ∧
         last_exit_status (glob (base jw2)) = 7.
Proof.
  intros jw jw1.
  assert (H : launches (lit "cat in &") cat_in_background (base jw) 0 1 2 [100] [101; 102]).
  { unfold launches. split_and!;
      [ vm_compute; reflexivity | vm_compute; reflexivity
      | vm_compute; eauto | vm_compute; eauto | vm_compute; eauto
      | reflexivity | reflexivity | discriminate
      | repeat constructor | reflexivity
      | intros _ c r E; vm_compute in E; injection E as <- <-; reflexivity ]. }
  split; [exact H |].
  destruct (background_command_is_reaped_by_the_poll inert_externals _ _ jw _ _ _ _ _ 7 [] H)
    as (E1 & jw2 & E2 & Hcalls & _ & Hjobs & _ & Hst & _).
  - reflexivity.
  - split; [split |].
    + cbn. apply NoDup_nil_2.
    + intros q. cbn. by rewrite elem_of_nil.
    + intros a b ja jb. cbn. by rewrite elem_of_nil.
  - intros q e. cbn. by rewrite elem_of_nil.
  - reflexivity.
  - intros q e. cbn. by rewrite elem_of_nil.
  - reflexivity.
  - split; [exact E1 |]. exists jw2. split; [exact E2 |].
    split; [exact Hcalls |]. split; [exact Hjobs | exact Hst].
Defined.
